(** * Response normalisation and safe rendering (src/App.tsx)

    A shallow embedding of the response pipeline of the chat client:
    [validateBotResponse], [parseJsonResponse], [preprocessTextResponse],
    [renderTables], [getIconSVG], [renderIcons], [preprocessResponse] and
    [safeRenderMarkdown], together with the fragments of the ECMAScript
    built-ins they call (strings as sequences of UTF-16 code units, a
    backtracking regular-expression matcher, [String.prototype.replace] with
    its substitution templates, [JSON.stringify]). *)

From Stdlib Require Import String Ascii DecimalString ZArith List NArith Arith Bool Lia.
Import ListNotations.

Set Implicit Arguments.
Set Warnings "-register-all,-comment-terminator-in-string".

(** ** ECMAScript strings *)

(** A string value is a finite sequence of 16-bit code units. *)
Definition char := N.
Bind Scope N_scope with char.
Definition jsstring := list char.

Definition char_of_ascii (a : ascii) : char := N_of_ascii a.

(** [lit "abc"] is the string value written ['abc'] in the source; it is
    used for ASCII literals only. *)
Fixpoint lit (s : string) : jsstring :=
  match s with
  | EmptyString => []
  | String a s' => char_of_ascii a :: lit s'
  end.

Arguments lit : simpl never.

Definition LF : char := 10%N.
Definition CR : char := 13%N.
Definition SPACE : char := 32%N.
Definition QUOTE : char := 34%N.        (* the double quote *)
Definition BACKSLASH : char := 92%N.
Definition BULLET : char := 8226%N.     (* U+2022 *)
Definition EN_DASH : char := 8211%N.    (* U+2013 *)
Definition NBSP : char := 160%N.        (* U+00A0 *)

Definition in_range (lo hi c : char) : bool := (N.leb lo c && N.leb c hi)%bool.

Fixpoint char_in (cs : list char) (c : char) : bool :=
  match cs with
  | [] => false
  | x :: cs' => if N.eqb c x then true else char_in cs' c
  end.

(** WhiteSpace and LineTerminator code units: the set that [\s] matches and
    that [String.prototype.trim] strips. *)
Definition is_space (c : char) : bool :=
  (in_range 9 13 c
   || char_in [32; 160; 5760; 8232; 8233; 8239; 8287; 12288; 65279] c
   || in_range 8192 8202 c)%N%bool.

(** LineTerminator: what [.] refuses and what [^] and [$] look at under the
    [m] flag. *)
Definition is_line_terminator (c : char) : bool := char_in [10; 13; 8232; 8233]%N c.

Definition is_digit (c : char) : bool := in_range 48 57 c.
Definition is_upper (c : char) : bool := in_range 65 90 c.
Definition is_lower (c : char) : bool := in_range 97 122 c.

(** [\w]: ASCII letters, digits and the underscore. *)
Definition is_word (c : char) : bool :=
  (is_upper c || is_lower c || is_digit c || N.eqb c 95)%bool.

Fixpoint str_eqb (a b : jsstring) : bool :=
  match a, b with
  | [], [] => true
  | x :: a', y :: b' => if N.eqb x y then str_eqb a' b' else false
  | _, _ => false
  end.

Fixpoint starts_with (p s : jsstring) : bool :=
  match p, s with
  | [], _ => true
  | x :: p', y :: s' => if N.eqb x y then starts_with p' s' else false
  | _ :: _, [] => false
  end.

(** [String.prototype.includes]. *)
Fixpoint includes (s p : jsstring) : bool :=
  if starts_with p s then true
  else match s with
       | [] => false
       | _ :: s' => includes s' p
       end.

Fixpoint trimStart (s : jsstring) : jsstring :=
  match s with
  | c :: s' => if is_space c then trimStart s' else s
  | [] => []
  end.

Definition trimEnd (s : jsstring) : jsstring := rev (trimStart (rev s)).

(** [String.prototype.trim]. *)
Definition trim (s : jsstring) : jsstring := trimEnd (trimStart s).

(** [s.split(sep)] for a separator that is one code unit: the pieces between
    the occurrences of [sep], of which there is always at least one. *)
Fixpoint split (sep : char) (s : jsstring) : list jsstring :=
  match s with
  | [] => [[]]
  | c :: s' =>
      if N.eqb c sep then [] :: split sep s'
      else match split sep s' with
           | l :: ls => (c :: l) :: ls
           | [] => [[c]]
           end
  end.

(** [lines.join(sep)]. *)
Fixpoint join (sep : jsstring) (ls : list jsstring) : jsstring :=
  match ls with
  | [] => []
  | [l] => l
  | l :: ls' => l ++ sep ++ join sep ls'
  end.

(** [GetSubstitution] (ECMA-262, 22.1.3.19.1) without named groups:
    [matched] is the matched substring, [before] and [after] the parts of the
    subject on either side of it, [captures] the groups of the match. *)
Definition DOLLAR : char := 36%N.

Definition capture_text (captures : list (option jsstring)) (index : nat) : jsstring :=
  match nth_error captures (index - 1) with
  | Some (Some s) => s
  | _ => []
  end.

Definition digit_value (d : char) : nat := N.to_nat (d - 48).

Fixpoint GetSubstitution (matched before after : jsstring)
    (captures : list (option jsstring)) (template : jsstring) : jsstring :=
  let go := GetSubstitution matched before after captures in
  match template with
  | [] => []
  | c :: t =>
      if negb (N.eqb c DOLLAR) then c :: go t
      else
        match t with
        | [] => [c]
        | d :: t' =>
            let one_digit := fun tail =>
              if (1 <=? digit_value d) && (digit_value d <=? length captures)
              then capture_text captures (digit_value d) ++ tail
              else c :: d :: tail in
            if N.eqb d DOLLAR then DOLLAR :: go t'
            else if N.eqb d 96 then before ++ go t'
            else if N.eqb d 38 then matched ++ go t'
            else if N.eqb d 39 then after ++ go t'
            else if is_digit d then
              match t' with
              | e :: t'' =>
                  if is_digit e && (10 * digit_value d + digit_value e <=? length captures)
                  then
                    if 1 <=? 10 * digit_value d + digit_value e
                    then capture_text captures (10 * digit_value d + digit_value e) ++ go t''
                    else c :: d :: e :: go t''
                  else one_digit (go t')
              | [] => one_digit (go t')
              end
            else c :: go t
        end
  end.

(** The position of the first occurrence of [p] in [s], as the pair of the
    text before it and the text after it. *)
Fixpoint cut_at (p s : jsstring) : option (jsstring * jsstring) :=
  if starts_with p s then Some ([], skipn (length p) s)
  else match s with
       | [] => None
       | c :: s' =>
           match cut_at p s' with
           | Some (b, a) => Some (c :: b, a)
           | None => None
           end
       end.

(** [s.replace(pattern, replacement)] with a string pattern: the first
    occurrence only, the replacement read as a substitution template. *)
Definition replace_string (s pattern replacement : jsstring) : jsstring :=
  match cut_at pattern s with
  | Some (b, a) => b ++ GetSubstitution pattern b a [] replacement ++ a
  | None => s
  end.

(** ** Regular expressions *)

Module RegExp.

Inductive assertion :=
| InputStart      (* ^ without the m flag *)
| InputEnd        (* $ without the m flag *)
| LineStart       (* ^ under the m flag *)
| LineEnd         (* $ under the m flag *)
| WordBoundary.   (* \b *)

Inductive regex :=
| Empty
| Char (p : char -> bool)            (* one code unit of a class *)
| Seq (r1 r2 : regex)
| Alt (r1 r2 : regex)
| Star (greedy : bool) (r : regex)   (* r* and r*? *)
| Group (n : nat) (r : regex)        (* the n-th capturing group *)
| NotAhead (r : regex)               (* (?!r) *)
| Assert (a : assertion).

(** The groups that took part in a match, latest first. *)
Definition captures := list (nat * jsstring).

(** A position in the subject: the code unit to its left, if any, and the
    text to its right. *)
Definition result := (option char * jsstring * captures)%type.
Definition cont := option char -> jsstring -> captures -> option result.

Definition is_word_opt (c : option char) : bool :=
  match c with Some x => is_word x | None => false end.

Definition is_terminator_opt (c : option char) : bool :=
  match c with Some x => is_line_terminator x | None => true end.

Definition holds (a : assertion) (prev : option char) (s : jsstring) : bool :=
  match a with
  | InputStart => match prev with None => true | Some _ => false end
  | InputEnd => match s with [] => true | _ :: _ => false end
  | LineStart => is_terminator_opt prev
  | LineEnd => is_terminator_opt (hd_error s)
  | WordBoundary => xorb (is_word_opt prev) (is_word_opt (hd_error s))
  end.

(** RepeatMatcher for [r*] and [r*?]: [body] matches one iteration of [r].
    An iteration that consumes nothing is rejected, so the iterations are
    bounded by the length of the text, which [fuel] starts at. *)
Fixpoint star_loop (greedy : bool) (body : cont -> cont) (k : cont) (fuel : nat)
    (prev : option char) (s : jsstring) (c : captures) {struct fuel} : option result :=
  match fuel with
  | O => k prev s c
  | S fuel' =>
      if greedy then
        match body (fun prev' s' c' =>
                      if length s' <? length s then star_loop greedy body k fuel' prev' s' c'
                      else None) prev s c with
        | Some res => Some res
        | None => k prev s c
        end
      else
        match k prev s c with
        | Some res => Some res
        | None => body (fun prev' s' c' =>
                          if length s' <? length s
                          then star_loop greedy body k fuel' prev' s' c'
                          else None) prev s c
        end
  end.

(** The backtracking matcher of ECMA-262 22.2.2 in continuation-passing
    style: [m r k prev s c] tries the alternatives of [r] at the position
    [(prev, s)] in priority order and returns the first for which the
    continuation [k] succeeds.  Captures inside a star are not reset between
    iterations; no pattern of the program reads such a capture. *)
Fixpoint m (r : regex) (k : cont) (prev : option char) (s : jsstring) (c : captures)
  {struct r} : option result :=
  match r with
  | Empty => k prev s c
  | Char p =>
      match s with
      | x :: s' => if p x then k (Some x) s' c else None
      | [] => None
      end
  | Seq r1 r2 => m r1 (m r2 k) prev s c
  | Alt r1 r2 =>
      match m r1 k prev s c with
      | Some res => Some res
      | None => m r2 k prev s c
      end
  | Star greedy r1 => star_loop greedy (m r1) k (length s) prev s c
  | Group n r1 =>
      m r1 (fun prev' s' c' => k prev' s' ((n, firstn (length s - length s') s) :: c')) prev s c
  | NotAhead r1 =>
      match m r1 (fun prev' s' c' => Some (prev', s', c')) prev s c with
      | Some _ => None
      | None => k prev s c
      end
  | Assert a => if holds a prev s then k prev s c else None
  end.

Definition accept : cont := fun prev s c => Some (prev, s, c).

(** One attempt at the current position. *)
Definition exec_at (r : regex) (prev : option char) (s : jsstring) : option result :=
  m r accept prev s [].

(** The number of capturing groups of a pattern. *)
Fixpoint ngroups (r : regex) : nat :=
  match r with
  | Empty | Char _ | Assert _ => 0
  | Seq r1 r2 | Alt r1 r2 => Nat.max (ngroups r1) (ngroups r2)
  | Star _ r1 | NotAhead r1 => ngroups r1
  | Group n r1 => Nat.max n (ngroups r1)
  end.

Fixpoint group (c : captures) (n : nat) : option jsstring :=
  match c with
  | [] => None
  | (i, s) :: c' => if Nat.eqb i n then Some s else group c' n
  end.

Definition capture_list (r : regex) (c : captures) : list (option jsstring) :=
  map (group c) (seq 1 (ngroups r)).

(** Derived forms. *)
Definition Plus (greedy : bool) (r : regex) : regex := Seq r (Star greedy r).
Definition Opt (r : regex) : regex := Alt r Empty.
Definition chr (c : char) : regex := Char (N.eqb c).
Definition one_of (cs : list char) : regex := Char (char_in cs).
Definition none_of (cs : list char) : regex := Char (fun c => negb (char_in cs c)).

Fixpoint str (s : jsstring) : regex :=
  match s with
  | [] => Empty
  | [c] => chr c
  | c :: s' => Seq (chr c) (str s')
  end.

(** Under the [i] flag an ASCII letter matches in either case (Canonicalize
    never maps a code unit above 127 to one below 128). *)
Definition fold_case (c : char) : char := if is_lower c then (c - 32)%N else c.
Definition chr_i (c : char) : regex := Char (fun x => N.eqb (fold_case x) (fold_case c)).

Fixpoint str_i (s : jsstring) : regex :=
  match s with
  | [] => Empty
  | [c] => chr_i c
  | c :: s' => Seq (chr_i c) (str_i s')
  end.

(** [r{n,}] and [r{n,n+k}], greedy. *)
Fixpoint at_least (n : nat) (r : regex) : regex :=
  match n with
  | O => Star true r
  | S n' => Seq r (at_least n' r)
  end.

Fixpoint up_to (k : nat) (r : regex) : regex :=
  match k with
  | O => Empty
  | S k' => Opt (Seq r (up_to k' r))
  end.

Fixpoint between (n k : nat) (r : regex) : regex :=
  match n with
  | O => up_to k r
  | S n' => Seq r (between n' k r)
  end.

Definition any : regex := Char (fun c => negb (is_line_terminator c)).   (* . *)
Definition space : regex := Char is_space.                               (* \s *)
Definition nonspace : regex := Char (fun c => negb (is_space c)).        (* \S *)
Definition digit : regex := Char is_digit.                               (* \d *)
Definition word : regex := Char is_word.                                 (* \w *)

(** What a replacement is computed from: the matched text, the subject before
    and after it, and the groups. *)
Definition replacer := jsstring -> jsstring -> jsstring -> list (option jsstring) -> jsstring.

Definition template (t : jsstring) : replacer :=
  fun matched before after caps => GetSubstitution matched before after caps t.

(** [s.replace(/r/g, ...)]: the matches are found from left to right in the
    subject, each search starting where the previous match ended (one code
    unit further after an empty match).  [before] is the subject up to the
    current position, reversed. *)
Fixpoint replace_from (fuel : nat) (r : regex) (f : replacer) (before s : jsstring)
  : jsstring :=
  match fuel with
  | O => s
  | S fuel' =>
      match exec_at r (hd_error before) s with
      | Some (_, s', c) =>
          f (firstn (length s - length s') s) (rev before) s' (capture_list r c) ++
          (if length s' <? length s
           then replace_from fuel' r f (rev (firstn (length s - length s') s) ++ before) s'
           else match s with
                | [] => []
                | x :: t => x :: replace_from fuel' r f (x :: before) t
                end)
      | None =>
          match s with
          | [] => []
          | x :: t => x :: replace_from fuel' r f (x :: before) t
          end
      end
  end.

Definition replace_all (r : regex) (f : replacer) (s : jsstring) : jsstring :=
  replace_from (S (length s)) r f [] s.

(** The first match of [r] in the subject, searching from the left. *)
Fixpoint search_from (r : regex) (prev : option char) (s : jsstring) : option captures :=
  match exec_at r prev s with
  | Some (_, _, c) => Some c
  | None =>
      match s with
      | [] => None
      | x :: t => search_from r (Some x) t
      end
  end.

(** [s.match(/r/)] for a pattern without the [g] flag: the groups of the
    first match. *)
Definition match_ (r : regex) (s : jsstring) : option (list (option jsstring)) :=
  match search_from r None s with
  | Some c => Some (capture_list r c)
  | None => None
  end.

(** [/r/.test(s)]. *)
Definition test (r : regex) (s : jsstring) : bool :=
  match search_from r None s with Some _ => true | None => false end.

End RegExp.

(** ** Decoded JSON values *)

(** What the program observes of a JSON number: whether it is truthy (neither
    zero nor NaN) and how [JSON.stringify] writes it. *)
Class Numbers := {
  number : Type;
  number_truthy : number -> bool;
  number_json : number -> jsstring
}.

(** A completion of the evaluation of a call: a value, a thrown exception,
    or no answer within the number of nested calls allowed.  The exceptions
    are the TypeError of a property read on [null] or [undefined] and the
    RangeError with which the engine answers a call for which its call stack
    has no room left ("Maximum call stack size exceeded"). *)
Inductive exception := TypeError | RangeError.

Inductive outcome (A : Type) :=
| Normal (a : A)
| Throw (e : exception)
| OutOfFuel.
Arguments Throw {A} e.
Arguments OutOfFuel {A}.

Definition bind {A B : Type} (x : outcome A) (f : A -> outcome B) : outcome B :=
  match x with
  | Normal a => f a
  | Throw e => Throw e
  | OutOfFuel => OutOfFuel
  end.

Notation "x <- e ;; k" := (bind e (fun x => k))
  (at level 61, e at next level, right associativity).

Section Values.
Context {NUM : Numbers}.

(** The value [JSON.parse] or [response.json()] returns.  The properties of
    an object are listed in the order in which the object enumerates them. *)
Inductive json :=
| JNull
| JBool (b : bool)
| JNum (n : number)
| JStr (s : jsstring)
| JArr (items : list json)
| JObj (props : list (jsstring * json)).

(** A value of an expression: [None] is [undefined]. *)
Definition value := option json.

Definition ToBoolean (v : json) : bool :=
  match v with
  | JNull => false
  | JBool b => b
  | JNum n => number_truthy n
  | JStr [] => false
  | JStr (_ :: _) => true
  | JArr _ | JObj _ => true
  end.

Definition truthy (v : value) : bool :=
  match v with Some x => ToBoolean x | None => false end.

(** [typeof v === 'object'], [typeof v === 'string'], [Array.isArray(v)]. *)
Definition typeof_object (v : value) : bool :=
  match v with Some (JNull | JArr _ | JObj _) => true | _ => false end.

Definition typeof_string (v : value) : bool :=
  match v with Some (JStr _) => true | _ => false end.

Definition isArray (v : value) : bool :=
  match v with Some (JArr _) => true | _ => false end.

Fixpoint assoc (key : jsstring) (props : list (jsstring * json)) : value :=
  match props with
  | [] => None
  | (k, x) :: props' => if str_eqb k key then Some x else assoc key props'
  end.

(** [v.key] for a value that is not [null], for the property names the
    program reads ([response], [answer], [title], ...): an object answers with
    its own property; a string, number, boolean or array has no property of
    these names, nor have their prototypes. *)
Definition get (v : json) (key : jsstring) : value :=
  match v with
  | JObj props => assoc key props
  | _ => None
  end.

(** [v.key] in general: reading a property of [null] or [undefined] throws. *)
Definition Get (v : value) (key : jsstring) : outcome value :=
  match v with
  | None | Some JNull => Throw TypeError
  | Some x => Normal (get x key)
  end.

(** [a || b] on completions: [b] is used only when [a] is falsy. *)
Definition or_else (a b : outcome value) : outcome value :=
  x <- a ;; if truthy x then Normal x else b.

(** *** The canonical response *)

(** The object literal handed to [validateBotResponse]. *)
Record RawResponse := {
  raw_answer : value;
  raw_related_content : value;
  raw_recommendations : value;
  raw_file_links : value;
  raw_tables : value
}.

Record BotResponse := {
  answer : jsstring;
  related_content : option (list json);
  recommendations : option (list json);
  file_links : option (list json);
  tables : option (list json)
}.

(** [item && typeof item.title === 'string' && typeof item.url === 'string'];
    the property reads come after the truthiness test, so never on [null]. *)
Definition link_ok (item : json) : bool :=
  ToBoolean item
  && typeof_string (get item (lit "title"))
  && typeof_string (get item (lit "url")).

Definition recommendation_ok (item : json) : bool := typeof_string (Some item).

Definition table_ok (table : json) : bool :=
  ToBoolean table
  && typeof_string (get table (lit "title"))
  && isArray (get table (lit "headers"))
  && isArray (get table (lit "rows")).

(** [Array.isArray(x) ? x.filter(p) : undefined]. *)
Definition filter_array (p : json -> bool) (x : value) : option (list json) :=
  match x with
  | Some (JArr items) => Some (filter p items)
  | _ => None
  end.

Definition validateBotResponse (response : RawResponse) : BotResponse :=
  {| answer := match raw_answer response with Some (JStr s) => s | _ => [] end;
     related_content := filter_array link_ok (raw_related_content response);
     recommendations := filter_array recommendation_ok (raw_recommendations response);
     file_links := filter_array link_ok (raw_file_links response);
     tables := filter_array table_ok (raw_tables response) |}.

(** [validateBotResponse({ answer: a })]. *)
Definition answer_only (a : value) : RawResponse :=
  {| raw_answer := a; raw_related_content := None; raw_recommendations := None;
     raw_file_links := None; raw_tables := None |}.

(** *** JSON.stringify(value, null, 2) *)

Definition hex_digit (n : N) : char :=
  (if n <? 10 then 48 + n else 87 + n)%N.

(** [\uXXXX] with lowercase hexadecimal digits. *)
Definition unicode_escape (c : char) : jsstring :=
  lit "\u" ++ map hex_digit
    [N.modulo (N.div c 4096) 16; N.modulo (N.div c 256) 16;
     N.modulo (N.div c 16) 16; N.modulo c 16]%N.

Definition is_lead_surrogate (c : char) : bool := in_range 55296 56319 c.
Definition is_trail_surrogate (c : char) : bool := in_range 56320 57343 c.

Fixpoint quote_units (s : jsstring) : jsstring :=
  match s with
  | [] => []
  | c :: t =>
      if N.eqb c 8 then lit "\b" ++ quote_units t
      else if N.eqb c 9 then lit "\t" ++ quote_units t
      else if N.eqb c 10 then lit "\n" ++ quote_units t
      else if N.eqb c 12 then lit "\f" ++ quote_units t
      else if N.eqb c 13 then lit "\r" ++ quote_units t
      else if N.eqb c QUOTE then BACKSLASH :: QUOTE :: quote_units t
      else if N.eqb c BACKSLASH then BACKSLASH :: BACKSLASH :: quote_units t
      else if (c <? 32)%N then unicode_escape c ++ quote_units t
      else if is_lead_surrogate c then
        match t with
        | d :: t' =>
            if is_trail_surrogate d then c :: d :: quote_units t'
            else unicode_escape c ++ quote_units t
        | [] => unicode_escape c
        end
      else if is_trail_surrogate c then unicode_escape c ++ quote_units t
      else c :: quote_units t
  end.

(** QuoteJSONString. *)
Definition quote (s : jsstring) : jsstring := QUOTE :: quote_units s ++ [QUOTE].

(** SerializeJSONProperty with a gap of two spaces; [indent] is the current
    indentation. *)
Fixpoint stringify (indent : jsstring) (v : json) : jsstring :=
  let inner := indent ++ lit "  " in
  let sep := lit "," ++ [LF] ++ inner in
  match v with
  | JNull => lit "null"
  | JBool true => lit "true"
  | JBool false => lit "false"
  | JNum n => number_json n
  | JStr s => quote s
  | JArr [] => lit "[]"
  | JArr items =>
      lit "[" ++ [LF] ++ inner ++ join sep (map (stringify inner) items)
      ++ [LF] ++ indent ++ lit "]"
  | JObj [] => lit "{}"
  | JObj props =>
      lit "{" ++ [LF] ++ inner
      ++ join sep (map (fun p => quote (fst p) ++ lit ": " ++ stringify inner (snd p)) props)
      ++ [LF] ++ indent ++ lit "}"
  end.

Definition JSON_stringify (v : json) : jsstring := stringify [] v.

(** *** The shape reconciler *)

(** The body of [parseJsonResponse]; its two recursive calls go through the
    first argument. *)
Definition parseJsonResponse_body (parseJsonResponse : value -> outcome BotResponse)
    (jsonData : value) : outcome BotResponse :=
  (* Format 1: { response: { answer: "...", ... } } *)
  response <- Get jsonData (lit "response") ;;
  if truthy response && typeof_object response then
    a <- or_else (or_else (Get response (lit "answer")) (Get response (lit "text")))
                 (Normal (Some (JStr []))) ;;
    rc <- or_else (Get response (lit "related_content"))
                  (Get response (lit "relatedContent")) ;;
    rec <- or_else (Get response (lit "recommendations"))
                   (Get response (lit "suggestions")) ;;
    fl <- or_else (or_else (Get response (lit "file_links")) (Get response (lit "fileLinks")))
                  (Get response (lit "files")) ;;
    tb <- Get response (lit "tables") ;;
    Normal (validateBotResponse
              {| raw_answer := a; raw_related_content := rc; raw_recommendations := rec;
                 raw_file_links := fl; raw_tables := tb |})
  else
  (* Format 2: { answer: "...", ... } (direct format) *)
  direct <- or_else (or_else (Get jsonData (lit "answer")) (Get jsonData (lit "text")))
                    (Get jsonData (lit "message")) ;;
  if truthy direct then
    rc <- or_else (Get jsonData (lit "related_content"))
                  (Get jsonData (lit "relatedContent")) ;;
    rec <- or_else (Get jsonData (lit "recommendations"))
                   (Get jsonData (lit "suggestions")) ;;
    fl <- or_else (or_else (Get jsonData (lit "file_links")) (Get jsonData (lit "fileLinks")))
                  (Get jsonData (lit "files")) ;;
    tb <- Get jsonData (lit "tables") ;;
    Normal (validateBotResponse
              {| raw_answer := direct; raw_related_content := rc;
                 raw_recommendations := rec; raw_file_links := fl; raw_tables := tb |})
  else
  (* Format 3: { data: { ... } } *)
  data <- Get jsonData (lit "data") ;;
  if truthy data && typeof_object data then parseJsonResponse data
  else
  match jsonData with
  (* Format 4: Array format [{ answer: "..." }] *)
  | Some (JArr (first :: _)) => parseJsonResponse (Some first)
  (* Format 5: String response wrapped in object *)
  | Some (JStr _) => Normal (validateBotResponse (answer_only jsonData))
  (* Fallback: stringify the entire object *)
  | Some v => Normal (validateBotResponse (answer_only (Some (JStr (JSON_stringify v)))))
  | None => Normal (validateBotResponse (answer_only None))
  end.

(** [parseJsonResponse] with a bound on the depth of the nested calls: the
    source has none, and [OutOfFuel] is the answer of this model, not of the
    program, when a chain of [fuel] nested calls has not returned. *)
Fixpoint parseJsonResponse_fuel (fuel : nat) (jsonData : value) : outcome BotResponse :=
  match fuel with
  | O => OutOfFuel
  | S fuel' => parseJsonResponse_body (parseJsonResponse_fuel fuel') jsonData
  end.

(** The depth of nesting of a value: no chain of nested calls is longer. *)
Fixpoint depth (v : json) : nat :=
  match v with
  | JArr items => S (fold_right (fun x d => Nat.max (depth x) d) 0 items)
  | JObj props => S (fold_right (fun p d => Nat.max (depth (snd p)) d) 0 props)
  | _ => 0
  end.

(** What [parseJsonResponse] returns, or the TypeError it throws, when the
    call stack has room for all its nested calls: it is what
    [parseJsonResponse_on] below gives on every stack with room for more
    nested calls than the value is deep (lemma [on_enough]). *)
Definition parseJsonResponse (jsonData : json) : outcome BotResponse :=
  parseJsonResponse_fuel (S (depth jsonData)) (Some jsonData).

(** [parseJsonResponse] as an engine runs it, on a call stack that has room
    for [stack] nested calls of the function: the call for which no room is
    left throws the RangeError, and nothing inside the function catches
    it. *)
Fixpoint parseJsonResponse_on (stack : nat) (jsonData : value) : outcome BotResponse :=
  match stack with
  | O => Throw RangeError
  | S stack' => parseJsonResponse_body (parseJsonResponse_on stack') jsonData
  end.

End Values.

(** ** The text repair engine *)

Definition code (a : ascii) : char := char_of_ascii a.

Module Patterns.
Import RegExp.

Fixpoint seqs (rs : list regex) : regex :=
  match rs with
  | [] => Empty
  | [r] => r
  | r :: rs' => Seq r (seqs rs')
  end.

(** [/\*\*(.*?)\*\*/g] *)
Definition bold_stars : regex :=
  seqs [str (lit "**"); Group 1 (Star false any); str (lit "**")].

(** [/__(.*?)__/g] *)
Definition bold_underscores : regex :=
  seqs [str (lit "__"); Group 1 (Star false any); str (lit "__")].

(** [/\*(.*?)\*/g] *)
Definition italic_stars : regex :=
  seqs [str (lit "*"); Group 1 (Star false any); str (lit "*")].

(** [/\\n/g]: a backslash followed by the letter n. *)
Definition escaped_newline : regex := str [BACKSLASH; code "n"].

(** [/\n\s*\n\s*\n/g] *)
Definition blank_lines : regex :=
  seqs [chr LF; Star true space; chr LF; Star true space; chr LF].

(** [/^\s*[•–]\s+/gm] *)
Definition bullet_glyph : regex :=
  seqs [Assert LineStart; Star true space; one_of [BULLET; EN_DASH]; Plus true space].

(** [/([^\n])\n(\s*[-*+]\s)/g] *)
Definition before_bullet : regex :=
  seqs [Group 1 (none_of [LF]); chr LF;
        Group 2 (seqs [Star true space; one_of (lit "-*+"); space])].

(** [/([^\n])\n(\s*\d+\.\s)/g] *)
Definition before_number : regex :=
  seqs [Group 1 (none_of [LF]); chr LF;
        Group 2 (seqs [Star true space; Plus true digit; chr (code "."); space])].

(** [/^[-_*](\s*[-_*]){2,}$/] *)
Definition horizontal_rule : regex :=
  seqs [Assert InputStart; one_of (lit "-_*");
        at_least 2 (Group 1 (seqs [Star true space; one_of (lit "-_*")]));
        Assert InputEnd].

(** The pattern "/^(\s*)[-*+]\s*(.+)$/". *)
Definition bullet_line : regex :=
  seqs [Assert InputStart; Group 1 (Star true space); one_of (lit "-*+");
        Star true space; Group 2 (Plus true any); Assert InputEnd].

(** The pattern "/^(\s*)(\d+)\.\s*(.+)$/". *)
Definition numbered_line : regex :=
  seqs [Assert InputStart; Group 1 (Star true space); Group 2 (Plus true digit);
        chr (code "."); Star true space; Group 3 (Plus true any); Assert InputEnd].

(** [/^(#+)(\S)/gm] *)
Definition tight_heading : regex :=
  seqs [Assert LineStart; Group 1 (Plus true (chr (code "#"))); Group 2 nonspace].

(** The pattern "/^(#+)\s+(.*)$/". *)
Definition heading_line : regex :=
  seqs [Assert InputStart; Group 1 (Plus true (chr (code "#"))); Plus true space;
        Group 2 (Star true any); Assert InputEnd].

(** [/\[ICON:(.*?)]/g] *)
Definition icon_token : regex :=
  seqs [str (lit "[ICON:"); Group 1 (Star false any); chr (code "]")].

(** [/&nbsp;|\u00A0|\t/g] *)
Definition hard_space : regex := Alt (str (lit "&nbsp;")) (Alt (chr NBSP) (chr 9)).

(** [/([^\n])---/g] *)
Definition inline_rule : regex := seqs [Group 1 (none_of [LF]); str (lit "---")].

(** The pattern "/^(\s*)\*\s+/gm". *)
Definition star_bullet : regex :=
  seqs [Assert LineStart; Group 1 (Star true space); chr (code "*"); Plus true space].

(** [/^(#+)(?! )/gm] *)
Definition heading_marker : regex :=
  seqs [Assert LineStart; Group 1 (Plus true (chr (code "#"))); NotAhead (chr SPACE)].

(** [/^(\s*>)(?! )/gm] *)
Definition quote_marker : regex :=
  seqs [Assert LineStart; Group 1 (seqs [Star true space; chr (code ">")]);
        NotAhead (chr SPACE)].

(** The pattern "/<script\b[^<]*(?:(?!<\/script>)<[^<]*)*<\/script>/gi". *)
Definition script_block : regex :=
  seqs [str_i (lit "<script"); Assert WordBoundary; Star true (none_of (lit "<"));
        Star true (seqs [NotAhead (str_i (lit "</script>")); chr (code "<");
                         Star true (none_of (lit "<"))]);
        str_i (lit "</script>")].

(** [/javascript:/gi] *)
Definition javascript_scheme : regex := str_i (lit "javascript:").

(** [/on\w+=Q[^Q]*Q/gi], where Q stands for the double quote. *)
Definition handler_double : regex :=
  seqs [str_i (lit "on"); Plus true word; chr (code "="); chr QUOTE;
        Star true (none_of [QUOTE]); chr QUOTE].

(** [/on\w+='[^']*'/gi] *)
Definition handler_single : regex :=
  seqs [str_i (lit "on"); Plus true word; chr (code "="); chr (code "'");
        Star true (none_of (lit "'")); chr (code "'")].

(** The pattern "/<(h[1-6])(\b[^>]*)>#{1,6}\s+/gi". *)
Definition heading_hashes : regex :=
  seqs [chr (code "<"); Group 1 (Seq (chr_i (code "h")) (Char (in_range 49 54)));
        Group 2 (Seq (Assert WordBoundary) (Star true (none_of (lit ">"))));
        chr (code ">"); between 1 5 (chr (code "#")); Plus true space].

(** [/<h[1-6][^>]*>\s*<\/h[1-6]>/gi] *)
Definition empty_heading : regex :=
  seqs [chr (code "<"); chr_i (code "h"); Char (in_range 49 54);
        Star true (none_of (lit ">")); chr (code ">"); Star true space;
        str (lit "</"); chr_i (code "h"); Char (in_range 49 54); chr (code ">")].

End Patterns.

Section TextRepair.

(** [String.prototype.toLowerCase], a built-in of the host. *)
Variable toLowerCase : jsstring -> jsstring.

(** The two replacements that put a blank line before a list (lines 276
    and 277 of the source). *)
Definition blank_before_lists (processed : jsstring) : jsstring :=
  let processed :=
    RegExp.replace_all Patterns.before_bullet
      (RegExp.template (lit "$1" ++ [LF; LF] ++ lit "$2")) processed in
  RegExp.replace_all Patterns.before_number
    (RegExp.template (lit "$1" ++ [LF; LF] ++ lit "$2")) processed.

(** The callback of [lines.map]. *)
Definition normalize_line (line : jsstring) : jsstring :=
  let trimmed := trim line in
  if RegExp.test Patterns.horizontal_rule trimmed then lit "---"
  else
    match RegExp.match_ Patterns.bullet_line line with
    | Some bulletMatch =>
        capture_text bulletMatch 1 ++ lit "- " ++ capture_text bulletMatch 2
    | None =>
        match RegExp.match_ Patterns.numbered_line line with
        | Some numMatch =>
            capture_text numMatch 1 ++ capture_text numMatch 2 ++ lit ". "
            ++ capture_text numMatch 3
        | None => line
        end
    end.

(** The loop over [lines2]: the lines pushed to [out], given the value of
    [lastHeadingText] on entry. *)
Fixpoint dedupe_headings (lastHeadingText : jsstring) (lines2 : list jsstring)
  : list jsstring :=
  match lines2 with
  | [] => []
  | ln :: rest =>
      match RegExp.match_ Patterns.heading_line ln with
      | Some m =>
          let current := trim (capture_text m 2) in
          if str_eqb (toLowerCase current) (toLowerCase lastHeadingText)
          then dedupe_headings lastHeadingText rest
          else ln :: dedupe_headings current rest
      | None => ln :: dedupe_headings [] rest
      end
  end.

Definition preprocessTextResponse (text : jsstring) : jsstring :=
  let processed := text in
  let processed :=
    RegExp.replace_all Patterns.bold_stars (RegExp.template (lit "**$1**")) processed in
  let processed :=
    RegExp.replace_all Patterns.bold_underscores (RegExp.template (lit "**$1**")) processed in
  let processed :=
    RegExp.replace_all Patterns.italic_stars (RegExp.template (lit "*$1*")) processed in
  let processed :=
    RegExp.replace_all Patterns.escaped_newline (RegExp.template [LF]) processed in
  let processed :=
    RegExp.replace_all Patterns.blank_lines (RegExp.template [LF; LF]) processed in
  let processed :=
    RegExp.replace_all Patterns.bullet_glyph (RegExp.template (lit "- ")) processed in
  let processed := blank_before_lists processed in
  let lines := split LF processed in
  let normalized := join [LF] (map normalize_line lines) in
  let processed := normalized in
  let processed :=
    RegExp.replace_all Patterns.tight_heading (RegExp.template (lit "$1 $2")) processed in
  let lines2 := split LF processed in
  let out := dedupe_headings [] lines2 in
  let processed := join [LF] out in
  trim processed.

End TextRepair.

(** [toLowerCase] on the Basic Latin block, where it maps [A]-[Z] to [a]-[z]
    and nothing else; the instance the examples on ASCII text are run with. *)
Definition ascii_toLowerCase (s : jsstring) : jsstring :=
  map (fun c => if is_upper c then (c + 32)%N else c) s.

(** ** Decoding a response *)

(** [String.prototype.endsWith]. *)
Definition ends_with (p s : jsstring) : bool := starts_with (rev p) (rev s).

(** What [sendMessage] reads of an HTTP response whose status is ok: the
    value of [headers.get('content-type')] ([None] for [null]) and the text
    of the body. *)
Record Response := {
  content_type : option jsstring;
  body : jsstring
}.

Section Decoding.
Context {NUM : Numbers}.

Variable toLowerCase : jsstring -> jsstring.

(** [JSON.parse], a built-in of the host; [None] when it throws a
    SyntaxError. *)
Variable JSON_parse : jsstring -> option json.

(** The number of nested calls of [parseJsonResponse] for which the call
    stack has room when the decoded value is handed to it. *)
Variable stack : nat.

(** [validateBotResponse({ answer: a })] for a string [a]. *)
Definition no_attachments (a : jsstring) : BotResponse :=
  validateBotResponse (answer_only (Some (JStr a))).

Definition parseTextResponse (textData : jsstring) : outcome BotResponse :=
  let trimmedText := trim textData in
  (* the statements after the [if], which the [catch] falls through to *)
  let as_text :=
    let processedText := preprocessTextResponse toLowerCase trimmedText in
    Normal (no_attachments processedText) in
  if (starts_with (lit "{") trimmedText && ends_with (lit "}") trimmedText)
     || (starts_with (lit "[") trimmedText && ends_with (lit "]") trimmedText)
  then
    match JSON_parse trimmedText with
    | Some parsed =>
        match parseJsonResponse_on stack (Some parsed) with
        | Throw _ => as_text            (* catch (e) *)
        | completion => completion
        end
    | None => as_text                   (* catch (e) *)
    end
  else as_text.

(** The body of a response is a stream that is read once: [response.text()]
    and [response.json()] reject ([None]) when it has been read before, and
    [json()] also when the text is not JSON.  Both leave [bodyUsed] set. *)
Definition response_text (response : Response) (bodyUsed : bool) : option jsstring * bool :=
  (if bodyUsed then None else Some (body response), true).

Definition response_json (response : Response) (bodyUsed : bool) : option json * bool :=
  (if bodyUsed then None else JSON_parse (body response), true).

(** [contentType && contentType.includes('application/json')]. *)
Definition is_json (response : Response) : bool :=
  match content_type response with
  | Some ((_ :: _) as contentType) => includes contentType (lit "application/json")
  | _ => false
  end.

(** The value of [botResponse] after the inner [try] and [catch] of
    [sendMessage]. *)
Definition botResponse (response : Response) : outcome BotResponse :=
  let '(attempt, bodyUsed) :=
    if is_json response then
      let '(jsonData, bodyUsed) := response_json response false in
      (match jsonData with
       | Some v => Some (parseJsonResponse_on stack (Some v))
       | None => None
       end, bodyUsed)
    else
      let '(textData, bodyUsed) := response_text response false in
      (match textData with
       | Some t => Some (parseTextResponse t)
       | None => None
       end, bodyUsed) in
  match attempt with
  | Some (Normal r) => Normal r
  | Some OutOfFuel => OutOfFuel
  | Some (Throw _) | None =>
      (* catch (parseError) *)
      let '(fallbackText, _) := response_text response bodyUsed in
      Normal {| answer := match fallbackText with
                          | Some t => t
                          | None => lit "Failed to get response"
                          end;
                related_content := None; recommendations := None;
                file_links := None; tables := None |}
  end.

(** The [text] of the bot message: [botResponse.answer || "Sorry, ..."]. *)
Definition botMessage_text (r : BotResponse) : jsstring :=
  match answer r with
  | [] => lit "Sorry, I couldn't process your request."
  | _ :: _ => answer r
  end.

End Decoding.

(** ** Placeholder expansion *)

(** [qlit s] is [lit s] with every apostrophe read as a double quote: the
    markup of the source, which has no apostrophe, written without escapes. *)
Definition qlit (s : string) : jsstring :=
  map (fun c => if N.eqb c 39 then QUOTE else c) (lit s).

Record Table := {
  title : jsstring;
  headers : list jsstring;
  rows : list (list jsstring)
}.

Definition concat_map (f : jsstring -> jsstring) (l : list jsstring) : jsstring :=
  join [] (map f l).

Definition header_cell (h : jsstring) : jsstring :=
  qlit "<th class='p-3 text-left text-xs font-semibold text-gray-600 uppercase tracking-wider'>"
  ++ h ++ lit "</th>".

Definition data_cell (cell : jsstring) : jsstring :=
  qlit "<td class='p-3 text-sm text-gray-800'>" ++ cell ++ lit "</td>".

Definition row_html (row : list jsstring) : jsstring :=
  qlit "<tr class='bg-white'>" ++ concat_map data_cell row ++ lit "</tr>".

(** The value of [tableHtml] when it is handed to [replace]. *)
Definition table_html (table : Table) : jsstring :=
  qlit "<div class='overflow-x-auto my-4'>"
  ++ qlit "<table class='min-w-full border border-gray-300 rounded-lg overflow-hidden shadow-sm'>"
  ++ qlit "<caption class='p-2 text-sm text-gray-500 font-medium text-left'>"
  ++ title table ++ lit "</caption>"
  ++ match headers table with
     | [] => []
     | _ :: _ =>
         qlit "<thead class='bg-gray-100'>"
         ++ lit "<tr>" ++ concat_map header_cell (headers table) ++ lit "</tr>"
         ++ lit "</thead>"
     end
  ++ qlit "<tbody class='divide-y divide-gray-200'>"
  ++ fold_left (fun tableHtml row => tableHtml ++ row_html row) (rows table) []
  ++ lit "</tbody>"
  ++ lit "</table></div>".

Definition placeholder (table : Table) : jsstring :=
  lit "[TABLE:" ++ title table ++ lit "]".

(** The body of [tables.forEach]. *)
Definition render_table (processedAnswer : jsstring) (table : Table) : jsstring :=
  if includes processedAnswer (placeholder table)
  then replace_string processedAnswer (placeholder table) (table_html table)
  else processedAnswer.

Definition renderTables (answer : jsstring) (tables : list Table) : jsstring :=
  match tables with
  | [] => answer
  | _ :: _ => fold_left render_table tables answer
  end.

(** *** Icons *)

(** What [icons[iconName]] can be: [icons] is an object literal, so besides
    its four own properties it answers for the properties it inherits from
    [Object.prototype]. *)
Inductive property :=
| Fragment (svg : jsstring)
| BuiltinFunction (name : jsstring)
| ObjectPrototype.

Definition icons : list (jsstring * jsstring) :=
  [ (lit "location",
     qlit "<svg xmlns='http://www.w3.org/2000/svg' class='inline-block w-5 h-5' viewBox='0 0 24 24'><path fill='currentColor' d='M12 2C8.13 2 5 5.13 5 9c0 5.25 7 13 7 13s7-7.75 7-13c0-3.87-3.13-7-7-7zm0 9.5c-1.38 0-2.5-1.12-2.5-2.5S10.62 6.5 12 6.5s2.5 1.12 2.5 2.5S13.38 11.5 12 11.5z'/></svg>");
    (lit "phone",
     qlit "<svg xmlns='http://www.w3.org/2000/svg' class='inline-block w-5 h-5' fill='none' viewBox='0 0 24 24' stroke='currentColor'><path stroke-linecap='round' stroke-linejoin='round' stroke-width='2' d='M2 6.5c1.5-2 4-3 6.5-2l2 2a1 1 0 010 1.4L9 10a12 12 0 005 5l2.1-1.5a1 1 0 011.4 0l2 2c1 2.5 0 5-2 6.5-.6.4-1.4.5-2.1.2C10.2 20.5 3.5 13.8 1.8 6.6c-.3-.7-.2-1.5.2-2.1z'/></svg>");
    (lit "mobile",
     qlit "<svg xmlns='http://www.w3.org/2000/svg' class='inline-block w-5 h-5' viewBox='0 0 24 24'><path fill='currentColor' d='M15.5 1h-7a.5.5 0 00-.5.5v21a.5.5 0 00.5.5h7a.5.5 0 00.5-.5V1.5a.5.5 0 00-.5-.5zM12 22a1 1 0 110-2 1 1 0 010 2z'/></svg>");
    (lit "email",
     qlit "<svg xmlns='http://www.w3.org/2000/svg' class='inline-block w-5 h-5' fill='none' viewBox='0 0 24 24' stroke='currentColor'><path stroke-linecap='round' stroke-linejoin='round' stroke-width='2' d='M3 5h18a2 2 0 012 2v10a2 2 0 01-2 2H3a2 2 0 01-2-2V7a2 2 0 012-2z' /><path stroke-linecap='round' stroke-linejoin='round' stroke-width='2' d='M3 7l9 6 9-6' /></svg>") ].

Fixpoint own (key : jsstring) (props : list (jsstring * jsstring)) : option jsstring :=
  match props with
  | [] => None
  | (k, x) :: props' => if str_eqb k key then Some x else own key props'
  end.

(** The function-valued properties of [Object.prototype]. *)
Definition object_prototype_methods : list jsstring :=
  map lit ["constructor"; "hasOwnProperty"; "isPrototypeOf"; "propertyIsEnumerable";
           "toLocaleString"; "toString"; "valueOf"; "__defineGetter__";
           "__defineSetter__"; "__lookupGetter__"; "__lookupSetter__"]%string.

(** [icons[iconName]]: the own property, or else the inherited one. *)
Definition icons_get (iconName : jsstring) : option property :=
  match own iconName icons with
  | Some svg => Some (Fragment svg)
  | None =>
      if str_eqb iconName (lit "__proto__") then Some ObjectPrototype
      else if existsb (str_eqb iconName) object_prototype_methods
           then Some (BuiltinFunction iconName)
           else None
  end.

(** [icons[iconName] || '']: objects and functions are truthy, and so is a
    string that is not empty. *)
Definition getIconSVG (iconName : jsstring) : property :=
  match icons_get iconName with
  | Some (Fragment []) | None => Fragment []
  | Some p => p
  end.

Section Rendering.

(** [Function.prototype.toString] of a built-in function, by its name: the
    text is left to the implementation (it has the form of a function
    declaration whose body is [[native code]]). *)
Variable native_source : jsstring -> jsstring.

(** [marked(text)] with the options set at the top of the module; [None]
    when the converter throws. *)
Variable marked : jsstring -> option jsstring.

(** ToString, as the template literal applies it to [getIconSVG(...)]. *)
Definition ToString (p : property) : jsstring :=
  match p with
  | Fragment svg => svg
  | BuiltinFunction name => native_source name
  | ObjectPrototype => lit "[object Object]"
  end.

Definition icon_span : RegExp.replacer :=
  fun matched before after caps =>
    let iconName := capture_text caps 1 in
    qlit "<span class='inline-block align-middle'>"
    ++ ToString (getIconSVG (trim iconName)) ++ lit "</span>".

Definition renderIcons (text : jsstring) : jsstring :=
  RegExp.replace_all Patterns.icon_token icon_span text.

(** ** The safe renderer *)

Definition preprocessResponse (text : jsstring) : jsstring :=
  let processedText :=
    RegExp.replace_all Patterns.hard_space (RegExp.template (lit " ")) text in
  let processedText :=
    RegExp.replace_all Patterns.inline_rule
      (RegExp.template (lit "$1" ++ [LF; LF] ++ lit "---" ++ [LF; LF])) processedText in
  let processedText :=
    RegExp.replace_all Patterns.star_bullet (RegExp.template (lit "$1* ")) processedText in
  let processedText :=
    RegExp.replace_all Patterns.heading_marker (RegExp.template (lit "$1 ")) processedText in
  let processedText :=
    RegExp.replace_all Patterns.quote_marker (RegExp.template (lit "$1 ")) processedText in
  trim processedText.

(** The value of [safeHtml] that is returned, from the markup [html] that
    [marked] produced. *)
Definition safeHtml (html : jsstring) : jsstring :=
  let safeHtml := RegExp.replace_all Patterns.script_block (RegExp.template []) html in
  let safeHtml := RegExp.replace_all Patterns.javascript_scheme (RegExp.template []) safeHtml in
  let safeHtml := RegExp.replace_all Patterns.handler_double (RegExp.template []) safeHtml in
  let safeHtml := RegExp.replace_all Patterns.handler_single (RegExp.template []) safeHtml in
  let safeHtml :=
    RegExp.replace_all Patterns.heading_hashes (RegExp.template (lit "<$1$2>")) safeHtml in
  RegExp.replace_all Patterns.empty_heading (RegExp.template []) safeHtml.

Definition safeRenderMarkdown (content : jsstring) : jsstring :=
  match marked (preprocessResponse content) with
  | Some html => safeHtml html
  | None => content   (* catch: fallback to plain text *)
  end.

End Rendering.

(** ** Message actions *)

(** The pattern "/<[^>]*>/g". *)
Definition tag_pattern : RegExp.regex :=
  Patterns.seqs [RegExp.chr (code "<"); RegExp.Star true (RegExp.none_of (lit ">"));
                 RegExp.chr (code ">")].

(** [message.text?.replace(/<[^>]*>/g, '') || '']: the answer as plain text,
    as [handleCopy], [buildShareText] and [generateDOCX] compute it. *)
Definition answerText (text : jsstring) : jsstring :=
  RegExp.replace_all tag_pattern (RegExp.template []) text.

(** The state of the two reaction buttons of a message. *)
Record Reaction := {
  isLiked : bool;
  isDisliked : bool
}.

(** [useState(false)] for both. *)
Definition no_reaction : Reaction := {| isLiked := false; isDisliked := false |}.

Definition handleLike (s : Reaction) : Reaction :=
  {| isLiked := negb (isLiked s);
     isDisliked := if isDisliked s then false else isDisliked s |}.

Definition handleDislike (s : Reaction) : Reaction :=
  {| isLiked := if isLiked s then false else isLiked s;
     isDisliked := negb (isDisliked s) |}.

(** A click on one of the two buttons. *)
Inductive click := Like | Dislike.

Definition react (s : Reaction) (c : click) : Reaction :=
  match c with
  | Like => handleLike s
  | Dislike => handleDislike s
  end.

(** ** Instances used to run the model on concrete inputs *)

(** The numbers that are integers (of a size that is printed in plain
    decimal notation). *)
Definition integer_json (z : Z) : jsstring :=
  lit (NilZero.string_of_int (Z.to_int z)).

#[export] Instance integers : Numbers := {|
  number := Z;
  number_truthy := fun z => negb (Z.eqb z 0);
  number_json := integer_json
|}.

(** The text that V8 gives for a built-in function. *)
Definition native_code (name : jsstring) : jsstring :=
  lit "function " ++ name ++ lit "() { [native code] }".

(** An object under [n] nested "data" wrappers. *)
Fixpoint wrapped {NUM : Numbers} (n : nat) (inner : json) : json :=
  match n with
  | O => inner
  | S n' => JObj [(lit "data", wrapped n' inner)]
  end.

(** The payload [{ "answer": "hi" }] and the response it is reconciled to. *)
Definition hi_payload {NUM : Numbers} : json := JObj [(lit "answer", JStr (lit "hi"))].

Definition hi_response {NUM : Numbers} : BotResponse :=
  {| answer := lit "hi"; related_content := None; recommendations := None;
     file_links := None; tables := None |}.

(** The per-entity conditions, as properties of a decoded value: an object
    with a string [title] and a string [url]; an object with a string
    [title] and arrays [headers] and [rows]. *)
Definition is_link {NUM : Numbers} (item : json) : Prop :=
  exists props t u,
    item = JObj props /\ assoc (lit "title") props = Some (JStr t)
    /\ assoc (lit "url") props = Some (JStr u).

Definition is_table {NUM : Numbers} (item : json) : Prop :=
  exists props t hs rs,
    item = JObj props /\ assoc (lit "title") props = Some (JStr t)
    /\ assoc (lit "headers") props = Some (JArr hs)
    /\ assoc (lit "rows") props = Some (JArr rs).

(** ** The vocabulary of the statements *)

Import RegExp.

(** *** Texts *)

(** [s'] is what is left of [s] at some later position. *)
Definition suffix (s' s : jsstring) : Prop := exists pre, s = pre ++ s'.

Definition free_of (P : char -> bool) (s : jsstring) : Prop :=
  Forall (fun x => P x = false) s.

(** The longest run of code units of the class [P] at the head of a text,
    and what follows it. *)
Fixpoint span (P : char -> bool) (s : jsstring) : jsstring * jsstring :=
  match s with
  | x :: s' => if P x then (x :: fst (span P s'), snd (span P s')) else ([], s)
  | [] => ([], [])
  end.

(** The code unit to the left of the position reached after [w]. *)
Definition after (prev : option char) (w : jsstring) : option char :=
  match rev w with
  | x :: _ => Some x
  | [] => prev
  end.

Definition nonempty (p : jsstring) : bool :=
  match p with [] => false | _ :: _ => true end.

(** *** Matching *)

(** [needs P r]: every match of [r] consumes a code unit that satisfies [P]. *)
Fixpoint needs (P : char -> bool) (r : regex) : Prop :=
  match r with
  | Char p => forall x, p x = true -> P x = true
  | Seq r1 r2 => needs P r1 \/ needs P r2
  | Alt r1 r2 => needs P r1 /\ needs P r2
  | Group _ r1 => needs P r1
  | _ => False
  end.

(** What [r*] does for a class [r]: it tries the continuation after the
    longest run first, then after shorter and shorter ones. *)
Fixpoint greedy_scan (P : char -> bool) (k : cont) (prev : option char) (s : jsstring)
    (c : captures) : option result :=
  match s with
  | x :: s' =>
      if P x then
        match greedy_scan P k (Some x) s' c with
        | Some res => Some res
        | None => k prev s c
        end
      else k prev s c
  | [] => k prev s c
  end.

(** *** Text repair *)

(** The code units that a repair rule looks for: the line feed, the
    backslash, the bullet glyphs, the markers [* _ - + #] and the digits. *)
Definition markup_char (c : char) : bool :=
  (char_in ([LF; BACKSLASH; BULLET; EN_DASH] ++ lit "*_-+#") c || is_digit c)%bool.

(** Plain prose: a text without any of them. *)
Definition plain (s : jsstring) : Prop := free_of markup_char s.

(** A text that begins, after optional white space, with a bullet marker
    followed by white space: the part that [\s*[-*+]\s] matches, and the rest. *)
Definition bullet_prefix (t : jsstring) : option (jsstring * jsstring) :=
  match snd (span is_space t) with
  | mk :: w :: rest =>
      if char_in (lit "-*+") mk && is_space w
      then Some (fst (span is_space t) ++ [mk; w], rest)
      else None
  | _ => None
  end.

(** The same for a number followed by a full stop and white space: the part
    that [\s*\d+\.\s] matches, and the rest. *)
Definition number_prefix (t : jsstring) : option (jsstring * jsstring) :=
  match snd (span is_space t) with
  | d :: r =>
      if is_digit d then
        match snd (span is_digit r) with
        | dot :: w :: rest =>
            if N.eqb dot 46 && is_space w
            then Some (fst (span is_space t) ++ d :: fst (span is_digit r) ++ [dot; w], rest)
            else None
        | _ => None
        end
      else None
  | [] => None
  end.

(** A line that begins a bulleted or a numbered list item. *)
Definition starts_list_item (q : jsstring) : bool :=
  match bullet_prefix q, number_prefix q with
  | None, None => false
  | _, _ => true
  end.

(** Where a blank line can be put: at a code unit that is not a line feed and
    is followed by one. *)
Definition at_line_end (s : jsstring) : bool :=
  match s with
  | c :: n :: _ => negb (N.eqb c LF) && N.eqb n LF
  | _ => false
  end.

(** A text in which no code unit other than a line feed is followed by a
    line feed. *)
Definition quiet (s : jsstring) : Prop :=
  forall s', suffix s' s -> at_line_end s' = false.

(** The replacement ['$1\n\n$2']. *)
Definition blank_line : replacer := template (lit "$1" ++ [LF; LF] ++ lit "$2").

(** What one replacement of the list step does, told from left to right and
    without a pattern.  [item t] says whether a list item begins at [t], as
    [bullet_prefix] and [number_prefix] do, and gives the stretch up to and
    with the white-space code unit after its marker.  A line feed is doubled
    when it directly follows a code unit that is not a line feed and a list
    item begins after it; the search goes on after that stretch: the [skip]
    code units before its end are copied without being looked at. *)
Fixpoint break_before (item : jsstring -> option (jsstring * jsstring)) (skip : nat)
    (s : jsstring) : jsstring :=
  match s with
  | [] => []
  | c :: s' =>
      match skip with
      | S skip' => c :: break_before item skip' s'
      | O =>
          if at_line_end s then
            match item (tl s') with
            | Some (w, _) => c :: LF :: break_before item (S (length w)) s'
            | None => c :: break_before item 0 s'
            end
          else c :: break_before item 0 s'
      end
  end.

(** The text of a heading line, as the loop computes it ([m[2].trim()]);
    [None] for a line that is not a heading. *)
Definition heading_text (ln : jsstring) : option jsstring :=
  match RegExp.match_ Patterns.heading_line ln with
  | Some m => Some (trim (capture_text m 2))
  | None => None
  end.

Section LastHeading.
Variable toLowerCase : jsstring -> jsstring.

(** The value of [lastHeadingText] after the lines [lines2]. *)
Fixpoint last_heading (lastHeadingText : jsstring) (lines2 : list jsstring) : jsstring :=
  match lines2 with
  | [] => lastHeadingText
  | ln :: rest =>
      match heading_text ln with
      | Some current =>
          if str_eqb (toLowerCase current) (toLowerCase lastHeadingText)
          then last_heading lastHeadingText rest
          else last_heading current rest
      | None => last_heading [] rest
      end
  end.

End LastHeading.

(** *** The sanitiser *)

(** The code units of markup that the sanitiser looks for. *)
Definition danger (c : char) : bool := char_in (QUOTE :: lit "<:'") c.

(** Inert text: no [<], no colon, no quote of either kind. *)
Definition inert (s : jsstring) : Prop := free_of danger s.

Definition not_lt (x : char) : bool := negb (char_in (lit "<") x).

Definition not_quote (q : char) (x : char) : bool := negb (char_in [q] x).

(** [on\w+=Q[^Q]*Q] for a quote [q]: the two patterns of the sanitiser are
    its instances at the double quote and at the apostrophe. *)
Definition handler (q : char) : regex :=
  Patterns.seqs [str_i (lit "on"); Plus true word; chr (code "="); chr q;
                 Star true (none_of [q]); chr q].

(** A converter that hands its input on unchanged, which is what [marked]
    does with a block of raw HTML. *)
Definition raw_html : jsstring -> option jsstring := fun text => Some text.

(** [misses r prev u rest]: in the text [u ++ rest], read after the code unit
    [prev], the pattern matches at no position of [u]. *)
Fixpoint misses (r : regex) (prev : option char) (u rest : jsstring) : bool :=
  match u with
  | [] => true
  | x :: u' =>
      match exec_at r prev (u ++ rest) with
      | Some _ => false
      | None => misses r (Some x) u' rest
      end
  end.

(** The pattern matches nowhere in [s], read after [prev]. *)
Definition matches_nowhere (r : regex) (prev : option char) (s : jsstring) : bool :=
  match search_from r prev s with Some _ => false | None => true end.

(** In [pre ++ mid ++ post] the pattern matches at no position before [mid]
    and nowhere after it. *)
Definition only_match (r : regex) (pre mid post : jsstring) : bool :=
  misses r None pre (mid ++ post) && matches_nowhere r (after None (pre ++ mid)) post.

(** None of the patterns matches in [s]: [/r/.test(s)] is false for each. *)
Definition unmatched (rs : list regex) (s : jsstring) : bool :=
  forallb (fun r => negb (test r s)) rs.

(** The patterns of the sanitiser, in the order in which they are applied. *)
Definition sanitizer_patterns : list regex :=
  [Patterns.script_block; Patterns.javascript_scheme; Patterns.handler_double;
   Patterns.handler_single; Patterns.heading_hashes; Patterns.empty_heading].

(** A script element and an event-handler attribute, as texts. *)
Definition script_element (body : jsstring) : jsstring :=
  lit "<script>" ++ body ++ lit "</script>".

Definition handler_attribute (q : char) (name v : jsstring) : jsstring :=
  lit "on" ++ name ++ lit "=" ++ [q] ++ v ++ [q].

(** *** Payloads and responses *)

Section Payloads.
Context {NUM : Numbers}.

(** A [BotResponse] read as the [Partial<BotResponse>] that
    [validateBotResponse] takes. *)
Definition as_partial (r : BotResponse) : RawResponse :=
  {| raw_answer := Some (JStr (answer r));
     raw_related_content := option_map JArr (related_content r);
     raw_recommendations := option_map JArr (recommendations r);
     raw_file_links := option_map JArr (file_links r);
     raw_tables := option_map JArr (tables r) |}.

(** Whether [null] occurs anywhere in a decoded value. *)
Fixpoint has_null (v : json) : bool :=
  match v with
  | JNull => true
  | JArr items => existsb has_null items
  | JObj props => existsb (fun p => has_null (snd p)) props
  | _ => false
  end.

(** An array or an object: the values that are truthy and of type
    ['object']. *)
Definition is_container (v : json) : bool :=
  match v with JArr _ | JObj _ => true | _ => false end.

(** The test of [parseTextResponse] on the trimmed text: it begins and ends
    with braces, or with brackets. *)
Definition braced (trimmedText : jsstring) : bool :=
  (starts_with (lit "{") trimmedText && ends_with (lit "}") trimmedText)
  || (starts_with (lit "[") trimmedText && ends_with (lit "]") trimmedText).

(** The response that the [catch] of [sendMessage] falls back to. *)
Definition failed_response : BotResponse :=
  {| answer := lit "Failed to get response"; related_content := None;
     recommendations := None; file_links := None; tables := None |}.

End Payloads.

(** *** Classes of code units *)

Definition is_dollar (c : char) : bool := N.eqb c DOLLAR.
Definition is_lt (c : char) : bool := N.eqb c 60.
Definition is_gt (c : char) : bool := N.eqb c 62.
Definition is_open_bracket (c : char) : bool := N.eqb c 91.
Definition is_close_bracket (c : char) : bool := N.eqb c 93.
Definition is_hash (c : char) : bool := N.eqb c 35.

(** The markers of a horizontal rule, [- _ *], and what a line that is a
    rule is made of: markers and white space. *)
Definition is_rule_mark (c : char) : bool := char_in (lit "-_*") c.
Definition is_rule_char (c : char) : bool := is_rule_mark c || is_space c.

(** The marker of a bullet: [-], [*] or [+]. *)
Definition is_bullet (c : char) : bool := char_in (lit "-*+") c.

(** The code units that a repair rule other than the two heading rules looks
    for: those of [markup_char] but the number sign. *)
Definition list_char (c : char) : bool :=
  (char_in ([LF; BACKSLASH; BULLET; EN_DASH] ++ lit "*_-+") c || is_digit c)%bool.

(** The code units that [preprocessResponse] looks for: the ampersand of
    [&nbsp;], the no-break space, the tab and the markers [- * # >]. *)
Definition layout_char (c : char) : bool := char_in ([38; NBSP; 9]%N ++ lit "-*#>") c.

(** A text without any of them. *)
Definition calm (s : jsstring) : Prop := free_of layout_char s.

(** A run of [n] number signs. *)
Definition hashes (n : nat) : jsstring := repeat 35%N n.

(** A table none of whose texts holds a dollar sign. *)
Definition dollar_free (table : Table) : Prop :=
  free_of is_dollar (title table)
  /\ Forall (free_of is_dollar) (headers table)
  /\ Forall (Forall (free_of is_dollar)) (rows table).

(** A first marker followed by groups of optional white space and a marker:
    the texts that [/^[-_*](\s*[-_*]){2,}$/] is written for, when there are
    two groups or more. *)
Definition rule_group_ok (g : jsstring * char) : Prop :=
  Forall (fun y => is_space y = true) (fst g) /\ is_rule_mark (snd g) = true.

Definition rule_groups (more : list (jsstring * char)) : jsstring :=
  concat (map (fun g => fst g ++ [snd g]) more).

Definition rule_text (first : char) (more : list (jsstring * char)) : jsstring :=
  first :: rule_groups more.

(** *** More on matching *)

(** A pattern without assertions: whether it matches at a position does not
    depend on what comes before the position. *)
Fixpoint no_assert (r : regex) : Prop :=
  match r with
  | Empty | Char _ => True
  | Seq r1 r2 | Alt r1 r2 => no_assert r1 /\ no_assert r2
  | Star _ r1 | Group _ r1 | NotAhead r1 => no_assert r1
  | Assert _ => False
  end.

(** Two outcomes of a match that agree on where the match ends and on the
    groups. *)
Definition agree (x y : option result) : Prop :=
  match x, y with
  | Some (_, s, c), Some (_, s', c') => s = s' /\ c = c'
  | None, None => True
  | _, _ => False
  end.

(** A replacement that does not look at the text before the match. *)
Definition local (f : replacer) : Prop :=
  forall matched before before' after caps,
    f matched before after caps = f matched before' after caps.

(** What [r*?] does for a class [r]: it tries the continuation first, and
    takes one more code unit only when the continuation fails. *)
Fixpoint lazy_scan (P : char -> bool) (k : cont) (prev : option char) (s : jsstring)
    (c : captures) : option result :=
  match k prev s c with
  | Some res => Some res
  | None =>
      match s with
      | x :: s' => if P x then lazy_scan P k (Some x) s' c else None
      | [] => None
      end
  end.

(** [only P r]: a match of [r] consumes code units of the class [P] only. *)
Fixpoint only (P : char -> bool) (r : regex) : Prop :=
  match r with
  | Empty | Assert _ | NotAhead _ => True
  | Char p => forall x, p x = true -> P x = true
  | Seq r1 r2 | Alt r1 r2 => only P r1 /\ only P r2
  | Star _ r1 | Group _ r1 => only P r1
  end.

(** The group [(\s*[-_*])] of the pattern of a horizontal rule. *)
Definition rule_group : regex :=
  Group 1 (Patterns.seqs [Star true space; one_of (lit "-_*")]).

(** The replacement ['$1\n\n---\n\n']. *)
Definition rule_block : replacer :=
  template (lit "$1" ++ [LF; LF] ++ lit "---" ++ [LF; LF]).

(** *** Prose on several lines *)

(** The code units that a repair rule other than the collapse of blank
    lines looks for: those of [markup_char] but the line feed. *)
Definition mark_char (c : char) : bool :=
  (char_in ([BACKSLASH; BULLET; EN_DASH] ++ lit "*_-+#") c || is_digit c)%bool.

(** Prose on one or more lines: a text without any of them. *)
Definition prose (s : jsstring) : Prop := free_of mark_char s.

(** The number of line feeds in the white space at the head of a text. *)
Definition breaks (s : jsstring) : nat :=
  length (filter (N.eqb LF) (fst (span is_space s))).

(** No stretch of white space in the text holds three line feeds. *)
Fixpoint no_blank_run (s : jsstring) : bool :=
  match s with
  | [] => true
  | _ :: s' => (breaks s <? 3) && no_blank_run s'
  end.

(** [\n(\s*\n){n}]: the pattern of blank lines is [break_run 2]. *)
Fixpoint break_run (n : nat) : regex :=
  match n with
  | O => chr LF
  | S n' => Seq (chr LF) (Seq (Star true space) (break_run n'))
  end.

(** The bullet glyphs [•] and [–]. *)
Definition is_glyph (c : char) : bool := char_in [BULLET; EN_DASH] c.

(** White space other than the line feed. *)
Definition is_blank (c : char) : bool := is_space c && negb (N.eqb LF c).

(** *** Texts without items *)

(** No code unit of the class [P] is directly followed by one of the
    class [Q]. *)
Fixpoint no_pair (P Q : char -> bool) (s : jsstring) : bool :=
  match s with
  | [] => true
  | x :: t =>
      match t with
      | [] => true
      | y :: _ => negb (P x && Q y) && no_pair P Q t
      end
  end.

Definition UNDERSCORE : char := 95%N.

(** No backslash is directly followed by the letter n. *)
Definition escape_free (s : jsstring) : bool :=
  no_pair (N.eqb BACKSLASH) (N.eqb (code "n")) s.

(** The code units that start an item, a rule or a heading when they begin
    a line: the bullet glyphs and the markers [- + * _ #]. *)
Definition item_mark (c : char) : bool :=
  char_in ([BULLET; EN_DASH] ++ lit "-+*_#") c.

(** Digits, if any, and then a full stop. *)
Fixpoint stop_after (s : jsstring) : bool :=
  match s with
  | x :: t => if is_digit x then stop_after t else N.eqb x 46
  | [] => false
  end.

(** The text begins with a bullet glyph, with one of the markers
    [- + * _ #], or with a number and a full stop. *)
Definition item_head (s : jsstring) : bool :=
  match s with
  | x :: t => item_mark x || (is_digit x && stop_after t)
  | [] => false
  end.

(** No line of the text begins, after white space, like an item.  [fresh]
    says that only white space was seen since the start of the line; the
    lines are those that the line terminators make. *)
Fixpoint no_item_from (fresh : bool) (s : jsstring) : bool :=
  match s with
  | [] => true
  | x :: t =>
      if is_space x then no_item_from (fresh || is_line_terminator x) t
      else negb (fresh && item_head s) && no_item_from false t
  end.

(** A text that the rules for emphasis, lists, rules and headings leave
    alone: it has no doubled underscore and, once its escaped line feeds are
    line feeds, none of its lines begins like an item.  Hyphens, stars,
    hashes, single underscores and numbers inside a line are allowed. *)
Definition itemless (s : jsstring) : bool :=
  no_pair (N.eqb UNDERSCORE) (N.eqb UNDERSCORE) s
  && no_item_from true (replace_all Patterns.escaped_newline (template [LF]) s).

(** White space and then the head of an item. *)
Definition item_at (s : jsstring) : Prop :=
  exists ws t, s = ws ++ t /\ Forall (fun x => is_space x = true) ws /\ item_head t = true.

(** A pattern that matches an item at the start of a line only. *)
Definition line_item (r : regex) : Prop :=
  forall prev s res,
    exec_at r prev s = Some res -> is_terminator_opt prev = true /\ item_at s.

(** A pattern that matches an item at the start of the text only. *)
Definition text_item (r : regex) : Prop :=
  forall prev s res, exec_at r prev s = Some res -> prev = None /\ item_at s.

(** A pattern that matches a code unit, a line feed and an item only. *)
Definition next_item (r : regex) : Prop :=
  forall prev s res,
    exec_at r prev s = Some res -> exists c t, s = c :: LF :: t /\ item_at t.

(** A pattern whose matches are white space that starts with a line
    feed. *)
Definition break_led (r : regex) : Prop :=
  forall prev s q s1 c1, exec_at r prev s = Some (q, s1, c1) ->
    exists w, s = LF :: w ++ s1 /\ Forall (fun x => is_space x = true) w.

(** * Verification *)

Unset Implicit Arguments.

(** ** The shape reconciler and the validator *)

Section ReconcilerFacts.
Context {NUM : Numbers}.

Lemma assoc_depth (key : jsstring) (props : list (jsstring * json)) (x : json) :
  assoc key props = Some x ->
  depth x <= fold_right (fun p d => Nat.max (depth (snd p)) d) 0 props.
Proof.
  induction props as [|[k y] props IH]; simpl; [discriminate|].
  destruct (str_eqb k key).
  - intros [= ->]. lia.
  - intros H. specialize (IH H). lia.
Qed.

Lemma Get_object (v : value) (key : jsstring) :
  truthy v && typeof_object v = true -> Get v key = Normal (match v with Some x => get x key | None => None end).
Proof.
  destruct v as [[]|]; simpl; try discriminate; reflexivity.
Qed.

Lemma or_else_normal (a b : value) :
  or_else (Normal a) (Normal b) = Normal (if truthy a then a else b).
Proof. unfold or_else; simpl. destruct (truthy a); reflexivity. Qed.

Ltac settle := left; eexists; split; [|intros; reflexivity]; discriminate.

Ltac complete :=
  left; eexists; split; [|intros; reflexivity];
  first [left; reflexivity | right; eexists; reflexivity].

Lemma body_cases (v : json) :
  (exists r, r <> OutOfFuel /\ forall self, parseJsonResponse_body self (Some v) = r)
  \/ (exists x, depth x < depth v /\ forall self, parseJsonResponse_body self (Some v) = self (Some x)).
Proof.
  unfold parseJsonResponse_body.
  destruct v as [|b|n|s|items|props];
    try destruct items as [|first rest];
    [cbn -[JSON_stringify lit validateBotResponse] ..
    |cbn -[JSON_stringify lit validateBotResponse truthy typeof_object or_else]];
    try settle.
  - right. exists first. split; [simpl; lia|]. intros; reflexivity.
  - destruct (truthy (assoc (lit "response") props) && typeof_object (assoc (lit "response") props)) eqn:E1.
    + rewrite !(Get_object _ _ E1), !or_else_normal. cbn [bind]. settle.
    + rewrite !or_else_normal. cbn [bind].
      match goal with |- context [if truthy ?d then Normal _ else _] => destruct (truthy d) end;
        [settle|].
      destruct (truthy (assoc (lit "data") props) && typeof_object (assoc (lit "data") props)) eqn:E3;
        [|settle].
      right. destruct (assoc (lit "data") props) as [d|] eqn:Ed; [|discriminate].
      exists d. split; [|intros; reflexivity].
      apply assoc_depth in Ed. simpl. lia.
Qed.

(** One call either completes by itself, with a response or with the
    TypeError, or hands over to a nested call on a value that is less
    deep. *)
Lemma body_outcomes (v : json) :
  (exists r, (r = Throw TypeError \/ exists b, r = Normal b)
             /\ forall self, parseJsonResponse_body self (Some v) = r)
  \/ (exists x, depth x < depth v /\ forall self, parseJsonResponse_body self (Some v) = self (Some x)).
Proof.
  assert (forall r : outcome BotResponse,
             (r = Throw TypeError \/ exists b, r = Normal b) -> r <> OutOfFuel) as _.
  { intros r [-> | [b ->]]; discriminate. }
  unfold parseJsonResponse_body.
  destruct v as [|b|n|s|items|props];
    try destruct items as [|first rest];
    [cbn -[JSON_stringify lit validateBotResponse] ..
    |cbn -[JSON_stringify lit validateBotResponse truthy typeof_object or_else]];
    try complete.
  - right. exists first. split; [simpl; lia|]. intros; reflexivity.
  - destruct (truthy (assoc (lit "response") props) && typeof_object (assoc (lit "response") props)) eqn:E1.
    + rewrite !(Get_object _ _ E1), !or_else_normal. cbn [bind]. complete.
    + rewrite !or_else_normal. cbn [bind].
      match goal with |- context [if truthy ?d then Normal _ else _] => destruct (truthy d) end;
        [complete|].
      destruct (truthy (assoc (lit "data") props) && typeof_object (assoc (lit "data") props)) eqn:E3;
        [|complete].
      right. destruct (assoc (lit "data") props) as [d|] eqn:Ed; [|discriminate].
      exists d. split; [|intros; reflexivity].
      apply assoc_depth in Ed. simpl. lia.
Qed.

Lemma fuel_enough (fuel : nat) : forall v : json,
  depth v < fuel ->
  parseJsonResponse_fuel fuel (Some v) <> OutOfFuel
  /\ forall fuel', depth v < fuel' ->
       parseJsonResponse_fuel fuel' (Some v) = parseJsonResponse_fuel fuel (Some v).
Proof.
  induction fuel as [|fuel IH]; intros v Hv; [lia|].
  cbn [parseJsonResponse_fuel].
  destruct (body_cases v) as [(r & Hr & E)|(x & Hx & E)].
  - rewrite E. split; [exact Hr|].
    intros [|fuel'] Hf; [lia|]. cbn [parseJsonResponse_fuel]. apply E.
  - rewrite E. destruct (IH x ltac:(lia)) as [H1 H2]. split; [exact H1|].
    intros [|fuel'] Hf; [lia|]. cbn [parseJsonResponse_fuel]. rewrite E.
    apply H2. lia.
Qed.

Lemma parseJsonResponse_returns (v : json) : parseJsonResponse v <> OutOfFuel.
Proof. apply fuel_enough. lia. Qed.

Lemma parseJsonResponse_more_fuel (v : json) (k : nat) :
  parseJsonResponse_fuel (S (depth v) + k) (Some v) = parseJsonResponse v.
Proof. apply (fuel_enough (S (depth v)) v); lia. Qed.

Lemma wrapped_is_object (n : nat) :
  exists props, wrapped n hi_payload = JObj props.
Proof. destruct n; eexists; reflexivity. Qed.

Lemma parse_wrapper (self : value -> outcome BotResponse) (props : list (jsstring * json)) :
  parseJsonResponse_body self (Some (JObj [(lit "data", JObj props)]))
  = self (Some (JObj props)).
Proof. reflexivity. Qed.

Lemma wrapped_out_of_fuel (n : nat) :
  parseJsonResponse_fuel n (Some (wrapped n hi_payload)) = OutOfFuel.
Proof.
  induction n as [|n IH]; [reflexivity|].
  cbn [parseJsonResponse_fuel wrapped].
  destruct (wrapped_is_object n) as [props E]. rewrite E in *.
  rewrite parse_wrapper. exact IH.
Qed.

Lemma wrapped_reconciled (n k : nat) :
  parseJsonResponse_fuel (S n + k) (Some (wrapped n hi_payload)) = Normal hi_response.
Proof.
  induction n as [|n IH]; [reflexivity|].
  change (S (S n) + k) with (S (S n + k)).
  cbn [parseJsonResponse_fuel wrapped].
  destruct (wrapped_is_object n) as [props E]. rewrite E in *.
  rewrite parse_wrapper. exact IH.
Qed.

Lemma wrapped_depth (n : nat) : depth (wrapped n hi_payload) = S n.
Proof.
  induction n as [|n IH]; [reflexivity|].
  cbn [wrapped depth fold_right snd]. rewrite IH. lia.
Qed.

Lemma link_ok_iff (item : json) : link_ok item = true <-> is_link item.
Proof.
  unfold link_ok, is_link. split.
  - destruct item as [| | | | |props]; simpl; rewrite ?andb_false_r; simpl; try discriminate.
    destruct (assoc (lit "title") props) as [[]|] eqn:Ht; simpl; try discriminate.
    destruct (assoc (lit "url") props) as [[]|] eqn:Hu; simpl; try discriminate.
    intros _. eauto 6.
  - intros (props & t & u & -> & Ht & Hu). simpl. rewrite Ht, Hu. reflexivity.
Qed.

Lemma table_ok_iff (item : json) : table_ok item = true <-> is_table item.
Proof.
  unfold table_ok, is_table. split.
  - destruct item as [| | | | |props]; simpl; rewrite ?andb_false_r; simpl; try discriminate.
    destruct (assoc (lit "title") props) as [[]|] eqn:Ht; simpl; try discriminate.
    destruct (assoc (lit "headers") props) as [[]|] eqn:Hh; simpl; try discriminate.
    destruct (assoc (lit "rows") props) as [[]|] eqn:Hr; simpl; try discriminate.
    intros _. eauto 8.
  - intros (props & t & hs & rs & -> & Ht & Hh & Hr). simpl. rewrite Ht, Hh, Hr. reflexivity.
Qed.

Lemma falsy_answer_field (props : list (jsstring * json)) (key : jsstring) :
  assoc key props = None \/ assoc key props = Some (JStr []) ->
  truthy (assoc key props) = false.
Proof. intros [-> | ->]; reflexivity. Qed.

(** C1 (the code departs from the claim). The claim: the reconciler followed
    by the validator returns a response for every decoded JSON value and
    never throws.  On the code, the first statement of [parseJsonResponse]
    reads [jsonData.response], and reading a property of [null] throws a
    TypeError: the payload [null] throws, and so does the array [[null]],
    whose first element the reconciler recurses into. *)
Theorem parseJsonResponse_null_throws :
  parseJsonResponse JNull = Throw TypeError
  /\ parseJsonResponse (JArr [JNull]) = Throw TypeError.
Proof. split; reflexivity. Qed.

(** Apart from that TypeError the composition does return a response, whose
    [answer] is a string by its type. *)
Lemma parseJsonResponse_returns_or_throws (v : json) :
  parseJsonResponse v = Throw TypeError \/ exists r, parseJsonResponse v = Normal r.
Proof.
  pose proof (parseJsonResponse_returns v) as H. revert H.
  unfold parseJsonResponse. generalize (S (depth v)). intros fuel. revert v.
  induction fuel as [|fuel IH]; intros v H; [contradiction H; reflexivity|].
  cbn [parseJsonResponse_fuel] in *.
  destruct (body_outcomes v) as [(r & Hr & E)|(x & Hx & E)]; rewrite E in *.
  - destruct Hr as [-> | [b ->]]; [left; reflexivity|right; eauto].
  - apply IH, H.
Qed.


(** *** The reconciler on a call stack *)

(** Running out of stack is the only difference with the count of nested
    calls. *)
Lemma on_as_fuel (stack : nat) : forall v : json,
  parseJsonResponse_on stack (Some v)
  = match parseJsonResponse_fuel stack (Some v) with
    | OutOfFuel => Throw RangeError
    | completion => completion
    end.
Proof.
  induction stack as [|stack IH]; intros v; [reflexivity|].
  cbn [parseJsonResponse_on parseJsonResponse_fuel].
  destruct (body_outcomes v) as [(r & Hr & E)|(x & Hx & E)]; rewrite !E.
  - destruct Hr as [-> | [b ->]]; reflexivity.
  - apply IH.
Qed.

Lemma on_completes (stack : nat) (v : json) :
  parseJsonResponse_on stack (Some v) <> OutOfFuel.
Proof.
  rewrite on_as_fuel. destruct (parseJsonResponse_fuel stack (Some v)); discriminate.
Qed.

(** With room for more nested calls than the value is deep, the room does
    not count. *)
Lemma on_enough (stack : nat) (v : json) :
  depth v < stack -> parseJsonResponse_on stack (Some v) = parseJsonResponse v.
Proof.
  intros H. rewrite on_as_fuel.
  destruct (fuel_enough (S (depth v)) v ltac:(lia)) as [_ E].
  rewrite (E stack H). fold (parseJsonResponse v).
  pose proof (parseJsonResponse_returns v) as Hr.
  destruct (parseJsonResponse v); [reflexivity|reflexivity|contradiction].
Qed.

Lemma parseJsonResponse_no_overflow (v : json) : parseJsonResponse v <> Throw RangeError.
Proof.
  destruct (parseJsonResponse_returns_or_throws v) as [-> | [r ->]]; discriminate.
Qed.

Lemma wrapped_on (n : nat) : forall stack : nat,
  parseJsonResponse_on stack (Some (wrapped n hi_payload))
  = if n <? stack then Normal hi_response else Throw RangeError.
Proof.
  induction n as [|n IH]; intros [|stack]; try reflexivity.
  cbn [parseJsonResponse_on wrapped].
  destruct (wrapped_is_object n) as [props E]. rewrite E in *.
  rewrite parse_wrapper. apply IH.
Qed.

(** C6 (amended). The reconciler has no cap of its own on its recursion: it
    makes one nested call for each "data" wrapper (or leading array element)
    it goes through.  So [n] wrappers around [{ "answer": "hi" }] are
    reconciled to the answer "hi" whenever the call stack has room for the
    [n + 1] nested calls, and when it has not the call ends with the
    RangeError of the engine: at no depth is the payload stringified.  On
    every decoded JSON value the call completes, and with room for more
    nested calls than the value is deep its result does not depend on the
    room. *)
Theorem reconciliation_limited_by_stack :
  (forall stack n : nat,
      parseJsonResponse_on stack (Some (wrapped n hi_payload))
      = if n <? stack then Normal hi_response else Throw RangeError)
  /\ (forall (stack : nat) (v : json),
        parseJsonResponse_on stack (Some v) <> OutOfFuel
        /\ (depth v < stack ->
            parseJsonResponse_on stack (Some v) = parseJsonResponse v
            /\ parseJsonResponse_on stack (Some v) <> Throw RangeError)).
Proof.
  split; [intros stack n; apply wrapped_on|].
  intros stack v. split; [apply on_completes|].
  intros H. rewrite (on_enough stack v H).
  split; [reflexivity|apply parseJsonResponse_no_overflow].
Qed.

End ReconcilerFacts.

Example empty_answer_text :
  @JSON_stringify integers (JObj [(lit "answer", JStr [])])
  = lit "{" ++ [LF] ++ qlit "  'answer': ''" ++ [LF] ++ lit "}".
Proof. reflexivity. Qed.


(** C6, the claim as stated fails: a payload of eleven wrappers, on a stack
    with room for twelve nested calls, is reconciled to its answer and not
    stringified; and there is no depth beyond which a payload is no longer
    reconciled. *)
Lemma reconciliation_is_not_capped :
  @parseJsonResponse_on integers 12 (Some (wrapped 11 hi_payload)) = Normal hi_response
  /\ answer (@hi_response integers) <> JSON_stringify (wrapped 11 hi_payload)
  /\ ~ (exists cap : nat, forall stack n : nat, cap < n ->
          @parseJsonResponse_on integers stack (Some (wrapped n hi_payload))
          <> Normal hi_response).
Proof.
  split; [reflexivity|]. split; [discriminate|].
  intros [cap H]. apply (H (S (S cap)) (S cap)); [lia|].
  rewrite wrapped_on. rewrite (proj2 (Nat.ltb_lt _ _)) by lia. reflexivity.
Qed.

(** ** The matcher *)

Module RegExpFacts.
Import RegExp.

Lemma suffix_refl (s : jsstring) : suffix s s.
Proof. exists []. reflexivity. Qed.

Lemma suffix_trans (a b c : jsstring) : suffix a b -> suffix b c -> suffix a c.
Proof. intros [p ->] [q ->]. exists (q ++ p). apply app_assoc. Qed.

Lemma suffix_tail (x : char) (s : jsstring) : suffix s (x :: s).
Proof. exists [x]. reflexivity. Qed.

Lemma suffix_Forall (P : char -> Prop) (s' s : jsstring) :
  suffix s' s -> Forall P s -> Forall P s'.
Proof. intros [pre ->] H. apply Forall_app in H. tauto. Qed.

Create HintDb suffix.
#[local] Hint Resolve suffix_refl suffix_tail suffix_trans : suffix.

(** The continuation is only ever called on what is left of the text: if it
    fails there, the match fails. *)
Lemma star_loop_none (g : bool) (body : cont -> cont) (k : cont) (s0 : jsstring) :
  (forall k' prev s c, suffix s s0 ->
      (forall prev' s' c', suffix s' s -> k' prev' s' c' = None) ->
      body k' prev s c = None) ->
  (forall prev' s' c', suffix s' s0 -> k prev' s' c' = None) ->
  forall fuel prev s c, suffix s s0 -> star_loop g body k fuel prev s c = None.
Proof.
  intros Hbody Hk. induction fuel as [|fuel IH]; intros prev s c Hs; cbn [star_loop].
  - apply Hk, Hs.
  - assert (body (fun prev' s' c' =>
                    if length s' <? length s then star_loop g body k fuel prev' s' c'
                    else None) prev s c = None) as E.
    { apply Hbody; [exact Hs|]. intros prev' s' c' Hs'.
      destruct (length s' <? length s); [|reflexivity].
      apply IH. eauto with suffix. }
    destruct g; rewrite E, (Hk _ _ _ Hs); reflexivity.
Qed.

Lemma m_cont_none (r : regex) : forall k prev s c,
  (forall prev' s' c', suffix s' s -> k prev' s' c' = None) ->
  m r k prev s c = None.
Proof.
  induction r as [|p|r1 IH1 r2 IH2|r1 IH1 r2 IH2|g r1 IH1|n r1 IH1|r1 IH1|a];
    intros k prev s c Hk; cbn [m].
  - apply Hk. auto with suffix.
  - destruct s as [|x s]; [reflexivity|]. destruct (p x); [|reflexivity].
    apply Hk. auto with suffix.
  - apply IH1. intros prev' s' c' Hs'. apply IH2.
    intros prev'' s'' c'' Hs''. apply Hk. eauto with suffix.
  - rewrite IH1 by exact Hk. apply IH2, Hk.
  - apply star_loop_none with (s0 := s); [|exact Hk|apply suffix_refl].
    intros k' prev' s' c' _ Hk'. apply IH1, Hk'.
  - apply IH1. intros prev' s' c' Hs'. apply Hk, Hs'.
  - destruct (m r1 _ prev s c); [reflexivity|]. apply Hk. auto with suffix.
  - destruct (holds a prev s); [|reflexivity]. apply Hk. auto with suffix.
Qed.

Lemma needs_fails (P : char -> bool) (r : regex) : needs P r ->
  forall k prev s c, free_of P s -> m r k prev s c = None.
Proof.
  induction r as [|p|r1 IH1 r2 IH2|r1 IH1 r2 IH2|g r1 IH1|n r1 IH1|r1 IH1|a];
    cbn [needs]; intros Hn k prev s c Hs; try contradiction; cbn [m].
  - destruct s as [|x s]; [reflexivity|].
    destruct (p x) eqn:E; [|reflexivity].
    apply Hn in E. inversion Hs; congruence.
  - destruct Hn as [Hn|Hn]; [apply IH1; assumption|].
    apply m_cont_none. intros prev' s' c' Hs'.
    apply IH2; [assumption|]. exact (suffix_Forall _ _ _ Hs' Hs).
  - destruct Hn as [H1 H2]. rewrite IH1 by assumption. apply IH2; assumption.
  - apply IH1; assumption.
Qed.

Lemma exec_at_needs (P : char -> bool) (r : regex) (prev : option char) (s : jsstring) :
  needs P r -> free_of P s -> exec_at r prev s = None.
Proof. intros Hn Hs. apply needs_fails with (P := P); assumption. Qed.

(** A text in which the pattern matches nowhere is left as it is. *)
Lemma replace_from_none (r : regex) (f : replacer) (fuel : nat) : forall before s,
  (forall prev s', suffix s' s -> exec_at r prev s' = None) ->
  replace_from fuel r f before s = s.
Proof.
  induction fuel as [|fuel IH]; intros before s H; [reflexivity|].
  cbn [replace_from]. rewrite H by auto with suffix.
  destruct s as [|x t]; [reflexivity|]. f_equal. apply IH.
  intros prev s' Hs'. apply H. eauto with suffix.
Qed.

Lemma replace_all_needs (P : char -> bool) (r : regex) (f : replacer) (s : jsstring) :
  needs P r -> free_of P s -> replace_all r f s = s.
Proof.
  intros Hn Hs. apply replace_from_none. intros prev s' Hs'.
  apply exec_at_needs with (P := P); [assumption|].
  exact (suffix_Forall _ _ _ Hs' Hs).
Qed.

Lemma search_from_none (r : regex) : forall s prev,
  (forall prev' s', suffix s' s -> exec_at r prev' s' = None) ->
  search_from r prev s = None.
Proof.
  induction s as [|x s IH]; intros prev H; cbn [search_from];
    rewrite H by auto with suffix; [reflexivity|].
  apply IH. intros prev' s' Hs'. apply H. eauto with suffix.
Qed.

Lemma match_needs (P : char -> bool) (r : regex) (s : jsstring) :
  needs P r -> free_of P s -> match_ r s = None.
Proof.
  intros Hn Hs. unfold match_. rewrite search_from_none; [reflexivity|].
  intros prev s' Hs'. apply exec_at_needs with (P := P); [assumption|].
  exact (suffix_Forall _ _ _ Hs' Hs).
Qed.

Lemma test_needs (P : char -> bool) (r : regex) (s : jsstring) :
  needs P r -> free_of P s -> test r s = false.
Proof.
  intros Hn Hs. unfold test. rewrite search_from_none; [reflexivity|].
  intros prev s' Hs'. apply exec_at_needs with (P := P); [assumption|].
  exact (suffix_Forall _ _ _ Hs' Hs).
Qed.

End RegExpFacts.

Import RegExp RegExpFacts.

(** ** Text repair on plain prose *)

Ltac eval_lits :=
  repeat match goal with
         | |- context [lit ?s] =>
             let t := eval vm_compute in (lit s) in change (lit s) with t
         end.

Ltac char_case :=
  let x := fresh "x" in
  let H := fresh "H" in
  intros x H;
  first
    [ apply N.eqb_eq in H; subst x; reflexivity
    | unfold markup_char; rewrite H; apply orb_true_r
    | cbn [char_in] in H;
      repeat match type of H with
             | context [N.eqb ?a ?b] =>
                 let E := fresh "E" in
                 destruct (N.eqb_spec a b) as [E|_]; [rewrite E; reflexivity|]
             end;
      discriminate ].

Ltac need := cbn [needs]; first [ char_case | left; need | right; need | split; need ].

Ltac needs_markup :=
  cbv [Patterns.bold_stars Patterns.bold_underscores Patterns.italic_stars
       Patterns.escaped_newline Patterns.blank_lines Patterns.bullet_glyph
       Patterns.before_bullet Patterns.before_number Patterns.horizontal_rule
       Patterns.bullet_line Patterns.numbered_line Patterns.tight_heading
       Patterns.heading_line Patterns.seqs Plus at_least chr one_of digit code];
  eval_lits; cbn [str]; need.

Lemma needs_bold_stars : needs markup_char Patterns.bold_stars.
Proof. needs_markup. Qed.
Lemma needs_bold_underscores : needs markup_char Patterns.bold_underscores.
Proof. needs_markup. Qed.
Lemma needs_italic_stars : needs markup_char Patterns.italic_stars.
Proof. needs_markup. Qed.
Lemma needs_escaped_newline : needs markup_char Patterns.escaped_newline.
Proof. needs_markup. Qed.
Lemma needs_blank_lines : needs markup_char Patterns.blank_lines.
Proof. needs_markup. Qed.
Lemma needs_bullet_glyph : needs markup_char Patterns.bullet_glyph.
Proof. needs_markup. Qed.
Lemma needs_before_bullet : needs markup_char Patterns.before_bullet.
Proof. needs_markup. Qed.
Lemma needs_before_number : needs markup_char Patterns.before_number.
Proof. needs_markup. Qed.
Lemma needs_horizontal_rule : needs markup_char Patterns.horizontal_rule.
Proof. needs_markup. Qed.
Lemma needs_bullet_line : needs markup_char Patterns.bullet_line.
Proof. needs_markup. Qed.
Lemma needs_numbered_line : needs markup_char Patterns.numbered_line.
Proof. needs_markup. Qed.
Lemma needs_tight_heading : needs markup_char Patterns.tight_heading.
Proof. needs_markup. Qed.
Lemma needs_heading_line : needs markup_char Patterns.heading_line.
Proof. needs_markup. Qed.

(** *** Facts on [split], [join] and [trim] *)

Lemma split_one (sep : char) (s : jsstring) :
  Forall (fun x => x <> sep) s -> split sep s = [s].
Proof.
  induction 1 as [|x s Hx _ IH]; [reflexivity|].
  cbn [split]. destruct (N.eqb_spec x sep); [contradiction|]. rewrite IH. reflexivity.
Qed.

Lemma trimStart_suffix (s : jsstring) : suffix (trimStart s) s.
Proof.
  induction s as [|x s IH]; cbn [trimStart]; [apply suffix_refl|].
  destruct (is_space x); [|apply suffix_refl].
  eapply suffix_trans; [exact IH|apply suffix_tail].
Qed.

Lemma trimStart_idem (s : jsstring) : trimStart (trimStart s) = trimStart s.
Proof.
  induction s as [|x s IH]; [reflexivity|]. cbn [trimStart].
  destruct (is_space x) eqn:E; [exact IH|]. cbn [trimStart]. rewrite E. reflexivity.
Qed.

Lemma trimStart_keeps_last (u : jsstring) (x : char) :
  is_space x = false -> trimStart (u ++ [x]) = trimStart u ++ [x].
Proof.
  intros Hx. induction u as [|y u IH]; cbn [app trimStart]; [rewrite Hx; reflexivity|].
  destruct (is_space y); [exact IH|reflexivity].
Qed.

(** A text already trimmed on the left stays so when trimmed on the right. *)
Lemma trimStart_trimEnd (x : char) (t : jsstring) :
  is_space x = false -> trimStart (trimEnd (x :: t)) = trimEnd (x :: t).
Proof.
  intros Hx. unfold trimEnd. cbn [rev]. rewrite trimStart_keeps_last by exact Hx.
  rewrite rev_app_distr. cbn [rev app trimStart]. rewrite Hx. reflexivity.
Qed.

Lemma trimEnd_idem (s : jsstring) : trimEnd (trimEnd s) = trimEnd s.
Proof. unfold trimEnd. rewrite rev_involutive, trimStart_idem. reflexivity. Qed.

Lemma trim_idem (s : jsstring) : trim (trim s) = trim s.
Proof.
  unfold trim.
  assert (trimStart (trimEnd (trimStart s)) = trimEnd (trimStart s)) as E.
  { destruct (trimStart s) as [|x t] eqn:Es; [reflexivity|].
    apply trimStart_trimEnd.
    pose proof (trimStart_idem s) as H. rewrite Es in H. cbn [trimStart] in H.
    destruct (is_space x); [|reflexivity].
    (* x :: t would be shorter than itself *)
    exfalso. pose proof (trimStart_suffix t) as [pre Hp].
    rewrite H in Hp. apply (f_equal (@length _)) in Hp.
    rewrite length_app in Hp. cbn [length] in Hp. lia. }
  rewrite E. apply trimEnd_idem.
Qed.

Lemma free_of_trim (P : char -> bool) (s : jsstring) : free_of P s -> free_of P (trim s).
Proof.
  intros H. unfold trim, trimEnd, free_of.
  apply Forall_rev. eapply suffix_Forall; [apply trimStart_suffix|].
  apply Forall_rev. eapply suffix_Forall; [apply trimStart_suffix|exact H].
Qed.

Lemma plain_no_LF (s : jsstring) : plain s -> Forall (fun x => x <> LF) s.
Proof.
  apply Forall_impl. intros x Hx ->. discriminate.
Qed.

Section PlainText.
Variable toLowerCase : jsstring -> jsstring.

Lemma normalize_line_plain (s : jsstring) : plain s -> normalize_line s = s.
Proof.
  intros H. unfold normalize_line. cbv zeta.
  rewrite (test_needs markup_char) by (auto using needs_horizontal_rule, free_of_trim).
  rewrite (match_needs markup_char) by (auto using needs_bullet_line).
  rewrite (match_needs markup_char) by (auto using needs_numbered_line).
  reflexivity.
Qed.

Lemma repair_plain (s : jsstring) :
  plain s -> preprocessTextResponse toLowerCase s = trim s.
Proof.
  intros H. unfold preprocessTextResponse, blank_before_lists. cbv zeta.
  rewrite (replace_all_needs markup_char _ _ s) by (auto using needs_bold_stars).
  rewrite (replace_all_needs markup_char _ _ s) by (auto using needs_bold_underscores).
  rewrite (replace_all_needs markup_char _ _ s) by (auto using needs_italic_stars).
  rewrite (replace_all_needs markup_char _ _ s) by (auto using needs_escaped_newline).
  rewrite (replace_all_needs markup_char _ _ s) by (auto using needs_blank_lines).
  rewrite (replace_all_needs markup_char _ _ s) by (auto using needs_bullet_glyph).
  rewrite (replace_all_needs markup_char _ _ s) by (auto using needs_before_bullet).
  rewrite (replace_all_needs markup_char _ _ s) by (auto using needs_before_number).
  rewrite (split_one LF s) by (apply plain_no_LF, H).
  cbn [map join]. rewrite (normalize_line_plain s H).
  rewrite (replace_all_needs markup_char _ _ s) by (auto using needs_tight_heading).
  rewrite (split_one LF s) by (apply plain_no_LF, H).
  cbn [dedupe_headings].
  rewrite (match_needs markup_char) by (auto using needs_heading_line).
  reflexivity.
Qed.

End PlainText.


Example repair_twice :
  preprocessTextResponse ascii_toLowerCase (lit "x" ++ [LF] ++ lit "-a")
  = lit "x" ++ [LF] ++ lit "- a"
  /\ preprocessTextResponse ascii_toLowerCase (lit "x" ++ [LF] ++ lit "- a")
     = lit "x" ++ [LF; LF] ++ lit "- a".
Proof. vm_compute. split; reflexivity. Qed.

(** ** The blank line before a list *)

(** *** A greedy star over a class of code units *)

Lemma span_app (P : char -> bool) (s : jsstring) : fst (span P s) ++ snd (span P s) = s.
Proof.
  induction s as [|x s IH]; [reflexivity|]. cbn [span].
  destruct (P x); cbn [fst snd app]; [rewrite IH|]; reflexivity.
Qed.

Lemma span_run (P : char -> bool) (s : jsstring) : Forall (fun x => P x = true) (fst (span P s)).
Proof.
  induction s as [|x s IH]; [constructor|]. cbn [span].
  destruct (P x) eqn:E; cbn [fst]; constructor; assumption.
Qed.

Lemma after_cons (prev : option char) (x : char) (w : jsstring) :
  after prev (x :: w) = after (Some x) w.
Proof.
  unfold after. cbn [rev]. destruct (rev w) as [|y r]; reflexivity.
Qed.

Lemma star_loop_greedy (P : char -> bool) (k : cont) (fuel : nat) :
  forall prev s c, length s <= fuel ->
  star_loop true (m (Char P)) k fuel prev s c = greedy_scan P k prev s c.
Proof.
  induction fuel as [|fuel IH]; intros prev s c Hlen.
  - destruct s; [reflexivity|cbn [length] in Hlen; lia].
  - cbn [star_loop m]. destruct s as [|x s]; [reflexivity|].
    cbn [greedy_scan]. destruct (P x); [|reflexivity].
    cbn [length]. replace (length s <? S (length s)) with true
      by (symmetry; apply Nat.ltb_lt; lia).
    rewrite IH by (cbn [length] in Hlen; lia). reflexivity.
Qed.

Lemma m_star_class (P : char -> bool) (k : cont) (prev : option char) (s : jsstring)
    (c : captures) :
  m (Star true (Char P)) k prev s c = greedy_scan P k prev s c.
Proof. cbn [m]. apply star_loop_greedy. lia. Qed.

(** When the continuation cannot start with a code unit of the class, only
    the longest run counts. *)
Lemma greedy_scan_span (P : char -> bool) (k : cont) :
  (forall prev x s c, P x = true -> k prev (x :: s) c = None) ->
  forall s prev c,
    greedy_scan P k prev s c
    = k (after prev (fst (span P s))) (snd (span P s)) c.
Proof.
  intros Hk. induction s as [|x s IH]; intros prev c; [reflexivity|].
  cbn [greedy_scan span]. destruct (P x) eqn:E; [|reflexivity].
  cbn [fst snd]. rewrite after_cons, IH, (Hk _ _ _ _ E).
  destruct (k _ _ c); reflexivity.
Qed.

Lemma firstn_consumed (w rest : jsstring) :
  firstn (length (w ++ rest) - length rest) (w ++ rest) = w.
Proof.
  rewrite length_app. replace (length w + length rest - length rest) with (length w) by lia.
  rewrite firstn_app, Nat.sub_diag, firstn_all. cbn [firstn]. apply app_nil_r.
Qed.

Lemma firstn_prefix (t w rest : jsstring) :
  t = w ++ rest -> firstn (length t - length rest) t = w.
Proof. intros ->. apply firstn_consumed. Qed.

(** *** Matching step by step *)

Lemma m_Seq (r1 r2 : regex) (k : cont) (prev : option char) (s : jsstring) (c : captures) :
  m (Seq r1 r2) k prev s c = m r1 (m r2 k) prev s c.
Proof. reflexivity. Qed.

Lemma m_Group (n : nat) (r : regex) (k : cont) (prev : option char) (s : jsstring)
    (c : captures) :
  m (Group n r) k prev s c
  = m r (fun prev' s' c' => k prev' s' ((n, firstn (length s - length s') s) :: c')) prev s c.
Proof. reflexivity. Qed.

Lemma m_Char_cons (P : char -> bool) (k : cont) (prev : option char) (x : char)
    (s : jsstring) (c : captures) :
  m (Char P) k prev (x :: s) c = if P x then k (Some x) s c else None.
Proof. reflexivity. Qed.

Lemma m_Char_nil (P : char -> bool) (k : cont) (prev : option char) (c : captures) :
  m (Char P) k prev [] c = None.
Proof. reflexivity. Qed.

Lemma after_snoc (prev : option char) (w : jsstring) (x : char) :
  after prev (w ++ [x]) = Some x.
Proof. unfold after. rewrite rev_app_distr. reflexivity. Qed.

(** *** The two patterns that look for the start of a list *)

Lemma bullet_prefix_app (t w rest : jsstring) :
  bullet_prefix t = Some (w, rest) -> t = w ++ rest.
Proof.
  unfold bullet_prefix. pose proof (span_app is_space t) as E.
  destruct (snd (span is_space t)) as [|mk [|x r]]; try discriminate.
  destruct (char_in _ mk && is_space x); [|discriminate].
  intros [= <- <-]. rewrite <- app_assoc. symmetry. exact E.
Qed.

Lemma number_prefix_app (t w rest : jsstring) :
  number_prefix t = Some (w, rest) -> t = w ++ rest.
Proof.
  unfold number_prefix. pose proof (span_app is_space t) as E.
  destruct (snd (span is_space t)) as [|d r]; [discriminate|].
  destruct (is_digit d); [|discriminate].
  pose proof (span_app is_digit r) as E'.
  destruct (snd (span is_digit r)) as [|dot [|x r']]; try discriminate.
  destruct (N.eqb dot 46 && is_space x); [|discriminate].
  intros [= <- <-]. rewrite <- E at 1. rewrite <- E' at 1.
  rewrite <- !app_assoc. cbn [app]. rewrite <- !app_assoc. reflexivity.
Qed.

Lemma marker_not_space (x : char) : is_space x = true -> char_in (lit "-*+") x = false.
Proof.
  intros H. destruct (char_in (lit "-*+") x) eqn:E; [|reflexivity].
  revert E. eval_lits. cbn [char_in].
  repeat match goal with
         | |- context [N.eqb ?a ?b] =>
             destruct (N.eqb_spec a b) as [E|_]; [rewrite E in H; discriminate|]
         end.
  discriminate.
Qed.

Lemma digit_not_space (x : char) : is_space x = true -> is_digit x = false.
Proof.
  intros H. destruct (is_digit x) eqn:E; [|reflexivity].
  unfold is_digit, in_range in E. apply andb_prop in E as [E1 E2].
  apply N.leb_le in E1, E2.
  unfold is_space, in_range in H. cbn [char_in] in H.
  repeat match type of H with
         | context [N.eqb ?a ?b] => destruct (N.eqb_spec a b); [lia|]
         end.
  repeat match type of H with
         | context [N.leb ?a ?b] => destruct (N.leb_spec a b); try lia
         end;
  try discriminate.
Qed.

Lemma dot_not_digit (x : char) : is_digit x = true -> N.eqb x 46 = false.
Proof.
  intros H. destruct (N.eqb_spec x 46) as [->|]; [discriminate|reflexivity].
Qed.

Lemma exec_before_bullet_hit (prev : option char) (c : char) (t : jsstring) :
  c <> LF ->
  exec_at Patterns.before_bullet prev (c :: LF :: t)
  = match bullet_prefix t with
    | Some (w, rest) => Some (after (Some LF) w, rest, [(2, w); (1, [c])])
    | None => None
    end.
Proof.
  intros Hc. unfold exec_at, Patterns.before_bullet. cbn [Patterns.seqs].
  rewrite m_Seq, m_Group. unfold none_of at 1. rewrite m_Char_cons.
  cbn [char_in]. destruct (N.eqb_spec c LF) as [|_]; [contradiction|]. cbn [negb].
  rewrite m_Seq. unfold chr. rewrite m_Char_cons, N.eqb_refl.
  rewrite m_Group, m_Seq. unfold space at 1. rewrite m_star_class.
  rewrite greedy_scan_span.
  2:{ intros p x s k Hx. rewrite m_Seq. unfold one_of. rewrite m_Char_cons.
      rewrite (marker_not_space x Hx). reflexivity. }
  unfold bullet_prefix.
  pose proof (span_app is_space t) as E.
  destruct (snd (span is_space t)) as [|mk [|w rest]].
  - rewrite m_Seq. reflexivity.
  - rewrite m_Seq. unfold one_of. rewrite m_Char_cons.
    destruct (char_in (lit "-*+") mk); reflexivity.
  - rewrite m_Seq. unfold one_of. rewrite m_Char_cons.
    destruct (char_in (lit "-*+") mk); [|reflexivity].
    unfold space. rewrite m_Char_cons.
    destruct (is_space w); [|reflexivity]. cbn [andb]. unfold accept.
    replace (after (Some LF) (fst (span is_space t) ++ [mk; w])) with (Some w)
      by (rewrite (app_assoc _ [mk] [w] : _ ++ [mk; w] = _); symmetry; apply after_snoc).
    replace (firstn (length (c :: LF :: t) - length (LF :: t)) (c :: LF :: t)) with [c]
      by (symmetry; apply (firstn_consumed [c] (LF :: t))).
    rewrite (firstn_prefix t (fst (span is_space t) ++ [mk; w]) rest)
      by (rewrite <- app_assoc; symmetry; exact E).
    reflexivity.
Qed.

Lemma exec_before_number_hit (prev : option char) (c : char) (t : jsstring) :
  c <> LF ->
  exec_at Patterns.before_number prev (c :: LF :: t)
  = match number_prefix t with
    | Some (w, rest) => Some (after (Some LF) w, rest, [(2, w); (1, [c])])
    | None => None
    end.
Proof.
  intros Hc. unfold exec_at, Patterns.before_number. cbn [Patterns.seqs].
  change (code ".") with 46%N.
  rewrite m_Seq, m_Group. unfold none_of at 1. rewrite m_Char_cons.
  cbn [char_in]. destruct (N.eqb_spec c LF) as [|_]; [contradiction|]. cbn [negb].
  rewrite m_Seq. unfold chr at 1. rewrite m_Char_cons, N.eqb_refl.
  rewrite m_Group, m_Seq. unfold space at 1. rewrite m_star_class.
  rewrite greedy_scan_span.
  2:{ intros p x s k Hx. unfold Plus, digit. rewrite !m_Seq, m_Char_cons.
      rewrite (digit_not_space x Hx). reflexivity. }
  unfold number_prefix.
  pose proof (span_app is_space t) as E.
  destruct (snd (span is_space t)) as [|d r].
  { unfold Plus, digit. rewrite !m_Seq. reflexivity. }
  unfold Plus, digit. rewrite !m_Seq, m_Char_cons.
  destruct (is_digit d); [|reflexivity].
  rewrite m_star_class, greedy_scan_span.
  2:{ intros p x s k Hx. rewrite m_Seq. unfold chr. rewrite m_Char_cons.
      rewrite N.eqb_sym, (dot_not_digit x Hx). reflexivity. }
  pose proof (span_app is_digit r) as E'.
  destruct (snd (span is_digit r)) as [|dot [|w rest]].
  - rewrite m_Seq. reflexivity.
  - rewrite m_Seq. unfold chr. rewrite m_Char_cons, N.eqb_sym.
    destruct (N.eqb dot 46); reflexivity.
  - rewrite m_Seq. unfold chr. rewrite m_Char_cons, N.eqb_sym.
    destruct (N.eqb dot 46); [|reflexivity].
    unfold space. rewrite m_Char_cons.
    destruct (is_space w); [|reflexivity]. cbn [andb]. unfold accept.
    set (whole := fst (span is_space t) ++ d :: fst (span is_digit r) ++ [dot; w]).
    assert (t = whole ++ rest) as Et.
    { unfold whole. rewrite <- E at 1. rewrite <- E' at 1.
      rewrite <- !app_assoc. cbn [app]. rewrite <- !app_assoc. reflexivity. }
    replace (after (Some LF) whole) with (Some w).
    2:{ unfold whole.
        replace (fst (span is_space t) ++ d :: fst (span is_digit r) ++ [dot; w])
          with ((fst (span is_space t) ++ d :: fst (span is_digit r) ++ [dot]) ++ [w])
          by (rewrite <- !app_assoc; cbn [app]; rewrite <- !app_assoc; reflexivity).
        symmetry. apply after_snoc. }
    replace (firstn (length (c :: LF :: t) - length (LF :: t)) (c :: LF :: t)) with [c]
      by (symmetry; apply (firstn_consumed [c] (LF :: t))).
    rewrite (firstn_prefix t whole rest Et). reflexivity.
Qed.

(** Elsewhere neither pattern matches. *)
Lemma exec_before_bullet_miss (prev : option char) (s : jsstring) :
  at_line_end s = false -> exec_at Patterns.before_bullet prev s = None.
Proof.
  unfold exec_at, Patterns.before_bullet, at_line_end. cbn [Patterns.seqs].
  rewrite m_Seq, m_Group. unfold none_of at 1.
  destruct s as [|c [|n t]]; [reflexivity| |]; rewrite m_Char_cons; cbn [char_in].
  - destruct (N.eqb c LF); reflexivity.
  - destruct (N.eqb c LF); cbn [negb andb]; [reflexivity|].
    intros H. rewrite m_Seq. unfold chr. rewrite m_Char_cons, N.eqb_sym, H. reflexivity.
Qed.

Lemma exec_before_number_miss (prev : option char) (s : jsstring) :
  at_line_end s = false -> exec_at Patterns.before_number prev s = None.
Proof.
  unfold exec_at, Patterns.before_number, at_line_end. cbn [Patterns.seqs].
  rewrite m_Seq, m_Group. unfold none_of at 1.
  destruct s as [|c [|n t]]; [reflexivity| |]; rewrite m_Char_cons; cbn [char_in].
  - destruct (N.eqb c LF); reflexivity.
  - destruct (N.eqb c LF); cbn [negb andb]; [reflexivity|].
    intros H. rewrite m_Seq. unfold chr at 1. rewrite m_Char_cons, N.eqb_sym, H. reflexivity.
Qed.

(** *** Replacing with a pattern that matches at the end of a line only *)

Lemma quiet_no_LF (u : jsstring) : Forall (fun x => x <> LF) u -> quiet u.
Proof.
  intros H s' Hs'. apply (suffix_Forall _ _ _ Hs') in H.
  destruct s' as [|c [|n t]]; try reflexivity. cbn [at_line_end].
  inversion H as [|? ? _ H']; subst. inversion H' as [|? ? Hn _]; subst.
  destruct (N.eqb_spec n LF); [contradiction|]. apply andb_false_r.
Qed.

Lemma suffix_cons_inv (s' : jsstring) (x : char) (s : jsstring) :
  suffix s' (x :: s) -> s' = x :: s \/ suffix s' s.
Proof.
  intros [[|y pre] E]; cbn [app] in E; [left; symmetry; exact E|].
  right. injection E as _ E. exists pre. exact E.
Qed.

Lemma quiet_LF (s : jsstring) : quiet s -> quiet (LF :: s).
Proof.
  intros H s' Hs'. apply suffix_cons_inv in Hs' as [->|Hs']; [|apply H, Hs'].
  destruct s; reflexivity.
Qed.

Section LineEndPattern.
Variable r : regex.
Variable hit : jsstring -> option (jsstring * jsstring).
Hypothesis groups_r : ngroups r = 2.
Hypothesis hit_r : forall prev c t, c <> LF ->
  exec_at r prev (c :: LF :: t)
  = match hit t with
    | Some (w, rest) => Some (after (Some LF) w, rest, [(2, w); (1, [c])])
    | None => None
    end.
Hypothesis miss_r : forall prev s, at_line_end s = false -> exec_at r prev s = None.
Hypothesis hit_app : forall t w rest, hit t = Some (w, rest) -> t = w ++ rest.

Lemma blank_line_value (matched before after a b : jsstring) :
  blank_line matched before after [Some a; Some b] = a ++ [LF; LF] ++ b.
Proof.
  unfold blank_line, template. eval_lits. cbn. rewrite app_nil_r. reflexivity.
Qed.

Lemma replace_quiet (fuel : nat) (before s : jsstring) :
  quiet s -> replace_from fuel r blank_line before s = s.
Proof.
  intros H. apply replace_from_none. intros prev s' Hs'. apply miss_r, H, Hs'.
Qed.

(** Scanning a line [p0 ++ [c]] that is followed by a line feed: nothing
    matches before [c]; at [c] a blank line is put in when a list starts
    after the line feed. *)
Lemma replace_line (p0 : jsstring) (c : char) (t : jsstring) :
  Forall (fun x => x <> LF) p0 -> c <> LF ->
  forall fuel before,
  exists b,
    replace_from (length p0 + S fuel) r blank_line before (p0 ++ c :: LF :: t)
    = p0 ++
      match hit t with
      | Some (w, rest) => c :: LF :: LF :: w ++ replace_from fuel r blank_line b rest
      | None => c :: replace_from fuel r blank_line b (LF :: t)
      end.
Proof.
  intros Hp Hc. induction Hp as [|x p0 Hx Hp IH]; intros fuel before.
  - cbn [length app Nat.add replace_from]. rewrite (hit_r _ c t Hc).
    destruct (hit t) as [[w rest]|] eqn:Eh; [|eexists; reflexivity].
    pose proof (hit_app _ _ _ Eh) as Et.
    assert ((length rest <? S (S (length t))) = true) as ->
      by (apply Nat.ltb_lt; rewrite Et, length_app; lia).
    unfold capture_list. rewrite groups_r. cbn [seq map group Nat.eqb].
    rewrite blank_line_value. eexists. cbn [app]. reflexivity.
  - cbn [length app Nat.add replace_from].
    rewrite miss_r.
    2:{ destruct p0 as [|y p0]; cbn [app at_line_end].
        - destruct (N.eqb_spec c LF); [contradiction|]. apply andb_false_r.
        - inversion Hp; subst. destruct (N.eqb_spec y LF); [contradiction|].
          apply andb_false_r. }
    destruct (IH fuel (x :: before)) as [b Hb]. exists b. rewrite Hb. reflexivity.
Qed.

(** A line [p] followed by a line feed and a text [t] that has no further
    place for a blank line: a blank line comes after [p] when [p] is not
    empty and [t] starts a list. *)
Lemma replace_after_line (p t : jsstring) :
  Forall (fun x => x <> LF) p -> quiet (LF :: t) ->
  replace_all r blank_line (p ++ LF :: t)
  = match p, hit t with
    | _ :: _, Some _ => p ++ LF :: LF :: t
    | _, _ => p ++ LF :: t
    end.
Proof.
  intros Hp Hq. unfold replace_all.
  destruct (rev p) as [|c p0r] eqn:Erev.
  - apply (f_equal (@rev _)) in Erev. rewrite rev_involutive in Erev. subst p.
    cbn [rev app]. apply replace_quiet, Hq.
  - apply (f_equal (@rev _)) in Erev. rewrite rev_involutive in Erev. cbn [rev] in Erev.
    subst p. apply Forall_app in Hp as [Hp0 Hc]. inversion Hc as [|? ? Hc' _]; subst.
    rewrite <- app_assoc. cbn [app].
    replace (S (length (rev p0r ++ c :: LF :: t)))
      with (length (rev p0r) + S (S (S (length t))))
      by (rewrite length_app; cbn [length]; lia).
    destruct (replace_line (rev p0r) c t Hp0 Hc' (S (S (length t))) []) as [b ->].
    destruct (rev p0r ++ [c]) as [|x l] eqn:El; [destruct (rev p0r); discriminate|].
    destruct (hit t) as [[w rest]|] eqn:Eh.
    + pose proof (hit_app _ _ _ Eh) as ->.
      rewrite replace_quiet.
      2:{ intros s' Hs'. apply Hq. eapply suffix_trans; [exact Hs'|].
          exists (LF :: w). reflexivity. }
      rewrite <- El, <- app_assoc. reflexivity.
    + rewrite replace_quiet by exact Hq. reflexivity.
Qed.

Lemma break_before_skip (u rest : jsstring) :
  break_before hit (length u) (u ++ rest) = u ++ break_before hit 0 rest.
Proof.
  induction u as [|x u IH]; [reflexivity|].
  cbn [length app break_before]. rewrite IH. reflexivity.
Qed.

(** The replacement is that scan of the text. *)
Lemma replace_breaks (fuel : nat) : forall before s,
  length s < fuel -> replace_from fuel r blank_line before s = break_before hit 0 s.
Proof.
  induction fuel as [|fuel IH]; intros before s Hlen; [lia|].
  destruct s as [|c s'].
  - cbn [replace_from break_before]. rewrite miss_r by reflexivity. reflexivity.
  - assert (replace_from (S fuel) r blank_line before (c :: s')
            = c :: replace_from fuel r blank_line (c :: before) s'
            -> at_line_end (c :: s') = false \/ hit (tl s') = None
            -> replace_from (S fuel) r blank_line before (c :: s')
               = break_before hit 0 (c :: s')) as Hcopy.
    { intros E H. rewrite E, IH by (cbn [length] in Hlen; lia).
      cbn [break_before]. destruct H as [-> | H]; [reflexivity|].
      rewrite H. destruct (at_line_end (c :: s')); reflexivity. }
    destruct (at_line_end (c :: s')) eqn:Eend.
    + destruct s' as [|n t]; [discriminate Eend|].
      cbn [at_line_end] in Eend. apply andb_prop in Eend as [Hc Hn].
      apply N.eqb_eq in Hn. subst n. apply negb_true_iff in Hc.
      assert (c <> LF) as Hc' by (intros ->; discriminate Hc).
      destruct (hit t) as [[w rest]|] eqn:Eh.
      * pose proof (hit_app _ _ _ Eh) as Et. subst t.
        cbn [replace_from]. rewrite (hit_r _ c _ Hc'), Eh.
        assert ((length rest <? length (c :: LF :: w ++ rest)) = true) as ->
          by (apply Nat.ltb_lt; cbn [length]; rewrite length_app; lia).
        unfold capture_list. rewrite groups_r. cbn [seq map group Nat.eqb].
        rewrite blank_line_value.
        rewrite IH by (cbn [length] in Hlen; rewrite length_app in Hlen; lia).
        cbn [break_before at_line_end tl]. rewrite Hc, N.eqb_refl. cbn [negb andb].
        rewrite Eh. cbn [app]. rewrite break_before_skip. reflexivity.
      * apply Hcopy; [|right; exact Eh].
        cbn [replace_from]. rewrite (hit_r _ c t Hc'), Eh. reflexivity.
    + apply Hcopy; [|left; reflexivity].
      cbn [replace_from]. rewrite miss_r by exact Eend. reflexivity.
Qed.

Lemma replace_all_breaks (s : jsstring) :
  replace_all r blank_line s = break_before hit 0 s.
Proof. apply replace_breaks. lia. Qed.

End LineEndPattern.

Lemma marker_not_digit (x : char) : char_in (lit "-*+") x = true -> is_digit x = false.
Proof.
  eval_lits. cbn [char_in]. intros H.
  repeat match type of H with
         | context [N.eqb ?a ?b] =>
             let E := fresh "E" in
             destruct (N.eqb_spec a b) as [E|_]; [rewrite E; reflexivity|]
         end.
  discriminate.
Qed.

Lemma span_space_LF (q : jsstring) :
  snd (span is_space (LF :: q)) = snd (span is_space q).
Proof. reflexivity. Qed.

Lemma bullet_excludes_number (q : jsstring) (wr : jsstring * jsstring) :
  bullet_prefix q = Some wr -> number_prefix (LF :: q) = None.
Proof.
  unfold bullet_prefix, number_prefix. rewrite span_space_LF.
  destruct (snd (span is_space q)) as [|mk [|w rest]]; try discriminate.
  destruct (char_in (lit "-*+") mk) eqn:E; [|discriminate].
  rewrite (marker_not_digit mk E). reflexivity.
Qed.


(** What this comes to on texts of a few lines: a paragraph and an item; an
    item after a blank line, which gets one line feed more; two items after
    a paragraph; and an item that is its marker and one space only, after
    which the next item gets no blank line. *)
Example blank_lines_in_lists :
  blank_before_lists (lit "a" ++ [LF] ++ lit "- b") = lit "a" ++ [LF; LF] ++ lit "- b"
  /\ blank_before_lists (lit "a" ++ [LF; LF] ++ lit "- b") = lit "a" ++ [LF; LF; LF] ++ lit "- b"
  /\ blank_before_lists (lit "a" ++ [LF] ++ lit "1. b" ++ [LF] ++ lit "2. c")
     = lit "a" ++ [LF; LF] ++ lit "1. b" ++ [LF; LF] ++ lit "2. c"
  /\ blank_before_lists (lit "a" ++ [LF] ++ lit "- " ++ [LF] ++ lit "- c")
     = lit "a" ++ [LF; LF] ++ lit "- " ++ [LF] ++ lit "- c".
Proof. vm_compute. repeat split. Qed.

(** In a text of two lines [p] and [q] the step puts a blank line between
    the lines exactly when [q] begins a bulleted or numbered list item and
    [p] is not the empty line: whether [p] is itself a list item, or holds
    white space only, makes no difference. *)
Lemma blank_line_before_list (p q : jsstring) :
  Forall (fun x => x <> LF) p -> Forall (fun x => x <> LF) q ->
  blank_before_lists (p ++ LF :: q)
  = if nonempty p && starts_list_item q then p ++ LF :: LF :: q else p ++ LF :: q.
Proof.
  intros Hp Hq. unfold blank_before_lists. cbv zeta.
  change (template (lit "$1" ++ [LF; LF] ++ lit "$2")) with blank_line.
  rewrite (replace_after_line Patterns.before_bullet bullet_prefix eq_refl
             exec_before_bullet_hit exec_before_bullet_miss bullet_prefix_app p q Hp)
    by (apply quiet_LF, quiet_no_LF, Hq).
  unfold starts_list_item.
  destruct p as [|x l]; cbn [nonempty andb].
  - apply (replace_after_line Patterns.before_number number_prefix eq_refl
             exec_before_number_hit exec_before_number_miss number_prefix_app [] q);
      [constructor|apply quiet_LF, quiet_no_LF, Hq].
  - destruct (bullet_prefix q) as [wr|] eqn:Eb.
    + rewrite (replace_after_line Patterns.before_number number_prefix eq_refl
                 exec_before_number_hit exec_before_number_miss number_prefix_app
                 (x :: l) (LF :: q) Hp)
        by (apply quiet_LF, quiet_LF, quiet_no_LF, Hq).
      rewrite (bullet_excludes_number q wr Eb). reflexivity.
    + rewrite (replace_after_line Patterns.before_number number_prefix eq_refl
                 exec_before_number_hit exec_before_number_miss number_prefix_app
                 (x :: l) q Hp)
        by (apply quiet_LF, quiet_no_LF, Hq).
      destruct (number_prefix q); reflexivity.
Qed.

(** A paragraph followed by a numbered item. *)
Lemma blank_line_witness :
  blank_before_lists (lit "Steps:" ++ LF :: lit "1. first")
  = lit "Steps:" ++ LF :: LF :: lit "1. first".
Proof.
  apply (blank_line_before_list (lit "Steps:") (lit "1. first"));
    vm_compute; repeat (constructor; [discriminate|]); constructor.
Defined.


Lemma str_eqb_eq (a b : jsstring) : str_eqb a b = true <-> a = b.
Proof.
  revert b. induction a as [|x a IH]; intros [|y b]; simpl; split; try discriminate; try reflexivity.
  - destruct (N.eqb x y) eqn:E; [|discriminate].
    apply N.eqb_eq in E. intros H. apply IH in H. congruence.
  - intros [= -> ->]. rewrite N.eqb_refl. apply IH. reflexivity.
Qed.

Lemma str_eqb_refl (a : jsstring) : str_eqb a a = true.
Proof. apply str_eqb_eq. reflexivity. Qed.

(** ** Duplicate headings *)

Section HeadingFacts.
Variable toLowerCase : jsstring -> jsstring.

Lemma dedupe_app (pre rest : list jsstring) : forall last,
  dedupe_headings toLowerCase last (pre ++ rest)
  = dedupe_headings toLowerCase last pre
    ++ dedupe_headings toLowerCase (last_heading toLowerCase last pre) rest.
Proof.
  induction pre as [|ln pre IH]; intros last; [reflexivity|].
  cbn [app dedupe_headings last_heading]. unfold heading_text.
  destruct (RegExp.match_ Patterns.heading_line ln) as [m|].
  - cbv zeta. destruct (str_eqb _ _); [apply IH|].
    cbn [app]. f_equal. apply IH.
  - cbn [app]. f_equal. apply IH.
Qed.

Lemma dedupe_duplicate (last h1 h2 : jsstring) (t1 t2 : jsstring) (rest : list jsstring) :
  heading_text h1 = Some t1 -> heading_text h2 = Some t2 ->
  toLowerCase t1 = toLowerCase t2 ->
  dedupe_headings toLowerCase last (h1 :: h2 :: rest)
  = dedupe_headings toLowerCase last (h1 :: rest).
Proof.
  unfold heading_text. intros H1 H2 E.
  cbn [dedupe_headings].
  destruct (RegExp.match_ Patterns.heading_line h1) as [m1|]; [|discriminate].
  destruct (RegExp.match_ Patterns.heading_line h2) as [m2|]; [|discriminate].
  injection H1 as H1. injection H2 as H2. cbv zeta. rewrite H1, H2.
  destruct (str_eqb (toLowerCase t1) (toLowerCase last)) eqn:E1.
  - rewrite <- E, E1. reflexivity.
  - rewrite <- E, str_eqb_refl. reflexivity.
Qed.

(** In the loop that removes duplicate headings, a heading line whose text
    equals, up to case, the text of the heading line just before it is
    dropped; a line that is not a heading is kept and resets the heading text
    that is tracked; and repairing the text "# Title", "# Title", "Body"
    (three lines) gives the two lines "# Title" and "Body". *)
Lemma duplicate_headings_collapse :
  (forall (last : jsstring) (pre : list jsstring) (h1 h2 t1 t2 : jsstring)
          (rest : list jsstring),
      heading_text h1 = Some t1 -> heading_text h2 = Some t2 ->
      toLowerCase t1 = toLowerCase t2 ->
      dedupe_headings toLowerCase last (pre ++ h1 :: h2 :: rest)
      = dedupe_headings toLowerCase last (pre ++ h1 :: rest))
  /\ (forall (last ln : jsstring) (rest : list jsstring),
        heading_text ln = None ->
        dedupe_headings toLowerCase last (ln :: rest)
        = ln :: dedupe_headings toLowerCase [] rest)
  /\ preprocessTextResponse ascii_toLowerCase
        (lit "# Title" ++ [LF] ++ lit "# Title" ++ [LF] ++ lit "Body")
      = lit "# Title" ++ [LF] ++ lit "Body".
Proof.
  split; [|split].
  - intros last pre h1 h2 t1 t2 rest H1 H2 E.
    rewrite !dedupe_app. f_equal. apply (dedupe_duplicate _ _ _ t1 t2); assumption.
  - intros last ln rest H. unfold heading_text in H. cbn [dedupe_headings].
    destruct (RegExp.match_ Patterns.heading_line ln); [discriminate|reflexivity].
  - vm_compute. reflexivity.
Qed.

End HeadingFacts.

(** Two headings that differ in case only, after a paragraph. *)
Lemma duplicate_headings_witness :
  dedupe_headings ascii_toLowerCase [] ([lit "Intro"] ++ lit "# Title" :: lit "## TITLE" :: [lit "Body"])
  = dedupe_headings ascii_toLowerCase [] ([lit "Intro"] ++ lit "# Title" :: [lit "Body"]).
Proof.
  apply (proj1 (duplicate_headings_collapse ascii_toLowerCase)
           [] [lit "Intro"] (lit "# Title") (lit "## TITLE") (lit "Title") (lit "TITLE")
           [lit "Body"]); reflexivity.
Defined.

(** C8 (the code departs from the claim). The claim: a heading line whose
    text equals the text of the heading line just before it is dropped.  On
    the code, the lines "# Title", "## Title", "Body" keep both headings.
    The loop that removes duplicates does drop the second one, whose text
    is "Title" like that of the first; but the replacement of line 308,
    which is to put the missing space after the number signs, comes first
    and rewrites "## Title", which has its space, to "# # Title", a heading
    with the text "# Title". *)
Theorem duplicate_heading_kept :
  preprocessTextResponse ascii_toLowerCase
    (lit "# Title" ++ [LF] ++ lit "## Title" ++ [LF] ++ lit "Body")
  = lit "# Title" ++ [LF] ++ lit "# # Title" ++ [LF] ++ lit "Body"
  /\ heading_text (lit "# Title") = Some (lit "Title")
  /\ heading_text (lit "## Title") = Some (lit "Title")
  /\ dedupe_headings ascii_toLowerCase [] [lit "# Title"; lit "## Title"; lit "Body"]
     = [lit "# Title"; lit "Body"]
  /\ RegExp.replace_all Patterns.tight_heading (RegExp.template (lit "$1 $2")) (lit "## Title")
     = lit "# # Title".
Proof. vm_compute. repeat split. Qed.

(** ** Placeholder expansion *)

(** The example of the specification: the token is replaced by the table
    block, with both header cells and the data row, and is gone. *)
Example pricing_table_expanded :
  let table := {| title := lit "Pricing"; headers := [lit "Plan"; lit "Price"];
                  rows := [[lit "Basic"; lit "$10"]] |} in
  let out := renderTables (lit "See [TABLE:Pricing] below") [table] in
  out = lit "See " ++ table_html table ++ lit " below"
  /\ includes out (header_cell (lit "Plan")) = true
  /\ includes out (header_cell (lit "Price")) = true
  /\ includes out (row_html [lit "Basic"; lit "$10"]) = true
  /\ includes out (lit "[TABLE:Pricing]") = false.
Proof. vm_compute. repeat split. Qed.

(** C4 (the code departs from the claim). The claim: the first occurrence of
    the token of a table is replaced by the generated table block, whose
    caption is the title, and the token is gone.  On the code the block is
    handed to [String.prototype.replace] as a replacement string, in which
    [$'], [$&], [$`] and [$$] are substitution patterns.  With the title
    "Costs ($'000)" the caption is not the title (the text after the token
    takes the place of [$']), and a cell "$&" brings the token back. *)
Theorem renderTables_reads_dollar_patterns :
  let costs := {| title := lit "Costs ($'000)"; headers := []; rows := [] |} in
  let echo := {| title := lit "T"; headers := [lit "H"]; rows := [[lit "$&"]] |} in
  renderTables (lit "[TABLE:Costs ($'000)] in total") [costs]
  = qlit "<div class='overflow-x-auto my-4'>"
    ++ qlit "<table class='min-w-full border border-gray-300 rounded-lg overflow-hidden shadow-sm'>"
    ++ qlit "<caption class='p-2 text-sm text-gray-500 font-medium text-left'>"
    ++ lit "Costs ( in total000)</caption>"
    ++ qlit "<tbody class='divide-y divide-gray-200'></tbody></table></div> in total"
  /\ renderTables (lit "[TABLE:Costs ($'000)] in total") [costs]
     <> table_html costs ++ lit " in total"
  /\ renderTables (lit "[TABLE:T]") [echo] <> table_html echo
  /\ includes (renderTables (lit "[TABLE:T]") [echo]) (lit "[TABLE:T]") = true.
Proof. vm_compute. repeat split; discriminate. Qed.

(** ** Icons *)

Section IconFacts.
Variable native_source : jsstring -> jsstring.

(** The example of the specification: an unknown name gives the empty
    fragment inside the wrapper, and the token is gone. *)
Example unknown_icon :
  getIconSVG (lit "unknown") = Fragment []
  /\ renderIcons native_source (lit "[ICON:unknown]")
     = qlit "<span class='inline-block align-middle'></span>"
  /\ includes (renderIcons native_source (lit "[ICON:unknown]")) (lit "[ICON:") = false.
Proof. vm_compute. repeat split. Qed.

Example known_icon_trimmed :
  renderIcons native_source (lit "[ICON: phone ]")
  = qlit "<span class='inline-block align-middle'>"
    ++ ToString native_source (getIconSVG (lit "phone")) ++ lit "</span>"
  /\ own (lit "phone") icons = Some (ToString native_source (getIconSVG (lit "phone"))).
Proof. vm_compute. repeat split. Qed.

(** C9 (the code departs from the claim). The claim: a name that is not in
    the registry gives an empty fragment.  On the code the registry is an
    object literal read with [icons[iconName]], which also answers for the
    names it inherits from [Object.prototype]: for the name [__proto__], not
    an icon of the registry, the fragment is the text "[object Object]". *)
Theorem renderIcons_inherited_name :
  own (lit "__proto__") icons = None
  /\ getIconSVG (lit "__proto__") = ObjectPrototype
  /\ renderIcons native_source (lit "[ICON:__proto__]")
     = qlit "<span class='inline-block align-middle'>[object Object]</span>".
Proof. vm_compute. repeat split. Qed.

End IconFacts.

(** ** The sanitiser *)

Lemma m_Assert (a : assertion) (k : cont) (prev : option char) (s : jsstring) (c : captures) :
  m (Assert a) k prev s c = if holds a prev s then k prev s c else None.
Proof. reflexivity. Qed.

Lemma m_Star (g : bool) (r : regex) (k : cont) (prev : option char) (s : jsstring)
    (c : captures) :
  m (Star g r) k prev s c = star_loop g (m r) k (length s) prev s c.
Proof. reflexivity. Qed.

Lemma m_NotAhead (r : regex) (k : cont) (prev : option char) (s : jsstring) (c : captures) :
  m (NotAhead r) k prev s c
  = match m r (fun prev' s' c' => Some (prev', s', c')) prev s c with
    | Some _ => None
    | None => k prev s c
    end.
Proof. reflexivity. Qed.

Lemma star_loop_S (body : cont -> cont) (k : cont) (fuel : nat) (prev : option char)
    (s : jsstring) (c : captures) :
  star_loop true body k (S fuel) prev s c
  = match body (fun prev' s' c' =>
                  if length s' <? length s then star_loop true body k fuel prev' s' c'
                  else None) prev s c with
    | Some res => Some res
    | None => k prev s c
    end.
Proof. reflexivity. Qed.

Lemma span_prefix (P : char -> bool) (w rest : jsstring) :
  Forall (fun x => P x = true) w ->
  match rest with [] => True | x :: _ => P x = false end ->
  span P (w ++ rest) = (w, rest).
Proof.
  intros Hw Hr. induction Hw as [|x w Hx _ IH]; cbn [app span].
  - destruct rest as [|x rest]; [reflexivity|]. cbn [span]. rewrite Hr. reflexivity.
  - rewrite Hx, IH. reflexivity.
Qed.

Lemma replace_from_hit (r : regex) (f : replacer) (fuel : nat) (before s : jsstring)
    (prev' : option char) (s' : jsstring) (c : captures) :
  exec_at r (hd_error before) s = Some (prev', s', c) ->
  length s' < length s ->
  replace_from (S fuel) r f before s
  = f (firstn (length s - length s') s) (rev before) s' (capture_list r c)
    ++ replace_from fuel r f (rev (firstn (length s - length s') s) ++ before) s'.
Proof.
  intros E Hlt. cbn [replace_from]. rewrite E.
  apply Nat.ltb_lt in Hlt. rewrite Hlt. reflexivity.
Qed.

(** Going over a stretch [u] of the text in which no match starts. *)
Lemma replace_from_skip (r : regex) (f : replacer) (rest : jsstring) :
  forall u,
  (forall u2 prev, suffix u2 u -> u2 <> [] -> exec_at r prev (u2 ++ rest) = None) ->
  forall fuel before,
    replace_from (length u + fuel) r f before (u ++ rest)
    = u ++ replace_from fuel r f (rev u ++ before) rest.
Proof.
  induction u as [|x u IH]; intros H fuel before; [reflexivity|].
  cbn [length Nat.add app replace_from].
  rewrite (H (x :: u)) by (auto using suffix_refl; discriminate).
  rewrite IH.
  - cbn [rev]. rewrite <- app_assoc. reflexivity.
  - intros u2 prev Hs Hne. apply H; [|exact Hne].
    eapply suffix_trans; [exact Hs|apply suffix_tail].
Qed.

Ltac reduce_test :=
  match goal with
  | |- context [if ?b then _ else _] =>
      let v := eval vm_compute in b in change b with v
  end; cbv iota.

Ltac eat := rewrite ?m_Seq; rewrite m_Char_cons; reduce_test.

Ltac lit_cons := eval_lits; cbn [app].

(** *** Script blocks *)

Lemma exec_script_miss (prev : option char) (x : char) (s : jsstring) :
  x <> 60%N -> exec_at Patterns.script_block prev (x :: s) = None.
Proof.
  intros Hx. unfold exec_at, Patterns.script_block. cbn [Patterns.seqs].
  eval_lits. cbn [str_i]. unfold chr_i. rewrite !m_Seq, m_Char_cons.
  change (fold_case 60) with 60%N.
  destruct (N.eqb_spec (fold_case x) 60) as [E|]; [|reflexivity].
  exfalso. apply Hx. unfold fold_case in E.
  destruct (is_lower x) eqn:El; [|exact E].
  unfold is_lower, in_range in El. apply andb_prop in El as [E1 E2].
  apply N.leb_le in E1, E2. lia.
Qed.

Lemma not_lt_fold (x : char) : not_lt x = true -> N.eqb (fold_case x) 60 = false.
Proof.
  unfold not_lt. eval_lits. cbn [char_in].
  destruct (N.eqb_spec x 60) as [|Hx]; [intros H; discriminate H|]. intros _.
  destruct (N.eqb_spec (fold_case x) 60) as [E|]; [|reflexivity].
  exfalso. apply Hx. unfold fold_case in E.
  destruct (is_lower x) eqn:El; [|exact E].
  unfold is_lower, in_range in El. apply andb_prop in El as [E1 E2].
  apply N.leb_le in E1, E2. lia.
Qed.

Lemma not_lt_neq (x : char) : not_lt x = true -> N.eqb 60 x = false.
Proof.
  unfold not_lt. eval_lits. cbn [char_in]. rewrite (N.eqb_sym x 60).
  destruct (N.eqb 60 x); [intros H; discriminate H|reflexivity].
Qed.

Lemma neq_not_lt (x : char) : x <> 60%N -> not_lt x = true.
Proof.
  intros Hx. unfold not_lt. eval_lits. cbn [char_in].
  destruct (N.eqb_spec x 60); [contradiction|reflexivity].
Qed.

Lemma exec_script_hit (prev : option char) (body rest : jsstring) :
  Forall (fun x => x <> 60%N) body ->
  exec_at Patterns.script_block prev (lit "<script>" ++ body ++ lit "</script>" ++ rest)
  = Some (Some 62%N, rest, []).
Proof.
  intros Hb. unfold exec_at, Patterns.script_block. cbn [Patterns.seqs].
  change (code "<") with 60%N.
  lit_cons. cbn [str_i]. unfold chr_i.
  do 7 eat. rewrite m_Seq, m_Assert. reduce_test.
  rewrite m_Seq. unfold none_of at 1.
  change (fun c : char => negb (char_in [60%N] c)) with not_lt.
  rewrite m_star_class, greedy_scan_span.
  2:{ intros p x s c Hx. rewrite m_Seq, m_Star. cbn [length]. rewrite star_loop_S.
      rewrite !m_Seq, m_NotAhead, !m_Seq, m_Char_cons.
      change (fold_case 60) with 60%N. rewrite (not_lt_fold x Hx).
      unfold chr. rewrite m_Char_cons.
      rewrite (not_lt_neq x Hx).
      rewrite ?m_Seq, m_Char_cons. rewrite (not_lt_fold x Hx). reflexivity. }
  match goal with
  | |- context [span not_lt (62%N :: body ++ ?t)] =>
      change (62%N :: body ++ t) with ((62%N :: body) ++ t)
  end.
  rewrite (span_prefix not_lt (62%N :: body) (60%N :: _)).
  2:{ constructor; [reflexivity|]. revert Hb. apply Forall_impl. exact neq_not_lt. }
  2:{ reflexivity. }
  cbn [fst snd].
  rewrite m_Seq, m_Star. cbn [length]. rewrite star_loop_S.
  rewrite !m_Seq, m_NotAhead.
  repeat eat. reflexivity.
Qed.

(** *** Event-handler attributes *)

Lemma handler_double_eq : Patterns.handler_double = handler QUOTE.
Proof. reflexivity. Qed.

Lemma handler_single_eq : Patterns.handler_single = handler 39%N.
Proof. reflexivity. Qed.

Lemma not_quote_true (q x : char) : x <> q -> not_quote q x = true.
Proof.
  intros H. unfold not_quote. cbn [char_in].
  destruct (N.eqb_spec x q); [contradiction|reflexivity].
Qed.

Lemma not_quote_neq (q x : char) : not_quote q x = true -> N.eqb q x = false.
Proof.
  unfold not_quote. cbn [char_in]. rewrite (N.eqb_sym x q).
  destruct (N.eqb q x); [intros H; discriminate H|reflexivity].
Qed.

Lemma word_not_equals (x : char) : is_word x = true -> N.eqb 61 x = false.
Proof.
  intros H. destruct (N.eqb_spec 61 x) as [<-|]; [discriminate H|reflexivity].
Qed.

Lemma exec_handler_hit (q : char) (prev : option char) (x : char)
    (name v rest : jsstring) :
  is_word x = true -> Forall (fun y => is_word y = true) name ->
  Forall (fun y => y <> q) v ->
  exec_at (handler q) prev (lit "on" ++ (x :: name) ++ 61%N :: q :: v ++ q :: rest)
  = Some (Some q, rest, []).
Proof.
  intros Hx Hname Hv. unfold exec_at, handler. cbn [Patterns.seqs].
  change (code "=") with 61%N. lit_cons. cbn [str_i]. unfold chr_i.
  do 2 eat. unfold Plus, word. rewrite !m_Seq, m_Char_cons, Hx.
  rewrite m_star_class, greedy_scan_span.
  2:{ intros p y s c Hy. rewrite m_Seq. unfold chr. rewrite m_Char_cons.
      rewrite (word_not_equals y Hy). reflexivity. }
  rewrite (span_prefix is_word name (61%N :: _) Hname eq_refl). cbn [fst snd].
  rewrite m_Seq. unfold chr at 1. rewrite m_Char_cons. cbn [N.eqb Pos.eqb].
  rewrite m_Seq. unfold chr at 1. rewrite m_Char_cons, N.eqb_refl.
  rewrite m_Seq. unfold none_of.
  change (fun c : char => negb (char_in [q] c)) with (not_quote q).
  rewrite m_star_class, greedy_scan_span.
  2:{ intros p y s c Hy. unfold chr. rewrite m_Char_cons.
      rewrite (not_quote_neq q y Hy). reflexivity. }
  rewrite (span_prefix (not_quote q) v (q :: rest)).
  2:{ revert Hv. apply Forall_impl. intros y. apply not_quote_true. }
  2:{ unfold not_quote. cbn [char_in]. rewrite N.eqb_refl. reflexivity. }
  cbn [fst snd]. unfold chr. rewrite m_Char_cons, N.eqb_refl. reflexivity.
Qed.

(** In a stretch without the quote that runs up to a space, no handler
    attribute starts. *)
Lemma handler_value_miss (q : char) (R : regex) (k : cont) (rest : jsstring) :
  q <> SPACE ->
  forall u prev c, Forall (fun y => y <> q) u ->
  greedy_scan is_word (m (Seq (chr 61) (Seq (chr q) R)) k) prev (u ++ SPACE :: rest) c
  = None.
Proof.
  intros Hq. induction u as [|x u IH]; intros prev c Hu.
  - cbn [app greedy_scan]. change (is_word SPACE) with false. cbv iota.
    rewrite m_Seq. unfold chr. rewrite m_Char_cons. reflexivity.
  - inversion Hu as [|? ? Hx Hu']; subst.
    cbn [app greedy_scan]. rewrite (IH _ _ Hu').
    assert (m (Seq (chr 61) (Seq (chr q) R)) k prev (x :: u ++ SPACE :: rest) c = None) as E.
    { rewrite m_Seq. unfold chr at 1. rewrite m_Char_cons.
      destruct (N.eqb 61 x); [|reflexivity].
      rewrite m_Seq. unfold chr at 1.
      destruct u as [|y u]; cbn [app]; rewrite m_Char_cons.
      - destruct (N.eqb_spec q SPACE); [contradiction|reflexivity].
      - inversion Hu' as [|? ? Hy _]; subst.
        destruct (N.eqb_spec q y) as [->|]; [contradiction|reflexivity]. }
    rewrite E. destruct (is_word x); reflexivity.
Qed.

Lemma exec_handler_miss (q : char) (prev : option char) (u rest : jsstring) :
  q <> SPACE -> Forall (fun y => y <> q) u ->
  exec_at (handler q) prev (u ++ SPACE :: rest) = None.
Proof.
  intros Hq Hu. unfold exec_at, handler. cbn [Patterns.seqs].
  change (code "=") with 61%N. eval_lits. cbn [str_i]. unfold chr_i.
  rewrite !m_Seq.
  destruct u as [|a u]; cbn [app]; rewrite m_Char_cons; [reflexivity|].
  destruct (N.eqb (fold_case a) (fold_case 111)); [|reflexivity].
  inversion Hu as [|? ? _ Hu1]; subst.
  destruct u as [|b u]; cbn [app]; rewrite m_Char_cons; [reflexivity|].
  destruct (N.eqb (fold_case b) (fold_case 110)); [|reflexivity].
  inversion Hu1 as [|? ? _ Hu2]; subst.
  unfold Plus, word. rewrite !m_Seq.
  destruct u as [|d u]; cbn [app]; rewrite m_Char_cons; [reflexivity|].
  destruct (is_word d); [|reflexivity].
  inversion Hu2 as [|? ? _ Hu3]; subst.
  rewrite m_star_class. apply handler_value_miss; assumption.
Qed.

Lemma suffix_snoc_inv (u2 pre : jsstring) (x : char) :
  suffix u2 (pre ++ [x]) -> u2 <> [] -> exists u2', u2 = u2' ++ [x] /\ suffix u2' pre.
Proof.
  intros [p E] Hne.
  destruct (exists_last Hne) as (u2' & l & ->).
  rewrite app_assoc in E. apply app_inj_tail in E as [E ->].
  exists u2'. split; [reflexivity|]. exists p. exact E.
Qed.

Lemma template_empty (matched before after : jsstring) (caps : list (option jsstring)) :
  template [] matched before after caps = [].
Proof. reflexivity. Qed.

Lemma needs_handler (q : char) : needs (N.eqb q) (handler q).
Proof.
  unfold handler. cbn [Patterns.seqs needs]. right. right. right. left.
  intros x H. exact H.
Qed.

Lemma free_of_quote (q : char) (s : jsstring) :
  Forall (fun y => y <> q) s -> free_of (N.eqb q) s.
Proof.
  apply Forall_impl. intros y Hy. destruct (N.eqb_spec q y) as [->|]; [contradiction|reflexivity].
Qed.

(** An attribute [on...=Q...Q] after a space, in text without the quote, is
    deleted by the pattern for that quote; the space stays. *)
Lemma replace_handler (q x : char) (pre name v post : jsstring) :
  q <> SPACE ->
  is_word x = true -> Forall (fun y => is_word y = true) name ->
  Forall (fun y => y <> q) pre -> Forall (fun y => y <> q) v ->
  Forall (fun y => y <> q) post ->
  replace_all (handler q) (template [])
    ((pre ++ [SPACE]) ++ lit "on" ++ (x :: name) ++ 61%N :: q :: v ++ q :: post)
  = pre ++ SPACE :: post.
Proof.
  intros Hq Hx Hname Hpre Hv Hpost. unfold replace_all.
  set (attr := lit "on" ++ (x :: name) ++ 61%N :: q :: v ++ q :: post).
  replace (S (length ((pre ++ [SPACE]) ++ attr)))
    with (length (pre ++ [SPACE]) + S (length attr))
    by (rewrite (length_app (pre ++ [SPACE])); lia).
  rewrite replace_from_skip.
  2:{ intros u2 prev Hs Hne.
      destruct (suffix_snoc_inv u2 pre SPACE Hs Hne) as (u2' & -> & Hs').
      rewrite <- app_assoc. cbn [app]. apply exec_handler_miss; [exact Hq|].
      exact (suffix_Forall _ _ _ Hs' Hpre). }
  rewrite (replace_from_hit _ _ _ _ attr (Some q) post []).
  2:{ apply exec_handler_hit; assumption. }
  2:{ unfold attr. lit_cons. repeat (progress cbn [length] || rewrite length_app). lia. }
  rewrite template_empty. cbn [app].
  rewrite replace_from_none.
  - rewrite <- app_assoc. reflexivity.
  - intros prev s' Hs'. apply exec_at_needs with (P := N.eqb q); [apply needs_handler|].
    apply free_of_quote. exact (suffix_Forall _ _ _ Hs' Hpost).
Qed.

(** A script element in text without [<] is deleted. *)
Lemma replace_script (pre body post : jsstring) :
  Forall (fun y => y <> 60%N) pre -> Forall (fun y => y <> 60%N) body ->
  Forall (fun y => y <> 60%N) post ->
  replace_all Patterns.script_block (template [])
    (pre ++ lit "<script>" ++ body ++ lit "</script>" ++ post)
  = pre ++ post.
Proof.
  intros Hpre Hbody Hpost. unfold replace_all.
  set (block := lit "<script>" ++ body ++ lit "</script>" ++ post).
  replace (S (length (pre ++ block))) with (length pre + S (length block))
    by (rewrite length_app; lia).
  rewrite replace_from_skip.
  2:{ intros u2 prev Hs Hne. destruct u2 as [|y u2]; [contradiction|].
      cbn [app]. apply exec_script_miss.
      apply (suffix_Forall _ _ _ Hs) in Hpre. inversion Hpre; assumption. }
  rewrite (replace_from_hit _ _ _ _ block (Some 62%N) post []).
  2:{ apply exec_script_hit, Hbody. }
  2:{ unfold block. lit_cons. repeat (progress cbn [length] || rewrite length_app). lia. }
  rewrite template_empty. cbn [app]. f_equal.
  apply replace_from_none. intros prev s' Hs'.
  destruct s' as [|y s']; [reflexivity|]. apply exec_script_miss.
  apply (suffix_Forall _ _ _ Hs') in Hpost. inversion Hpost; assumption.
Qed.

(** *** What each pattern of the sanitiser needs *)

Lemma fold_case_eq (x c : char) :
  is_lower c = false -> is_upper c = false ->
  N.eqb (fold_case x) (fold_case c) = true -> N.eqb c x = true.
Proof.
  intros Hl Hu H. apply N.eqb_eq in H. apply N.eqb_eq.
  unfold fold_case in H. rewrite Hl in H.
  destruct (is_lower x) eqn:Ex; [|congruence].
  exfalso. unfold is_lower, in_range in Ex. apply andb_prop in Ex as [E1 E2].
  apply N.leb_le in E1, E2.
  assert (is_upper c = true) as Hc; [|congruence].
  unfold is_upper, in_range. apply andb_true_intro. split; apply N.leb_le; lia.
Qed.

Lemma needs_script_block : needs (N.eqb 60) Patterns.script_block.
Proof.
  unfold Patterns.script_block. cbn [Patterns.seqs]. eval_lits. cbn [str_i needs].
  left. left. unfold chr_i. cbn [needs]. intros x. apply fold_case_eq; reflexivity.
Qed.

Lemma needs_javascript_scheme : needs (N.eqb 58) Patterns.javascript_scheme.
Proof.
  unfold Patterns.javascript_scheme. eval_lits. cbn [str_i needs].
  do 10 right. unfold chr_i. cbn [needs]. intros x. apply fold_case_eq; reflexivity.
Qed.

Lemma needs_heading_hashes : needs (N.eqb 60) Patterns.heading_hashes.
Proof.
  unfold Patterns.heading_hashes. cbn [Patterns.seqs needs]. left. intros x H. exact H.
Qed.

Lemma needs_empty_heading : needs (N.eqb 60) Patterns.empty_heading.
Proof.
  unfold Patterns.empty_heading. cbn [Patterns.seqs needs]. left. intros x H. exact H.
Qed.

Lemma needs_handler_double : needs (N.eqb QUOTE) Patterns.handler_double.
Proof. rewrite handler_double_eq. apply needs_handler. Qed.

Lemma needs_handler_single : needs (N.eqb 39) Patterns.handler_single.
Proof. rewrite handler_single_eq. apply needs_handler. Qed.

Lemma inert_without (c : char) (s : jsstring) :
  danger c = true -> inert s -> Forall (fun y => y <> c) s.
Proof.
  intros Hc. apply Forall_impl. intros y Hy ->. congruence.
Qed.

Lemma inert_free_of (c : char) (s : jsstring) :
  danger c = true -> inert s -> free_of (N.eqb c) s.
Proof. intros Hc Hs. apply free_of_quote, inert_without; assumption. Qed.

(** On inert text every pass of the sanitiser is the identity. *)
Lemma safeHtml_inert (s : jsstring) : inert s -> safeHtml s = s.
Proof.
  intros H. unfold safeHtml. cbv zeta.
  rewrite (replace_all_needs (N.eqb 60) _ _ s needs_script_block)
    by (apply inert_free_of; [reflexivity|exact H]).
  rewrite (replace_all_needs (N.eqb 58) _ _ s needs_javascript_scheme)
    by (apply inert_free_of; [reflexivity|exact H]).
  rewrite (replace_all_needs (N.eqb QUOTE) _ _ s needs_handler_double)
    by (apply inert_free_of; [reflexivity|exact H]).
  rewrite (replace_all_needs (N.eqb 39) _ _ s needs_handler_single)
    by (apply inert_free_of; [reflexivity|exact H]).
  rewrite (replace_all_needs (N.eqb 60) _ _ s needs_heading_hashes)
    by (apply inert_free_of; [reflexivity|exact H]).
  apply (replace_all_needs (N.eqb 60) _ _ s needs_empty_heading).
  apply inert_free_of; [reflexivity|exact H].
Qed.

Lemma safeHtml_script (pre body post : jsstring) :
  inert pre -> inert post -> Forall (fun y => y <> 60%N) body ->
  safeHtml (pre ++ lit "<script>" ++ body ++ lit "</script>" ++ post) = pre ++ post.
Proof.
  intros Hpre Hpost Hbody.
  assert (inert (pre ++ post)) as H by (apply Forall_app; split; assumption).
  rewrite <- (safeHtml_inert (pre ++ post) H).
  unfold safeHtml. cbv zeta.
  rewrite (replace_script pre body post);
    [|apply inert_without; [reflexivity|assumption]|exact Hbody
     |apply inert_without; [reflexivity|assumption]].
  rewrite (replace_all_needs (N.eqb 60) _ _ (pre ++ post) needs_script_block)
    by (apply inert_free_of; [reflexivity|exact H]).
  reflexivity.
Qed.

Lemma word_not_danger (c y : char) : danger c = true -> is_word y = true -> y <> c.
Proof. intros Hc Hy ->. revert Hc Hy. unfold danger. eval_lits. cbn [char_in].
  repeat match goal with
         | |- context [N.eqb c ?b] =>
             destruct (N.eqb_spec c b) as [->|_]; [intros _ H; discriminate H|]
         end.
  intros H; discriminate H.
Qed.

(** The text of an attribute holds a dangerous code unit only as its quote. *)
Lemma attribute_without (c q : char) (pre name v post : jsstring) :
  danger c = true -> c <> q ->
  inert pre -> Forall (fun y => is_word y = true) name -> inert v -> inert post ->
  Forall (fun y => y <> c)
    (pre ++ lit " on" ++ name ++ lit "=" ++ [q] ++ v ++ [q] ++ post).
Proof.
  intros Hc Hq Hpre Hname Hv Hpost.
  assert (forall y, In y (lit " on=") -> y <> c) as Hlit.
  { intros y Hy ->. revert Hy Hc. vm_compute.
    intros [<-|[<-|[<-|[<-|[]]]]]; intros H; discriminate H. }
  repeat (apply Forall_app; split);
    try (apply inert_without; assumption).
  - apply Forall_forall. intros y Hy. apply Hlit. revert Hy. vm_compute. tauto.
  - revert Hname. apply Forall_impl. intros y. apply word_not_danger, Hc.
  - apply Forall_forall. intros y Hy. apply Hlit. revert Hy. vm_compute. tauto.
  - constructor; [congruence|constructor].
  - constructor; [congruence|constructor].
Qed.

Lemma inert_joined (pre post : jsstring) : inert pre -> inert post -> inert (pre ++ SPACE :: post).
Proof.
  intros Hpre Hpost. apply Forall_app. split; [exact Hpre|].
  constructor; [reflexivity|exact Hpost].
Qed.

Lemma safeHtml_handler (q : char) (pre name v post : jsstring) :
  q = QUOTE \/ q = 39%N -> name <> [] ->
  Forall (fun y => is_word y = true) name ->
  inert pre -> inert v -> inert post ->
  safeHtml (pre ++ lit " on" ++ name ++ lit "=" ++ [q] ++ v ++ [q] ++ post)
  = pre ++ lit " " ++ post.
Proof.
  intros Hq Hne Hname Hpre Hv Hpost.
  destruct name as [|x name]; [contradiction|].
  pose proof (inert_joined pre post Hpre Hpost) as HT.
  assert (forall c, danger c = true -> c <> q ->
            free_of (N.eqb c)
              (pre ++ lit " on" ++ (x :: name) ++ lit "=" ++ [q] ++ v ++ [q] ++ post)) as Hfree.
  { intros c Hc Hcq. apply free_of_quote, attribute_without; assumption. }
  assert (pre ++ lit " on" ++ (x :: name) ++ lit "=" ++ [q] ++ v ++ [q] ++ post
          = (pre ++ [SPACE]) ++ lit "on" ++ (x :: name) ++ 61%N :: q :: v ++ q :: post) as Eform
    by (rewrite <- app_assoc; reflexivity).
  inversion Hname as [|? ? Hx Hname']; subst.
  unfold safeHtml. cbv zeta.
  rewrite (replace_all_needs (N.eqb 60) _ _ _ needs_script_block)
    by (apply Hfree; [reflexivity|destruct Hq as [->| ->]; discriminate]).
  rewrite (replace_all_needs (N.eqb 58) _ _ _ needs_javascript_scheme)
    by (apply Hfree; [reflexivity|destruct Hq as [->| ->]; discriminate]).
  destruct Hq as [-> | ->].
  - rewrite handler_double_eq, Eform.
    rewrite (replace_handler QUOTE x pre name v post);
      [|discriminate|assumption|assumption
       |apply inert_without; [reflexivity|assumption]
       |apply inert_without; [reflexivity|assumption]
       |apply inert_without; [reflexivity|assumption]].
    rewrite (replace_all_needs (N.eqb 39) _ _ _ needs_handler_single)
      by (apply inert_free_of; [reflexivity|exact HT]).
    rewrite (replace_all_needs (N.eqb 60) _ _ _ needs_heading_hashes)
      by (apply inert_free_of; [reflexivity|exact HT]).
    apply (replace_all_needs (N.eqb 60) _ _ _ needs_empty_heading).
    apply inert_free_of; [reflexivity|exact HT].
  - rewrite (replace_all_needs (N.eqb QUOTE) _ _ _ needs_handler_double)
      by (apply Hfree; [reflexivity|discriminate]).
    rewrite handler_single_eq, Eform.
    rewrite (replace_handler 39%N x pre name v post);
      [|discriminate|assumption|assumption
       |apply inert_without; [reflexivity|assumption]
       |apply inert_without; [reflexivity|assumption]
       |apply inert_without; [reflexivity|assumption]].
    rewrite (replace_all_needs (N.eqb 60) _ _ _ needs_heading_hashes)
      by (apply inert_free_of; [reflexivity|exact HT]).
    apply (replace_all_needs (N.eqb 60) _ _ _ needs_empty_heading).
    apply inert_free_of; [reflexivity|exact HT].
Qed.

(** *** The scheme [javascript:] *)

(** A literal matched without regard to case is matched code unit by code
    unit. *)
Lemma str_i_sound (l : jsstring) : l <> [] ->
  forall k prev s c res,
  m (str_i l) k prev s c = Some res ->
  exists w rest,
    s = w ++ rest
    /\ Forall2 (fun y x => N.eqb (fold_case y) (fold_case x) = true) w l.
Proof.
  induction l as [|x l IH]; intros Hne k prev s c res; [contradiction|].
  destruct l as [|x' l].
  - cbn [str_i]. unfold chr_i. destruct s as [|y s]; [discriminate|].
    rewrite m_Char_cons. destruct (N.eqb (fold_case y) (fold_case x)) eqn:E; [|discriminate].
    intros _. exists [y], s. split; [reflexivity|]. constructor; [exact E|constructor].
  - change (str_i (x :: x' :: l)) with (Seq (chr_i x) (str_i (x' :: l))).
    rewrite m_Seq. unfold chr_i at 1. destruct s as [|y s]; [discriminate|].
    rewrite m_Char_cons. destruct (N.eqb (fold_case y) (fold_case x)) eqn:E; [|discriminate].
    intros H. apply IH in H as (w & rest & -> & Hw); [|discriminate].
    exists (y :: w), rest. split; [reflexivity|]. constructor; assumption.
Qed.

Lemma colon_fold (y : char) : N.eqb (fold_case y) (fold_case 58) = true -> y = 58%N.
Proof.
  intros H. apply fold_case_eq in H; [|reflexivity|reflexivity].
  apply N.eqb_eq in H. symmetry. exact H.
Qed.

(** Before the scheme, in text without a colon, the pattern does not match:
    its eleventh code unit would have to be a colon. *)
Lemma exec_javascript_miss (prev : option char) (y : char) (u post : jsstring) :
  Forall (fun z => z <> 58%N) (y :: u) ->
  exec_at Patterns.javascript_scheme prev ((y :: u) ++ lit "javascript:" ++ post) = None.
Proof.
  intros Hu. unfold exec_at, Patterns.javascript_scheme.
  destruct (m _ accept prev _ []) as [res|] eqn:E; [exfalso|reflexivity].
  apply str_i_sound in E as (w & rest & Es & Hw); [|vm_compute; discriminate].
  revert Es Hw. eval_lits. cbn [app]. intros Es Hw.
  repeat match type of Hw with
         | Forall2 _ _ (_ :: _) =>
             let a := fresh "a" in
             let w' := fresh "w" in
             let Ha := fresh "Ha" in
             inversion Hw as [|a ? w' ? Ha Hw']; subst; clear Hw; rename Hw' into Hw
         end.
  inversion Hw; subst. clear Hw.
  repeat match goal with
         | H : N.eqb (fold_case _) (fold_case ?c) = true |- _ =>
             lazymatch c with
             | 58%N => fail
             | _ => clear H
             end
         end.
  match goal with H : N.eqb (fold_case ?a) (fold_case 58) = true |- _ =>
    apply colon_fold in H; subst a end.
  cbn [app] in Es.
  inversion Hu as [|? ? Hy Hu1]; subst. injection Es as -> Es.
  repeat (destruct u as [|? u];
          [cbn [app] in Es; discriminate Es
          |inversion Hu1 as [|? ? ? Hu2]; subst; clear Hu1; rename Hu2 into Hu1;
           cbn [app] in Es; injection Es as ? Es; subst; try congruence]).
Qed.

Lemma exec_javascript_hit (prev : option char) (post : jsstring) :
  exec_at Patterns.javascript_scheme prev (lit "javascript:" ++ post)
  = Some (Some 58%N, post, []).
Proof.
  unfold exec_at, Patterns.javascript_scheme. lit_cons. cbn [str_i]. unfold chr_i.
  repeat eat. reflexivity.
Qed.

Lemma replace_javascript (pre post : jsstring) :
  Forall (fun y => y <> 58%N) pre -> Forall (fun y => y <> 58%N) post ->
  replace_all Patterns.javascript_scheme (template []) (pre ++ lit "javascript:" ++ post)
  = pre ++ post.
Proof.
  intros Hpre Hpost. unfold replace_all.
  set (tok := lit "javascript:" ++ post).
  replace (S (length (pre ++ tok))) with (length pre + S (length tok))
    by (rewrite length_app; lia).
  rewrite replace_from_skip.
  2:{ intros u2 prev Hs Hne. destruct u2 as [|y u2]; [contradiction|].
      apply exec_javascript_miss. exact (suffix_Forall _ _ _ Hs Hpre). }
  rewrite (replace_from_hit _ _ _ _ tok (Some 58%N) post []).
  2:{ apply exec_javascript_hit. }
  2:{ unfold tok. lit_cons. cbn [length]. lia. }
  rewrite template_empty. cbn [app]. f_equal.
  apply replace_from_none. intros prev s' Hs'.
  apply exec_at_needs with (P := N.eqb 58); [apply needs_javascript_scheme|].
  apply free_of_quote. exact (suffix_Forall _ _ _ Hs' Hpost).
Qed.

Lemma safeHtml_javascript (pre post : jsstring) :
  inert pre -> inert post ->
  safeHtml (pre ++ lit "javascript:" ++ post) = pre ++ post.
Proof.
  intros Hpre Hpost.
  assert (inert (pre ++ post)) as H by (apply Forall_app; split; assumption).
  rewrite <- (safeHtml_inert (pre ++ post) H).
  unfold safeHtml. cbv zeta.
  rewrite (replace_all_needs (N.eqb 60) _ _ _ needs_script_block).
  2:{ apply free_of_quote. repeat (apply Forall_app; split);
        try (apply inert_without; [reflexivity|assumption]).
      vm_compute. repeat (constructor; [discriminate|]). constructor. }
  rewrite (replace_javascript pre post)
    by (apply inert_without; [reflexivity|assumption]).
  rewrite (replace_all_needs (N.eqb 60) _ _ (pre ++ post) needs_script_block)
    by (apply inert_free_of; [reflexivity|exact H]).
  rewrite (replace_all_needs (N.eqb 58) _ _ (pre ++ post) needs_javascript_scheme)
    by (apply inert_free_of; [reflexivity|exact H]).
  reflexivity.
Qed.

(** *** A single match in arbitrary markup *)

Lemma replace_from_unmatched (r : regex) (f : replacer) (fuel : nat) :
  forall before s,
  search_from r (hd_error before) s = None -> replace_from fuel r f before s = s.
Proof.
  induction fuel as [|fuel IH]; intros before s H; [reflexivity|].
  cbn [replace_from]. destruct s as [|x t]; cbn [search_from] in H.
  - destruct (exec_at r (hd_error before) []) as [[[? ?] ?]|]; [discriminate|reflexivity].
  - destruct (exec_at r (hd_error before) (x :: t)) as [[[? ?] ?]|]; [discriminate|].
    f_equal. apply IH. exact H.
Qed.

Lemma replace_all_unmatched (r : regex) (f : replacer) (s : jsstring) :
  test r s = false -> replace_all r f s = s.
Proof.
  unfold test, replace_all. intros H. apply replace_from_unmatched. cbn [hd_error].
  destruct (search_from r None s); [discriminate|reflexivity].
Qed.

Lemma replace_from_misses (r : regex) (f : replacer) (rest : jsstring) :
  forall u fuel before,
  misses r (hd_error before) u rest = true ->
  replace_from (length u + fuel) r f before (u ++ rest)
  = u ++ replace_from fuel r f (rev u ++ before) rest.
Proof.
  induction u as [|x u IH]; intros fuel before H; [reflexivity|].
  cbn [misses] in H. cbn [length Nat.add app replace_from].
  change (x :: u ++ rest) with ((x :: u) ++ rest).
  destruct (exec_at r (hd_error before) ((x :: u) ++ rest)); [discriminate|].
  cbn [app]. rewrite (IH fuel (x :: before) H).
  cbn [rev]. rewrite <- app_assoc. reflexivity.
Qed.

Lemma hd_error_rev (w : jsstring) : hd_error (rev w) = after None w.
Proof. unfold after. destruct (rev w); reflexivity. Qed.

(** When a pattern matches a text at one place only, replacing every match
    replaces that one. *)
Lemma replace_one (r : regex) (f : replacer) (pre mid post : jsstring)
    (p' : option char) (c : captures) :
  mid <> [] ->
  exec_at r (after None pre) (mid ++ post) = Some (p', post, c) ->
  only_match r pre mid post = true ->
  replace_all r f (pre ++ mid ++ post) = pre ++ f mid pre post (capture_list r c) ++ post.
Proof.
  intros Hmid Hexec Honly. unfold only_match in Honly.
  apply andb_prop in Honly as [Hpre Hpost]. unfold replace_all.
  replace (S (length (pre ++ mid ++ post))) with (length pre + S (length (mid ++ post)))
    by (rewrite (length_app pre); lia).
  rewrite replace_from_misses by exact Hpre.
  rewrite app_nil_r.
  rewrite <- hd_error_rev in Hexec.
  rewrite (replace_from_hit _ _ _ _ _ p' post c Hexec).
  2:{ rewrite length_app. destruct mid; [contradiction|]. cbn [length]. lia. }
  rewrite firstn_consumed, rev_involutive. do 2 f_equal.
  apply replace_from_unmatched.
  rewrite <- rev_app_distr, hd_error_rev. unfold matches_nowhere in Hpost.
  destruct (search_from r _ post); [discriminate|reflexivity].
Qed.

Ltac split_unmatched H :=
  unfold unmatched in H; cbn [sanitizer_patterns firstn skipn forallb] in H;
  repeat match type of H with
         | (_ && _)%bool = true =>
             let H1 := fresh "U" in
             apply andb_prop in H as [H1 H]; apply negb_true_iff in H1
         end.

(** One of the four deleting patterns matches the markup at [mid] and no
    sanitiser pattern matches anything else, before or after the deletion:
    then the sanitiser deletes [mid]. *)
Lemma safeHtml_one (i : nat) (r : regex) (pre mid post : jsstring)
    (p' : option char) (c : captures) :
  i < 4 -> nth_error sanitizer_patterns i = Some r ->
  mid <> [] ->
  exec_at r (after None pre) (mid ++ post) = Some (p', post, c) ->
  unmatched (firstn i sanitizer_patterns) (pre ++ mid ++ post) = true ->
  only_match r pre mid post = true ->
  unmatched (skipn (S i) sanitizer_patterns) (pre ++ post) = true ->
  safeHtml (pre ++ mid ++ post) = pre ++ post.
Proof.
  intros Hi Hr Hmid Hexec Hbefore Honly Hafter.
  unfold safeHtml. cbv zeta.
  destruct i as [|[|[|[|i]]]]; [| | | |lia];
    cbn [sanitizer_patterns nth_error] in Hr; injection Hr as <-;
    split_unmatched Hbefore; split_unmatched Hafter;
    repeat match goal with
           | U : test ?r ?s = false |- context [replace_all ?r ?f ?s] =>
               rewrite (replace_all_unmatched r f s U)
           | |- context [replace_all ?r ?f (pre ++ mid ++ post)] =>
               rewrite (replace_one r f pre mid post p' c Hmid Hexec Honly);
               rewrite template_empty; cbn [app]
           end;
    reflexivity.
Qed.

Lemma script_element_matched (prev : option char) (body post : jsstring) :
  Forall (fun y => y <> 60%N) body ->
  exec_at Patterns.script_block prev (script_element body ++ post)
  = Some (Some 62%N, post, []).
Proof.
  intros H. unfold script_element. rewrite <- !app_assoc. apply exec_script_hit, H.
Qed.

Lemma handler_attribute_matched (q : char) (prev : option char) (name v post : jsstring) :
  name <> [] -> Forall (fun y => is_word y = true) name -> Forall (fun y => y <> q) v ->
  exec_at (handler q) prev (handler_attribute q name v ++ post) = Some (Some q, post, []).
Proof.
  intros Hne Hname Hv. destruct name as [|x name]; [contradiction|].
  inversion Hname; subst.
  unfold handler_attribute. rewrite <- !app_assoc.
  apply (exec_handler_hit q prev x name v post); assumption.
Qed.

Lemma script_element_nonempty (body : jsstring) : script_element body <> [].
Proof. unfold script_element. lit_cons. discriminate. Qed.

Lemma handler_attribute_nonempty (q : char) (name v : jsstring) :
  handler_attribute q name v <> [].
Proof. unfold handler_attribute. lit_cons. discriminate. Qed.

Section SafeRenderer.
Variable marked : jsstring -> option jsstring.

(** What the sanitiser does delete.  When the markup that [marked] returns
    holds a script element whose content has no [<], the text
    [javascript:], or an attribute [on...=] with a value in double quotes or
    in apostrophes, and no pattern of the sanitiser matches anything else,
    in that markup up to the pattern that deletes it or in what is left
    afterwards, the renderer returns the markup with just that element, text
    or attribute deleted. *)
Lemma sanitizer_deletes_single_match (content html : jsstring) :
  marked (preprocessResponse content) = Some html ->
  (forall pre body post,
      html = pre ++ script_element body ++ post ->
      Forall (fun y => y <> 60%N) body ->
      only_match Patterns.script_block pre (script_element body) post = true ->
      unmatched (skipn 1 sanitizer_patterns) (pre ++ post) = true ->
      safeRenderMarkdown marked content = pre ++ post)
  /\ (forall pre post,
        html = pre ++ lit "javascript:" ++ post ->
        unmatched (firstn 1 sanitizer_patterns) html = true ->
        only_match Patterns.javascript_scheme pre (lit "javascript:") post = true ->
        unmatched (skipn 2 sanitizer_patterns) (pre ++ post) = true ->
        safeRenderMarkdown marked content = pre ++ post)
  /\ (forall pre name v post,
        html = pre ++ handler_attribute QUOTE name v ++ post ->
        name <> [] -> Forall (fun y => is_word y = true) name ->
        Forall (fun y => y <> QUOTE) v ->
        unmatched (firstn 2 sanitizer_patterns) html = true ->
        only_match Patterns.handler_double pre (handler_attribute QUOTE name v) post = true ->
        unmatched (skipn 3 sanitizer_patterns) (pre ++ post) = true ->
        safeRenderMarkdown marked content = pre ++ post)
  /\ (forall pre name v post,
        html = pre ++ handler_attribute 39 name v ++ post ->
        name <> [] -> Forall (fun y => is_word y = true) name ->
        Forall (fun y => y <> 39%N) v ->
        unmatched (firstn 3 sanitizer_patterns) html = true ->
        only_match Patterns.handler_single pre (handler_attribute 39 name v) post = true ->
        unmatched (skipn 4 sanitizer_patterns) (pre ++ post) = true ->
        safeRenderMarkdown marked content = pre ++ post).
Proof.
  intros Hm. unfold safeRenderMarkdown. rewrite Hm. repeat split.
  - intros pre body post -> Hbody Honly Hafter.
    apply (safeHtml_one 0 Patterns.script_block pre _ post (Some 62%N) []);
      [lia|reflexivity|apply script_element_nonempty
      |apply script_element_matched, Hbody|reflexivity|exact Honly|exact Hafter].
  - intros pre post -> Hbefore Honly Hafter.
    apply (safeHtml_one 1 Patterns.javascript_scheme pre _ post (Some 58%N) []);
      [lia|reflexivity|vm_compute; discriminate
      |apply exec_javascript_hit|exact Hbefore|exact Honly|exact Hafter].
  - intros pre name v post -> Hne Hname Hv Hbefore Honly Hafter.
    apply (safeHtml_one 2 Patterns.handler_double pre _ post (Some QUOTE) []);
      [lia|reflexivity|apply handler_attribute_nonempty
      |rewrite handler_double_eq; apply handler_attribute_matched; assumption
      |exact Hbefore|exact Honly|exact Hafter].
  - intros pre name v post -> Hne Hname Hv Hbefore Honly Hafter.
    apply (safeHtml_one 3 Patterns.handler_single pre _ post (Some 39%N) []);
      [lia|reflexivity|apply handler_attribute_nonempty
      |rewrite handler_single_eq; apply handler_attribute_matched; assumption
      |exact Hbefore|exact Honly|exact Hafter].
Qed.
End SafeRenderer.

(** An image with an [onerror] attribute, in apostrophes, between two
    paragraphs. *)
Lemma sanitizer_single_witness :
  safeRenderMarkdown raw_html
    (qlit "<p>Hi</p><img src='x' onerror='alert(1)'><p>there</p>")
  = qlit "<p>Hi</p><img src='x' ><p>there</p>".
Proof.
  apply (proj1 (proj2 (proj2 (sanitizer_deletes_single_match raw_html
                  (qlit "<p>Hi</p><img src='x' onerror='alert(1)'><p>there</p>")
                  (qlit "<p>Hi</p><img src='x' onerror='alert(1)'><p>there</p>") eq_refl)))
           (qlit "<p>Hi</p><img src='x' ") (lit "error") (lit "alert(1)")
           (lit "><p>there</p>")).
  - reflexivity.
  - discriminate.
  - vm_compute. repeat constructor.
  - vm_compute. repeat (constructor; [discriminate|]). constructor.
  - reflexivity.
  - reflexivity.
  - reflexivity.
Defined.

Example sanitizer_on_tags :
  safeHtml (qlit "<p>hi</p><script>alert(1)</script><img src='x' onerror='alert(1)'>")
  = qlit "<p>hi</p><img src='x' >"
  /\ safeHtml (qlit "<a href='javascript:alert(1)'>x</a>") = qlit "<a href='alert(1)'>x</a>".
Proof. vm_compute. split; reflexivity. Qed.

(** C2 (the code departs from the claim). The claim: the output of the
    renderer holds neither a script block nor [onerror=].  On the code, whose
    comment announces the removal of dangerous attributes and scripts, an
    [onerror=] whose value is not quoted goes through the sanitiser
    untouched, so the output of the renderer can hold [onerror=]; and a
    script block, or a quoted handler, that only forms when an inner match is
    deleted is left in the output, each replacement being made in one pass. *)
Theorem sanitizer_leaves_onerror :
  ~ (forall (marked : jsstring -> option jsstring) (content : jsstring),
        includes content (lit "onerror=") = true ->
        includes (safeRenderMarkdown marked content) (lit "onerror=") = false)
  /\ safeHtml (lit "<img src=x onerror=alert(1)>") = lit "<img src=x onerror=alert(1)>"
  /\ safeHtml (lit "<scr<script></script>ipt>alert(1)</script>")
     = lit "<script>alert(1)</script>"
  /\ safeHtml (qlit "<img oonx='b'nerror='c'>") = qlit "<img onerror='c'>".
Proof.
  split; [|vm_compute; repeat split].
  intros H. specialize (H raw_html (lit "<img src=x onerror=alert(1)>") eq_refl).
  vm_compute in H. discriminate H.
Qed.

(** ** The validator and the reconciler: further properties *)

Section PayloadFacts.
Context {NUM : Numbers}.

Lemma filter_array_filtered (p : json -> bool) (x : value) :
  filter_array p (option_map JArr (filter_array p x)) = filter_array p x.
Proof.
  destruct x as [[| | | |items|]|]; try reflexivity.
  cbn [filter_array option_map]. f_equal.
  induction items as [|y items IH]; [reflexivity|].
  cbn [filter]. destruct (p y) eqn:E; [|exact IH].
  cbn [filter]. rewrite E, IH. reflexivity.
Qed.

(** X1. Validation is a projection: validating a response that
    [validateBotResponse] returned gives that response back, whatever the
    candidate it was computed from. *)
Theorem validateBotResponse_idempotent (response : RawResponse) :
  validateBotResponse (as_partial (validateBotResponse response))
  = validateBotResponse response.
Proof.
  unfold validateBotResponse, as_partial;
    cbn [answer related_content recommendations file_links tables
         raw_answer raw_related_content raw_recommendations raw_file_links raw_tables].
  rewrite !filter_array_filtered. reflexivity.
Qed.

Lemma depth_first (first : json) (rest : list json) :
  depth first < depth (JArr (first :: rest)).
Proof. cbn [depth fold_right]. lia. Qed.

(** X2. An array payload that is not empty is reconciled as its first
    element is: the other elements are never looked at. *)
Theorem parseJsonResponse_array_first (first : json) (rest : list json) :
  parseJsonResponse (JArr (first :: rest)) = parseJsonResponse first.
Proof.
  unfold parseJsonResponse at 1.
  change (parseJsonResponse_fuel (S (depth (JArr (first :: rest)))) (Some (JArr (first :: rest))))
    with (parseJsonResponse_fuel (depth (JArr (first :: rest))) (Some first)).
  apply (fuel_enough (S (depth first)) first); [lia|apply depth_first].
Qed.

Lemma assoc_In (key : jsstring) (props : list (jsstring * json)) (x : json) :
  assoc key props = Some x -> exists k, In (k, x) props.
Proof.
  induction props as [|[k y] props IH]; cbn [assoc]; [discriminate|].
  destruct (str_eqb k key).
  - intros [= ->]. exists k. left. reflexivity.
  - intros H. destruct (IH H) as [k' Hk]. exists k'. right. exact Hk.
Qed.

Lemma has_null_member (key : jsstring) (props : list (jsstring * json)) (x : json) :
  has_null (JObj props) = false -> assoc key props = Some x -> has_null x = false.
Proof.
  cbn [has_null]. intros H Hx. destruct (assoc_In _ _ _ Hx) as [k Hk].
  destruct (has_null x) eqn:E; [|reflexivity].
  rewrite <- H. symmetry. apply existsb_exists. exists (k, x). split; [exact Hk|exact E].
Qed.

Ltac settled := left; eexists; intros; reflexivity.

(** One call of the reconciler on a value other than [null] either returns a
    response or hands on to the first element of the array or to the [data]
    member. *)
Lemma body_step (v : json) :
  v <> JNull ->
  (exists r, forall self, parseJsonResponse_body self (Some v) = Normal r)
  \/ (exists x, ((exists rest, v = JArr (x :: rest))
                 \/ (exists props, v = JObj props /\ assoc (lit "data") props = Some x))
                /\ forall self, parseJsonResponse_body self (Some v) = self (Some x)).
Proof.
  intros Hv. unfold parseJsonResponse_body.
  destruct v as [|b|n|s|items|props];
    try destruct items as [|first rest];
    [cbn -[JSON_stringify lit validateBotResponse] ..
    |cbn -[JSON_stringify lit validateBotResponse truthy typeof_object or_else]];
    try settled; try contradiction.
  - right. exists first. split; [left; eauto|]. intros; reflexivity.
  - destruct (truthy (assoc (lit "response") props) && typeof_object (assoc (lit "response") props)) eqn:E1.
    + rewrite !(Get_object _ _ E1). change (@Normal (option json)) with (@Normal value).
      repeat first [rewrite or_else_normal | progress cbn [bind]]. settled.
    + rewrite !or_else_normal. cbn [bind].
      match goal with |- context [if truthy ?d then Normal _ else _] => destruct (truthy d) end;
        [settled|].
      destruct (truthy (assoc (lit "data") props) && typeof_object (assoc (lit "data") props)) eqn:E3;
        [|settled].
      right. destruct (assoc (lit "data") props) as [d|] eqn:Ed; [|discriminate].
      exists d. split; [right; eauto|intros; reflexivity].
Qed.

Lemma null_free_fuel (fuel : nat) : forall v : json,
  depth v < fuel -> has_null v = false ->
  exists r, parseJsonResponse_fuel fuel (Some v) = Normal r.
Proof.
  induction fuel as [|fuel IH]; intros v Hd Hn; [lia|].
  cbn [parseJsonResponse_fuel].
  assert (v <> JNull) as Hv by (intros ->; discriminate Hn).
  destruct (body_step v Hv) as [[r E]|(x & Hx & E)]; rewrite E; [eauto|].
  apply IH.
  - destruct Hx as [[rest ->]|(props & -> & Hx)].
    + pose proof (depth_first x rest). lia.
    + apply assoc_depth in Hx. cbn [depth] in Hd. lia.
  - destruct Hx as [[rest ->]|(props & -> & Hx)].
    + cbn [has_null existsb] in Hn. apply orb_false_elim in Hn. tauto.
    + exact (has_null_member _ _ _ Hn Hx).
Qed.

Lemma null_free_returns (v : json) :
  has_null v = false -> exists r, parseJsonResponse v = Normal r.
Proof. intros H. apply null_free_fuel; [lia|exact H]. Qed.

(** Whatever the room on the stack, the TypeError needs a [null]. *)
Lemma null_free_on (stack : nat) : forall v : json,
  has_null v = false -> parseJsonResponse_on stack (Some v) <> Throw TypeError.
Proof.
  induction stack as [|stack IH]; intros v Hn; [discriminate|].
  cbn [parseJsonResponse_on].
  assert (v <> JNull) as Hv by (intros ->; discriminate Hn).
  destruct (body_step v Hv) as [[r E]|(x & Hx & E)]; rewrite E; [discriminate|].
  apply IH. destruct Hx as [[rest ->]|(props & -> & Hx)].
  - cbn [has_null existsb] in Hn. apply orb_false_elim in Hn. tauto.
  - exact (has_null_member _ _ _ Hn Hx).
Qed.

(** X3. How a call of the reconciler can end, on a call stack with room for
    [stack] nested calls: with a response; with the TypeError, and then
    [null] occurs somewhere in the payload; or with the RangeError, and then
    the payload is at least as deep as the stack has room.  So a payload
    without [null] that is less deep than the room is always reconciled to a
    response. *)
Theorem parseJsonResponse_exceptions (stack : nat) (v : json) :
  (exists r, parseJsonResponse_on stack (Some v) = Normal r)
  \/ (parseJsonResponse_on stack (Some v) = Throw TypeError /\ has_null v = true)
  \/ (parseJsonResponse_on stack (Some v) = Throw RangeError /\ stack <= depth v).
Proof.
  pose proof (on_completes stack v) as Hc.
  destruct (parseJsonResponse_on stack (Some v)) as [r|[|]|] eqn:E; [eauto| | |contradiction].
  - right. left. split; [reflexivity|].
    destruct (has_null v) eqn:Hn; [reflexivity|].
    exfalso. exact (null_free_on stack v Hn E).
  - right. right. split; [reflexivity|].
    destruct (le_lt_dec stack (depth v)) as [H|H]; [exact H|].
    exfalso. rewrite (on_enough stack v H) in E.
    exact (parseJsonResponse_no_overflow v E).
Qed.

Lemma truthy_object (v : value) :
  truthy v && typeof_object v = match v with Some x => is_container x | None => false end.
Proof. destruct v as [[| | | [|]| |]|]; cbn; rewrite ?andb_false_r; reflexivity. Qed.

Lemma parse_object (props : list (jsstring * json)) :
  parseJsonResponse (JObj props)
  = parseJsonResponse_body (parseJsonResponse_fuel (depth (JObj props))) (Some (JObj props)).
Proof. reflexivity. Qed.

(** X4. When the payload has a [response] member that is an object or an
    array, that member alone decides the result: the payload is reconciled
    as the object holding nothing but this member is, without an exception,
    and a top-level [answer], [text] or [data] is ignored. *)
Theorem response_member_decides (props : list (jsstring * json)) (response : json) :
  assoc (lit "response") props = Some response ->
  is_container response = true ->
  parseJsonResponse (JObj props) = parseJsonResponse (JObj [(lit "response", response)])
  /\ exists r, parseJsonResponse (JObj props) = Normal r.
Proof.
  intros H Hc. rewrite !parse_object. unfold parseJsonResponse_body.
  cbn -[JSON_stringify validateBotResponse truthy typeof_object or_else depth].
  change (str_eqb (lit "response") (lit "response")) with true. cbv iota.
  rewrite H. rewrite !truthy_object, Hc.
  change (@Normal (option json)) with (@Normal value).
  destruct response as [| | | |items|rprops]; try discriminate Hc;
    cbn [Get get]; repeat first [rewrite or_else_normal | progress cbn [bind]];
    (split; [reflexivity|eexists; reflexivity]).
Qed.

Lemma response_passed_over (props : list (jsstring * json)) :
  match assoc (lit "response") props with Some r => is_container r = false | None => True end ->
  match assoc (lit "response") props with Some x => is_container x | None => false end = false.
Proof. destruct (assoc (lit "response") props); [auto|reflexivity]. Qed.

(** X5. An object payload that is neither of the first two shapes (its
    [response] member, if any, is not an object or an array, and its
    [answer], [text] and [message] are falsy) and whose [data] member is an
    object or an array is reconciled as that member is. *)
Theorem data_member_unwrapped (props : list (jsstring * json)) (data : json) :
  match assoc (lit "response") props with Some r => is_container r = false | None => True end ->
  (forall key, In key [lit "answer"; lit "text"; lit "message"] ->
               truthy (assoc key props) = false) ->
  assoc (lit "data") props = Some data ->
  is_container data = true ->
  parseJsonResponse (JObj props) = parseJsonResponse data.
Proof.
  intros Hr Ha Hd Hc. rewrite parse_object. unfold parseJsonResponse_body.
  cbn -[JSON_stringify validateBotResponse truthy typeof_object or_else depth].
  rewrite !truthy_object, (response_passed_over props Hr).
  rewrite !or_else_normal. cbn [bind].
  rewrite !Ha by (simpl; auto). rewrite Hd, Hc.
  apply (fuel_enough (S (depth data)) data); [lia|].
  apply assoc_depth in Hd. cbn [depth]. lia.
Qed.

(** X6. In the direct shape an [answer] that is truthy but not a string (a
    number, [true], an array, an object) is not converted: the response has
    the empty answer, and [text] and [message] are not consulted. *)
Theorem non_string_answer_is_dropped (props : list (jsstring * json)) (a : json) :
  match assoc (lit "response") props with Some r => is_container r = false | None => True end ->
  assoc (lit "answer") props = Some a ->
  ToBoolean a = true ->
  typeof_string (Some a) = false ->
  exists r, parseJsonResponse (JObj props) = Normal r /\ answer r = [].
Proof.
  intros Hr Ha Ht Hs. rewrite parse_object. unfold parseJsonResponse_body.
  cbn -[JSON_stringify validateBotResponse truthy typeof_object or_else depth].
  rewrite !truthy_object, (response_passed_over props Hr).
  rewrite !or_else_normal. cbn [bind].
  rewrite Ha. assert (truthy (Some a) = true) as Ht' by exact Ht.
  rewrite !Ht'.
  eexists. split; [reflexivity|].
  cbn [validateBotResponse answer raw_answer].
  destruct a; try reflexivity. discriminate Hs.
Qed.

End PayloadFacts.

(** A payload with a nested array and no [null], and a payload of three
    wrappers on a stack with room for three nested calls: cases of X3. *)
Example reconciled_or_overflow :
  @parseJsonResponse_on integers 4
     (Some (JObj [(lit "data", JArr [JObj [(lit "message", JStr (lit "hi"))]; JNum 7%Z])]))
  = Normal hi_response
  /\ @parseJsonResponse_on integers 3 (Some (wrapped 3 hi_payload)) = Throw RangeError
  /\ @parseJsonResponse_on integers 3 (Some (JArr [JArr [JNull]])) = Throw TypeError.
Proof. repeat split. Qed.

(** A payload with both a top-level [answer] and a [response] object: a case
    of X4. *)
Lemma response_member_witness :
  @parseJsonResponse integers
     (JObj [(lit "answer", JStr (lit "top"));
            (lit "response", JObj [(lit "text", JStr (lit "inner"))])])
  = parseJsonResponse (JObj [(lit "response", JObj [(lit "text", JStr (lit "inner"))])])
  /\ exists r, @parseJsonResponse integers
                 (JObj [(lit "answer", JStr (lit "top"));
                        (lit "response", JObj [(lit "text", JStr (lit "inner"))])])
               = Normal r.
Proof.
  apply (@response_member_decides integers); reflexivity.
Defined.

(** A [status] and a [data] array: a case of X5. *)
Lemma data_member_witness :
  @parseJsonResponse integers
     (JObj [(lit "status", JStr (lit "ok")); (lit "data", JArr [JStr (lit "hi")])])
  = parseJsonResponse (JArr [JStr (lit "hi")]).
Proof.
  apply (@data_member_unwrapped integers).
  - exact I.
  - intros key [<- | [<- | [<- | []]]]; reflexivity.
  - reflexivity.
  - reflexivity.
Defined.

(** The answer 42 beside a [text]: a case of X6. *)
Lemma non_string_answer_witness :
  exists r, @parseJsonResponse integers
              (JObj [(lit "answer", @JNum integers 42%Z); (lit "text", JStr (lit "forty-two"))])
            = Normal r
            /\ answer r = [].
Proof.
  apply (@non_string_answer_is_dropped integers _ (@JNum integers 42%Z));
    first [reflexivity | exact I].
Defined.

(** ** Decoding a response *)

Section DecodingFacts.
Context {NUM : Numbers}.
Variable toLowerCase : jsstring -> jsstring.
Variable JSON_parse : jsstring -> option json.
Variable stack : nat.

(** What [parseTextResponse] returns: the text as markdown, or the
    reconciled value of the text read as JSON. *)
Lemma parseTextResponse_cases (textData : jsstring) :
  parseTextResponse toLowerCase JSON_parse stack textData
  = Normal (no_attachments (preprocessTextResponse toLowerCase (trim textData)))
  \/ exists parsed r,
       braced (trim textData) = true
       /\ JSON_parse (trim textData) = Some parsed
       /\ parseJsonResponse_on stack (Some parsed) = Normal r
       /\ parseTextResponse toLowerCase JSON_parse stack textData = Normal r.
Proof.
  unfold parseTextResponse, braced. cbv zeta.
  destruct (_ || _); [|left; reflexivity].
  destruct (JSON_parse (trim textData)) as [parsed|]; [|left; reflexivity].
  pose proof (on_completes stack parsed) as H.
  destruct (parseJsonResponse_on stack (Some parsed)) as [r|e|] eqn:E;
    [right; exists parsed, r; auto|left; reflexivity|contradiction].
Qed.

(** X7. [parseTextResponse] returns a response for every text, and the
    exceptions are caught: when the text does not both begin and end with a
    brace or a bracket, when [JSON.parse] throws, and when
    [parseJsonResponse] throws (the TypeError on [null], the RangeError on a
    payload too deep for the stack), the response is the text repaired as
    markdown, with no optional field; otherwise it is the reconciled
    payload. *)
Theorem parseTextResponse_never_throws (textData : jsstring) :
  let as_markdown :=
    Normal (no_attachments (preprocessTextResponse toLowerCase (trim textData))) in
  (exists r, parseTextResponse toLowerCase JSON_parse stack textData = Normal r)
  /\ (braced (trim textData) = false ->
      parseTextResponse toLowerCase JSON_parse stack textData = as_markdown)
  /\ (JSON_parse (trim textData) = None ->
      parseTextResponse toLowerCase JSON_parse stack textData = as_markdown)
  /\ (forall parsed e,
        JSON_parse (trim textData) = Some parsed ->
        parseJsonResponse_on stack (Some parsed) = Throw e ->
        parseTextResponse toLowerCase JSON_parse stack textData = as_markdown)
  /\ (forall parsed r,
        braced (trim textData) = true ->
        JSON_parse (trim textData) = Some parsed ->
        parseJsonResponse_on stack (Some parsed) = Normal r ->
        parseTextResponse toLowerCase JSON_parse stack textData = Normal r).
Proof.
  cbv zeta. split; [|split; [|split; [|split]]].
  - destruct (parseTextResponse_cases textData) as [E|(parsed & r & _ & _ & _ & E)]; eauto.
  - intros H. unfold parseTextResponse. cbv zeta. fold (braced (trim textData)).
    rewrite H. reflexivity.
  - intros H. unfold parseTextResponse. cbv zeta. rewrite H.
    destruct (_ || _); reflexivity.
  - intros parsed e Hp He. unfold parseTextResponse. cbv zeta. rewrite Hp, He.
    destruct (_ || _); reflexivity.
  - intros parsed r Hb Hp Hr. unfold parseTextResponse. cbv zeta.
    fold (braced (trim textData)). rewrite Hb, Hp, Hr. reflexivity.
Qed.

(** The white space around the text does not count. *)
Lemma parseTextResponse_trims (textData : jsstring) :
  parseTextResponse toLowerCase JSON_parse stack (trim textData)
  = parseTextResponse toLowerCase JSON_parse stack textData.
Proof. unfold parseTextResponse. rewrite trim_idem. reflexivity. Qed.

(** X8. Plain prose that does not begin with a brace or a bracket comes
    back as the answer, trimmed and otherwise unchanged, with no optional
    field set; [JSON.parse] is not called. *)
Theorem parseTextResponse_plain (textData : jsstring) :
  plain textData ->
  starts_with (lit "{") (trim textData) = false ->
  starts_with (lit "[") (trim textData) = false ->
  parseTextResponse toLowerCase JSON_parse stack textData
  = Normal {| answer := trim textData; related_content := None; recommendations := None;
              file_links := None; tables := None |}.
Proof.
  intros Hp H1 H2. unfold parseTextResponse. cbv zeta. rewrite H1, H2. cbn [andb orb].
  rewrite repair_plain by (apply free_of_trim, Hp). rewrite trim_idem. reflexivity.
Qed.

(** X9. What the inner [try] and [catch] of [sendMessage] leave in
    [botResponse].  For a response that is not declared as JSON it is the
    response of [parseTextResponse] on the body.  For one that is, it is the
    reconciled payload when the body is JSON and the reconciler returns, and
    in every other case (the body is not JSON, the reconciler throws its
    TypeError or the RangeError) the fixed answer "Failed to get response"
    and never the text of the body: the body has been read by then, so the
    [response.text()] of the fallback always rejects.  There is a response in
    every case. *)
Theorem botResponse_total (response : Response) :
  (is_json response = false ->
   botResponse toLowerCase JSON_parse stack response
   = parseTextResponse toLowerCase JSON_parse stack (body response))
  /\ (is_json response = true ->
      botResponse toLowerCase JSON_parse stack response
      = Normal match JSON_parse (body response) with
               | Some v =>
                   match parseJsonResponse_on stack (Some v) with
                   | Normal r => r
                   | _ => failed_response
                   end
               | None => failed_response
               end)
  /\ exists r, botResponse toLowerCase JSON_parse stack response = Normal r.
Proof.
  assert (is_json response = false ->
          botResponse toLowerCase JSON_parse stack response
          = parseTextResponse toLowerCase JSON_parse stack (body response)) as Htext.
  { intros H. unfold botResponse, response_json, response_text. rewrite H.
    destruct (parseTextResponse_cases (body response)) as [E|(parsed & r & _ & _ & _ & E)];
      rewrite E; reflexivity. }
  assert (is_json response = true ->
          botResponse toLowerCase JSON_parse stack response
          = Normal match JSON_parse (body response) with
                   | Some v =>
                       match parseJsonResponse_on stack (Some v) with
                       | Normal r => r
                       | _ => failed_response
                       end
                   | None => failed_response
                   end) as Hjson.
  { intros H. unfold botResponse, response_json, response_text. rewrite H.
    destruct (JSON_parse (body response)) as [v|]; [|reflexivity].
    pose proof (on_completes stack v) as Hc.
    destruct (parseJsonResponse_on stack (Some v)) as [r|e|]; [reflexivity..|contradiction]. }
  split; [exact Htext|]. split; [exact Hjson|].
  destruct (is_json response) eqn:E.
  - rewrite (Hjson eq_refl). eauto.
  - rewrite (Htext eq_refl).
    destruct (parseTextResponse_cases (body response)) as [E'|(parsed & r & _ & _ & _ & E')];
      rewrite E'; eauto.
Qed.

End DecodingFacts.

(** A sentence with white space around it: a case of X8. *)
Lemma parseTextResponse_plain_witness :
  @parseTextResponse integers ascii_toLowerCase (fun _ => None) 1000 (lit "  Hello, world.  ")
  = Normal {| answer := trim (lit "  Hello, world.  "); related_content := None;
              recommendations := None; file_links := None; tables := None |}.
Proof.
  apply (@parseTextResponse_plain integers ascii_toLowerCase (fun _ => None) 1000).
  - vm_compute. repeat constructor.
  - reflexivity.
  - reflexivity.
Defined.

(** A text between brackets that [JSON.parse] reads as the array [[null]]:
    the reconciler throws on it, and the text comes back as markdown. *)
Example null_array_as_text :
  forall JSON_parse : jsstring -> option (@json integers),
    JSON_parse (lit "[null]") = Some (JArr [JNull]) ->
    parseTextResponse ascii_toLowerCase JSON_parse 1000 (lit " [null] ")
    = Normal {| answer := lit "[null]"; related_content := None; recommendations := None;
                file_links := None; tables := None |}.
Proof.
  intros JSON_parse H. unfold parseTextResponse. cbv zeta.
  change (trim (lit " [null] ")) with (lit "[null]"). rewrite H.
  vm_compute. reflexivity.
Qed.

(** The JSON body [null], which the reconciler throws on, and a body that is
    not JSON at all: both are answered with "Failed to get response". *)
Example failed_to_get_response :
  forall JSON_parse : jsstring -> option (@json integers),
    JSON_parse (lit "null") = Some JNull ->
    JSON_parse (lit "<html>") = None ->
    botResponse ascii_toLowerCase JSON_parse 1000
      {| content_type := Some (lit "application/json; charset=utf-8"); body := lit "null" |}
    = Normal failed_response
    /\ botResponse ascii_toLowerCase JSON_parse 1000
         {| content_type := Some (lit "application/json"); body := lit "<html>" |}
       = Normal failed_response.
Proof.
  intros JSON_parse H1 H2. unfold botResponse, response_json, response_text.
  change (is_json {| content_type := Some (lit "application/json; charset=utf-8");
                     body := lit "null" |}) with true.
  change (is_json {| content_type := Some (lit "application/json"); body := lit "<html>" |})
    with true.
  cbn [body]. rewrite H1, H2. split; reflexivity.
Qed.

(** ** Reactions *)

(** X10. A message is never both liked and disliked, whatever the sequence
    of clicks on the two buttons. *)
Theorem reactions_exclusive (clicks : list click) :
  let s := fold_left react clicks no_reaction in
  isLiked s && isDisliked s = false.
Proof.
  cbv zeta. induction clicks as [|c clicks IH] using rev_ind; [reflexivity|].
  rewrite fold_left_app. cbn [fold_left].
  destruct (fold_left react clicks no_reaction) as [[] []], c; reflexivity || discriminate IH.
Qed.

(** ** Placeholder expansion: further properties *)

Lemma starts_with_here (p post : jsstring) : starts_with p (p ++ post) = true.
Proof.
  induction p as [|x p IH]; [reflexivity|]. cbn [app starts_with].
  rewrite N.eqb_refl. exact IH.
Qed.

Lemma includes_app (pre p post : jsstring) : includes (pre ++ p ++ post) p = true.
Proof.
  induction pre as [|x pre IH]; cbn [app].
  - destruct (p ++ post) eqn:E; cbn [includes]; rewrite <- E, starts_with_here; reflexivity.
  - cbn [includes]. rewrite IH. destruct (starts_with p _); reflexivity.
Qed.

(** ** The empty answer *)

Section EmptyAnswer.
Context {NUM : Numbers}.

Lemma assoc_member (key : jsstring) (props : list (jsstring * json)) (x : json) :
  assoc key props = Some x -> In (key, x) props.
Proof.
  induction props as [|[k y] props IH]; cbn [assoc]; [discriminate|].
  destruct (str_eqb k key) eqn:E.
  - intros [= ->]. apply str_eqb_eq in E. subst k. left. reflexivity.
  - intros H. right. apply IH, H.
Qed.

Lemma join_member {A : Type} (sep : jsstring) (f : A -> jsstring) (x : A) (l : list A) :
  In x l -> exists a b, join sep (map f l) = a ++ f x ++ b.
Proof.
  induction l as [|y l IH]; [contradiction|]. intros [->|H].
  - exists []. destruct l as [|z l]; cbn [map join app].
    + exists []. rewrite app_nil_r. reflexivity.
    + eexists. reflexivity.
  - destruct (IH H) as (a & b & E). destruct l as [|z l]; [contradiction|].
    exists (f y ++ sep ++ a), b.
    change (join sep (map f (y :: z :: l))) with (f y ++ sep ++ join sep (map f (z :: l))).
    rewrite E, <- !app_assoc. reflexivity.
Qed.

(** The serialization of an object begins with a brace and shows each of
    its members that is the empty string as [key: ""], the key and the value
    in double quotes. *)
Lemma stringify_object (props : list (jsstring * json)) :
  starts_with (lit "{") (JSON_stringify (JObj props)) = true
  /\ forall key, assoc key props = Some (JStr []) ->
       includes (JSON_stringify (JObj props)) (quote key ++ lit ": " ++ quote []) = true.
Proof.
  unfold JSON_stringify. destruct props as [|p props]; [split; [reflexivity|discriminate]|].
  split; [reflexivity|]. intros key Hk. apply assoc_member in Hk.
  cbn [stringify].
  match goal with
  | |- context [join ?sep (map ?f (p :: props))] =>
      destruct (join_member sep f (key, JStr []) (p :: props) Hk) as (a & b & E);
      assert (join sep (map f (p :: props)) = a ++ f (key, JStr []) ++ b) as -> by exact E
  end.
  cbv beta. cbn [fst snd stringify].
  match goal with
  | |- includes (?A ++ ?B ++ ?C ++ (a ++ ?needle ++ b) ++ ?D) _ = true =>
      replace (A ++ B ++ C ++ (a ++ needle ++ b) ++ D)
        with ((A ++ B ++ C ++ a) ++ needle ++ (b ++ D))
        by (rewrite <- !app_assoc; reflexivity)
  end.
  apply includes_app.
Qed.


End EmptyAnswer.


(** A payload whose [data] member is a string has no wrapper either. *)
Example empty_answer_beside_data :
  @parseJsonResponse integers (JObj [(lit "answer", JStr []); (lit "data", JStr (lit "x"))])
  = Normal {| answer := lit "{" ++ [LF] ++ qlit "  'answer': ''," ++ [LF]
                        ++ qlit "  'data': 'x'" ++ [LF] ++ lit "}";
              related_content := None; recommendations := None;
              file_links := None; tables := None |}.
Proof. reflexivity. Qed.

Lemma skipn_here (p post : jsstring) : skipn (length p) (p ++ post) = post.
Proof. induction p as [|x p IH]; [reflexivity|exact IH]. Qed.

Lemma cut_at_first (c : char) (p pre post : jsstring) :
  free_of (N.eqb c) pre ->
  cut_at (c :: p) (pre ++ (c :: p) ++ post) = Some (pre, post).
Proof.
  intros H. induction H as [|x pre Hx _ IH].
  - cbn [app]. change (c :: p ++ post) with ((c :: p) ++ post).
    destruct ((c :: p) ++ post) eqn:E; cbn [cut_at]; rewrite <- E, starts_with_here, skipn_here;
      reflexivity.
  - cbn [app cut_at starts_with]. rewrite Hx.
    change (c :: p ++ post) with ((c :: p) ++ post). rewrite IH. reflexivity.
Qed.

(** A template without a dollar sign stands for itself. *)
Lemma GetSubstitution_plain (matched before after : jsstring) (caps : list (option jsstring))
    (t : jsstring) :
  free_of is_dollar t -> GetSubstitution matched before after caps t = t.
Proof.
  induction 1 as [|c t Hc _ IH]; [reflexivity|].
  cbn [GetSubstitution]. unfold is_dollar in Hc. rewrite Hc. cbn [negb]. rewrite IH. reflexivity.
Qed.

Lemma free_of_app (P : char -> bool) (a b : jsstring) :
  free_of P a -> free_of P b -> free_of P (a ++ b).
Proof. intros Ha Hb. apply Forall_app. split; assumption. Qed.

Lemma free_of_check (P : char -> bool) (s : jsstring) :
  forallb (fun x => negb (P x)) s = true -> free_of P s.
Proof.
  intros H. apply Forall_forall. intros x Hx.
  rewrite forallb_forall in H. apply H in Hx. destruct (P x); [discriminate|reflexivity].
Qed.

Lemma free_of_weaken (P Q : char -> bool) (s : jsstring) :
  (forall x, Q x = true -> P x = true) -> free_of P s -> free_of Q s.
Proof.
  intros H. apply Forall_impl. intros x Hx. destruct (Q x) eqn:E; [|reflexivity].
  apply H in E. congruence.
Qed.

Lemma free_of_concat_map (P : char -> bool) (f : jsstring -> jsstring) (l : list jsstring) :
  Forall (fun x => free_of P (f x)) l -> free_of P (concat_map f l).
Proof.
  unfold concat_map. induction 1 as [|x l Hx _ IH]; [constructor|].
  cbn [map join]. destruct (map f l) eqn:E; [exact Hx|].
  cbn [app]. apply free_of_app; [exact Hx|exact IH].
Qed.

Lemma free_of_rows (P : char -> bool) (rs : list (list jsstring)) : forall acc,
  free_of P acc -> Forall (fun row => free_of P (row_html row)) rs ->
  free_of P (fold_left (fun tableHtml row => tableHtml ++ row_html row) rs acc).
Proof.
  induction rs as [|row rs IH]; intros acc Ha H; [exact Ha|].
  cbn [fold_left]. inversion H; subst. apply IH; [apply free_of_app|]; assumption.
Qed.

Ltac literal := apply free_of_check; vm_compute; reflexivity.

Lemma table_html_dollar_free (table : Table) :
  dollar_free table -> free_of is_dollar (table_html table).
Proof.
  intros (Ht & Hh & Hr). unfold table_html.
  repeat apply free_of_app; try literal; try assumption.
  - revert Hh. generalize (headers table). intros [|h0 hs] Hh; [constructor|].
    repeat apply free_of_app; try literal.
    apply free_of_concat_map. revert Hh. apply Forall_impl. intros h Hh.
    unfold header_cell. repeat apply free_of_app; try literal; assumption.
  - apply free_of_rows; [constructor|].
    revert Hr. apply Forall_impl. intros row Hrow. unfold row_html.
    repeat apply free_of_app; try literal.
    apply free_of_concat_map. revert Hrow. apply Forall_impl. intros cell Hc.
    unfold data_cell. repeat apply free_of_app; try literal; assumption.
Qed.

(** X11. For a table none of whose texts holds a dollar sign, the first
    token of the table in the answer is replaced by the table block, and
    nothing else changes: when no bracket comes before the token, what
    comes before and after it is kept as it is, a second token included. *)
Theorem renderTables_expands_first (table : Table) (pre post : jsstring) :
  free_of is_open_bracket pre ->
  dollar_free table ->
  renderTables (pre ++ placeholder table ++ post) [table]
  = pre ++ table_html table ++ post.
Proof.
  intros Hpre Ht. cbn [renderTables fold_left]. unfold render_table.
  rewrite includes_app. unfold replace_string.
  assert (placeholder table = 91%N :: (lit "TABLE:" ++ title table ++ lit "]")) as E
    by reflexivity.
  rewrite E, cut_at_first.
  - rewrite GetSubstitution_plain by (apply table_html_dollar_free, Ht). reflexivity.
  - revert Hpre. apply free_of_weaken. intros x Hx. unfold is_open_bracket.
    rewrite N.eqb_sym. exact Hx.
Qed.

(** X12. The tables whose token does not occur in the answer leave it as it
    is: they are not rendered anywhere. *)
Theorem renderTables_without_placeholder (answer : jsstring) (tables : list Table) :
  Forall (fun table => includes answer (placeholder table) = false) tables ->
  renderTables answer tables = answer.
Proof.
  intros H. destruct tables as [|t ts]; [reflexivity|].
  unfold renderTables. induction H as [|table tables Ht _ IH]; [reflexivity|].
  cbn [fold_left]. unfold render_table at 2. rewrite Ht. exact IH.
Qed.

(** A table of two plans, with a second token after the first: a case of
    X11. *)
Lemma renderTables_expands_witness :
  let table := {| title := lit "Plans"; headers := [lit "Plan"; lit "Seats"];
                  rows := [[lit "Basic"; lit "5"]; [lit "Team"; lit "50"]] |} in
  renderTables (lit "See " ++ placeholder table ++ lit " and [TABLE:Plans] again") [table]
  = lit "See " ++ table_html table ++ lit " and [TABLE:Plans] again".
Proof.
  cbv zeta.
  apply (renderTables_expands_first
           {| title := lit "Plans"; headers := [lit "Plan"; lit "Seats"];
              rows := [[lit "Basic"; lit "5"]; [lit "Team"; lit "50"]] |}
           (lit "See ") (lit " and [TABLE:Plans] again")).
  - vm_compute. repeat constructor.
  - vm_compute. repeat constructor.
Defined.

(** An answer without any token and two tables: a case of X12. *)
Lemma renderTables_without_witness :
  renderTables (lit "No table here.")
    [{| title := lit "Plans"; headers := []; rows := [] |};
     {| title := lit "Prices"; headers := [lit "Price"]; rows := [[lit "10"]] |}]
  = lit "No table here.".
Proof.
  apply renderTables_without_placeholder. vm_compute. repeat constructor.
Defined.

(** ** More on the matcher *)

Lemma agree_refl (x : option result) : agree x x.
Proof. destruct x as [[[p s] c]|]; cbn; auto. Qed.

Lemma star_loop_agree (g : bool) (body : cont -> cont) (k k' : cont) :
  (forall k1 k2, (forall p p' s c, agree (k1 p s c) (k2 p' s c)) ->
                 forall p p' s c, agree (body k1 p s c) (body k2 p' s c)) ->
  (forall p p' s c, agree (k p s c) (k' p' s c)) ->
  forall fuel p p' s c,
    agree (star_loop g body k fuel p s c) (star_loop g body k' fuel p' s c).
Proof.
  intros Hbody Hk. induction fuel as [|fuel IH]; intros p p' s c; cbn [star_loop].
  - apply Hk.
  - assert (forall q q' s0 c0,
              agree ((fun prev' s' c' =>
                        if length s' <? length s then star_loop g body k fuel prev' s' c'
                        else None) q s0 c0)
                    ((fun prev' s' c' =>
                        if length s' <? length s then star_loop g body k' fuel prev' s' c'
                        else None) q' s0 c0)) as H12.
    { intros q q' s0 c0. cbv beta. destruct (length s0 <? length s); [apply IH|exact I]. }
    pose proof (Hbody _ _ H12 p p' s c) as Hb.
    pose proof (Hk p p' s c) as Hk0.
    destruct g.
    + destruct (body _ p s c) as [[[? ?] ?]|], (body _ p' s c) as [[[? ?] ?]|];
        cbn in Hb; try contradiction; [exact Hb|exact Hk0].
    + destruct (k p s c) as [[[? ?] ?]|], (k' p' s c) as [[[? ?] ?]|];
        cbn in Hk0; try contradiction; [exact Hk0|exact Hb].
Qed.

Lemma m_agree (r : regex) : no_assert r ->
  forall k k', (forall p p' s c, agree (k p s c) (k' p' s c)) ->
  forall p p' s c, agree (m r k p s c) (m r k' p' s c).
Proof.
  induction r as [|P|r1 IH1 r2 IH2|r1 IH1 r2 IH2|g r1 IH1|n r1 IH1|r1 IH1|a];
    cbn [no_assert]; intros Hr k k' Hk p p' s c; cbn [m].
  - apply Hk.
  - destruct s as [|x s]; [exact I|]. destruct (P x); [apply Hk|exact I].
  - destruct Hr as [H1 H2]. apply IH1; [exact H1|]. intros q q' s0 c0. apply IH2; assumption.
  - destruct Hr as [H1 H2].
    pose proof (IH1 H1 k k' Hk p p' s c) as Ha.
    destruct (m r1 k p s c) as [[[? ?] ?]|], (m r1 k' p' s c) as [[[? ?] ?]|];
      cbn in Ha; try contradiction; cbv iota beta; [exact Ha|apply IH2; assumption].
  - apply star_loop_agree; [|exact Hk]. intros k1 k2 H12. apply IH1; assumption.
  - apply IH1; [exact Hr|]. intros q q' s0 c0. apply Hk.
  - pose proof (IH1 Hr (fun q s0 c0 => Some (q, s0, c0)) (fun q s0 c0 => Some (q, s0, c0))
                  (fun q q' s0 c0 => conj eq_refl eq_refl) p p' s c) as Ha.
    destruct (m r1 _ p s c) as [[[? ?] ?]|], (m r1 _ p' s c) as [[[? ?] ?]|];
      cbn in Ha; try contradiction; cbv iota beta; [exact I|apply Hk].
  - contradiction.
Qed.

Lemma exec_at_agree (r : regex) (p p' : option char) (s : jsstring) :
  no_assert r -> agree (exec_at r p s) (exec_at r p' s).
Proof.
  intros Hr. apply m_agree; [exact Hr|]. intros q q' s0 c0. cbn. auto.
Qed.

(** The replacement of every match does not depend on the text before the
    subject, for such a pattern and such a replacement. *)
Lemma replace_from_context (r : regex) (f : replacer) :
  no_assert r -> local f ->
  forall fuel before before' s,
    replace_from fuel r f before s = replace_from fuel r f before' s.
Proof.
  intros Hr Hf. induction fuel as [|fuel IH]; intros before before' s; [reflexivity|].
  cbn [replace_from].
  pose proof (exec_at_agree r (hd_error before) (hd_error before') s Hr) as Ha.
  destruct (exec_at r (hd_error before) s) as [[[q s1] c1]|],
           (exec_at r (hd_error before') s) as [[[q' s2] c2]|];
    cbn in Ha; try contradiction.
  - destruct Ha as [<- <-]. rewrite (Hf _ (rev before) (rev before')). f_equal.
    destruct (length s1 <? length s); [apply IH|].
    destruct s as [|x t]; [reflexivity|]. f_equal. apply IH.
  - destruct s as [|x t]; [reflexivity|]. f_equal. apply IH.
Qed.

(** Nor on the number of steps allowed, beyond the length of the subject. *)
Lemma replace_from_fuel (r : regex) (f : replacer) :
  forall fuel fuel' before s,
    length s < fuel -> length s < fuel' ->
    replace_from fuel r f before s = replace_from fuel' r f before s.
Proof.
  induction fuel as [|fuel IH]; intros fuel' before s H H'; [lia|].
  destruct fuel' as [|fuel']; [lia|]. cbn [replace_from].
  destruct (exec_at r (hd_error before) s) as [[[q s1] c1]|].
  - f_equal. destruct (length s1 <? length s) eqn:E.
    + apply Nat.ltb_lt in E. apply IH; lia.
    + destruct s as [|x t]; [reflexivity|]. f_equal. cbn [length] in *. apply IH; lia.
  - destruct s as [|x t]; [reflexivity|]. f_equal. cbn [length] in *. apply IH; lia.
Qed.

(** The first match in a text, and the rest of the text on its own. *)
Lemma replace_all_first (r : regex) (f : replacer) (pre mid post : jsstring)
    (q : option char) (c : captures) :
  no_assert r -> local f -> mid <> [] ->
  (forall u2 prev, suffix u2 pre -> u2 <> [] -> exec_at r prev (u2 ++ mid ++ post) = None) ->
  exec_at r None (mid ++ post) = Some (q, post, c) ->
  replace_all r f (pre ++ mid ++ post)
  = pre ++ f mid [] post (capture_list r c) ++ replace_all r f post.
Proof.
  intros Hr Hf Hmid Hpre Hexec. unfold replace_all.
  replace (S (length (pre ++ mid ++ post))) with (length pre + S (length (mid ++ post)))
    by (rewrite (length_app pre); lia).
  rewrite replace_from_skip by exact Hpre. f_equal.
  pose proof (exec_at_agree r (hd_error (rev pre ++ [])) None (mid ++ post) Hr) as Ha.
  rewrite Hexec in Ha.
  destruct (exec_at r (hd_error (rev pre ++ [])) (mid ++ post)) as [[[q' s1] c1]|] eqn:E;
    cbn in Ha; [|contradiction].
  destruct Ha as [-> ->].
  assert (length post < length (mid ++ post)) as Hlt.
  { rewrite length_app. destruct mid; [contradiction|]. cbn [length]. lia. }
  rewrite (replace_from_hit _ _ _ _ _ q' post c E Hlt).
  rewrite firstn_consumed. rewrite (Hf mid _ []). f_equal.
  rewrite (replace_from_context r f Hr Hf _ _ []).
  apply replace_from_fuel; lia.
Qed.

(** *** Lazy and greedy stars over a class *)

Lemma star_loop_lazy (P : char -> bool) (k : cont) (fuel : nat) :
  forall prev s c, length s <= fuel ->
  star_loop false (m (Char P)) k fuel prev s c = lazy_scan P k prev s c.
Proof.
  induction fuel as [|fuel IH]; intros prev s c Hlen.
  - destruct s; [|cbn [length] in Hlen; lia]. cbn [star_loop lazy_scan].
    destruct (k prev [] c); reflexivity.
  - cbn [star_loop m]. destruct s as [|x s]; cbn [lazy_scan]; [reflexivity|].
    destruct (k prev (x :: s) c); [reflexivity|].
    destruct (P x); [|reflexivity].
    cbn [length]. replace (length s <? S (length s)) with true
      by (symmetry; apply Nat.ltb_lt; lia).
    apply IH. cbn [length] in Hlen. lia.
Qed.

Lemma m_lazy_class (P : char -> bool) (k : cont) (prev : option char) (s : jsstring)
    (c : captures) :
  m (Star false (Char P)) k prev s c = lazy_scan P k prev s c.
Proof. cbn [m]. apply star_loop_lazy. lia. Qed.

(** A lazy star goes over a stretch at no position of which the
    continuation succeeds. *)
Lemma lazy_scan_over (P : char -> bool) (k : cont) (rest : jsstring) (c : captures) :
  forall w prev,
  Forall (fun x => P x = true) w ->
  (forall u2 prev', suffix u2 w -> u2 <> [] -> k prev' (u2 ++ rest) c = None) ->
  lazy_scan P k prev (w ++ rest) c
  = match k (after prev w) rest c with
    | Some res => Some res
    | None => match rest with
              | x :: s' => if P x then lazy_scan P k (Some x) s' c else None
              | [] => None
              end
    end.
Proof.
  induction w as [|x w IH]; intros prev Hw Hk.
  - cbn [app]. destruct rest; reflexivity.
  - cbn [app lazy_scan].
    change (x :: w ++ rest) with ((x :: w) ++ rest).
    rewrite (Hk (x :: w)) by (auto using suffix_refl; discriminate).
    inversion Hw; subst. replace (P x) with true by (symmetry; assumption).
    rewrite IH; [rewrite after_cons; reflexivity|assumption|].
    intros u2 prev' Hs Hne. apply Hk; [|exact Hne].
    eapply suffix_trans; [exact Hs|apply suffix_tail].
Qed.

(** A greedy star takes the longest run when the continuation succeeds
    after it. *)
Lemma greedy_scan_first (P : char -> bool) (k : cont) (rest : jsstring) (c : captures)
    (res : result) :
  match rest with [] => True | x :: _ => P x = false end ->
  forall w prev,
  Forall (fun x => P x = true) w ->
  k (after prev w) rest c = Some res ->
  greedy_scan P k prev (w ++ rest) c = Some res.
Proof.
  intros Hrest. induction w as [|x w IH]; intros prev Hw Hk.
  - cbn [app]. destruct rest as [|y rest]; cbn [greedy_scan]; [exact Hk|].
    rewrite Hrest. exact Hk.
  - cbn [app greedy_scan]. inversion Hw; subst.
    replace (P x) with true by (symmetry; assumption).
    rewrite (IH (Some x)); [reflexivity|assumption|].
    rewrite <- (after_cons prev). exact Hk.
Qed.

(** It gives back one code unit when the continuation fails after the
    longest run and succeeds one code unit earlier. *)
Lemma greedy_scan_back (P : char -> bool) (k : cont) (x : char) (rest : jsstring)
    (c : captures) (res : result) :
  match rest with [] => True | y :: _ => P y = false end ->
  P x = true ->
  k (Some x) rest c = None ->
  forall w prev,
  Forall (fun y => P y = true) w ->
  k (after prev w) (x :: rest) c = Some res ->
  greedy_scan P k prev (w ++ x :: rest) c = Some res.
Proof.
  intros Hrest Hx Hfail. induction w as [|y w IH]; intros prev Hw Hk.
  - cbn [app greedy_scan]. rewrite Hx.
    assert (greedy_scan P k (Some x) rest c = None) as E.
    { destruct rest as [|z rest]; cbn [greedy_scan]; [exact Hfail|].
      rewrite Hrest. exact Hfail. }
    rewrite E. exact Hk.
  - cbn [app greedy_scan]. inversion Hw; subst.
    replace (P y) with true by (symmetry; assumption).
    rewrite (IH (Some y)); [reflexivity|assumption|].
    rewrite <- (after_cons prev). exact Hk.
Qed.

(** And it fails when the continuation fails wherever it is tried. *)
Lemma greedy_scan_none (P : char -> bool) (k : cont) (c : captures) :
  forall s prev,
  (forall prev' s', suffix s' s -> k prev' s' c = None) ->
  greedy_scan P k prev s c = None.
Proof.
  induction s as [|x s IH]; intros prev Hk; cbn [greedy_scan].
  - apply Hk, suffix_refl.
  - rewrite (Hk prev (x :: s)) by apply suffix_refl. destruct (P x); [|reflexivity].
    rewrite (IH (Some x)); [reflexivity|].
    intros prev' s' Hs. apply Hk. eapply suffix_trans; [exact Hs|apply suffix_tail].
Qed.

Ltac eval_codes :=
  repeat match goal with
         | |- context [code ?a] =>
             let t := eval vm_compute in (code a) in change (code a) with t
         end.

(** ** Icon tokens *)

Section IconTokens.
Variable native_source : jsstring -> jsstring.

Lemma exec_icon_miss (prev : option char) (y : char) (s : jsstring) :
  is_open_bracket y = false -> exec_at Patterns.icon_token prev (y :: s) = None.
Proof.
  intros Hy. unfold exec_at, Patterns.icon_token. cbn [Patterns.seqs].
  eval_lits. cbn [str]. unfold chr. rewrite !m_Seq, m_Char_cons.
  unfold is_open_bracket in Hy. rewrite N.eqb_sym, Hy. reflexivity.
Qed.

Lemma exec_icon_hit (prev : option char) (name post : jsstring) :
  free_of is_close_bracket name -> free_of is_line_terminator name ->
  exec_at Patterns.icon_token prev (lit "[ICON:" ++ name ++ lit "]" ++ post)
  = Some (Some 93%N, post, [(1, name)]).
Proof.
  intros Hb Ht. unfold exec_at, Patterns.icon_token. cbn [Patterns.seqs].
  lit_cons. eval_codes. cbn [str]. unfold chr.
  repeat eat.
  rewrite m_Seq, m_Group. unfold any. rewrite m_lazy_class.
  rewrite lazy_scan_over.
  - rewrite m_Char_cons. change (N.eqb 93 93) with true. cbv iota. unfold accept.
    replace (firstn _ _) with name by (symmetry; apply firstn_consumed). reflexivity.
  - revert Ht. apply Forall_impl. intros x Hx. rewrite Hx. reflexivity.
  - intros u2 prev' Hs Hne. destruct u2 as [|y u2]; [contradiction|].
    cbn [app]. rewrite m_Char_cons.
    assert (is_close_bracket y = false) as Hy.
    { pose proof (suffix_Forall _ _ _ Hs Hb) as H. inversion H; assumption. }
    unfold is_close_bracket in Hy. rewrite N.eqb_sym, Hy. reflexivity.
Qed.

Lemma icon_span_local : local (icon_span native_source).
Proof. intros matched before before' after caps. reflexivity. Qed.

Lemma icon_token_no_assert : no_assert Patterns.icon_token.
Proof. cbv. tauto. Qed.

(** X13. A token [[ICON:name]] whose name has no closing bracket and no line
    break, with no opening bracket in the text before it, is replaced by
    the wrapper around the fragment of the trimmed name; the text before it
    is kept, and the text after it is rendered on its own. *)
Theorem renderIcons_token (pre name post : jsstring) :
  free_of is_open_bracket pre ->
  free_of is_close_bracket name ->
  free_of is_line_terminator name ->
  renderIcons native_source (pre ++ lit "[ICON:" ++ name ++ lit "]" ++ post)
  = pre ++ qlit "<span class='inline-block align-middle'>"
        ++ ToString native_source (getIconSVG (trim name)) ++ lit "</span>"
        ++ renderIcons native_source post.
Proof.
  intros Hpre Hb Ht. unfold renderIcons.
  replace (pre ++ lit "[ICON:" ++ name ++ lit "]" ++ post)
    with (pre ++ (lit "[ICON:" ++ name ++ lit "]") ++ post)
    by (rewrite <- !app_assoc; reflexivity).
  rewrite (replace_all_first _ _ pre _ post (Some 93%N) [(1, name)]).
  - f_equal. unfold icon_span at 1. rewrite <- !app_assoc. reflexivity.
  - apply icon_token_no_assert.
  - apply icon_span_local.
  - lit_cons. discriminate.
  - intros u2 prev Hs Hne. destruct u2 as [|y u2]; [contradiction|].
    cbn [app]. apply exec_icon_miss.
    pose proof (suffix_Forall _ _ _ Hs Hpre) as H. inversion H; assumption.
  - rewrite <- !app_assoc. apply exec_icon_hit; assumption.
Qed.

(** A text without an opening bracket has no token. *)
Lemma renderIcons_without_bracket (text : jsstring) :
  free_of is_open_bracket text -> renderIcons native_source text = text.
Proof.
  intros H. unfold renderIcons. apply (replace_all_needs is_open_bracket); [|exact H].
  unfold Patterns.icon_token. cbn [Patterns.seqs]. eval_lits. cbn [str needs].
  left. left. intros x Hx. unfold chr in Hx. apply N.eqb_eq in Hx. subst x. reflexivity.
Qed.

End IconTokens.

(** Two tokens in a sentence: a case of X13. *)
Lemma renderIcons_token_witness :
  renderIcons native_code (lit "Call " ++ lit "[ICON:" ++ lit " phone " ++ lit "]"
                           ++ lit " or write [ICON:email]")
  = lit "Call " ++ qlit "<span class='inline-block align-middle'>"
    ++ ToString native_code (getIconSVG (trim (lit " phone "))) ++ lit "</span>"
    ++ renderIcons native_code (lit " or write [ICON:email]").
Proof.
  apply (renderIcons_token native_code (lit "Call ") (lit " phone ")
           (lit " or write [ICON:email]")); vm_compute; repeat constructor.
Defined.

(** ** The answer as plain text *)

Lemma exec_tag_miss (prev : option char) (y : char) (s : jsstring) :
  is_lt y = false -> exec_at tag_pattern prev (y :: s) = None.
Proof.
  intros Hy. unfold exec_at, tag_pattern. cbn [Patterns.seqs]. eval_codes.
  unfold chr. rewrite !m_Seq, m_Char_cons.
  unfold is_lt in Hy. rewrite N.eqb_sym, Hy. reflexivity.
Qed.

Lemma exec_tag_hit (prev : option char) (inside post : jsstring) :
  free_of is_gt inside ->
  exec_at tag_pattern prev (lit "<" ++ inside ++ lit ">" ++ post) = Some (Some 62%N, post, []).
Proof.
  intros Hb. unfold exec_at, tag_pattern. cbn [Patterns.seqs]. lit_cons. eval_codes.
  unfold chr, none_of. eat. rewrite m_Seq, m_star_class.
  rewrite greedy_scan_span.
  - rewrite span_prefix.
    + cbn [fst snd]. rewrite m_Char_cons. reflexivity.
    + revert Hb. apply Forall_impl. intros x Hx. cbn [char_in]. unfold is_gt in Hx.
      rewrite Hx. reflexivity.
    + reflexivity.
  - intros p x s c Hx. rewrite m_Char_cons. cbn [char_in] in Hx.
    rewrite N.eqb_sym. destruct (N.eqb x 62); [discriminate|reflexivity].
Qed.

Lemma tag_pattern_no_assert : no_assert tag_pattern.
Proof. cbv. tauto. Qed.

Lemma template_local (t : jsstring) : free_of is_dollar t -> local (template t).
Proof.
  intros H matched before before' after caps. unfold template.
  rewrite !GetSubstitution_plain by exact H. reflexivity.
Qed.


(** A text without [<], or without [>], is its own plain text. *)
Lemma answerText_plain (text : jsstring) :
  free_of is_lt text \/ free_of is_gt text -> answerText text = text.
Proof.
  unfold answerText, tag_pattern. cbn [Patterns.seqs]. eval_codes.
  intros [H|H].
  - apply (replace_all_needs is_lt); [|exact H]. cbn [needs]. left.
    intros x Hx. unfold chr in Hx. apply N.eqb_eq in Hx. subst x. reflexivity.
  - apply (replace_all_needs is_gt); [|exact H]. cbn [needs]. right. right.
    intros x Hx. unfold chr in Hx. apply N.eqb_eq in Hx. subst x. reflexivity.
Qed.


Example answerText_nested :
  answerText (lit "<b>bold</b> and <<i>script>") = lit "bold and script>".
Proof. vm_compute. reflexivity. Qed.

(** ** The layout rules of the renderer *)

(** [class_case]: a code unit accepted by a class of a pattern belongs to
    the class that the pattern is said to need. *)
Ltac class_case :=
  let x := fresh "x" in
  let H := fresh "H" in
  intros x H;
  first
    [ apply N.eqb_eq in H; subst x; reflexivity
    | unfold list_char; rewrite H; apply orb_true_r
    | cbn [char_in] in H |- *;
      repeat match type of H with
             | context [N.eqb ?a ?b] =>
                 let E := fresh "E" in
                 destruct (N.eqb_spec a b) as [E|_]; [rewrite E; reflexivity|]
             end;
      discriminate ].

Ltac need_class :=
  cbn [needs]; first [ class_case | left; need_class | right; need_class | split; need_class ].

Ltac needs_class :=
  cbv [Patterns.hard_space Patterns.inline_rule Patterns.star_bullet Patterns.heading_marker
       Patterns.quote_marker Patterns.bold_stars Patterns.bold_underscores
       Patterns.italic_stars Patterns.escaped_newline Patterns.blank_lines
       Patterns.bullet_glyph Patterns.before_bullet Patterns.before_number
       Patterns.horizontal_rule Patterns.bullet_line Patterns.numbered_line
       Patterns.seqs Plus at_least chr one_of digit code char_of_ascii];
  eval_lits; cbn [str]; need_class.

Lemma needs_hard_space : needs (char_in [38; NBSP; 9]%N) Patterns.hard_space.
Proof. needs_class. Qed.
Lemma needs_inline_rule : needs (N.eqb 45) Patterns.inline_rule.
Proof. needs_class. Qed.
Lemma needs_star_bullet : needs (N.eqb 42) Patterns.star_bullet.
Proof. needs_class. Qed.
Lemma needs_heading_marker : needs (N.eqb 35) Patterns.heading_marker.
Proof. needs_class. Qed.
Lemma needs_quote_marker : needs (N.eqb 62) Patterns.quote_marker.
Proof. needs_class. Qed.

Ltac in_class :=
  let x := fresh "x" in
  let H := fresh "H" in
  intros x H; unfold layout_char, markup_char, list_char; eval_lits;
  cbn [app char_in] in H |- *;
  repeat match type of H with
         | context [N.eqb ?a ?b] =>
             let E := fresh "E" in
             destruct (N.eqb_spec a b) as [E|_]; [subst; reflexivity|]
         end;
  try discriminate H.

Lemma calm_hard (s : jsstring) : calm s -> free_of (char_in [38; NBSP; 9]%N) s.
Proof. apply free_of_weaken. in_class. Qed.
Lemma calm_dash (s : jsstring) : calm s -> free_of (N.eqb 45) s.
Proof. apply free_of_weaken. in_class. Qed.
Lemma calm_star (s : jsstring) : calm s -> free_of (N.eqb 42) s.
Proof. apply free_of_weaken. in_class. Qed.
Lemma calm_hash (s : jsstring) : calm s -> free_of (N.eqb 35) s.
Proof. apply free_of_weaken. in_class. Qed.
Lemma calm_quote (s : jsstring) : calm s -> free_of (N.eqb 62) s.
Proof. apply free_of_weaken. in_class. Qed.

(** X15. A text without an ampersand, a no-break space, a tab or one of
    the markers [- * # >] goes through [preprocessResponse] unchanged but
    for the white space at its ends. *)
Theorem preprocessResponse_calm (text : jsstring) :
  calm text -> preprocessResponse text = trim text.
Proof.
  intros H. unfold preprocessResponse. cbv zeta.
  rewrite (replace_all_needs _ _ _ text needs_hard_space (calm_hard _ H)).
  rewrite (replace_all_needs _ _ _ text needs_inline_rule (calm_dash _ H)).
  rewrite (replace_all_needs _ _ _ text needs_star_bullet (calm_star _ H)).
  rewrite (replace_all_needs _ _ _ text needs_heading_marker (calm_hash _ H)).
  rewrite (replace_all_needs _ _ _ text needs_quote_marker (calm_quote _ H)).
  reflexivity.
Qed.

(** Two lines of prose: a case of X15. *)
Lemma preprocessResponse_calm_witness :
  preprocessResponse (lit " Our offices:" ++ [LF] ++ lit "London, Paris. ")
  = trim (lit " Our offices:" ++ [LF] ++ lit "London, Paris. ").
Proof.
  apply (preprocessResponse_calm (lit " Our offices:" ++ [LF] ++ lit "London, Paris. ")).
  vm_compute. repeat constructor.
Defined.

(** *** Heading markers *)

Lemma hashes_snoc (n : nat) : hashes (S n) = hashes n ++ [35%N].
Proof. unfold hashes. cbn [repeat]. apply repeat_cons. Qed.

Lemma hashes_run (n : nat) : Forall (fun x => N.eqb 35 x = true) (hashes n).
Proof. unfold hashes. induction n; cbn [repeat]; constructor; [reflexivity|assumption]. Qed.

Lemma rev_hashes (n : nat) : rev (hashes n) = hashes n.
Proof.
  induction n as [|n IH]; [reflexivity|].
  rewrite hashes_snoc at 2. cbn [hashes repeat rev]. fold (hashes n). rewrite IH. reflexivity.
Qed.

Lemma after_hashes (prev : option char) (n : nat) :
  after (Some 35%N) (hashes n) = Some 35%N.
Proof.
  unfold after. rewrite rev_hashes. destruct n; reflexivity.
Qed.

Lemma capture_heading_marker (s : jsstring) :
  capture_list Patterns.heading_marker [(1, s)] = [Some s].
Proof. reflexivity. Qed.

Lemma template_group_space (matched before after g : jsstring) :
  template (lit "$1 ") matched before after [Some g] = g ++ [SPACE].
Proof. reflexivity. Qed.

(** [#+] followed by something other than a space: the whole run is the
    group. *)
Lemma exec_heading_marker_tight (n : nat) (t : jsstring) :
  match t with x :: _ => x <> SPACE /\ x <> 35%N | [] => True end ->
  exec_at Patterns.heading_marker None (hashes (S n) ++ t)
  = Some (Some 35%N, t, [(1, hashes (S n))]).
Proof.
  intros Ht. unfold exec_at, Patterns.heading_marker. cbn [Patterns.seqs]. eval_codes.
  unfold Plus, chr. rewrite m_Seq, m_Assert. cbn [holds is_terminator_opt].
  rewrite m_Seq, m_Group, m_Seq. cbn [hashes repeat app]. fold (hashes n).
  rewrite m_Char_cons. cbn [N.eqb Pos.eqb]. rewrite m_star_class.
  rewrite (greedy_scan_first _ _ t _ (Some 35%N, t, [(1, hashes (S n))])).
  - reflexivity.
  - destruct t as [|x t]; [exact I|]. apply N.eqb_neq. intros E. apply Ht. symmetry. exact E.
  - apply hashes_run.
  - rewrite (after_hashes None). rewrite m_NotAhead.
    assert (forall (A : Type) (a b : A) c,
              match m (Char (N.eqb SPACE)) (fun prev' s' c' => Some (prev', s', c'))
                      (Some 35%N) t c with Some _ => a | None => b end = b) as E.
    { intros A a b c. destruct t as [|x t]; [reflexivity|]. rewrite m_Char_cons.
      destruct (N.eqb_spec SPACE x) as [E|_]; [|reflexivity]. destruct Ht as [Ht _].
      exfalso. apply Ht. symmetry. exact E. }
    unfold chr. rewrite E. unfold accept.
    replace (firstn _ _) with (hashes (S n)); [reflexivity|].
    symmetry. apply (firstn_prefix _ (35%N :: hashes n) t). reflexivity.
Qed.

(** [#+] followed by a space: the run less its last sign is the group. *)
Lemma exec_heading_marker_spaced (n : nat) (t : jsstring) :
  exec_at Patterns.heading_marker None (hashes (S (S n)) ++ SPACE :: t)
  = Some (Some 35%N, 35%N :: SPACE :: t, [(1, hashes (S n))]).
Proof.
  unfold exec_at, Patterns.heading_marker. cbn [Patterns.seqs]. eval_codes.
  unfold Plus, chr. rewrite m_Seq, m_Assert. cbn [holds is_terminator_opt].
  rewrite m_Seq, m_Group, m_Seq.
  replace (hashes (S (S n)) ++ SPACE :: t) with (35%N :: hashes n ++ 35%N :: SPACE :: t)
    by (rewrite (hashes_snoc (S n)), <- app_assoc; reflexivity).
  rewrite m_Char_cons. cbn [N.eqb Pos.eqb]. rewrite m_star_class.
  rewrite (greedy_scan_back _ _ 35%N (SPACE :: t) _
             (Some 35%N, 35%N :: SPACE :: t, [(1, hashes (S n))])).
  - reflexivity.
  - reflexivity.
  - reflexivity.
  - rewrite m_NotAhead, m_Char_cons. reflexivity.
  - apply hashes_run.
  - rewrite (after_hashes None). rewrite m_NotAhead, m_Char_cons.
    change (N.eqb SPACE 35) with false. cbv iota. unfold accept.
    replace (firstn _ _) with (hashes (S n)); [reflexivity|].
    symmetry. apply (firstn_prefix _ (35%N :: hashes n) (35%N :: SPACE :: t)). reflexivity.
Qed.

Lemma hd_error_hashes (n : nat) (before : jsstring) :
  hd_error (rev (hashes (S n)) ++ before) = Some 35%N.
Proof. rewrite rev_hashes. reflexivity. Qed.

Lemma heading_marker_tight (n : nat) (t : jsstring) :
  free_of (N.eqb 35) t ->
  match t with x :: _ => x <> SPACE | [] => True end ->
  replace_all Patterns.heading_marker (template (lit "$1 ")) (hashes (S n) ++ t)
  = hashes (S n) ++ SPACE :: t.
Proof.
  intros Hf Ht. unfold replace_all.
  erewrite replace_from_hit.
  2:{ apply exec_heading_marker_tight. destruct t as [|x t]; [exact I|]. split; [exact Ht|].
      inversion Hf; subst. intros ->. discriminate. }
  2:{ rewrite length_app. cbn [hashes repeat length]. lia. }
  rewrite (firstn_prefix _ (hashes (S n)) t eq_refl).
  rewrite capture_heading_marker, template_group_space.
  rewrite <- app_assoc. f_equal. cbn [app]. f_equal.
  apply replace_from_none. intros prev s' Hs.
  apply (exec_at_needs _ _ _ _ needs_heading_marker).
  exact (suffix_Forall _ _ _ Hs Hf).
Qed.

Lemma heading_marker_spaced (n : nat) (t : jsstring) :
  free_of (N.eqb 35) t ->
  replace_all Patterns.heading_marker (template (lit "$1 ")) (hashes (S (S n)) ++ SPACE :: t)
  = hashes (S n) ++ SPACE :: 35%N :: SPACE :: t.
Proof.
  intros Hf. unfold replace_all.
  erewrite replace_from_hit.
  2:{ apply exec_heading_marker_spaced. }
  2:{ rewrite length_app. cbn [hashes repeat length]. lia. }
  rewrite (firstn_prefix _ (hashes (S n)) (35%N :: SPACE :: t))
    by (rewrite (hashes_snoc (S n)), <- app_assoc; reflexivity).
  rewrite capture_heading_marker, template_group_space.
  rewrite <- app_assoc. f_equal. cbn [app]. f_equal.
  rewrite length_app. cbn [length]. rewrite Nat.add_succ_r. cbn [replace_from].
  rewrite hd_error_hashes.
  replace (exec_at Patterns.heading_marker (Some 35%N) (35%N :: SPACE :: t)) with (@None result)
    by reflexivity.
  f_equal.
  apply replace_from_none. intros prev s' Hs.
  apply (exec_at_needs _ _ _ _ needs_heading_marker).
  apply (suffix_Forall _ _ _ Hs). constructor; [reflexivity|exact Hf].
Qed.

Lemma hashes_free (P : char -> bool) (n : nat) : P 35%N = false -> free_of P (hashes n).
Proof. intros H. unfold hashes. induction n; cbn [repeat]; constructor; assumption. Qed.

Ltac quiet_heading :=
  repeat first [ apply free_of_app | apply hashes_free; reflexivity
               | apply Forall_cons; [reflexivity|] | assumption ].

(** X16. A line of number signs that is followed at once by the text of
    the heading gets one space after the signs: [##Title] becomes
    [## Title].  (The text is calm, and does not begin with a space.) *)
Theorem preprocessResponse_tight_heading (n : nat) (t : jsstring) :
  calm t ->
  match t with x :: _ => x <> SPACE | [] => True end ->
  preprocessResponse (hashes (S n) ++ t) = trim (hashes (S n) ++ SPACE :: t).
Proof.
  intros H Ht. unfold preprocessResponse. cbv zeta.
  pose proof (calm_hard _ H). pose proof (calm_dash _ H). pose proof (calm_star _ H).
  pose proof (calm_hash _ H). pose proof (calm_quote _ H).
  rewrite (replace_all_needs _ _ _ _ needs_hard_space) by quiet_heading.
  rewrite (replace_all_needs _ _ _ _ needs_inline_rule) by quiet_heading.
  rewrite (replace_all_needs _ _ _ _ needs_star_bullet) by quiet_heading.
  rewrite heading_marker_tight by assumption.
  rewrite (replace_all_needs _ _ _ _ needs_quote_marker) by quiet_heading.
  reflexivity.
Qed.

(** X17. A heading of level two or more that is written as markdown wants
    it, with a space after the number signs, loses a level: the pattern
    [^(#+)(?! )] gives back the last sign of the run, so that [## Title]
    becomes [# # Title] and [### Title] becomes [## # Title]. *)
Theorem preprocessResponse_demotes_heading (n : nat) (t : jsstring) :
  calm t ->
  preprocessResponse (hashes (S (S n)) ++ SPACE :: t)
  = trim (hashes (S n) ++ SPACE :: 35%N :: SPACE :: t).
Proof.
  intros H. unfold preprocessResponse. cbv zeta.
  pose proof (calm_hard _ H). pose proof (calm_dash _ H). pose proof (calm_star _ H).
  pose proof (calm_hash _ H). pose proof (calm_quote _ H).
  rewrite (replace_all_needs _ _ _ _ needs_hard_space) by quiet_heading.
  rewrite (replace_all_needs _ _ _ _ needs_inline_rule) by quiet_heading.
  rewrite (replace_all_needs _ _ _ _ needs_star_bullet) by quiet_heading.
  rewrite heading_marker_spaced by assumption.
  rewrite (replace_all_needs _ _ _ _ needs_quote_marker) by quiet_heading.
  reflexivity.
Qed.

(** The heading [##Pricing], followed by a line of text: a case of X16. *)
Lemma preprocessResponse_tight_witness :
  preprocessResponse (hashes 2 ++ lit "Pricing" ++ [LF] ++ lit "Two plans.")
  = trim (hashes 2 ++ SPACE :: lit "Pricing" ++ [LF] ++ lit "Two plans.").
Proof.
  apply (preprocessResponse_tight_heading 1 (lit "Pricing" ++ [LF] ++ lit "Two plans.")).
  - vm_compute. repeat constructor.
  - discriminate.
Defined.

(** The heading [## Pricing], followed by a line of text: a case of X17. *)
Lemma preprocessResponse_demotes_witness :
  preprocessResponse (hashes 2 ++ SPACE :: lit "Pricing" ++ [LF] ++ lit "Two plans.")
  = trim (hashes 1 ++ SPACE :: 35%N :: SPACE :: lit "Pricing" ++ [LF] ++ lit "Two plans.").
Proof.
  apply (preprocessResponse_demotes_heading 0 (lit "Pricing" ++ [LF] ++ lit "Two plans.")).
  vm_compute. repeat constructor.
Defined.

Example demoted_heading :
  preprocessResponse (lit "## Pricing") = lit "# # Pricing"
  /\ preprocessResponse (lit "### Plans and prices") = lit "## # Plans and prices"
  /\ preprocessResponse (lit "#Pricing") = lit "# Pricing".
Proof. vm_compute. repeat split. Qed.

(** *** Rules inside a line *)

Lemma rule_block_local : local rule_block.
Proof. intros matched before before' after caps. reflexivity. Qed.

Lemma inline_rule_no_assert : no_assert Patterns.inline_rule.
Proof. cbv. tauto. Qed.

Lemma exec_inline_miss (prev : option char) (y : char) (s : jsstring) :
  match s with z :: _ => z <> 45%N | [] => True end ->
  exec_at Patterns.inline_rule prev (y :: s) = None.
Proof.
  intros Hs. unfold exec_at, Patterns.inline_rule. cbn [Patterns.seqs]. eval_lits.
  cbn [str]. unfold chr, none_of. rewrite m_Seq, m_Group, m_Char_cons.
  destruct (negb (char_in [LF] y)); [|reflexivity].
  rewrite m_Seq. destruct s as [|z s]; [reflexivity|]. rewrite m_Char_cons.
  destruct (N.eqb_spec 45 z) as [E|_]; [|reflexivity]. exfalso. apply Hs. symmetry. exact E.
Qed.

Lemma exec_inline_LF (prev : option char) (s : jsstring) :
  exec_at Patterns.inline_rule prev (LF :: s) = None.
Proof. reflexivity. Qed.

Lemma exec_inline_hit (prev : option char) (x : char) (q : jsstring) :
  x <> LF ->
  exec_at Patterns.inline_rule prev (x :: lit "---" ++ q) = Some (Some 45%N, q, [(1, [x])]).
Proof.
  intros Hx. unfold exec_at, Patterns.inline_rule. cbn [Patterns.seqs]. lit_cons.
  cbn [str]. unfold chr, none_of. rewrite m_Seq, m_Group, m_Char_cons.
  cbn [char_in]. destruct (N.eqb_spec x LF) as [E|_]; [contradiction|]. cbn [negb].
  repeat eat. unfold accept.
  replace (firstn _ _) with [x]; [reflexivity|].
  cbn [length]. replace (S (S (S (S (length q)))) - S (S (S (length q)))) with 1 by lia.
  reflexivity.
Qed.

Lemma exec_inline_short (prev : option char) (u2 q : jsstring) :
  suffix u2 (lit "---") -> u2 <> [] -> free_of (N.eqb 45) q ->
  exec_at Patterns.inline_rule prev (u2 ++ q) = None.
Proof.
  intros Hs Hne Hq.
  assert (forall k p c, m (Char (N.eqb 45)) k p q c = None) as E.
  { intros k p c. destruct q as [|z q]; [reflexivity|]. rewrite m_Char_cons.
    inversion Hq; subst. replace (N.eqb 45 z) with false by (symmetry; assumption).
    reflexivity. }
  revert Hs. eval_lits. intros Hs.
  repeat (apply suffix_cons_inv in Hs as [->|Hs]);
    [..|destruct Hs as [pre Hs]; destruct pre; [|discriminate Hs]; cbn [app] in Hs;
        subst u2; contradiction];
    unfold exec_at, Patterns.inline_rule; cbn [Patterns.seqs]; lit_cons;
    cbn [str]; unfold chr, none_of; rewrite m_Seq, m_Group, m_Char_cons;
    cbn [char_in N.eqb Pos.eqb negb]; rewrite ?m_Seq;
    repeat (rewrite m_Char_cons; cbn [N.eqb Pos.eqb]; rewrite ?m_Seq); apply E.
Qed.

Lemma head_calm (u rest : jsstring) (z : char) :
  free_of (N.eqb 45) u -> z <> 45%N ->
  match u ++ z :: rest with y :: _ => y <> 45%N | [] => True end.
Proof.
  intros Hu Hz. destruct u as [|y u]; cbn [app]; [exact Hz|].
  inversion Hu; subst. intros ->. discriminate.
Qed.

Lemma inline_rule_hit (p q : jsstring) (x : char) :
  free_of (N.eqb 45) p -> free_of (N.eqb 45) q -> x <> LF -> x <> 45%N ->
  replace_all Patterns.inline_rule rule_block (p ++ [x] ++ lit "---" ++ q)
  = p ++ [x] ++ [LF; LF] ++ lit "---" ++ [LF; LF] ++ q.
Proof.
  intros Hp Hq Hx Hd.
  change (p ++ [x] ++ lit "---" ++ q) with (p ++ (x :: lit "---") ++ q).
  rewrite (replace_all_first _ _ p _ q (Some 45%N) [(1, [x])]).
  - f_equal. rewrite (replace_all_needs _ _ _ q needs_inline_rule Hq). reflexivity.
  - apply inline_rule_no_assert.
  - apply rule_block_local.
  - discriminate.
  - intros u2 prev Hs Hne. destruct u2 as [|y u2]; [contradiction|].
    cbn [app]. apply exec_inline_miss.
    apply (head_calm u2 (lit "---" ++ q) x); [|exact Hd].
    pose proof (suffix_Forall _ _ _ Hs Hp) as H. inversion H; assumption.
  - apply exec_inline_hit. exact Hx.
Qed.

Lemma inline_rule_at_line_start (p q : jsstring) :
  free_of (N.eqb 45) p -> free_of (N.eqb 45) q ->
  p = [] \/ (exists p', p = p' ++ [LF]) ->
  replace_all Patterns.inline_rule rule_block (p ++ lit "---" ++ q) = p ++ lit "---" ++ q.
Proof.
  intros Hp Hq Hend. unfold replace_all.
  replace (S (length (p ++ lit "---" ++ q)))
    with (length p + (length (lit "---") + S (length q)))
    by (rewrite !length_app; lia).
  rewrite replace_from_skip.
  - f_equal. rewrite replace_from_skip.
    + f_equal. apply replace_from_none. intros prev s' Hs.
      apply (exec_at_needs _ _ _ _ needs_inline_rule). exact (suffix_Forall _ _ _ Hs Hq).
    + intros u2 prev Hs Hne. apply exec_inline_short; assumption.
  - intros u2 prev Hs Hne. destruct Hend as [->|[p' ->]].
    + destruct Hs as [pre Hs]. destruct pre, u2; try discriminate Hs. contradiction.
    + destruct (suffix_snoc_inv _ _ _ Hs Hne) as (u2' & -> & Hs').
      destruct u2' as [|y u2']; [apply exec_inline_LF|].
      rewrite <- !app_assoc. cbn [app]. apply exec_inline_miss.
      apply head_calm; [|discriminate].
      apply Forall_app in Hp as [Hp _].
      pose proof (suffix_Forall _ _ _ Hs' Hp) as H. inversion H; assumption.
Qed.

Ltac quiet_rule :=
  repeat first [ assumption | literal | apply free_of_app
               | apply Forall_cons; [assumption|] ].

(** X18. Three hyphens that come straight after a code unit that is not a
    line feed are set off as a rule of their own: a blank line is put
    before them and after them.  (The text around them is calm, so holds no
    other hyphen.)  The separator row of a markdown table, [| --- |], is
    split in this way. *)
Theorem preprocessResponse_inline_rule (p q : jsstring) (x : char) :
  calm p -> layout_char x = false -> calm q -> x <> LF ->
  preprocessResponse (p ++ [x] ++ lit "---" ++ q)
  = trim (p ++ [x] ++ [LF; LF] ++ lit "---" ++ [LF; LF] ++ q).
Proof.
  intros Hp Hx' Hq Hn. unfold preprocessResponse. cbv zeta.
  assert (calm [x]) as Hx by (constructor; [exact Hx'|constructor]).
  pose proof (calm_hard _ Hp). pose proof (calm_dash _ Hp). pose proof (calm_star _ Hp).
  pose proof (calm_hash _ Hp). pose proof (calm_quote _ Hp).
  pose proof (calm_hard _ Hq). pose proof (calm_dash _ Hq). pose proof (calm_star _ Hq).
  pose proof (calm_hash _ Hq). pose proof (calm_quote _ Hq).
  pose proof (calm_hard _ Hx). pose proof (calm_dash _ Hx) as Hd. pose proof (calm_star _ Hx).
  pose proof (calm_hash _ Hx). pose proof (calm_quote _ Hx).
  rewrite (replace_all_needs _ _ _ _ needs_hard_space) by quiet_rule.
  fold rule_block. rewrite inline_rule_hit; try assumption.
  2:{ inversion Hd; subst. intros ->. discriminate. }
  rewrite (replace_all_needs _ _ _ _ needs_star_bullet) by quiet_rule.
  rewrite (replace_all_needs _ _ _ _ needs_heading_marker) by quiet_rule.
  rewrite (replace_all_needs _ _ _ _ needs_quote_marker) by quiet_rule.
  reflexivity.
Qed.

(** X19. Three hyphens at the start of the text or of a line, a rule as
    markdown writes it, are left where they are. *)
Theorem preprocessResponse_keeps_rule (p q : jsstring) :
  calm p -> calm q ->
  p = [] \/ (exists p', p = p' ++ [LF]) ->
  preprocessResponse (p ++ lit "---" ++ q) = trim (p ++ lit "---" ++ q).
Proof.
  intros Hp Hq Hend. unfold preprocessResponse. cbv zeta.
  pose proof (calm_hard _ Hp). pose proof (calm_dash _ Hp). pose proof (calm_star _ Hp).
  pose proof (calm_hash _ Hp). pose proof (calm_quote _ Hp).
  pose proof (calm_hard _ Hq). pose proof (calm_dash _ Hq). pose proof (calm_star _ Hq).
  pose proof (calm_hash _ Hq). pose proof (calm_quote _ Hq).
  rewrite (replace_all_needs _ _ _ _ needs_hard_space) by quiet_rule.
  fold rule_block. rewrite inline_rule_at_line_start; try assumption.
  rewrite (replace_all_needs _ _ _ _ needs_star_bullet) by quiet_rule.
  rewrite (replace_all_needs _ _ _ _ needs_heading_marker) by quiet_rule.
  rewrite (replace_all_needs _ _ _ _ needs_quote_marker) by quiet_rule.
  reflexivity.
Qed.

(** The separator row of a table: a case of X18. *)
Lemma preprocessResponse_inline_witness :
  preprocessResponse ((lit "| Plan |" ++ [LF] ++ lit "|") ++ [SPACE] ++ lit "---" ++ lit " |")
  = trim ((lit "| Plan |" ++ [LF] ++ lit "|") ++ [SPACE] ++ [LF; LF] ++ lit "---"
          ++ [LF; LF] ++ lit " |").
Proof.
  apply (preprocessResponse_inline_rule (lit "| Plan |" ++ [LF] ++ lit "|") (lit " |") SPACE).
  - vm_compute. repeat constructor.
  - reflexivity.
  - vm_compute. repeat constructor.
  - discriminate.
Defined.

(** A rule between two paragraphs: a case of X19. *)
Lemma preprocessResponse_keeps_witness :
  preprocessResponse ((lit "Above." ++ [LF]) ++ lit "---" ++ ([LF] ++ lit "Below."))
  = trim ((lit "Above." ++ [LF]) ++ lit "---" ++ ([LF] ++ lit "Below.")).
Proof.
  apply (preprocessResponse_keeps_rule (lit "Above." ++ [LF]) ([LF] ++ lit "Below.")).
  - vm_compute. repeat constructor.
  - vm_compute. repeat constructor.
  - right. exists (lit "Above."). reflexivity.
Defined.

(** ** The lines of a text response *)

Lemma star_loop_only (P : char -> bool) (g : bool) (body : cont -> cont) (k : cont) :
  (forall k' prev s c res, body k' prev s c = Some res ->
     exists w s' p' c', s = w ++ s' /\ Forall (fun x => P x = true) w
                        /\ k' p' s' c' = Some res) ->
  forall fuel prev s c res, star_loop g body k fuel prev s c = Some res ->
    exists w s' p' c', s = w ++ s' /\ Forall (fun x => P x = true) w /\ k p' s' c' = Some res.
Proof.
  intros Hbody. induction fuel as [|fuel IH]; intros prev s c res H; cbn [star_loop] in H.
  - exists [], s, prev, c. auto.
  - assert (forall res', body (fun prev' s' c' =>
                                 if length s' <? length s
                                 then star_loop g body k fuel prev' s' c' else None) prev s c
                         = Some res' ->
            exists w s' p' c', s = w ++ s' /\ Forall (fun x => P x = true) w
                               /\ k p' s' c' = Some res') as Hb.
    { intros res' E. apply Hbody in E as (w1 & s1 & p1 & c1 & -> & Hw1 & E).
      destruct (length s1 <? length (w1 ++ s1)); [|discriminate].
      apply IH in E as (w2 & s2 & p2 & c2 & -> & Hw2 & E).
      exists (w1 ++ w2), s2, p2, c2. rewrite <- app_assoc.
      split; [reflexivity|]. split; [apply Forall_app; auto|exact E]. }
    destruct g.
    + destruct (body _ prev s c) as [res'|] eqn:E.
      * injection H as <-. apply Hb. reflexivity.
      * exists [], s, prev, c. auto.
    + destruct (k prev s c) as [res'|] eqn:E.
      * injection H as <-. exists [], s, prev, c. auto.
      * apply Hb, H.
Qed.

(** A match is a stretch of the text, of the class, followed by a success
    of the continuation. *)
Lemma m_only (P : char -> bool) (r : regex) : only P r ->
  forall k prev s c res, m r k prev s c = Some res ->
    exists w s' p' c', s = w ++ s' /\ Forall (fun x => P x = true) w /\ k p' s' c' = Some res.
Proof.
  induction r as [|p|r1 IH1 r2 IH2|r1 IH1 r2 IH2|g r1 IH1|n r1 IH1|r1 IH1|a];
    cbn [only]; intros Hr k prev s c res H; cbn [m] in H.
  - exists [], s, prev, c. auto.
  - destruct s as [|x s]; [discriminate|]. destruct (p x) eqn:E; [|discriminate].
    exists [x], s, (Some x), c. repeat split; auto.
  - destruct Hr as [H1 H2]. apply (IH1 H1) in H as (w1 & s1 & p1 & c1 & -> & Hw1 & H).
    apply (IH2 H2) in H as (w2 & s2 & p2 & c2 & -> & Hw2 & H).
    exists (w1 ++ w2), s2, p2, c2. rewrite <- app_assoc.
    split; [reflexivity|]. split; [apply Forall_app; auto|exact H].
  - destruct Hr as [H1 H2]. destruct (m r1 k prev s c) as [res'|] eqn:E.
    + injection H as <-. apply (IH1 H1) in E. exact E.
    + apply (IH2 H2) in H. exact H.
  - apply (star_loop_only P g (m r1) k) in H; [exact H|].
    intros k' prev' s' c' res' E. apply (IH1 Hr) in E. exact E.
  - apply (IH1 Hr) in H as (w & s' & p' & c' & -> & Hw & H).
    exists w, s', p', ((n, firstn (length (w ++ s') - length s') (w ++ s')) :: c'). auto.
  - destruct (m r1 _ prev s c); [discriminate|]. exists [], s, prev, c. auto.
  - destruct (holds a prev s); [|discriminate]. exists [], s, prev, c. auto.
Qed.

(** *** Horizontal rules *)

Lemma rule_mark_not_space (x : char) : is_space x = true -> is_rule_mark x = false.
Proof.
  intros H. unfold is_rule_mark. eval_lits. cbn [char_in].
  repeat match goal with
         | |- context [N.eqb ?a ?b] =>
             destruct (N.eqb_spec a b) as [E|_]; [rewrite E in H; discriminate H|]
         end.
  reflexivity.
Qed.

Lemma horizontal_rule_only : only is_rule_char
  (Patterns.seqs [one_of (lit "-_*");
                  at_least 2 (Group 1 (Patterns.seqs [Star true space; one_of (lit "-_*")]))]).
Proof.
  cbn [Patterns.seqs at_least only]. unfold one_of, space, is_rule_char, is_rule_mark.
  repeat split; intros x H; rewrite H; auto using orb_true_r.
Qed.

Lemma horizontal_rule_anchored (s : jsstring) : forall p,
  search_from Patterns.horizontal_rule (Some p) s = None.
Proof.
  induction s as [|y s IH]; intros p; cbn [search_from].
  - reflexivity.
  - replace (exec_at Patterns.horizontal_rule (Some p) (y :: s)) with (@None result)
      by reflexivity.
    apply IH.
Qed.

(** The pattern is anchored at both ends: when the test succeeds the whole
    text is made of rule markers and white space. *)
Lemma horizontal_rule_chars (s : jsstring) :
  test Patterns.horizontal_rule s = true -> Forall (fun x => is_rule_char x = true) s.
Proof.
  unfold test. destruct (search_from Patterns.horizontal_rule None s) as [c|] eqn:E;
    [intros _|discriminate].
  assert (exists res, exec_at Patterns.horizontal_rule None s = Some res) as [res Hres].
  { destruct s as [|x s]; cbn [search_from] in E.
    - destruct (exec_at _ None []) as [res|]; [eauto|discriminate].
    - destruct (exec_at _ None (x :: s)) as [res|]; [eauto|].
      rewrite horizontal_rule_anchored in E. discriminate E. }
  unfold exec_at, Patterns.horizontal_rule in Hres.
  change (m (Patterns.seqs [Assert InputStart; one_of (lit "-_*");
                            at_least 2 (Group 1 (Patterns.seqs [Star true space;
                                                               one_of (lit "-_*")]));
                            Assert InputEnd]) accept None s [])
    with (m (Assert InputStart)
            (m (Patterns.seqs [one_of (lit "-_*");
                               at_least 2 (Group 1 (Patterns.seqs [Star true space;
                                                                  one_of (lit "-_*")]))])
               (m (Assert InputEnd) accept)) None s []) in Hres.
  rewrite m_Assert in Hres. cbn [holds] in Hres.
  apply (m_only _ _ horizontal_rule_only) in Hres as (w & s' & p' & c' & -> & Hw & H).
  rewrite m_Assert in H. destruct s' as [|y s']; [|discriminate H].
  rewrite app_nil_r. exact Hw.
Qed.

(** *** Trimming *)

Lemma trimStart_pad (pad s : jsstring) :
  Forall (fun x => is_space x = true) pad -> trimStart (pad ++ s) = trimStart s.
Proof.
  induction 1 as [|x pad Hx _ IH]; [reflexivity|]. cbn [app trimStart]. rewrite Hx. exact IH.
Qed.

Lemma trimStart_solid (x : char) (s : jsstring) :
  is_space x = false -> trimStart (x :: s) = x :: s.
Proof. intros H. cbn [trimStart]. rewrite H. reflexivity. Qed.

Lemma trim_padded (pad1 pad2 core : jsstring) (x z : char) (inner : jsstring) :
  Forall (fun y => is_space y = true) pad1 ->
  Forall (fun y => is_space y = true) pad2 ->
  is_space x = false -> is_space z = false ->
  core = x :: inner -> (exists core', core = core' ++ [z]) ->
  trim (pad1 ++ core ++ pad2) = core.
Proof.
  intros H1 H2 Hx Hz Ehead [core' Elast]. unfold trim.
  rewrite trimStart_pad by exact H1. rewrite Ehead. cbn [app].
  rewrite trimStart_solid by exact Hx.
  change (x :: inner ++ pad2) with ((x :: inner) ++ pad2). rewrite <- Ehead.
  unfold trimEnd. rewrite rev_app_distr, trimStart_pad by (apply Forall_rev, H2).
  rewrite Elast, rev_app_distr. cbn [rev app]. rewrite trimStart_solid by exact Hz.
  change (z :: rev core') with (rev [z] ++ rev core').
  rewrite <- rev_app_distr, rev_involutive. reflexivity.
Qed.

Lemma In_trimStart (y : char) (s : jsstring) :
  In y s -> is_space y = false -> In y (trimStart s).
Proof.
  intros Hin Hy. induction s as [|x s IH]; [contradiction|].
  cbn [trimStart]. destruct (is_space x) eqn:E; [|exact Hin].
  destruct Hin as [->|Hin]; [congruence|apply IH, Hin].
Qed.

Lemma In_trim (y : char) (s : jsstring) :
  In y s -> is_space y = false -> In y (trim s).
Proof.
  intros Hin Hy. unfold trim, trimEnd. rewrite <- in_rev. apply In_trimStart; [|exact Hy].
  rewrite <- in_rev. apply In_trimStart; assumption.
Qed.

(** *** A line that is a rule *)

Lemma m_rule_group (K : cont) (prev : option char) (ws : jsstring) (mk : char)
    (rest : jsstring) (c : captures) :
  Forall (fun y => is_space y = true) ws -> is_rule_mark mk = true ->
  m rule_group K prev (ws ++ mk :: rest) c = K (Some mk) rest ((1, ws ++ [mk]) :: c).
Proof.
  intros Hws Hmk. unfold rule_group. cbn [Patterns.seqs]. unfold space, one_of.
  rewrite m_Group, m_Seq, m_star_class.
  rewrite greedy_scan_span.
  2:{ intros p x s c0 Hx. rewrite m_Char_cons.
      rewrite (rule_mark_not_space x Hx : char_in (lit "-_*") x = false). reflexivity. }
  rewrite span_prefix; [|exact Hws|].
  2:{ destruct (is_space mk) eqn:E; [|reflexivity].
      apply rule_mark_not_space in E. congruence. }
  cbn [fst snd]. rewrite m_Char_cons.
  replace (char_in (lit "-_*") mk) with true by (symmetry; exact Hmk).
  f_equal. f_equal. f_equal.
  replace (ws ++ mk :: rest) with ((ws ++ [mk]) ++ rest) by (rewrite <- app_assoc; reflexivity).
  apply firstn_consumed.
Qed.

Lemma star_rule_groups (more : list (jsstring * char)) :
  Forall rule_group_ok more ->
  forall fuel prev c, length (rule_groups more) <= fuel ->
  exists res, star_loop true (m rule_group) (m (Assert InputEnd) accept) fuel prev
                (rule_groups more) c = Some res.
Proof.
  induction 1 as [|[ws mk] more [Hws Hmk] _ IH]; intros fuel prev c Hlen.
  - destruct fuel as [|fuel]; [eexists; reflexivity|].
    eexists. reflexivity.
  - unfold rule_groups in *. cbn [map concat fst snd] in *.
    destruct fuel as [|fuel].
    { rewrite !length_app in Hlen. cbn [length] in Hlen. lia. }
    rewrite star_loop_S. rewrite <- app_assoc. cbn [app].
    rewrite m_rule_group by assumption.
    replace (length (concat (map (fun g => fst g ++ [snd g]) more))
             <? length (ws ++ mk :: concat (map (fun g => fst g ++ [snd g]) more)))
      with true
      by (symmetry; apply Nat.ltb_lt; rewrite length_app; cbn [length]; lia).
    destruct (IH fuel (Some mk) ((1, ws ++ [mk]) :: c)) as [res E].
    { rewrite <- app_assoc, length_app in Hlen. cbn [app length] in Hlen. lia. }
    rewrite E. eauto.
Qed.

Lemma exec_horizontal_rule (first : char) (g1 g2 : jsstring * char)
    (more : list (jsstring * char)) :
  is_rule_mark first = true ->
  Forall rule_group_ok (g1 :: g2 :: more) ->
  exists res, exec_at Patterns.horizontal_rule None (rule_text first (g1 :: g2 :: more))
              = Some res.
Proof.
  intros Hf Hg. inversion Hg as [|? ? [Hw1 Hm1] Hg']; subst.
  inversion Hg' as [|? ? [Hw2 Hm2] Hmore]; subst.
  destruct g1 as [ws1 mk1], g2 as [ws2 mk2]. cbn [fst snd] in *.
  unfold exec_at, Patterns.horizontal_rule, rule_text, rule_groups.
  cbn [Patterns.seqs at_least].
  fold rule_group. unfold one_of.
  rewrite m_Seq, m_Assert. cbn [holds].
  rewrite m_Seq, m_Char_cons.
  replace (char_in (lit "-_*") first) with true by (symmetry; exact Hf).
  cbn [map concat fst snd]. rewrite <- !app_assoc. cbn [app].
  rewrite m_Seq, m_Seq, m_rule_group by assumption.
  rewrite m_Seq, m_rule_group by assumption.
  rewrite m_Star. apply star_rule_groups; [exact Hmore|]. unfold rule_groups. lia.
Qed.

(** X20. A line made of three or more of the markers [-], [_] and [*],
    with or without white space between them and around them, is
    normalised to [---]; the markers need not be the same. *)
Theorem normalize_line_rule (pad1 pad2 : jsstring) (first : char)
    (more : list (jsstring * char)) :
  Forall (fun y => is_space y = true) pad1 ->
  Forall (fun y => is_space y = true) pad2 ->
  is_rule_mark first = true ->
  Forall rule_group_ok more ->
  2 <= length more ->
  normalize_line (pad1 ++ rule_text first more ++ pad2) = lit "---".
Proof.
  intros H1 H2 Hf Hg Hlen. unfold normalize_line. cbv zeta.
  destruct more as [|g1 [|g2 more]]; [cbn [length] in Hlen; lia ..|].
  assert (exists core' z, rule_text first (g1 :: g2 :: more) = core' ++ [z]
                          /\ is_rule_mark z = true) as (core' & z & Ez & Hz).
  { unfold rule_text, rule_groups.
    generalize (g1 :: g2 :: more) Hg (@nil_cons _ g1 (g2 :: more)).
    intros l. induction l as [|g l _] using rev_ind; intros Hl Hne; [congruence|].
    apply Forall_app in Hl as [_ Hl]. inversion Hl as [|? ? [_ Hm] _]; subst.
    exists (first :: concat (map (fun g => fst g ++ [snd g]) l) ++ fst g), (snd g).
    split; [|exact Hm].
    rewrite map_app, concat_app. cbn [map concat]. rewrite app_nil_r, !app_assoc. reflexivity. }
  rewrite (trim_padded pad1 pad2 _ first z (rule_groups (g1 :: g2 :: more))); try assumption.
  - unfold test.
    destruct (exec_horizontal_rule first g1 g2 more Hf Hg) as [[[p s] c] E].
    destruct (rule_text first (g1 :: g2 :: more)) as [|x t] eqn:Et; [discriminate Et|].
    cbn [search_from]. rewrite E. reflexivity.
  - destruct (is_space first) eqn:E; [|reflexivity].
    apply rule_mark_not_space in E. congruence.
  - destruct (is_space z) eqn:E; [|reflexivity].
    apply rule_mark_not_space in E. congruence.
  - reflexivity.
  - eauto.
Qed.

(** The line [ * _ -  ] with its white space: a case of X20. *)
Lemma normalize_line_rule_witness :
  normalize_line (lit " " ++ rule_text 42 [(lit " ", 95%N); (lit " ", 45%N)] ++ lit "  ")
  = lit "---".
Proof.
  apply (normalize_line_rule (lit " ") (lit "  ") 42 [(lit " ", 95%N); (lit " ", 45%N)]).
  - vm_compute. repeat constructor.
  - vm_compute. repeat constructor.
  - reflexivity.
  - vm_compute. repeat constructor.
  - vm_compute. repeat constructor.
Defined.

(** *** Bullets *)

Lemma bullet_not_space (x : char) : is_space x = true -> is_bullet x = false.
Proof. apply marker_not_space. Qed.

Lemma space_is_terminator (x : char) : is_space x = false -> is_line_terminator x = false.
Proof.
  intros H. unfold is_line_terminator. cbn [char_in].
  repeat match goal with
         | |- context [N.eqb ?a ?b] =>
             destruct (N.eqb_spec a b) as [E|_]; [rewrite E in H; discriminate H|]
         end.
  reflexivity.
Qed.

Lemma exec_bullet_line (indent ws t : jsstring) (b x : char) :
  Forall (fun y => is_space y = true) indent ->
  is_bullet b = true ->
  Forall (fun y => is_space y = true) ws ->
  is_space x = false ->
  free_of is_line_terminator t ->
  exec_at Patterns.bullet_line None (indent ++ b :: ws ++ x :: t)
  = Some (after (Some x) t, [], [(2, x :: t); (1, indent)]).
Proof.
  intros Hi Hb Hws Hx Ht.
  unfold exec_at, Patterns.bullet_line. cbn [Patterns.seqs]. unfold space, one_of, Plus, any.
  rewrite m_Seq, m_Assert. cbn [holds].
  rewrite m_Seq, m_Group, m_star_class.
  rewrite greedy_scan_span.
  2:{ intros p y s c Hy. rewrite m_Seq, m_Char_cons.
      rewrite (bullet_not_space y Hy : char_in (lit "-*+") y = false). reflexivity. }
  rewrite span_prefix; [|exact Hi|].
  2:{ destruct (is_space b) eqn:E; [|reflexivity]. apply bullet_not_space in E. congruence. }
  cbn [fst snd]. rewrite m_Seq, m_Char_cons.
  replace (char_in (lit "-*+") b) with true by (symmetry; exact Hb).
  rewrite m_Seq, m_star_class.
  erewrite greedy_scan_first; [reflexivity|exact Hx|exact Hws|].
  rewrite m_Seq, m_Group, m_Seq, m_Char_cons.
  rewrite (space_is_terminator x Hx). cbn [negb].
  rewrite m_star_class.
  rewrite <- (app_nil_r t) at 1.
  erewrite greedy_scan_first; [reflexivity|exact I| |].
  { revert Ht. apply Forall_impl. intros y Hy. rewrite Hy. reflexivity. }
  rewrite m_Assert. cbn [holds]. unfold accept.
  replace (firstn (length (x :: t) - length (@nil char)) (x :: t)) with (x :: t)
    by (rewrite Nat.sub_0_r, firstn_all; reflexivity).
  replace (firstn _ _) with indent; [reflexivity|].
  symmetry. apply firstn_consumed.
Qed.

(** X21. A line that begins, after its indentation, with one of the
    markers [-], [*] and [+] and is not a rule is rewritten as a bullet: the
    indentation, a hyphen, one space and the rest of the line without the
    white space that followed the marker.  The marker need not be followed
    by a space, so that a line beginning with a bold text loses its first
    asterisk, and [-5 degrees] becomes [- 5 degrees]. *)
Theorem normalize_line_bullet (indent ws t : jsstring) (b x : char) :
  Forall (fun y => is_space y = true) indent ->
  is_bullet b = true ->
  Forall (fun y => is_space y = true) ws ->
  is_space x = false ->
  free_of is_line_terminator t ->
  existsb (fun y => negb (is_rule_char y)) (b :: x :: t) = true ->
  normalize_line (indent ++ b :: ws ++ x :: t) = indent ++ lit "- " ++ x :: t.
Proof.
  intros Hi Hb Hws Hx Ht Hr. unfold normalize_line. cbv zeta.
  destruct (test Patterns.horizontal_rule (trim (indent ++ b :: ws ++ x :: t))) eqn:E.
  - exfalso. apply horizontal_rule_chars in E.
    apply existsb_exists in Hr as (y & Hy & Hn). apply negb_true_iff in Hn.
    assert (is_space y = false) as Hs.
    { unfold is_rule_char in Hn. apply orb_false_elim in Hn. tauto. }
    assert (In y (trim (indent ++ b :: ws ++ x :: t))) as Hin.
    { apply In_trim; [|exact Hs]. apply in_or_app. right.
      destruct Hy as [->|Hy]; [left; reflexivity|]. right. apply in_or_app. right. exact Hy. }
    rewrite Forall_forall in E. apply E in Hin. congruence.
  - unfold match_.
    assert (search_from Patterns.bullet_line None (indent ++ b :: ws ++ x :: t)
            = Some [(2, x :: t); (1, indent)]) as Es.
    { pose proof (exec_bullet_line indent ws t b x Hi Hb Hws Hx Ht) as Ee.
      destruct (indent ++ b :: ws ++ x :: t); cbn [search_from]; rewrite Ee; reflexivity. }
    rewrite Es. reflexivity.
Qed.

(** An indented item written with an asterisk and three spaces: a case of
    X21. *)
Lemma normalize_line_bullet_witness :
  normalize_line (lit "  " ++ 42%N :: lit "   " ++ 102%N :: lit "irst item")
  = lit "  " ++ lit "- " ++ 102%N :: lit "irst item".
Proof.
  apply (normalize_line_bullet (lit "  ") (lit "   ") (lit "irst item") 42 102).
  - vm_compute. repeat constructor.
  - reflexivity.
  - vm_compute. repeat constructor.
  - reflexivity.
  - vm_compute. repeat constructor.
  - reflexivity.
Defined.

Example lines_taken_for_bullets :
  normalize_line (lit "**Note:** see below") = lit "- *Note:** see below"
  /\ normalize_line (lit "-5 degrees") = lit "- 5 degrees"
  /\ normalize_line (lit "- - -") = lit "---"
  /\ normalize_line (lit "*_-") = lit "---".
Proof. vm_compute. repeat split. Qed.

(** ** Headings in a text response *)

Lemma needs_list_bold_stars : needs list_char Patterns.bold_stars.
Proof. needs_class. Qed.
Lemma needs_list_bold_underscores : needs list_char Patterns.bold_underscores.
Proof. needs_class. Qed.
Lemma needs_list_italic_stars : needs list_char Patterns.italic_stars.
Proof. needs_class. Qed.
Lemma needs_list_escaped_newline : needs list_char Patterns.escaped_newline.
Proof. needs_class. Qed.
Lemma needs_list_blank_lines : needs list_char Patterns.blank_lines.
Proof. needs_class. Qed.
Lemma needs_list_bullet_glyph : needs list_char Patterns.bullet_glyph.
Proof. needs_class. Qed.
Lemma needs_list_before_bullet : needs list_char Patterns.before_bullet.
Proof. needs_class. Qed.
Lemma needs_list_before_number : needs list_char Patterns.before_number.
Proof. needs_class. Qed.
Lemma needs_list_horizontal_rule : needs list_char Patterns.horizontal_rule.
Proof. needs_class. Qed.
Lemma needs_list_bullet_line : needs list_char Patterns.bullet_line.
Proof. needs_class. Qed.
Lemma needs_list_numbered_line : needs list_char Patterns.numbered_line.
Proof. needs_class. Qed.

Lemma list_no_LF (s : jsstring) : free_of list_char s -> Forall (fun x => x <> LF) s.
Proof. apply Forall_impl. intros x Hx ->. discriminate. Qed.

Lemma plain_list (s : jsstring) : plain s -> free_of list_char s.
Proof.
  apply free_of_weaken. intros x H. unfold list_char in H. unfold markup_char.
  apply orb_true_iff in H as [H|H]; [|rewrite H; apply orb_true_r].
  apply orb_true_iff. left. revert H. eval_lits. cbn [app char_in].
  repeat match goal with
         | |- context [N.eqb ?a ?b] => destruct (N.eqb a b); [reflexivity|]
         end.
  discriminate.
Qed.

Lemma plain_hash (s : jsstring) : plain s -> free_of (N.eqb 35) s.
Proof. apply free_of_weaken. in_class. Qed.

Section HeadingRepair.
Variable toLowerCase : jsstring -> jsstring.

Lemma normalize_line_heading (s : jsstring) : free_of list_char s -> normalize_line s = s.
Proof.
  intros H. unfold normalize_line. cbv zeta.
  rewrite (test_needs list_char) by (auto using needs_list_horizontal_rule, free_of_trim).
  rewrite (match_needs list_char) by (auto using needs_list_bullet_line).
  rewrite (match_needs list_char) by (auto using needs_list_numbered_line).
  reflexivity.
Qed.

(** On a text without list markup only the two heading rules are at work. *)
Lemma repair_headings_only (s : jsstring) :
  free_of list_char s ->
  preprocessTextResponse toLowerCase s
  = trim (join [LF]
            (dedupe_headings toLowerCase []
               (split LF (replace_all Patterns.tight_heading (template (lit "$1 $2")) s)))).
Proof.
  intros H. unfold preprocessTextResponse, blank_before_lists. cbv zeta.
  rewrite (replace_all_needs list_char _ _ s) by (auto using needs_list_bold_stars).
  rewrite (replace_all_needs list_char _ _ s) by (auto using needs_list_bold_underscores).
  rewrite (replace_all_needs list_char _ _ s) by (auto using needs_list_italic_stars).
  rewrite (replace_all_needs list_char _ _ s) by (auto using needs_list_escaped_newline).
  rewrite (replace_all_needs list_char _ _ s) by (auto using needs_list_blank_lines).
  rewrite (replace_all_needs list_char _ _ s) by (auto using needs_list_bullet_glyph).
  rewrite (replace_all_needs list_char _ _ s) by (auto using needs_list_before_bullet).
  rewrite (replace_all_needs list_char _ _ s) by (auto using needs_list_before_number).
  rewrite (split_one LF s) by (apply list_no_LF, H).
  cbn [map join]. rewrite (normalize_line_heading s H).
  reflexivity.
Qed.

End HeadingRepair.

Lemma needs_tight_hash : needs (N.eqb 35) Patterns.tight_heading.
Proof.
  unfold Patterns.tight_heading. cbn [Patterns.seqs needs]. right. left. unfold Plus, chr.
  cbn [needs]. left. intros x Hx. exact Hx.
Qed.

Lemma firstn_one (A : Type) (y : A) (rest : list A) :
  firstn (length (y :: rest) - length rest) (y :: rest) = [y].
Proof.
  cbn [length]. replace (S (length rest) - length rest) with 1 by lia. reflexivity.
Qed.

(** [^(#+)(\S)] on a run of number signs followed by a code unit that is
    not white space: the run is the first group, the code unit the second. *)
Lemma exec_tight_heading (n : nat) (y : char) (rest : jsstring) :
  is_space y = false -> y <> 35%N ->
  exec_at Patterns.tight_heading None (hashes (S n) ++ y :: rest)
  = Some (Some y, rest, [(2, [y]); (1, hashes (S n))]).
Proof.
  intros Hy Hh. unfold exec_at, Patterns.tight_heading. cbn [Patterns.seqs]. eval_codes.
  unfold Plus, chr, nonspace. rewrite m_Seq, m_Assert. cbn [holds is_terminator_opt].
  rewrite m_Seq, m_Group, m_Seq. cbn [hashes repeat app]. fold (hashes n).
  rewrite m_Char_cons. cbn [N.eqb Pos.eqb]. rewrite m_star_class.
  erewrite greedy_scan_first; [reflexivity| | |].
  - apply N.eqb_neq. intros E. apply Hh. symmetry. exact E.
  - apply hashes_run.
  - rewrite m_Group, m_Char_cons, Hy. cbn [negb]. unfold accept.
    rewrite firstn_one.
    replace (firstn _ (35%N :: _)) with (hashes (S n)); [reflexivity|].
    symmetry. apply (firstn_prefix _ (35%N :: hashes n) (y :: rest)). reflexivity.
Qed.

(** The same followed by a space: the pattern gives back the last sign of
    the run, which becomes the second group. *)
Lemma exec_tight_heading_spaced (n : nat) (t : jsstring) :
  exec_at Patterns.tight_heading None (hashes (S (S n)) ++ SPACE :: t)
  = Some (Some 35%N, SPACE :: t, [(2, [35%N]); (1, hashes (S n))]).
Proof.
  unfold exec_at, Patterns.tight_heading. cbn [Patterns.seqs]. eval_codes.
  unfold Plus, chr, nonspace. rewrite m_Seq, m_Assert. cbn [holds is_terminator_opt].
  rewrite m_Seq, m_Group, m_Seq.
  replace (hashes (S (S n)) ++ SPACE :: t) with (35%N :: hashes n ++ 35%N :: SPACE :: t)
    by (rewrite (hashes_snoc (S n)), <- app_assoc; reflexivity).
  rewrite m_Char_cons. cbn [N.eqb Pos.eqb]. rewrite m_star_class.
  erewrite (greedy_scan_back _ _ 35%N (SPACE :: t)); [reflexivity| | | | |].
  - reflexivity.
  - reflexivity.
  - rewrite m_Group, m_Char_cons. reflexivity.
  - apply hashes_run.
  - rewrite m_Group, m_Char_cons. change (negb (is_space 35)) with true. cbv iota.
    unfold accept. rewrite firstn_one.
    replace (firstn _ (35%N :: _)) with (hashes (S n)); [reflexivity|].
    symmetry. apply (firstn_prefix _ (35%N :: hashes n) (35%N :: SPACE :: t)). reflexivity.
Qed.

Lemma tight_heading_value (matched before after g1 g2 : jsstring) :
  template (lit "$1 $2") matched before after [Some g1; Some g2] = g1 ++ SPACE :: g2.
Proof. unfold template. lit_cons. cbn. rewrite app_nil_r. reflexivity. Qed.

Lemma tight_heading_once (s : jsstring) (n : nat) (y : char) (rest : jsstring)
    (q : option char) :
  exec_at Patterns.tight_heading None s = Some (q, rest, [(2, [y]); (1, hashes (S n))]) ->
  s = hashes (S n) ++ y :: rest ->
  free_of (N.eqb 35) rest ->
  replace_all Patterns.tight_heading (template (lit "$1 $2")) s
  = hashes (S n) ++ SPACE :: y :: rest.
Proof.
  intros E -> Hf. unfold replace_all.
  erewrite replace_from_hit; [|exact E|].
  2:{ rewrite length_app. cbn [hashes repeat length]. lia. }
  change (capture_list Patterns.tight_heading [(2, [y]); (1, hashes (S n))])
    with [Some (hashes (S n)); Some [y]].
  rewrite tight_heading_value. rewrite <- app_assoc. cbn [app]. do 3 f_equal.
  apply replace_from_none. intros prev s' Hs.
  apply (exec_at_needs _ _ _ _ needs_tight_hash).
  exact (suffix_Forall _ _ _ Hs Hf).
Qed.

(** A heading line with its marker, one space and a text that does not
    begin with white space: the text is the second group. *)
Lemma exec_heading_line (n : nat) (y : char) (rest : jsstring) :
  is_space y = false -> free_of is_line_terminator rest ->
  exec_at Patterns.heading_line None (hashes (S n) ++ SPACE :: y :: rest)
  = Some (after (Some y) rest, [], [(2, y :: rest); (1, hashes (S n))]).
Proof.
  intros Hy Hr. unfold exec_at, Patterns.heading_line. cbn [Patterns.seqs]. eval_codes.
  unfold Plus, chr, space, any. rewrite m_Seq, m_Assert. cbn [holds].
  rewrite m_Seq, m_Group, m_Seq. cbn [hashes repeat app]. fold (hashes n).
  rewrite m_Char_cons. cbn [N.eqb Pos.eqb]. rewrite m_star_class.
  erewrite greedy_scan_first; [reflexivity| | |].
  - reflexivity.
  - apply hashes_run.
  - rewrite !m_Seq, m_Char_cons. change (is_space SPACE) with true. cbv iota.
    rewrite m_star_class. cbn [greedy_scan]. rewrite Hy.
    rewrite m_Seq, m_Group, m_star_class.
    rewrite <- (app_nil_r (y :: rest)) at 1.
    erewrite greedy_scan_first; [reflexivity|exact I| |].
    { constructor; [rewrite (space_is_terminator y Hy); reflexivity|].
      revert Hr. apply Forall_impl. intros x Hx. rewrite Hx. reflexivity. }
    rewrite m_Assert. cbn [holds]. unfold accept.
    replace (firstn (length (y :: rest) - length (@nil char)) (y :: rest)) with (y :: rest)
      by (rewrite Nat.sub_0_r, firstn_all; reflexivity).
    replace (firstn _ (35%N :: _)) with (hashes (S n)).
    + rewrite after_cons. reflexivity.
    + symmetry. apply (firstn_prefix _ (35%N :: hashes n) (SPACE :: y :: rest)). reflexivity.
Qed.

Lemma trim_solid (y : char) (rest : jsstring) : is_space y = false -> trim (y :: rest) <> [].
Proof.
  intros Hy E. assert (In y (trim (y :: rest))) as H by (apply In_trim; [left; reflexivity|exact Hy]).
  rewrite E in H. contradiction.
Qed.

Section HeadingRepairFacts.
Variable toLowerCase : jsstring -> jsstring.
Hypothesis lower_empty : forall s, toLowerCase s = toLowerCase [] -> s = [].

Lemma dedupe_single_heading (n : nat) (y : char) (rest : jsstring) :
  is_space y = false -> free_of is_line_terminator rest ->
  dedupe_headings toLowerCase [] [hashes (S n) ++ SPACE :: y :: rest]
  = [hashes (S n) ++ SPACE :: y :: rest].
Proof.
  intros Hy Hr. cbn [dedupe_headings]. unfold match_.
  assert (search_from Patterns.heading_line None (hashes (S n) ++ SPACE :: y :: rest)
          = Some [(2, y :: rest); (1, hashes (S n))]) as Es.
  { pose proof (exec_heading_line n y rest Hy Hr) as Ee.
    destruct (hashes (S n) ++ SPACE :: y :: rest); cbn [search_from]; rewrite Ee; reflexivity. }
  rewrite Es.
  change (capture_text (capture_list Patterns.heading_line [(2, y :: rest); (1, hashes (S n))]) 2)
    with (y :: rest).
  destruct (str_eqb (toLowerCase (trim (y :: rest))) (toLowerCase [])) eqn:E; [|reflexivity].
  apply str_eqb_eq, lower_empty in E. exfalso. exact (trim_solid y rest Hy E).
Qed.

Lemma heading_single_line (n : nat) (y : char) (rest : jsstring) :
  free_of list_char (y :: rest) ->
  split LF (hashes (S n) ++ SPACE :: y :: rest) = [hashes (S n) ++ SPACE :: y :: rest].
Proof.
  intros H. apply split_one. apply Forall_app. split.
  - unfold hashes. induction (S n); cbn [repeat]; constructor; [discriminate|assumption].
  - constructor; [discriminate|]. apply list_no_LF, H.
Qed.

(** X22. In a text response, a one-line heading whose text follows the
    number signs at once gets one space after the signs: [##Title] becomes
    [## Title].  (The text is plain prose without a line break and does not
    begin with white space; [toLowerCase] maps no other text to what it
    maps the empty text to.) *)
Theorem repair_tight_heading (n : nat) (y : char) (rest : jsstring) :
  plain (y :: rest) ->
  free_of is_line_terminator rest ->
  is_space y = false ->
  preprocessTextResponse toLowerCase (hashes (S n) ++ y :: rest)
  = trim (hashes (S n) ++ SPACE :: y :: rest).
Proof.
  intros Hp Ht Hy.
  pose proof (plain_list _ Hp) as Hl. pose proof (plain_hash _ Hp) as Hf.
  rewrite repair_headings_only.
  2:{ apply free_of_app; [apply hashes_free; reflexivity|exact Hl]. }
  rewrite (tight_heading_once _ n y rest (Some y)).
  - rewrite heading_single_line by exact Hl.
    rewrite dedupe_single_heading by assumption.
    reflexivity.
  - apply exec_tight_heading; [exact Hy|].
    inversion Hf; subst. intros ->. discriminate.
  - reflexivity.
  - inversion Hf; assumption.
Qed.

(** X23. In a text response, a one-line heading of level two or more that
    is written as markdown wants it, with a space after the number signs,
    loses a level: the pattern [^(#+)(\S)] gives back the last sign of the
    run and takes it for the first code unit of the text, so that
    [## Title] becomes [# # Title]. *)
Theorem repair_demotes_heading (n : nat) (t : jsstring) :
  plain t ->
  free_of is_line_terminator t ->
  preprocessTextResponse toLowerCase (hashes (S (S n)) ++ SPACE :: t)
  = trim (hashes (S n) ++ SPACE :: 35%N :: SPACE :: t).
Proof.
  intros Hp Ht.
  pose proof (plain_list _ Hp) as Hl. pose proof (plain_hash _ Hp) as Hf.
  rewrite repair_headings_only.
  2:{ apply free_of_app; [apply hashes_free; reflexivity|]. constructor; [reflexivity|exact Hl]. }
  rewrite (tight_heading_once _ n 35%N (SPACE :: t) (Some 35%N));
    [|apply exec_tight_heading_spaced
     |rewrite (hashes_snoc (S n)), <- app_assoc; reflexivity
     |constructor; [reflexivity|exact Hf]].
  rewrite heading_single_line by (constructor; [reflexivity|constructor; [reflexivity|exact Hl]]).
  rewrite dedupe_single_heading;
    [reflexivity|reflexivity|constructor; [reflexivity|exact Ht]].
Qed.

End HeadingRepairFacts.

Lemma ascii_lower_empty (s : jsstring) :
  ascii_toLowerCase s = ascii_toLowerCase [] -> s = [].
Proof. destruct s; [reflexivity|discriminate]. Qed.

(** The heading [##Pricing]: a case of X22. *)
Lemma repair_tight_witness :
  preprocessTextResponse ascii_toLowerCase (hashes 2 ++ 80%N :: lit "ricing")
  = trim (hashes 2 ++ SPACE :: 80%N :: lit "ricing").
Proof.
  apply (repair_tight_heading ascii_toLowerCase ascii_lower_empty 1 80 (lit "ricing")).
  - vm_compute. repeat constructor.
  - vm_compute. repeat constructor.
  - reflexivity.
Defined.

(** The heading [## Pricing]: a case of X23. *)
Lemma repair_demotes_witness :
  preprocessTextResponse ascii_toLowerCase (hashes 2 ++ SPACE :: lit "Pricing")
  = trim (hashes 1 ++ SPACE :: 35%N :: SPACE :: lit "Pricing").
Proof.
  apply (repair_demotes_heading ascii_toLowerCase ascii_lower_empty 0 (lit "Pricing")).
  - vm_compute. repeat constructor.
  - vm_compute. repeat constructor.
Defined.

Example repaired_headings :
  preprocessTextResponse ascii_toLowerCase (lit "## Pricing") = lit "# # Pricing"
  /\ preprocessTextResponse ascii_toLowerCase (lit "#Pricing") = lit "# Pricing"
  /\ preprocessTextResponse ascii_toLowerCase (lit "**Note:** see below")
     = lit "- *Note:** see below".
Proof. vm_compute. repeat split. Qed.

(** ** Prose on several lines *)

(** Every match of a repair rule other than the collapse of blank lines
    consumes a code unit of the class [mark_char]. *)
Ltac mark_case :=
  let x := fresh "x" in
  let H := fresh "H" in
  intros x H;
  first
    [ apply N.eqb_eq in H; subst x; reflexivity
    | unfold mark_char; rewrite H; apply orb_true_r
    | cbn [char_in] in H;
      repeat match type of H with
             | context [N.eqb ?a ?b] =>
                 let E := fresh "E" in
                 destruct (N.eqb_spec a b) as [E|_]; [rewrite E; reflexivity|]
             end;
      discriminate ].

Ltac need_mark :=
  cbn [needs]; first [ mark_case | left; need_mark | right; need_mark | split; need_mark ].

Ltac needs_mark :=
  cbv [Patterns.bold_stars Patterns.bold_underscores Patterns.italic_stars
       Patterns.escaped_newline Patterns.bullet_glyph
       Patterns.before_bullet Patterns.before_number Patterns.horizontal_rule
       Patterns.bullet_line Patterns.numbered_line Patterns.tight_heading
       Patterns.heading_line Patterns.seqs Plus at_least chr one_of digit code];
  eval_lits; cbn [str]; need_mark.

Lemma mark_bold_stars : needs mark_char Patterns.bold_stars.
Proof. needs_mark. Qed.
Lemma mark_bold_underscores : needs mark_char Patterns.bold_underscores.
Proof. needs_mark. Qed.
Lemma mark_italic_stars : needs mark_char Patterns.italic_stars.
Proof. needs_mark. Qed.
Lemma mark_escaped_newline : needs mark_char Patterns.escaped_newline.
Proof. needs_mark. Qed.
Lemma mark_bullet_glyph : needs mark_char Patterns.bullet_glyph.
Proof. needs_mark. Qed.
Lemma mark_before_bullet : needs mark_char Patterns.before_bullet.
Proof. needs_mark. Qed.
Lemma mark_before_number : needs mark_char Patterns.before_number.
Proof. needs_mark. Qed.
Lemma mark_horizontal_rule : needs mark_char Patterns.horizontal_rule.
Proof. needs_mark. Qed.
Lemma mark_bullet_line : needs mark_char Patterns.bullet_line.
Proof. needs_mark. Qed.
Lemma mark_numbered_line : needs mark_char Patterns.numbered_line.
Proof. needs_mark. Qed.
Lemma mark_tight_heading : needs mark_char Patterns.tight_heading.
Proof. needs_mark. Qed.
Lemma mark_heading_line : needs mark_char Patterns.heading_line.
Proof. needs_mark. Qed.

(** *** What a replacement keeps *)

Lemma only_any (r : regex) : only (fun _ => true) r.
Proof.
  induction r; cbn [only]; auto.
Qed.

(** A match ends at a later position of the text. *)
Lemma exec_at_suffix (r : regex) (prev : option char) (s : jsstring) (res : result) :
  exec_at r prev s = Some res -> suffix (snd (fst res)) s.
Proof.
  intros H. apply (m_only (fun _ => true) r (only_any r)) in H
    as (w & s' & p' & c' & -> & _ & H).
  injection H as <-. exists w. reflexivity.
Qed.

(** A text free of a class stays so when the replacements are free of it. *)
Lemma replace_from_free (P : char -> bool) (r : regex) (f : replacer) :
  (forall matched before after caps, free_of P (f matched before after caps)) ->
  forall fuel before s, free_of P s -> free_of P (replace_from fuel r f before s).
Proof.
  intros Hf. induction fuel as [|fuel IH]; intros before s Hs; [exact Hs|].
  cbn [replace_from].
  assert (free_of P match s with
                    | [] => []
                    | x :: t => x :: replace_from fuel r f (x :: before) t
                    end) as Hstep.
  { destruct s as [|x t]; [constructor|]. inversion Hs; subst.
    constructor; [assumption|]. apply IH. assumption. }
  destruct (exec_at r (hd_error before) s) as [[[q s1] c1]|] eqn:E; [|exact Hstep].
  apply free_of_app; [apply Hf|].
  destruct (length s1 <? length s); [|exact Hstep].
  apply IH. apply exec_at_suffix in E. exact (suffix_Forall _ _ _ E Hs).
Qed.

(** *** The lines of a text *)

Lemma split_nonempty (sep : char) (s : jsstring) : split sep s <> [].
Proof.
  destruct s as [|c s]; cbn [split]; [discriminate|].
  destruct (N.eqb c sep); [discriminate|]. destruct (split sep s); discriminate.
Qed.

Lemma join_split (sep : char) (s : jsstring) : join [sep] (split sep s) = s.
Proof.
  induction s as [|c s IH]; [reflexivity|]. cbn [split].
  pose proof (split_nonempty sep s) as Hne.
  destruct (split sep s) as [|l ls]; [contradiction|].
  destruct (N.eqb_spec c sep) as [->|_].
  - change (join [sep] ([] :: l :: ls)) with ([] ++ [sep] ++ join [sep] (l :: ls)).
    rewrite IH. reflexivity.
  - destruct ls as [|l' ls].
    + cbn [join] in *. rewrite IH. reflexivity.
    + change (join [sep] ((c :: l) :: l' :: ls))
        with (c :: (l ++ [sep] ++ join [sep] (l' :: ls))).
      change (join [sep] (l :: l' :: ls)) with (l ++ [sep] ++ join [sep] (l' :: ls)) in IH.
      rewrite IH. reflexivity.
Qed.

Lemma split_free (P : char -> bool) (sep : char) (s : jsstring) :
  free_of P s -> Forall (free_of P) (split sep s).
Proof.
  induction 1 as [|c s Hc Hs IH]; cbn [split]; [repeat constructor|].
  destruct (N.eqb c sep); [constructor; [constructor|exact IH]|].
  destruct (split sep s) as [|l ls]; [repeat constructor; exact Hc|].
  inversion IH; subst. constructor; [constructor; assumption|assumption].
Qed.

Section ProseText.
Variable toLowerCase : jsstring -> jsstring.

Lemma normalize_line_prose (s : jsstring) : prose s -> normalize_line s = s.
Proof.
  intros H. unfold normalize_line. cbv zeta.
  rewrite (test_needs mark_char) by (auto using mark_horizontal_rule, free_of_trim).
  rewrite (match_needs mark_char) by (auto using mark_bullet_line).
  rewrite (match_needs mark_char) by (auto using mark_numbered_line).
  reflexivity.
Qed.

Lemma normalize_lines_prose (ls : list jsstring) :
  Forall prose ls -> map normalize_line ls = ls.
Proof.
  induction 1 as [|l ls Hl _ IH]; [reflexivity|].
  cbn [map]. rewrite IH, (normalize_line_prose l Hl). reflexivity.
Qed.

Lemma dedupe_prose (ls : list jsstring) :
  Forall prose ls -> forall last, dedupe_headings toLowerCase last ls = ls.
Proof.
  induction 1 as [|l ls Hl _ IH]; intros last; [reflexivity|].
  cbn [dedupe_headings].
  rewrite (match_needs mark_char) by (auto using mark_heading_line).
  rewrite IH. reflexivity.
Qed.

(** On prose every step of the repair but the collapse of blank lines and
    the trimming leaves the text as it is. *)
Lemma repair_prose_steps (s : jsstring) :
  prose s ->
  preprocessTextResponse toLowerCase s
  = trim (replace_all Patterns.blank_lines (template [LF; LF]) s).
Proof.
  intros H. unfold preprocessTextResponse, blank_before_lists. cbv zeta.
  rewrite (replace_all_needs mark_char _ _ s) by (auto using mark_bold_stars).
  rewrite (replace_all_needs mark_char _ _ s) by (auto using mark_bold_underscores).
  rewrite (replace_all_needs mark_char _ _ s) by (auto using mark_italic_stars).
  rewrite (replace_all_needs mark_char _ _ s) by (auto using mark_escaped_newline).
  set (s1 := replace_all Patterns.blank_lines (template [LF; LF]) s).
  assert (prose s1) as H1.
  { apply replace_from_free; [|exact H]. intros matched before after caps.
    unfold template. rewrite GetSubstitution_plain by (repeat constructor).
    repeat constructor. }
  rewrite (replace_all_needs mark_char _ _ s1) by (auto using mark_bullet_glyph).
  rewrite (replace_all_needs mark_char _ _ s1) by (auto using mark_before_bullet).
  rewrite (replace_all_needs mark_char _ _ s1) by (auto using mark_before_number).
  rewrite normalize_lines_prose by (apply split_free, H1).
  rewrite join_split.
  rewrite (replace_all_needs mark_char _ _ s1) by (auto using mark_tight_heading).
  rewrite dedupe_prose by (apply split_free, H1).
  rewrite join_split. reflexivity.
Qed.

End ProseText.

(** ** Runs of blank lines *)

Lemma span_stop (P : char -> bool) (s : jsstring) :
  match snd (span P s) with [] => True | x :: _ => P x = false end.
Proof.
  induction s as [|x s IH]; [exact I|]. cbn [span].
  destruct (P x) eqn:E; cbn [snd]; [exact IH|exact E].
Qed.

Lemma breaks_app (w r : jsstring) :
  Forall (fun x => is_space x = true) w ->
  breaks (w ++ r) = length (filter (N.eqb LF) w) + breaks r.
Proof.
  unfold breaks. induction 1 as [|x w Hx _ IH]; [reflexivity|].
  cbn [app span]. rewrite Hx. cbn [fst filter].
  destruct (N.eqb LF x); cbn [length]; rewrite IH; reflexivity.
Qed.

Lemma breaks_solid (s : jsstring) :
  match s with [] => True | x :: _ => is_space x = false end -> breaks s = 0.
Proof.
  unfold breaks. destruct s as [|x s]; [reflexivity|]. intros H. cbn [span].
  rewrite H. reflexivity.
Qed.

Lemma breaks_LF (s : jsstring) : breaks (LF :: s) = S (breaks s).
Proof. reflexivity. Qed.

Lemma breaks_le (b z : jsstring) : breaks b <= breaks (b ++ z).
Proof.
  unfold breaks. induction b as [|x b IH]; [cbn [span fst filter length]; lia|].
  cbn [app span]. destruct (is_space x); [|cbn [fst filter length]; lia].
  cbn [fst filter]. destruct (N.eqb LF x); cbn [length]; lia.
Qed.

Lemma filter_free (w : jsstring) :
  free_of (N.eqb LF) w -> filter (N.eqb LF) w = [].
Proof.
  induction 1 as [|x w Hx _ IH]; [reflexivity|]. cbn [filter]. rewrite Hx. exact IH.
Qed.

(** *** The pattern of blank lines *)

Lemma m_Char_inv (p : char -> bool) (k : cont) (prev : option char) (s : jsstring)
    (c : captures) (res : result) :
  m (Char p) k prev s c = Some res ->
  exists x s', s = x :: s' /\ p x = true /\ k (Some x) s' c = Some res.
Proof.
  destruct s as [|x s]; [discriminate|]. rewrite m_Char_cons.
  destruct (p x) eqn:E; [|discriminate]. intros H. exists x, s. auto.
Qed.

(** A match of [\n(\s*\n){n}] is white space with [n + 1] line feeds. *)
Lemma break_run_breaks (n : nat) : forall k prev s c res,
  m (break_run n) k prev s c = Some res -> n < breaks s.
Proof.
  induction n as [|n IH]; intros k prev s c res H; cbn [break_run] in H.
  - apply m_Char_inv in H as (x & s' & -> & Hx & _).
    apply N.eqb_eq in Hx. subst x. rewrite breaks_LF. lia.
  - rewrite m_Seq in H. apply m_Char_inv in H as (x & s' & -> & Hx & H).
    apply N.eqb_eq in Hx. subst x. rewrite breaks_LF.
    rewrite m_Seq in H.
    apply (m_only is_space (Star true space)) in H
      as (w & s2 & p2 & c2 & -> & Hw & H); [|intros x Hx; exact Hx].
    apply IH in H. rewrite breaks_app by exact Hw. lia.
Qed.

Lemma blank_lines_breaks (prev : option char) (s : jsstring) (res : result) :
  exec_at Patterns.blank_lines prev s = Some res -> 3 <= breaks s.
Proof.
  intros H. unfold exec_at in H. change Patterns.blank_lines with (break_run 2) in H.
  apply break_run_breaks in H. lia.
Qed.

(** *** A greedy star that gives back *)

Lemma greedy_scan_run_none (P : char -> bool) (k : cont) (c : captures) (v2 : jsstring) :
  match v2 with [] => True | x :: _ => P x = false end ->
  forall v1 prev,
  Forall (fun x => P x = true) v1 ->
  (forall a b prev', v1 = a ++ b -> k prev' (b ++ v2) c = None) ->
  greedy_scan P k prev (v1 ++ v2) c = None.
Proof.
  intros Hv2. induction v1 as [|x v1 IH]; intros prev Hv1 Hk.
  - cbn [app]. destruct v2 as [|y v2]; cbn [greedy_scan].
    + exact (Hk [] [] prev eq_refl).
    + rewrite Hv2. exact (Hk [] [] prev eq_refl).
  - cbn [app greedy_scan]. inversion Hv1; subst.
    replace (P x) with true by (symmetry; assumption).
    rewrite IH; [exact (Hk [] (x :: v1) prev eq_refl)|assumption|].
    intros a b prev' ->. exact (Hk (x :: a) b prev' eq_refl).
Qed.

(** It stops at the last position of the run from which the continuation
    succeeds. *)
Lemma greedy_scan_at (P : char -> bool) (k : cont) (c : captures) (v1 v2 : jsstring)
    (res : result) :
  match v2 with [] => True | x :: _ => P x = false end ->
  Forall (fun x => P x = true) v1 ->
  (forall a b prev', v1 = a ++ b -> a <> [] -> k prev' (b ++ v2) c = None) ->
  forall u prev,
  Forall (fun x => P x = true) u ->
  k (after prev u) (v1 ++ v2) c = Some res ->
  greedy_scan P k prev (u ++ v1 ++ v2) c = Some res.
Proof.
  intros Hv2 Hv1 Hk. induction u as [|x u IH]; intros prev Hu H.
  - cbn [app]. change (after prev []) with prev in H.
    destruct v1 as [|y v1].
    + cbn [app] in *. destruct v2 as [|z v2]; cbn [greedy_scan]; [exact H|].
      rewrite Hv2. exact H.
    + cbn [app greedy_scan]. inversion Hv1; subst.
      replace (P y) with true by (symmetry; assumption).
      rewrite (greedy_scan_run_none P k c v2 Hv2 v1); [exact H|assumption|].
      intros a b prev' ->. apply (Hk (y :: a) b); [reflexivity|discriminate].
  - cbn [app greedy_scan]. inversion Hu; subst.
    replace (P x) with true by (symmetry; assumption).
    rewrite (IH (Some x)); [reflexivity|assumption|].
    rewrite <- (after_cons prev). exact H.
Qed.

Lemma space_LF : is_space LF = true.
Proof. reflexivity. Qed.

(** The match of the pattern of blank lines at a line feed that is followed
    by white space with two more line feeds in it: it ends after the last
    of them. *)
Lemma exec_blank_run (prev : option char) (w1 w2 ws tl : jsstring) :
  Forall (fun x => is_space x = true) w1 ->
  Forall (fun x => is_space x = true) w2 -> free_of (N.eqb LF) w2 ->
  Forall (fun x => is_space x = true) ws -> free_of (N.eqb LF) ws ->
  match tl with [] => True | x :: _ => is_space x = false end ->
  exec_at Patterns.blank_lines prev (LF :: w1 ++ LF :: w2 ++ LF :: ws ++ tl)
  = Some (Some LF, ws ++ tl, []).
Proof.
  intros H1 H2 F2 Hs Fs Htl.
  change Patterns.blank_lines with (break_run 2).
  unfold exec_at.
  change (break_run 2) with (Seq (Char (N.eqb LF)) (Seq (Star true (Char is_space)) (break_run 1))).
  rewrite m_Seq, m_Char_cons, N.eqb_refl, m_Seq, m_star_class.
  replace (w1 ++ LF :: w2 ++ LF :: ws ++ tl) with (w1 ++ (LF :: w2 ++ LF :: ws) ++ tl)
    by (cbn [app]; rewrite <- !app_assoc; reflexivity).
  apply greedy_scan_at; try assumption.
  - constructor; [reflexivity|]. apply Forall_app. split; [assumption|].
    constructor; [reflexivity|assumption].
  - (* one code unit further there are fewer than two line feeds ahead *)
    intros a b prev' E Ha.
    destruct (m (break_run 1) accept prev' (b ++ tl) []) as [res|] eqn:Em; [|reflexivity].
    exfalso. apply break_run_breaks in Em.
    destruct a as [|y a]; [contradiction|]. cbn [app] in E. injection E as _ E.
    assert (Forall (fun x => is_space x = true) b) as Hb.
    { assert (Forall (fun x => is_space x = true) (a ++ b)) as Hab.
      { rewrite <- E. apply Forall_app. split; [assumption|].
        constructor; [reflexivity|assumption]. }
      apply Forall_app in Hab. tauto. }
    rewrite breaks_app, (breaks_solid tl Htl) in Em by assumption.
    assert (length (filter (N.eqb LF) (a ++ b)) = 1) as Hc.
    { rewrite <- E, filter_app. cbn [filter]. rewrite N.eqb_refl.
      rewrite !filter_free by assumption. reflexivity. }
    rewrite filter_app, length_app in Hc. unfold char in *. lia.
  - cbn [app].
    change (break_run 1)
      with (Seq (Char (N.eqb LF)) (Seq (Star true (Char is_space)) (Char (N.eqb LF)))).
    rewrite m_Seq, m_Char_cons, N.eqb_refl, m_Seq, m_star_class.
    replace ((w2 ++ LF :: ws) ++ tl) with (w2 ++ (LF :: ws) ++ tl)
      by (rewrite <- app_assoc; reflexivity).
    apply greedy_scan_at; try assumption.
    + constructor; [reflexivity|assumption].
    + intros a b prev' E Ha.
      destruct a as [|y a]; [contradiction|]. cbn [app] in E. injection E as _ E.
      subst ws. apply Forall_app in Fs as [_ Fb].
      destruct b as [|z b]; cbn [app].
      * destruct tl as [|z tl]; [reflexivity|]. rewrite m_Char_cons.
        destruct (N.eqb_spec LF z) as [<-|_]; [discriminate|reflexivity].
      * rewrite m_Char_cons. inversion Fb; subst.
        replace (N.eqb LF z) with false by (symmetry; assumption). reflexivity.
    + cbn [app]. rewrite m_Char_cons, N.eqb_refl. reflexivity.
Qed.

Lemma breaks_cons (x : char) (s : jsstring) :
  breaks (x :: s)
  = if is_space x then (if N.eqb LF x then 1 else 0) + breaks s else 0.
Proof.
  unfold breaks. cbn [span]. destruct (is_space x); [|reflexivity].
  cbn [fst filter]. destruct (N.eqb LF x); reflexivity.
Qed.

Lemma filter_nil_free (w : jsstring) :
  length (filter (N.eqb LF) w) = 0 -> free_of (N.eqb LF) w.
Proof.
  induction w as [|x w IH]; [constructor|]. cbn [filter].
  destruct (N.eqb LF x) eqn:E; [cbn [length]; discriminate|]. intros H.
  constructor; [exact E|apply IH, H].
Qed.

(** The last line feed of a text that has one. *)
Lemma last_break (w : jsstring) :
  1 <= length (filter (N.eqb LF) w) ->
  exists a b, w = a ++ LF :: b /\ free_of (N.eqb LF) b
              /\ length (filter (N.eqb LF) w) = S (length (filter (N.eqb LF) a)).
Proof.
  induction w as [|x w IH]; cbn [filter length]; [lia|]. intros H.
  destruct (Nat.eq_dec (length (filter (N.eqb LF) w)) 0) as [E|E].
  - destruct (N.eqb_spec LF x) as [<-|_]; [|lia].
    exists [], w. cbn [app filter length]. rewrite E.
    split; [reflexivity|]. split; [apply filter_nil_free, E|reflexivity].
  - destruct IH as (a & b & -> & Hb & Hc); [lia|].
    exists (x :: a), b. cbn [app filter]. split; [reflexivity|]. split; [exact Hb|].
    rewrite filter_app in *. cbn [filter] in *. rewrite N.eqb_refl in *.
    destruct (N.eqb LF x); cbn [length]; rewrite !length_app in *; cbn [length] in *; lia.
Qed.

Lemma Forall_app_l {A} (P : A -> Prop) (a b : list A) : Forall P (a ++ b) -> Forall P a.
Proof. intros H. apply Forall_app in H. tauto. Qed.

Lemma Forall_app_r {A} (P : A -> Prop) (a b : list A) : Forall P (a ++ b) -> Forall P b.
Proof. intros H. apply Forall_app in H. tauto. Qed.

(** Where the pattern of blank lines matches at a line feed, and where the
    match ends. *)
Lemma exec_blank_lines_hit (prev : option char) (t : jsstring) :
  2 <= breaks t ->
  exists rest, exec_at Patterns.blank_lines prev (LF :: t) = Some (Some LF, rest, [])
               /\ breaks rest = 0 /\ suffix rest t.
Proof.
  intros H. unfold breaks in H.
  pose proof (span_app is_space t) as Et. pose proof (span_run is_space t) as Hrun.
  pose proof (span_stop is_space t) as Htl.
  destruct (span is_space t) as [run tl]. cbn [fst snd] in *.
  destruct (last_break run) as (a & ws & -> & Hws & Hc); [lia|].
  destruct (last_break a) as (w1 & w2 & -> & Hw2 & _); [lia|].
  exists (ws ++ tl).
  apply Forall_app in Hrun as [Ha Sws]. apply Forall_app in Ha as [S1 S2].
  inversion Sws as [|? ? _ Sws']; subst. inversion S2 as [|? ? _ S2']; subst.
  split; [|split].
  - rewrite <- !app_assoc. cbn [app]. rewrite <- ?app_assoc. cbn [app].
    apply exec_blank_run; assumption.
  - rewrite breaks_app, (breaks_solid tl Htl), filter_free by assumption. reflexivity.
  - exists (w1 ++ LF :: w2 ++ [LF]). rewrite <- !app_assoc. cbn [app].
    rewrite <- ?app_assoc. reflexivity.
Qed.

Lemma exec_blank_lines_miss (prev : option char) (t : jsstring) :
  breaks t < 3 -> exec_at Patterns.blank_lines prev t = None.
Proof.
  intros H. destruct (exec_at Patterns.blank_lines prev t) as [res|] eqn:E; [|reflexivity].
  apply blank_lines_breaks in E. lia.
Qed.

(** *** Texts without a run of blank lines *)

Lemma no_blank_run_suffix (s' s : jsstring) :
  suffix s' s -> no_blank_run s = true -> no_blank_run s' = true.
Proof.
  intros [pre ->]. induction pre as [|x pre IH]; [auto|].
  cbn [app no_blank_run]. intros H. apply andb_prop in H as [_ H]. auto.
Qed.

Lemma no_blank_run_prefix (a z : jsstring) :
  no_blank_run (a ++ z) = true -> no_blank_run a = true.
Proof.
  induction a as [|x a IH]; [reflexivity|]. cbn [app no_blank_run]. intros H.
  apply andb_prop in H as [H1 H2]. rewrite (IH H2), andb_true_r.
  apply Nat.ltb_lt in H1. apply Nat.ltb_lt.
  pose proof (breaks_le (x :: a) z). cbn [app] in *. lia.
Qed.

Lemma trimEnd_prefix (s : jsstring) : exists z, s = trimEnd s ++ z.
Proof.
  unfold trimEnd. destruct (trimStart_suffix (rev s)) as [pre E].
  exists (rev pre). rewrite <- rev_app_distr, <- E, rev_involutive. reflexivity.
Qed.

Lemma no_blank_run_trim (s : jsstring) :
  no_blank_run s = true -> no_blank_run (trim s) = true.
Proof.
  intros H. unfold trim.
  destruct (trimEnd_prefix (trimStart s)) as [z E].
  apply (no_blank_run_prefix _ z). rewrite <- E.
  exact (no_blank_run_suffix _ _ (trimStart_suffix s) H).
Qed.

Lemma no_blank_run_breaks (s : jsstring) : no_blank_run s = true -> breaks s < 3.
Proof.
  destruct s as [|x s]; [intros _; cbn; lia|]. cbn [no_blank_run]. intros H.
  apply andb_prop in H as [H _]. apply Nat.ltb_lt in H. exact H.
Qed.

(** Such a text is left as it is by the collapse of blank lines. *)
Lemma collapse_settled (f : replacer) (s : jsstring) :
  no_blank_run s = true -> replace_all Patterns.blank_lines f s = s.
Proof.
  intros H. apply replace_from_none. intros prev s' Hs'.
  apply exec_blank_lines_miss, no_blank_run_breaks.
  exact (no_blank_run_suffix _ _ Hs' H).
Qed.

(** The collapse leaves no run of blank lines behind. *)
Lemma collapse_from (fuel : nat) : forall before s, length s < fuel ->
  let o := replace_from fuel Patterns.blank_lines (template [LF; LF]) before s in
  breaks o = Nat.min (breaks s) 2 /\ no_blank_run o = true.
Proof.
  induction fuel as [|fuel IH]; intros before s Hlen; [lia|].
  cbv zeta. cbn [replace_from].
  assert (match s with
          | [] => True
          | x :: t => let o := x :: replace_from fuel Patterns.blank_lines
                                      (template [LF; LF]) (x :: before) t in
                      (N.eqb LF x = true -> breaks t < 2) ->
                      breaks o = Nat.min (breaks (x :: t)) 2 /\ no_blank_run o = true
          end) as Hstep.
  { destruct s as [|x t]; [exact I|]. cbv zeta. intros Hb.
    cbn [length] in Hlen. destruct (IH (x :: before) t ltac:(lia)) as [Hbo Hno].
    cbn [no_blank_run]. rewrite Hno, andb_true_r.
    rewrite !breaks_cons in *. rewrite Hbo.
    destruct (is_space x); [|split; reflexivity].
    destruct (N.eqb LF x); [specialize (Hb eq_refl)|];
      (split; [|apply Nat.ltb_lt]; lia). }
  destruct (exec_at Patterns.blank_lines (hd_error before) s) as [[[q s1] c1]|] eqn:E.
  - pose proof (blank_lines_breaks _ _ _ E) as Hb.
    destruct s as [|x t]; [cbn in Hb; lia|].
    rewrite breaks_cons in Hb. destruct (is_space x) eqn:Sx; [|lia].
    destruct (N.eqb_spec LF x) as [<-|Hx]; [|exfalso].
    + destruct (exec_blank_lines_hit (hd_error before) t) as (rest & E' & Hr & Hsuf); [lia|].
      rewrite E' in E. injection E as <- <- <-.
      assert (length rest < length (LF :: t)) as Hlt.
      { destruct Hsuf as [pre ->]. cbn [length]. rewrite length_app. lia. }
      replace (length rest <? length (LF :: t)) with true
        by (symmetry; apply Nat.ltb_lt; exact Hlt).
      assert (forall a b c d, template [LF; LF] a b c d = [LF; LF]) as Ht
        by (intros; unfold template; apply GetSubstitution_plain; repeat constructor).
      rewrite !Ht. cbn [app].
      match goal with
      | |- context [replace_from fuel _ _ ?b rest] =>
          destruct (IH b rest) as [Hbo Hno]; [cbn [length] in *; lia|]
      end.
      rewrite Hr in Hbo.
      match goal with
      | |- context [replace_from fuel ?r ?f ?b rest] =>
          set (o' := replace_from fuel r f b rest) in *
      end.
      change (no_blank_run (LF :: LF :: o'))
        with ((breaks (LF :: LF :: o') <? 3) && ((breaks (LF :: o') <? 3) && no_blank_run o')).
      rewrite Hno, !breaks_LF, Hbo. split; [lia|reflexivity].
    + unfold exec_at, Patterns.blank_lines, Patterns.seqs, chr in E.
      rewrite m_Seq, m_Char_cons in E.
      destruct (N.eqb_spec LF x); [contradiction|discriminate].
  - destruct s as [|x t]; [split; reflexivity|].
    apply Hstep. intros Hx. apply N.eqb_eq in Hx. subst x.
    destruct (le_lt_dec 2 (breaks t)) as [Hb|Hb]; [exfalso|exact Hb].
    destruct (exec_blank_lines_hit (hd_error before) t) as (rest & E' & _); [lia|].
    rewrite E' in E. discriminate.
Qed.

Lemma collapse_calm (s : jsstring) :
  no_blank_run (replace_all Patterns.blank_lines (template [LF; LF]) s) = true.
Proof. apply collapse_from. lia. Qed.

Lemma space_not_mark (x : char) : is_space x = true -> mark_char x = false.
Proof.
  intros H. unfold mark_char. rewrite (digit_not_space x H), orb_false_r.
  destruct (char_in _ x) eqn:E; [|reflexivity].
  revert E. eval_lits. cbn [app char_in].
  repeat match goal with
         | |- context [N.eqb ?a ?b] =>
             destruct (N.eqb_spec a b) as [E|_]; [rewrite E in H; discriminate|]
         end.
  discriminate.
Qed.

Lemma plain_prose (s : jsstring) : plain s -> prose s.
Proof.
  apply Forall_impl. intros x Hx. unfold markup_char in Hx. unfold mark_char.
  apply orb_false_elim in Hx as [Hx Hd]. rewrite Hd, orb_false_r.
  cbn [app char_in] in Hx. apply orb_false_elim in Hx as [_ Hx]. exact Hx.
Qed.

Lemma plain_no_break (s : jsstring) : plain s -> free_of (N.eqb LF) s.
Proof.
  apply Forall_impl. intros x Hx. destruct (N.eqb_spec LF x) as [<-|]; [discriminate|reflexivity].
Qed.

Section ProseFacts.
Variable toLowerCase : jsstring -> jsstring.

Lemma collapse_prose (s : jsstring) :
  prose s -> prose (replace_all Patterns.blank_lines (template [LF; LF]) s).
Proof.
  intros H. apply replace_from_free; [|exact H]. intros matched before after caps.
  unfold template. rewrite GetSubstitution_plain by (repeat constructor).
  repeat constructor.
Qed.

(** X24. On prose of one or more lines, that is on a text with no
    backslash, no bullet glyph, none of the markers [* _ - + #] and no digit,
    the only repairs are the collapse of the runs of blank lines and the
    trimming: the rules for emphasis, lists, rules and headings leave every
    line as it is. *)
Theorem repair_prose (s : jsstring) :
  prose s ->
  preprocessTextResponse toLowerCase s
  = trim (replace_all Patterns.blank_lines (template [LF; LF]) s).
Proof. apply repair_prose_steps. Qed.

(** X25. Between two paragraphs of plain prose, a line feed followed by
    white space that holds a line feed, followed by a line feed, that is two
    or more blank lines, becomes one blank line. *)
Theorem repair_blank_lines (p w q : jsstring) :
  plain p -> plain q ->
  Forall (fun x => is_space x = true) w -> In LF w ->
  preprocessTextResponse toLowerCase (p ++ LF :: w ++ LF :: q)
  = trim (p ++ LF :: LF :: q).
Proof.
  intros Hp Hq Hw Hin.
  assert (prose (p ++ LF :: w ++ LF :: q)) as Hs.
  { apply free_of_app; [apply plain_prose, Hp|]. constructor; [reflexivity|].
    apply free_of_app; [|constructor; [reflexivity|apply plain_prose, Hq]].
    revert Hw. apply Forall_impl. exact space_not_mark. }
  rewrite (repair_prose_steps toLowerCase _ Hs). f_equal.
  assert (1 <= length (filter (N.eqb LF) w)) as Hc.
  { apply (in_split LF) in Hin as (a & b & ->). rewrite filter_app, length_app.
    cbn [filter]. rewrite N.eqb_refl. cbn [length]. lia. }
  destruct (last_break w Hc) as (w1 & w2 & -> & Hw2 & _).
  pose proof (span_app is_space q) as Eq. pose proof (span_run is_space q) as Hrun.
  pose proof (span_stop is_space q) as Htl.
  destruct (span is_space q) as [ws tl]. cbn [fst snd] in *.
  assert (free_of (N.eqb LF) ws) as Fws.
  { apply plain_no_break in Hq. rewrite <- Eq in Hq. eapply Forall_app_l, Hq. }
  replace (p ++ LF :: (w1 ++ LF :: w2) ++ LF :: q)
    with (p ++ (LF :: w1 ++ LF :: w2 ++ [LF]) ++ q)
    by (cbn [app]; rewrite <- !app_assoc; cbn [app]; rewrite <- ?app_assoc; reflexivity).
  rewrite (replace_all_first _ _ p _ q (Some LF) []).
  - unfold template at 1. rewrite GetSubstitution_plain by (repeat constructor).
    rewrite (replace_all_needs (N.eqb LF)); [reflexivity| |apply plain_no_break, Hq].
    left. intros x Hx. exact Hx.
  - cbn. tauto.
  - apply template_local. repeat constructor.
  - discriminate.
  - intros u2 prev [pre E] Hne. destruct u2 as [|x u2]; [contradiction|].
    assert (N.eqb LF x = false) as Hx.
    { apply plain_no_break in Hp. rewrite E in Hp. apply Forall_app_r in Hp.
      inversion Hp; assumption. }
    unfold exec_at, Patterns.blank_lines, Patterns.seqs, chr. cbn [app].
    rewrite m_Seq, m_Char_cons, Hx. reflexivity.
  - rewrite <- Eq. cbn [app]. rewrite <- !app_assoc. cbn [app].
    rewrite <- ?app_assoc. cbn [app].
    apply exec_blank_run; try assumption.
    + eapply Forall_app_l, Hw.
    + apply Forall_app_r in Hw. inversion Hw; assumption.
Qed.

(** X26. Prose in which no stretch of white space holds three line feeds
    is only trimmed: its line breaks and its single blank lines are kept. *)
Theorem repair_keeps_breaks (s : jsstring) :
  prose s -> no_blank_run s = true ->
  preprocessTextResponse toLowerCase s = trim s.
Proof.
  intros Hs Hb. rewrite (repair_prose_steps toLowerCase s Hs).
  rewrite collapse_settled by exact Hb. reflexivity.
Qed.

(** X27. On prose of one or more lines the repair is idempotent. *)
Theorem repair_idempotent_on_prose (s : jsstring) :
  prose s ->
  preprocessTextResponse toLowerCase (preprocessTextResponse toLowerCase s)
  = preprocessTextResponse toLowerCase s.
Proof.
  intros Hs. rewrite (repair_prose_steps toLowerCase s Hs).
  set (t := replace_all Patterns.blank_lines (template [LF; LF]) s).
  assert (prose (trim t)) as Ht by (apply free_of_trim, collapse_prose, Hs).
  rewrite (repair_prose_steps toLowerCase _ Ht).
  rewrite collapse_settled by (apply no_blank_run_trim, collapse_calm).
  apply trim_idem.
Qed.

End ProseFacts.

(** A letter with three blank lines in it: a case of X24. *)
Lemma repair_prose_witness :
  preprocessTextResponse ascii_toLowerCase
    (lit "Dear all," ++ [LF; LF; LF; LF] ++ lit "thank you.")
  = trim (replace_all Patterns.blank_lines (template [LF; LF])
            (lit "Dear all," ++ [LF; LF; LF; LF] ++ lit "thank you.")).
Proof.
  apply (repair_prose ascii_toLowerCase). vm_compute. repeat constructor.
Defined.

(** Two blank lines, the first of which holds a space: a case of X25. *)
Lemma repair_blank_lines_witness :
  preprocessTextResponse ascii_toLowerCase
    (lit "Dear all," ++ LF :: [SPACE; LF] ++ LF :: lit "thank you.")
  = trim (lit "Dear all," ++ LF :: LF :: lit "thank you.").
Proof.
  apply (repair_blank_lines ascii_toLowerCase (lit "Dear all,") [SPACE; LF] (lit "thank you.")).
  - vm_compute. repeat constructor.
  - vm_compute. repeat constructor.
  - vm_compute. repeat constructor.
  - right. left. reflexivity.
Defined.

(** Three lines, the last after one blank line: a case of X26. *)
Lemma repair_keeps_breaks_witness :
  preprocessTextResponse ascii_toLowerCase
    (lit "One." ++ [LF] ++ lit "Two." ++ [LF; LF] ++ lit "Three.")
  = trim (lit "One." ++ [LF] ++ lit "Two." ++ [LF; LF] ++ lit "Three.").
Proof.
  apply (repair_keeps_breaks ascii_toLowerCase).
  - vm_compute. repeat constructor.
  - reflexivity.
Defined.

(** A text with five line feeds in a row: a case of X27. *)
Lemma repair_idempotent_on_prose_witness :
  preprocessTextResponse ascii_toLowerCase
    (preprocessTextResponse ascii_toLowerCase
       (lit " Dear all," ++ [LF; LF; LF; LF; LF] ++ lit "thank you. "))
  = preprocessTextResponse ascii_toLowerCase
      (lit " Dear all," ++ [LF; LF; LF; LF; LF] ++ lit "thank you. ").
Proof.
  apply (repair_idempotent_on_prose ascii_toLowerCase). vm_compute. repeat constructor.
Defined.

Example collapsed_blank_lines :
  preprocessTextResponse ascii_toLowerCase
    (lit "Dear all," ++ [LF; LF; LF; LF] ++ lit "thank you.")
  = lit "Dear all," ++ [LF; LF] ++ lit "thank you.".
Proof. vm_compute. reflexivity. Qed.

(** ** Escaped line breaks *)

Lemma breaks_count (s : jsstring) : breaks s <= length (filter (N.eqb LF) s).
Proof.
  unfold breaks. induction s as [|x s IH]; [cbn; lia|]. cbn [span filter].
  destruct (is_space x); cbn [fst filter]; destruct (N.eqb LF x); cbn [length]; lia.
Qed.

(** A text with fewer than three line feeds has no run of blank lines. *)
Lemma no_blank_run_few (s : jsstring) :
  length (filter (N.eqb LF) s) < 3 -> no_blank_run s = true.
Proof.
  induction s as [|x s IH]; [reflexivity|]. intros H. cbn [no_blank_run].
  pose proof (breaks_count (x :: s)) as Hb.
  rewrite IH by (cbn [filter] in H; destruct (N.eqb LF x); cbn [length] in H; lia).
  rewrite andb_true_r. apply Nat.ltb_lt. lia.
Qed.

Lemma plain_rule_mark (s : jsstring) : plain s -> free_of is_rule_mark s.
Proof.
  apply free_of_weaken. intros x H. unfold is_rule_mark in H. unfold markup_char.
  apply orb_true_iff. left. revert H. eval_lits. cbn [app char_in].
  repeat match goal with
         | |- context [N.eqb ?a ?b] => destruct (N.eqb a b); [reflexivity|]
         end.
  discriminate.
Qed.

Lemma plain_backslash (s : jsstring) : plain s -> free_of (N.eqb BACKSLASH) s.
Proof.
  apply free_of_weaken. intros x H. apply N.eqb_eq in H. subst x. reflexivity.
Qed.

Lemma needs_mark_bold_stars : needs is_rule_mark Patterns.bold_stars.
Proof. needs_class. Qed.
Lemma needs_mark_bold_underscores : needs is_rule_mark Patterns.bold_underscores.
Proof. needs_class. Qed.
Lemma needs_mark_italic_stars : needs is_rule_mark Patterns.italic_stars.
Proof. needs_class. Qed.

Section EscapedNewline.
Variable toLowerCase : jsstring -> jsstring.

Lemma replace_escaped_newline (p q : jsstring) :
  plain p -> plain q ->
  replace_all Patterns.escaped_newline (template [LF]) (p ++ [BACKSLASH; code "n"] ++ q)
  = p ++ LF :: q.
Proof.
  intros Hp Hq.
  rewrite (replace_all_first _ _ p _ q (Some (code "n")) []).
  - unfold template at 1. rewrite GetSubstitution_plain by (repeat constructor).
    rewrite (replace_all_needs markup_char) by (auto using needs_escaped_newline).
    reflexivity.
  - cbn. tauto.
  - apply template_local. repeat constructor.
  - discriminate.
  - intros u2 prev [pre E] Hne. destruct u2 as [|x u2]; [contradiction|].
    assert (N.eqb BACKSLASH x = false) as Hx.
    { apply plain_backslash in Hp. rewrite E in Hp. apply Forall_app_r in Hp.
      inversion Hp; assumption. }
    unfold exec_at, Patterns.escaped_newline. cbn [str app]. unfold chr.
    rewrite m_Seq, m_Char_cons, Hx. reflexivity.
  - reflexivity.
Qed.

(** X28. A backslash followed by the letter n, between two stretches of
    plain prose, becomes a line break. *)
Theorem repair_escaped_newline (p q : jsstring) :
  plain p -> plain q ->
  preprocessTextResponse toLowerCase (p ++ [BACKSLASH; code "n"] ++ q)
  = trim (p ++ LF :: q).
Proof.
  intros Hp Hq.
  assert (prose (p ++ LF :: q)) as Hs.
  { apply free_of_app; [apply plain_prose, Hp|].
    constructor; [reflexivity|apply plain_prose, Hq]. }
  transitivity (preprocessTextResponse toLowerCase (p ++ LF :: q)).
  - unfold preprocessTextResponse. cbv zeta.
    assert (free_of is_rule_mark (p ++ [BACKSLASH; code "n"] ++ q)) as Hm.
    { apply free_of_app; [apply plain_rule_mark, Hp|].
      constructor; [reflexivity|]. constructor; [reflexivity|apply plain_rule_mark, Hq]. }
    rewrite (replace_all_needs is_rule_mark _ _ (p ++ _ ++ q)
               needs_mark_bold_stars Hm).
    rewrite (replace_all_needs is_rule_mark _ _ (p ++ _ ++ q)
               needs_mark_bold_underscores Hm).
    rewrite (replace_all_needs is_rule_mark _ _ (p ++ _ ++ q)
               needs_mark_italic_stars Hm).
    rewrite (replace_escaped_newline p q Hp Hq).
    rewrite (replace_all_needs mark_char _ _ (p ++ LF :: q) mark_bold_stars Hs).
    rewrite (replace_all_needs mark_char _ _ (p ++ LF :: q) mark_bold_underscores Hs).
    rewrite (replace_all_needs mark_char _ _ (p ++ LF :: q) mark_italic_stars Hs).
    rewrite (replace_all_needs mark_char _ _ (p ++ LF :: q) mark_escaped_newline Hs).
    reflexivity.
  - rewrite (repair_prose_steps toLowerCase _ Hs).
    rewrite collapse_settled; [reflexivity|].
    apply no_blank_run_few. rewrite filter_app. cbn [filter]. rewrite N.eqb_refl.
    rewrite !filter_free by (apply plain_no_break; assumption). cbn. lia.
Qed.

End EscapedNewline.

(** Two sentences joined by the two characters of an escape: a case of X28. *)
Lemma repair_escaped_newline_witness :
  preprocessTextResponse ascii_toLowerCase
    (lit "Line one" ++ [BACKSLASH; code "n"] ++ lit "Line two")
  = trim (lit "Line one" ++ LF :: lit "Line two").
Proof.
  apply (repair_escaped_newline ascii_toLowerCase (lit "Line one") (lit "Line two")).
  - vm_compute. repeat constructor.
  - vm_compute. repeat constructor.
Defined.

(** ** Numbered lines *)

Lemma space_not_digit (x : char) : is_digit x = true -> is_space x = false.
Proof.
  intros H. destruct (is_space x) eqn:E; [|reflexivity].
  apply digit_not_space in E. congruence.
Qed.

Lemma digit_not_bullet (x : char) : is_digit x = true -> is_bullet x = false.
Proof.
  intros H. unfold is_digit, in_range in H. apply andb_prop in H as [H1 H2].
  apply N.leb_le in H1, H2. unfold is_bullet. eval_lits. cbn [char_in].
  repeat match goal with
         | |- context [N.eqb ?a ?b] => destruct (N.eqb_spec a b); [lia|]
         end.
  reflexivity.
Qed.

Lemma digit_not_rule (x : char) : is_digit x = true -> is_rule_char x = false.
Proof.
  intros H. unfold is_rule_char. rewrite (space_not_digit x H), orb_false_r.
  unfold is_digit, in_range in H. apply andb_prop in H as [H1 H2].
  apply N.leb_le in H1, H2. unfold is_rule_mark. eval_lits. cbn [char_in].
  repeat match goal with
         | |- context [N.eqb ?a ?b] => destruct (N.eqb_spec a b); [lia|]
         end.
  reflexivity.
Qed.

(** A line that holds something other than rule markers and white space is
    not a rule. *)
Lemma not_rule_line (y : char) (s : jsstring) :
  In y s -> is_rule_char y = false -> test Patterns.horizontal_rule (trim s) = false.
Proof.
  intros Hin Hy. destruct (test Patterns.horizontal_rule (trim s)) eqn:E; [|reflexivity].
  apply horizontal_rule_chars in E.
  assert (is_space y = false) as Hs.
  { unfold is_rule_char in Hy. apply orb_false_elim in Hy. tauto. }
  rewrite Forall_forall in E. apply (In_trim y s Hin) in Hs. apply E in Hs. congruence.
Qed.

Lemma bullet_line_anchored (s : jsstring) : forall p,
  search_from Patterns.bullet_line (Some p) s = None.
Proof.
  induction s as [|y s IH]; intros p; cbn [search_from].
  - reflexivity.
  - replace (exec_at Patterns.bullet_line (Some p) (y :: s)) with (@None result)
      by reflexivity.
    apply IH.
Qed.

(** A line that begins, after its indentation, with a digit is not taken
    for a bullet. *)
Lemma bullet_line_digit (indent rest : jsstring) (d : char) :
  Forall (fun y => is_space y = true) indent -> is_digit d = true ->
  match_ Patterns.bullet_line (indent ++ d :: rest) = None.
Proof.
  intros Hi Hd. unfold match_.
  assert (exec_at Patterns.bullet_line None (indent ++ d :: rest) = None) as E.
  { unfold exec_at, Patterns.bullet_line. cbn [Patterns.seqs]. unfold space, one_of.
    rewrite m_Seq, m_Assert. cbn [holds].
    rewrite m_Seq, m_Group, m_star_class.
    rewrite greedy_scan_span.
    2:{ intros p y s c Hy. rewrite m_Seq, m_Char_cons.
        rewrite (bullet_not_space y Hy : char_in (lit "-*+") y = false). reflexivity. }
    rewrite span_prefix; [|exact Hi|apply space_not_digit, Hd].
    cbn [fst snd]. rewrite m_Seq, m_Char_cons.
    rewrite (digit_not_bullet d Hd : char_in (lit "-*+") d = false). reflexivity. }
  destruct (indent ++ d :: rest) as [|z s] eqn:Es.
  - destruct indent; discriminate Es.
  - cbn [search_from]. rewrite E, bullet_line_anchored. reflexivity.
Qed.

Lemma exec_numbered_line (indent ds ws t : jsstring) (d x : char) :
  Forall (fun y => is_space y = true) indent ->
  is_digit d = true -> Forall (fun y => is_digit y = true) ds ->
  Forall (fun y => is_space y = true) ws ->
  is_space x = false ->
  free_of is_line_terminator t ->
  exec_at Patterns.numbered_line None (indent ++ (d :: ds) ++ 46%N :: ws ++ x :: t)
  = Some (after (Some x) t, [], [(3, x :: t); (2, d :: ds); (1, indent)]).
Proof.
  intros Hi Hd Hds Hws Hx Ht.
  unfold exec_at, Patterns.numbered_line. cbn [Patterns.seqs]. eval_codes.
  unfold space, digit, Plus, any, chr.
  rewrite m_Seq, m_Assert. cbn [holds].
  rewrite m_Seq, m_Group, m_star_class.
  rewrite greedy_scan_span.
  2:{ intros p y s c Hy. rewrite m_Seq, m_Group, m_Seq, m_Char_cons.
      rewrite (digit_not_space y Hy). reflexivity. }
  rewrite span_prefix; [|exact Hi|apply space_not_digit, Hd].
  cbn [fst snd app]. rewrite m_Seq, m_Group, m_Seq, m_Char_cons, Hd, m_star_class.
  erewrite greedy_scan_first; [reflexivity|reflexivity|exact Hds|].
  cbv beta. rewrite m_Seq, m_Char_cons. rewrite N.eqb_refl.
  rewrite m_Seq, m_star_class.
  erewrite greedy_scan_first; [reflexivity|exact Hx|exact Hws|].
  rewrite m_Seq, m_Group, m_Seq, m_Char_cons.
  rewrite (space_is_terminator x Hx). cbn [negb].
  rewrite m_star_class.
  rewrite <- (app_nil_r t) at 1.
  erewrite greedy_scan_first; [reflexivity|exact I| |].
  { revert Ht. apply Forall_impl. intros y Hy. rewrite Hy. reflexivity. }
  rewrite m_Assert. cbn [holds]. unfold accept.
  replace (firstn (length (x :: t) - length (@nil char)) (x :: t)) with (x :: t)
    by (rewrite Nat.sub_0_r, firstn_all; reflexivity).
  match goal with
  | |- context [(2, firstn ?n ?l)] =>
      replace (firstn n l) with (d :: ds) by (symmetry; apply (firstn_consumed (d :: ds)))
  end.
  match goal with
  | |- context [(1, firstn ?n ?l)] =>
      replace (firstn n l) with indent by (symmetry; apply firstn_consumed)
  end.
  reflexivity.
Qed.

(** X29. A line that begins, after its indentation, with digits and a full
    stop is rewritten as a numbered item: the full stop is followed by
    exactly one space.  The digits need not be the number of an item, so
    that a line beginning with [3.14] comes out beginning with [3. 14]. *)
Theorem normalize_line_number (indent ds ws t : jsstring) (d x : char) :
  Forall (fun y => is_space y = true) indent ->
  is_digit d = true -> Forall (fun y => is_digit y = true) ds ->
  Forall (fun y => is_space y = true) ws ->
  is_space x = false ->
  free_of is_line_terminator t ->
  normalize_line (indent ++ (d :: ds) ++ 46%N :: ws ++ x :: t)
  = indent ++ (d :: ds) ++ lit ". " ++ x :: t.
Proof.
  intros Hi Hd Hds Hws Hx Ht. unfold normalize_line. cbv zeta.
  rewrite (not_rule_line d).
  2:{ apply in_or_app. right. left. reflexivity. }
  2:{ apply digit_not_rule, Hd. }
  cbn [app]. rewrite bullet_line_digit by assumption.
  unfold match_.
  assert (search_from Patterns.numbered_line None (indent ++ (d :: ds) ++ 46%N :: ws ++ x :: t)
          = Some [(3, x :: t); (2, d :: ds); (1, indent)]) as Es.
  { pose proof (exec_numbered_line indent ds ws t d x Hi Hd Hds Hws Hx Ht) as Ee.
    destruct (indent ++ (d :: ds) ++ 46%N :: ws ++ x :: t); cbn [search_from];
      rewrite Ee; reflexivity. }
  cbn [app] in Es. rewrite Es. reflexivity.
Qed.

(** The line [3.14 is pi]: a case of X29. *)
Lemma normalize_line_number_witness :
  normalize_line ([] ++ [51%N] ++ 46%N :: [] ++ 49%N :: lit "4 is pi")
  = [] ++ [51%N] ++ lit ". " ++ 49%N :: lit "4 is pi".
Proof.
  apply (normalize_line_number [] [] [] (lit "4 is pi") 51 49).
  - constructor.
  - reflexivity.
  - constructor.
  - constructor.
  - reflexivity.
  - vm_compute. repeat constructor.
Defined.

Example decimal_taken_for_item :
  normalize_line (lit "3.14 is pi") = lit "3. 14 is pi"
  /\ normalize_line (lit "  12.Twelfth item") = lit "  12. Twelfth item".
Proof. vm_compute. split; reflexivity. Qed.

(** ** Bullet glyphs *)

Lemma glyph_cases (g : char) : is_glyph g = true -> g = BULLET \/ g = EN_DASH.
Proof.
  unfold is_glyph. cbn [char_in]. intros H.
  destruct (N.eqb_spec g BULLET); [auto|]. destruct (N.eqb_spec g EN_DASH); [auto|].
  discriminate.
Qed.

Lemma glyph_not_space (x : char) : is_space x = true -> is_glyph x = false.
Proof.
  intros H. destruct (is_glyph x) eqn:E; [|reflexivity].
  apply glyph_cases in E as [-> | ->]; discriminate H.
Qed.

Lemma backslash_not_space (x : char) : is_space x = true -> N.eqb BACKSLASH x = false.
Proof.
  intros H. destruct (N.eqb_spec BACKSLASH x) as [<-|]; [discriminate H|reflexivity].
Qed.

Lemma blank_space (w : jsstring) :
  Forall (fun y => is_blank y = true) w -> Forall (fun y => is_space y = true) w.
Proof. apply Forall_impl. intros y H. apply andb_prop in H. tauto. Qed.

Lemma blank_no_break (w : jsstring) :
  Forall (fun y => is_blank y = true) w -> free_of (N.eqb LF) w.
Proof.
  apply Forall_impl. intros y H. apply andb_prop in H as [_ H].
  apply negb_true_iff in H. exact H.
Qed.

Lemma plain_glyph (s : jsstring) : plain s -> free_of is_glyph s.
Proof.
  apply free_of_weaken. intros x H. apply glyph_cases in H as [-> | ->]; reflexivity.
Qed.

Lemma plain_bullet (s : jsstring) : plain s -> free_of is_bullet s.
Proof.
  apply free_of_weaken. intros x H. unfold is_bullet in H. unfold markup_char.
  apply orb_true_iff. left. revert H. eval_lits. cbn [app char_in].
  repeat match goal with
         | |- context [N.eqb ?a ?b] => destruct (N.eqb a b); [reflexivity|]
         end.
  discriminate.
Qed.

Lemma needs_glyph : needs is_glyph Patterns.bullet_glyph.
Proof.
  unfold Patterns.bullet_glyph. cbn [Patterns.seqs needs]. right. right. left.
  intros x H. exact H.
Qed.
Lemma needs_break_escaped : needs (N.eqb BACKSLASH) Patterns.escaped_newline.
Proof. needs_class. Qed.
Lemma needs_break_blank_lines : needs (N.eqb LF) Patterns.blank_lines.
Proof. needs_class. Qed.
Lemma needs_break_before_bullet : needs (N.eqb LF) Patterns.before_bullet.
Proof. needs_class. Qed.
Lemma needs_break_before_number : needs (N.eqb LF) Patterns.before_number.
Proof. needs_class. Qed.
Lemma needs_hash_tight_heading : needs (N.eqb 35) Patterns.tight_heading.
Proof. needs_mark. Qed.
Lemma needs_hash_heading_line : needs (N.eqb 35) Patterns.heading_line.
Proof. needs_mark. Qed.

Lemma exec_bullet_glyph (indent ws rest : jsstring) (g w x : char) :
  Forall (fun y => is_space y = true) indent ->
  is_glyph g = true ->
  is_space w = true -> Forall (fun y => is_space y = true) ws ->
  is_space x = false ->
  exec_at Patterns.bullet_glyph None (indent ++ g :: w :: ws ++ x :: rest)
  = Some (after (Some w) ws, x :: rest, []).
Proof.
  intros Hi Hg Hw Hws Hx.
  unfold exec_at, Patterns.bullet_glyph. cbn [Patterns.seqs]. unfold space, one_of, Plus.
  rewrite m_Seq, m_Assert. cbn [holds is_terminator_opt].
  rewrite m_Seq, m_star_class.
  rewrite greedy_scan_span.
  2:{ intros p y s c Hy. rewrite m_Seq, m_Char_cons.
      rewrite (glyph_not_space y Hy : char_in [BULLET; EN_DASH] y = false). reflexivity. }
  rewrite span_prefix; [|exact Hi|].
  2:{ destruct (is_space g) eqn:E; [|reflexivity]. apply glyph_not_space in E. congruence. }
  cbn [fst snd]. rewrite m_Seq, m_Char_cons.
  replace (char_in [BULLET; EN_DASH] g) with true by (symmetry; exact Hg).
  rewrite m_Seq, m_Char_cons, Hw, m_star_class.
  erewrite greedy_scan_first; [reflexivity|exact Hx|exact Hws|]. reflexivity.
Qed.

Section BulletGlyph.
Variable toLowerCase : jsstring -> jsstring.

(** X30. A line of prose that begins, after its indentation, with one of
    the glyphs [•] and [–] followed by white space comes out as a markdown
    bullet: the indentation, the glyph and the white space are replaced by a
    hyphen and one space. *)
Theorem repair_bullet_glyph (indent ws t : jsstring) (g w x : char) :
  Forall (fun y => is_blank y = true) indent ->
  is_glyph g = true ->
  Forall (fun y => is_blank y = true) (w :: ws) ->
  is_space x = false ->
  plain (x :: t) -> free_of is_line_terminator t ->
  preprocessTextResponse toLowerCase (indent ++ g :: w :: ws ++ x :: t)
  = trim (lit "- " ++ x :: t).
Proof.
  intros Hi Hg Hws Hx Hp Ht.
  pose proof (blank_space _ Hi) as Si. pose proof (blank_space _ Hws) as Sws.
  pose proof (blank_no_break _ Hi) as Bi. pose proof (blank_no_break _ Hws) as Bws.
  inversion Sws as [|? ? Sw Sws']; subst.
  set (T := indent ++ g :: w :: ws ++ x :: t).
  assert (forall P : char -> bool,
             Forall (fun y => P y = false) indent -> P g = false ->
             Forall (fun y => P y = false) (w :: ws) -> free_of P (x :: t) ->
             free_of P T) as HT.
  { intros P H1 H2 H3 H4. unfold T. apply free_of_app; [exact H1|].
    constructor; [exact H2|]. change (w :: ws ++ x :: t) with ((w :: ws) ++ x :: t).
    apply free_of_app; assumption. }
  assert (free_of is_rule_mark T) as Tm.
  { apply HT.
    - revert Si. apply Forall_impl. exact rule_mark_not_space.
    - apply glyph_cases in Hg as [-> | ->]; reflexivity.
    - revert Sws. apply Forall_impl. exact rule_mark_not_space.
    - apply plain_rule_mark, Hp. }
  assert (free_of (N.eqb BACKSLASH) T) as Tb.
  { apply HT.
    - revert Si. apply Forall_impl. exact backslash_not_space.
    - apply glyph_cases in Hg as [-> | ->]; reflexivity.
    - revert Sws. apply Forall_impl. exact backslash_not_space.
    - apply plain_backslash, Hp. }
  assert (free_of (N.eqb LF) T) as Tl.
  { apply HT; [exact Bi| |exact Bws|apply plain_no_break, Hp].
    apply glyph_cases in Hg as [-> | ->]; reflexivity. }
  set (U := lit "- " ++ x :: t).
  assert (free_of (N.eqb LF) U) as Ul.
  { unfold U. lit_cons. repeat (constructor; [reflexivity|]). apply plain_no_break, Hp. }
  assert (free_of (N.eqb 35) U) as Uh.
  { unfold U. lit_cons. repeat (constructor; [reflexivity|]). apply plain_hash, Hp. }
  unfold preprocessTextResponse, blank_before_lists. cbv zeta.
  rewrite (replace_all_needs is_rule_mark _ _ T needs_mark_bold_stars Tm).
  rewrite (replace_all_needs is_rule_mark _ _ T needs_mark_bold_underscores Tm).
  rewrite (replace_all_needs is_rule_mark _ _ T needs_mark_italic_stars Tm).
  rewrite (replace_all_needs (N.eqb BACKSLASH) _ _ T needs_break_escaped Tb).
  rewrite (replace_all_needs (N.eqb LF) _ _ T needs_break_blank_lines Tl).
  assert (replace_all Patterns.bullet_glyph (template (lit "- ")) T = U) as E6.
  { unfold replace_all.
    rewrite (replace_from_hit _ _ _ [] T _ _ _
               (exec_bullet_glyph indent ws t g w x Si Hg Sw Sws' Hx)).
    2:{ unfold T. rewrite length_app. cbn [length]. rewrite length_app. cbn [length]. lia. }
    unfold template at 1. rewrite GetSubstitution_plain by literal.
    unfold U. f_equal. apply replace_from_none. intros prev s' Hs'.
    apply (exec_at_needs is_glyph); [exact needs_glyph|].
    exact (suffix_Forall _ _ _ Hs' (plain_glyph _ Hp)). }
  rewrite E6.
  rewrite (replace_all_needs (N.eqb LF) _ _ U needs_break_before_bullet Ul).
  rewrite (replace_all_needs (N.eqb LF) _ _ U needs_break_before_number Ul).
  assert (split LF U = [U]) as Esplit.
  { apply split_one. revert Ul. apply Forall_impl. intros y H ->. discriminate H. }
  rewrite Esplit. cbn [map join].
  assert (normalize_line U = U) as En.
  { unfold normalize_line. cbv zeta.
    rewrite (not_rule_line x).
    2:{ unfold U. lit_cons. right. right. left. reflexivity. }
    2:{ unfold is_rule_char. rewrite Hx, orb_false_r.
        inversion Hp as [|? ? Hx' _]; subst.
        destruct (is_rule_mark x) eqn:E; [|reflexivity].
        pose proof (plain_rule_mark [x]) as Hr.
        assert (plain [x]) as Hpx by (constructor; [exact Hx'|constructor]).
        apply Hr in Hpx. inversion Hpx; congruence. }
    unfold match_.
    assert (search_from Patterns.bullet_line None U = Some [(2, x :: t); (1, [])]) as Es.
    { assert (exec_at Patterns.bullet_line None U
              = Some (after (Some x) t, [], [(2, x :: t); (1, [])])) as Ee.
      { apply (exec_bullet_line [] [SPACE] t 45 x); try assumption;
          [constructor|reflexivity|repeat constructor]. }
      unfold U in *. revert Ee. lit_cons. intros Ee. cbn [search_from]. rewrite Ee.
      reflexivity. }
    rewrite Es. reflexivity. }
  rewrite En.
  rewrite (replace_all_needs (N.eqb 35) _ _ U needs_hash_tight_heading Uh).
  rewrite Esplit. cbn [dedupe_headings].
  rewrite (match_needs (N.eqb 35) _ U needs_hash_heading_line Uh).
  reflexivity.
Qed.

End BulletGlyph.

(** An indented item written with the glyph and two spaces: a case of X30. *)
Lemma repair_bullet_glyph_witness :
  preprocessTextResponse ascii_toLowerCase
    (lit "  " ++ BULLET :: SPACE :: lit " " ++ 70%N :: lit "irst item")
  = trim (lit "- " ++ 70%N :: lit "irst item").
Proof.
  apply (repair_bullet_glyph ascii_toLowerCase (lit "  ") (lit " ") (lit "irst item")
           BULLET SPACE 70).
  - vm_compute. repeat constructor.
  - reflexivity.
  - vm_compute. repeat constructor.
  - reflexivity.
  - vm_compute. repeat constructor.
  - vm_compute. repeat constructor.
Defined.

(** ** Texts without items *)

(** *** Pairs of code units *)

Section Pairs.
Variables P Q : char -> bool.

Lemma no_pair_tail (x : char) (s : jsstring) :
  no_pair P Q (x :: s) = true -> no_pair P Q s = true.
Proof.
  destruct s as [|y s]; [reflexivity|]. cbn [no_pair].
  intros H. apply andb_prop in H. exact (proj2 H).
Qed.

Lemma no_pair_suffix (s' s : jsstring) :
  suffix s' s -> no_pair P Q s = true -> no_pair P Q s' = true.
Proof.
  intros [pre ->]. induction pre as [|x pre IH]; [auto|].
  intros H. apply IH. exact (no_pair_tail _ _ H).
Qed.

Lemma no_pair_prefix (a b : jsstring) :
  no_pair P Q (a ++ b) = true -> no_pair P Q a = true.
Proof.
  induction a as [|x a IH]; [reflexivity|].
  destruct a as [|y a]; [reflexivity|]. cbn [app no_pair] in *.
  intros H. apply andb_prop in H as [H1 H2]. rewrite H1. cbn [andb]. exact (IH H2).
Qed.

(** A code unit may stand before a text when it makes no pair with its
    head. *)
Lemma no_pair_cons (x : char) (s : jsstring) :
  match hd_error s with Some y => P x && Q y = false | None => True end ->
  no_pair P Q s = true -> no_pair P Q (x :: s) = true.
Proof.
  destruct s as [|y s]; [reflexivity|]. cbn [hd_error no_pair].
  intros -> H. exact H.
Qed.

Lemma no_pair_head (x y : char) (s : jsstring) :
  no_pair P Q (x :: y :: s) = true -> P x && Q y = false.
Proof.
  cbn [no_pair]. intros H. apply andb_prop in H as [H _].
  apply negb_true_iff in H. exact H.
Qed.

(** Code units of neither class may stand before any text. *)
Lemma no_pair_neutral (w s : jsstring) :
  Forall (fun x => P x = false /\ Q x = false) w ->
  no_pair P Q s = true -> no_pair P Q (w ++ s) = true.
Proof.
  induction 1 as [|x w [Hx _] _ IH]; intros Hs; [exact Hs|].
  cbn [app]. apply no_pair_cons; [|auto].
  destruct (hd_error (w ++ s)); [|exact I]. rewrite Hx. reflexivity.
Qed.

Lemma no_pair_trim (s : jsstring) : no_pair P Q s = true -> no_pair P Q (trim s) = true.
Proof.
  intros H. unfold trim.
  destruct (trimEnd_prefix (trimStart s)) as [z E].
  apply (no_pair_prefix _ z). rewrite <- E.
  exact (no_pair_suffix _ _ (trimStart_suffix s) H).
Qed.

(** Replacing the matches of a pattern by a fixed text of neither class
    makes no pair. *)
Lemma replace_from_no_pair (r : regex) (f : replacer) (rep : jsstring) :
  (forall matched before after caps, f matched before after caps = rep) ->
  rep <> [] -> Forall (fun x => P x = false /\ Q x = false) rep ->
  forall fuel before s, no_pair P Q s = true ->
    no_pair P Q (replace_from fuel r f before s) = true
    /\ (hd_error (replace_from fuel r f before s) = hd_error s
        \/ hd_error (replace_from fuel r f before s) = hd_error rep).
Proof.
  intros Hf Hne Hrep.
  induction fuel as [|fuel IH]; intros before s Hs; [auto|].
  cbn [replace_from].
  assert (forall g : char -> jsstring,
           no_pair P Q match s with
                       | [] => []
                       | x :: t => x :: replace_from fuel r f (g x) t
                       end = true
           /\ hd_error match s with
                       | [] => []
                       | x :: t => x :: replace_from fuel r f (g x) t
                       end = hd_error s) as Hstep.
  { intros g. destruct s as [|x t]; [auto|]. split; [|reflexivity].
    destruct (IH (g x) t (no_pair_tail _ _ Hs)) as [Ht [Hh|Hh]];
      apply no_pair_cons; try exact Ht; rewrite Hh.
    - destruct t as [|y t]; [exact I|]. exact (no_pair_head _ _ _ Hs).
    - destruct rep as [|y rep]; [exact I|]. inversion Hrep as [|? ? [_ Hy] _]; subst.
      cbn [hd_error]. rewrite Hy. apply andb_false_r. }
  destruct (exec_at r (hd_error before) s) as [[[q s1] c1]|] eqn:E.
  - rewrite Hf. split.
    + apply no_pair_neutral; [exact Hrep|].
      destruct (length s1 <? length s).
      * apply IH. apply exec_at_suffix in E. exact (no_pair_suffix _ _ E Hs).
      * apply (Hstep (fun x => x :: before)).
    + right. destruct rep; [contradiction|reflexivity].
  - destruct (Hstep (fun x => x :: before)) as [H1 H2]. auto.
Qed.

End Pairs.

Lemma template_breaks (rep : jsstring) (matched before after : jsstring)
    (caps : list (option jsstring)) :
  Forall (fun x => x = LF) rep -> template rep matched before after caps = rep.
Proof.
  intros H. unfold template. apply GetSubstitution_plain.
  revert H. apply Forall_impl. intros x ->. reflexivity.
Qed.

(** The collapse of blank lines and the trimming make no pair of code
    units other than line feeds. *)
Lemma collapse_no_pair (P Q : char -> bool) (s : jsstring) :
  P LF = false -> Q LF = false -> no_pair P Q s = true ->
  no_pair P Q (trim (replace_all Patterns.blank_lines (template [LF; LF]) s)) = true.
Proof.
  intros HP HQ Hs. apply no_pair_trim.
  apply replace_from_no_pair with (rep := [LF; LF]).
  - intros matched before after caps. apply template_breaks. repeat constructor.
  - discriminate.
  - repeat constructor; assumption.
  - exact Hs.
Qed.

(** *** The escaped line feed *)

Lemma exec_escaped_newline (prev : option char) (s : jsstring) :
  exec_at Patterns.escaped_newline prev s
  = match s with
    | x :: y :: t =>
        if N.eqb BACKSLASH x && N.eqb (code "n") y then Some (Some y, t, []) else None
    | _ => None
    end.
Proof.
  unfold exec_at, Patterns.escaped_newline. cbn [str]. unfold chr. rewrite m_Seq.
  destruct s as [|x [|y t]]; [reflexivity| |].
  - rewrite m_Char_cons. destruct (N.eqb BACKSLASH x); reflexivity.
  - rewrite !m_Char_cons. destruct (N.eqb BACKSLASH x); [|reflexivity].
    destruct (N.eqb (code "n") y); reflexivity.
Qed.

(** After the replacement of the escaped line feeds none is left. *)
Lemma unescape_from (f : replacer) :
  (forall matched before after caps, f matched before after caps = [LF]) ->
  forall fuel before s, length s < fuel ->
    escape_free (replace_from fuel Patterns.escaped_newline f before s) = true
    /\ (hd_error (replace_from fuel Patterns.escaped_newline f before s) = hd_error s
        \/ hd_error (replace_from fuel Patterns.escaped_newline f before s) = Some LF).
Proof.
  intros Hf. unfold escape_free.
  induction fuel as [|fuel IH]; intros before s Hlen; [lia|].
  cbn [replace_from]. rewrite exec_escaped_newline.
  destruct s as [|x [|y t]].
  - auto.
  - split; [|auto]. destruct fuel; reflexivity.
  - destruct (N.eqb BACKSLASH x && N.eqb (code "n") y) eqn:E.
    + rewrite Hf. cbn [length] in *.
      replace (length t <? S (S (length t))) with true by (symmetry; apply Nat.ltb_lt; lia).
      destruct (IH (rev (firstn (S (S (length t)) - length t) (x :: y :: t)) ++ before) t)
        as [H1 H2]; [lia|].
      split; [|auto]. cbn [app]. apply no_pair_cons; [|exact H1].
      destruct (hd_error _); [|exact I]. reflexivity.
    + destruct (IH (x :: before) (y :: t)) as [H1 H2]; [cbn [length] in *; lia|].
      split; [|auto]. apply no_pair_cons; [|exact H1].
      destruct H2 as [-> | ->]; cbn [hd_error]; [exact E|].
      apply andb_false_r.
Qed.

Lemma unescape_escape_free (s : jsstring) :
  escape_free (replace_all Patterns.escaped_newline (template [LF]) s) = true.
Proof.
  unfold replace_all. apply unescape_from; [|lia].
  intros matched before after caps. apply template_breaks. repeat constructor.
Qed.

(** A text without an escaped line feed is left as it is by their
    replacement. *)
Lemma unescape_settled (f : replacer) (s : jsstring) :
  escape_free s = true -> replace_all Patterns.escaped_newline f s = s.
Proof.
  intros H. apply replace_from_none. intros prev s' Hs'.
  rewrite exec_escaped_newline. destruct s' as [|x [|y t]]; try reflexivity.
  apply (no_pair_suffix _ _ _ _ Hs') in H. apply no_pair_head in H. rewrite H. reflexivity.
Qed.

(** *** Doubled underscores and stars *)

Lemma no_bold_underscores (f : replacer) (s : jsstring) :
  no_pair (N.eqb UNDERSCORE) (N.eqb UNDERSCORE) s = true ->
  replace_all Patterns.bold_underscores f s = s.
Proof.
  intros H. apply replace_from_none. intros prev s' Hs'.
  destruct (exec_at Patterns.bold_underscores prev s') as [res|] eqn:E; [|reflexivity].
  exfalso. unfold exec_at, Patterns.bold_underscores, Patterns.seqs in E.
  revert E. eval_lits. cbn [str]. unfold chr. intros E.
  rewrite !m_Seq in E. apply m_Char_inv in E as (x & s0 & -> & Hx & E).
  apply m_Char_inv in E as (y & s1 & -> & Hy & _).
  apply (no_pair_suffix _ _ _ _ Hs') in H. apply no_pair_head in H.
  unfold UNDERSCORE in H. rewrite Hx, Hy in H. discriminate.
Qed.

(** A replacement that writes every match back leaves the text as it is. *)
Lemma replace_from_self (r : regex) (f : replacer) :
  (forall prev s q s1 c1 before,
     exec_at r prev s = Some (q, s1, c1) ->
     f (firstn (length s - length s1) s) before s1 (capture_list r c1)
     = firstn (length s - length s1) s) ->
  forall fuel before s, replace_from fuel r f before s = s.
Proof.
  intros Hf. induction fuel as [|fuel IH]; intros before s; [reflexivity|].
  cbn [replace_from].
  assert (match s with
          | [] => []
          | x :: t => x :: replace_from fuel r f (x :: before) t
          end = s) as Hstep.
  { destruct s as [|x t]; [reflexivity|]. rewrite IH. reflexivity. }
  destruct (exec_at r (hd_error before) s) as [[[q s1] c1]|] eqn:E; [|exact Hstep].
  rewrite (Hf _ _ _ _ _ _ E). pose proof E as Es. apply exec_at_suffix in Es as [w Es].
  cbn [fst snd] in Es.
  assert (firstn (length s - length s1) s = w) as Ew.
  { rewrite Es, length_app, Nat.add_sub. rewrite firstn_app, Nat.sub_diag, firstn_all.
    cbn [firstn]. apply app_nil_r. }
  rewrite Ew. destruct (length s1 <? length s) eqn:El.
  - rewrite IH. symmetry. exact Es.
  - rewrite Hstep. apply Nat.ltb_ge in El. rewrite Es, length_app in El.
    destruct w as [|x w]; [reflexivity|]. cbn [length] in El. lia.
Qed.

Lemma firstn_matched (w s1 : jsstring) :
  firstn (length (w ++ s1) - length s1) (w ++ s1) = w.
Proof.
  rewrite length_app, Nat.add_sub, firstn_app, Nat.sub_diag, firstn_all.
  cbn [firstn]. apply app_nil_r.
Qed.

(** A match of [\*\*(.*?)\*\*] is written back as it is by ['**$1**']. *)
Lemma bold_stars_self (prev : option char) (s : jsstring) (q : option char) (s1 : jsstring)
    (c1 : captures) (before : jsstring) :
  exec_at Patterns.bold_stars prev s = Some (q, s1, c1) ->
  template (lit "**$1**") (firstn (length s - length s1) s) before s1
    (capture_list Patterns.bold_stars c1)
  = firstn (length s - length s1) s.
Proof.
  intros E. unfold exec_at, Patterns.bold_stars, Patterns.seqs in E.
  revert E. eval_lits. cbn [str]. unfold chr. intros E.
  rewrite !m_Seq in E. apply m_Char_inv in E as (x & s0 & -> & Hx & E).
  apply m_Char_inv in E as (y & s2 & -> & Hy & E).
  rewrite m_Seq, m_Group in E.
  apply (m_only (fun _ => true) _ (only_any _)) in E as (w & s' & p' & c' & -> & _ & E).
  rewrite firstn_matched in E. rewrite m_Seq in E.
  apply m_Char_inv in E as (x' & s3 & -> & Hx' & E).
  apply m_Char_inv in E as (y' & s4 & -> & Hy' & E).
  injection E as _ <- <-.
  apply N.eqb_eq in Hx, Hy, Hx', Hy'. subst x y x' y'.
  match goal with
  | |- context [firstn (length ?l - length s4) ?l] =>
      assert (l = (42%N :: 42%N :: w ++ [42%N; 42%N]) ++ s4) as ->
        by (cbn [app]; rewrite <- app_assoc; reflexivity)
  end.
  rewrite firstn_matched. reflexivity.
Qed.

(** A match of [\*(.*?)\*] is written back as it is by ['*$1*']. *)
Lemma italic_stars_self (prev : option char) (s : jsstring) (q : option char) (s1 : jsstring)
    (c1 : captures) (before : jsstring) :
  exec_at Patterns.italic_stars prev s = Some (q, s1, c1) ->
  template (lit "*$1*") (firstn (length s - length s1) s) before s1
    (capture_list Patterns.italic_stars c1)
  = firstn (length s - length s1) s.
Proof.
  intros E. unfold exec_at, Patterns.italic_stars, Patterns.seqs in E.
  revert E. eval_lits. cbn [str]. unfold chr. intros E.
  rewrite !m_Seq in E. apply m_Char_inv in E as (x & s0 & -> & Hx & E).
  rewrite m_Seq, m_Group in E.
  apply (m_only (fun _ => true) _ (only_any _)) in E as (w & s' & p' & c' & -> & _ & E).
  rewrite firstn_matched in E.
  apply m_Char_inv in E as (x' & s3 & -> & Hx' & E).
  injection E as _ <- <-.
  apply N.eqb_eq in Hx, Hx'. subst x x'.
  match goal with
  | |- context [firstn (length ?l - length s3) ?l] =>
      assert (l = (42%N :: w ++ [42%N]) ++ s3) as ->
        by (cbn [app]; rewrite <- app_assoc; reflexivity)
  end.
  rewrite firstn_matched. reflexivity.
Qed.

(** *** Items at the start of a line *)

Lemma stop_after_app (a z : jsstring) :
  stop_after a = true -> stop_after (a ++ z) = true.
Proof.
  induction a as [|x a IH]; [intros H; discriminate H|]. cbn [app stop_after].
  destruct (is_digit x); auto.
Qed.

Lemma stop_after_digits (ds rest : jsstring) :
  Forall (fun x => is_digit x = true) ds -> stop_after (ds ++ 46%N :: rest) = true.
Proof.
  induction 1 as [|x ds Hx _ IH]; [reflexivity|]. cbn [app stop_after]. rewrite Hx. exact IH.
Qed.

Lemma item_head_app (a z : jsstring) : item_head a = true -> item_head (a ++ z) = true.
Proof.
  destruct a as [|x a]; [intros H; discriminate H|]. cbn [app item_head].
  destruct (item_mark x); [reflexivity|]. cbn [orb].
  destruct (is_digit x); [|discriminate]. cbn [andb]. apply stop_after_app.
Qed.

Lemma item_mark_solid (x : char) : item_mark x = true -> is_space x = false.
Proof.
  unfold item_mark. eval_lits. cbn [app char_in]. intros H.
  repeat match type of H with
         | context [N.eqb ?a ?b] =>
             let E := fresh "E" in
             destruct (N.eqb_spec a b) as [E|_];
               [first [rewrite E | rewrite <- E]; reflexivity|]
         end.
  discriminate H.
Qed.

Lemma item_head_solid (x : char) (t : jsstring) :
  item_head (x :: t) = true -> is_space x = false.
Proof.
  cbn [item_head]. intros H. apply orb_prop in H as [H|H]; [apply item_mark_solid, H|].
  apply andb_prop in H as [H _]. destruct (is_space x) eqn:E; [|reflexivity].
  rewrite (digit_not_space x E) in H. discriminate.
Qed.

Lemma no_item_skip (ws s : jsstring) :
  Forall (fun x => is_space x = true) ws ->
  no_item_from true (ws ++ s) = no_item_from true s.
Proof.
  induction 1 as [|x ws Hx _ IH]; [reflexivity|]. cbn [app no_item_from].
  rewrite Hx. exact IH.
Qed.

Lemma no_item_prefix (a z : jsstring) : forall b,
  no_item_from b (a ++ z) = true -> no_item_from b a = true.
Proof.
  induction a as [|x a IH]; intros b; [reflexivity|]. cbn [app no_item_from].
  destruct (is_space x); [apply IH|]. intros H. apply andb_prop in H as [H1 H2].
  rewrite (IH _ H2), andb_true_r.
  destruct b; [|reflexivity]. cbn [andb] in *.
  destruct (item_head (x :: a)) eqn:E; [|reflexivity].
  apply (item_head_app _ z) in E. cbn [app] in E. rewrite E in H1. discriminate.
Qed.

(** What follows a line terminator starts a line. *)
Lemma no_item_after (pre : jsstring) (z : char) (s : jsstring) : forall b,
  no_item_from b (pre ++ z :: s) = true -> is_line_terminator z = true ->
  no_item_from true s = true.
Proof.
  induction pre as [|x pre IH]; intros b H Hz; cbn [app no_item_from] in H.
  - destruct (is_space z) eqn:E; [|rewrite (space_is_terminator z E) in Hz; discriminate].
    rewrite Hz, orb_true_r in H. exact H.
  - destruct (is_space x); [exact (IH _ H Hz)|].
    apply andb_prop in H. exact (IH _ (proj2 H) Hz).
Qed.

(** An item after white space at the start of a line is seen. *)
Lemma no_item_seen (ws t : jsstring) :
  Forall (fun x => is_space x = true) ws -> item_head t = true ->
  no_item_from true (ws ++ t) = false.
Proof.
  intros Hws Ht. rewrite no_item_skip by exact Hws.
  destruct t as [|x t]; [discriminate|]. cbn [no_item_from].
  rewrite (item_head_solid _ _ Ht), Ht. reflexivity.
Qed.

Lemma item_at_seen (s : jsstring) : no_item_from true s = true -> item_at s -> False.
Proof.
  intros H (ws & t & -> & Hws & Ht). rewrite (no_item_seen ws t Hws Ht) in H. discriminate.
Qed.

Lemma no_item_trim (s : jsstring) : no_item_from true s = true -> no_item_from true (trim s) = true.
Proof.
  intros H. unfold trim. destruct (trimEnd_prefix (trimStart s)) as [z E].
  apply (no_item_prefix _ z). rewrite <- E. clear z E.
  induction s as [|x s IH]; [reflexivity|]. cbn [trimStart].
  destruct (is_space x) eqn:E; [|exact H]. apply IH.
  cbn [no_item_from] in H. rewrite E in H. exact H.
Qed.

(** The first piece of a split text is a prefix of the text. *)
Lemma split_head (sep : char) : forall (s l : jsstring) (ls : list jsstring),
  split sep s = l :: ls -> exists z, s = l ++ z.
Proof.
  induction s as [|c s IH]; intros l ls H; cbn [split] in H.
  - injection H as <- <-. exists []. reflexivity.
  - destruct (N.eqb c sep).
    + injection H as <- _. exists (c :: s). reflexivity.
    + destruct (split sep s) as [|l0 ls0] eqn:E; [injection H as <- _; exists s; reflexivity|].
      injection H as <- _. destruct (IH l0 ls0 eq_refl) as [z ->].
      exists z. reflexivity.
Qed.

Lemma no_item_lines : forall (s : jsstring) (b : bool),
  no_item_from b s = true ->
  no_item_from b (hd [] (split LF s)) = true
  /\ Forall (fun l => no_item_from true l = true) (tl (split LF s)).
Proof.
  induction s as [|c s IH]; intros b H; cbn [split]; [split; [reflexivity|constructor]|].
  cbn [no_item_from] in H.
  destruct (N.eqb_spec c LF) as [->|Hc].
  - cbn [hd tl]. split; [reflexivity|]. rewrite orb_true_r in H.
    change (is_space LF) with true in H. cbv iota in H.
    destruct (IH true H) as [H1 H2]. pose proof (split_nonempty LF s) as Hne.
    destruct (split LF s) as [|l ls]; [contradiction|]. constructor; assumption.
  - pose proof (split_nonempty LF s) as Hne.
    destruct (split LF s) as [|l ls] eqn:E; [contradiction|]. cbn [hd tl].
    destruct (split_head LF s l ls E) as [z Ez].
    destruct (is_space c) eqn:Es.
    + destruct (IH _ H) as [H1 H2]. cbn [hd tl] in *. cbn [no_item_from]. rewrite Es. auto.
    + apply andb_prop in H as [Ha Hb]. destruct (IH _ Hb) as [H1 H2]. cbn [hd tl] in *.
      split; [|exact H2]. cbn [no_item_from]. rewrite Es, H1, andb_true_r.
      destruct b; [|reflexivity]. cbn [andb] in *.
      destruct (item_head (c :: l)) eqn:Ei; [|reflexivity].
      apply (item_head_app _ z) in Ei. cbn [app] in Ei. rewrite <- Ez in Ei.
      rewrite Ei in Ha. discriminate.
Qed.

Lemma no_item_split (s : jsstring) :
  no_item_from true s = true -> Forall (fun l => no_item_from true l = true) (split LF s).
Proof.
  intros H. apply no_item_lines in H as [H1 H2]. pose proof (split_nonempty LF s) as Hne.
  destruct (split LF s) as [|l ls]; [contradiction|]. constructor; assumption.
Qed.

(** *** Where the patterns of the line rules match *)

Lemma char_in_class (P : char -> bool) (cs : list char) (x : char) :
  forallb P cs = true -> char_in cs x = true -> P x = true.
Proof.
  induction cs as [|c cs IH]; cbn [forallb char_in]; intros H Hx; [discriminate|].
  apply andb_prop in H as [Hc H]. apply orb_prop in Hx as [Hx|Hx]; [|auto].
  apply N.eqb_eq in Hx. subst x. exact Hc.
Qed.

Lemma item_at_mark (ws : jsstring) (x : char) (t : jsstring) :
  Forall (fun y => is_space y = true) ws -> item_mark x = true -> item_at (ws ++ x :: t).
Proof.
  intros Hws Hx. exists ws, (x :: t). split; [reflexivity|]. split; [exact Hws|].
  cbn [item_head]. rewrite Hx. reflexivity.
Qed.

Lemma item_at_number (ws : jsstring) (d : char) (ds : jsstring) (x : char) (t : jsstring) :
  Forall (fun y => is_space y = true) ws -> is_digit d = true ->
  Forall (fun y => is_digit y = true) ds -> N.eqb (code ".") x = true ->
  item_at (ws ++ d :: ds ++ x :: t).
Proof.
  intros Hws Hd Hds Hx. exists ws, (d :: ds ++ x :: t). split; [reflexivity|].
  split; [exact Hws|]. cbn [item_head]. rewrite Hd. apply N.eqb_eq in Hx. subst x.
  apply orb_true_iff. right. exact (stop_after_digits ds t Hds).
Qed.

(** A text in which the pattern matches nowhere, given what stands to the
    left of each place, is left as it is. *)
Lemma replace_from_none_at (r : regex) (f : replacer) : forall fuel before s,
  (forall pre s', s = pre ++ s' -> exec_at r (hd_error (rev pre ++ before)) s' = None) ->
  replace_from fuel r f before s = s.
Proof.
  induction fuel as [|fuel IH]; intros before s H; [reflexivity|].
  cbn [replace_from]. pose proof (H [] s eq_refl) as H0. cbn [rev app] in H0. rewrite H0.
  destruct s as [|x t]; [reflexivity|]. f_equal. apply IH.
  intros pre s' ->. specialize (H (x :: pre) s' eq_refl).
  cbn [rev] in H. rewrite <- app_assoc in H. exact H.
Qed.

Lemma line_item_none (r : regex) (f : replacer) (s : jsstring) :
  line_item r -> no_item_from true s = true -> replace_all r f s = s.
Proof.
  intros Hr Hs. apply replace_from_none_at. intros pre s' E.
  destruct (exec_at r (hd_error (rev pre ++ [])) s') as [res|] eqn:Ex; [|reflexivity].
  exfalso. apply Hr in Ex as [Hp Hi]. rewrite app_nil_r in Hp.
  destruct (rev pre) as [|z rp] eqn:Er.
  - apply (f_equal (@rev char)) in Er. rewrite rev_involutive in Er. cbn [rev] in Er.
    subst pre s. exact (item_at_seen _ Hs Hi).
  - apply (f_equal (@rev char)) in Er. rewrite rev_involutive in Er. cbn [rev] in Er.
    subst pre s. rewrite <- app_assoc in Hs. cbn [app] in Hs.
    apply no_item_after in Hs; [|exact Hp]. exact (item_at_seen _ Hs Hi).
Qed.

Lemma next_item_none (r : regex) (f : replacer) (s : jsstring) :
  next_item r -> no_item_from true s = true -> replace_all r f s = s.
Proof.
  intros Hr Hs. apply replace_from_none. intros prev s' [pre E].
  destruct (exec_at r prev s') as [res|] eqn:Ex; [|reflexivity].
  exfalso. apply Hr in Ex as (c & t & -> & Hi). subst s.
  change (pre ++ c :: LF :: t) with (pre ++ [c] ++ LF :: t) in Hs.
  rewrite app_assoc in Hs. apply no_item_after in Hs; [|reflexivity].
  exact (item_at_seen _ Hs Hi).
Qed.

Lemma text_item_none (r : regex) (s : jsstring) :
  text_item r -> no_item_from true s = true -> search_from r None s = None.
Proof.
  intros Hr Hs.
  assert (forall t x, search_from r (Some x) t = None) as Hlater.
  { induction t as [|y t IH]; intros x; cbn [search_from];
      (destruct (exec_at r (Some x) _) as [res|] eqn:Ex;
         [apply Hr in Ex as [Ex _]; discriminate|]); auto. }
  destruct s as [|x t]; cbn [search_from];
    (destruct (exec_at r None _) as [res|] eqn:Ex;
       [exfalso; apply Hr in Ex as [_ Hi]; exact (item_at_seen _ Hs Hi)|]); auto.
Qed.

Lemma plus_digit_inv (k : cont) (prev : option char) (s : jsstring) (c : captures)
    (res : result) :
  m (Plus true digit) k prev s c = Some res ->
  exists d ds s' p' c',
    s = d :: ds ++ s' /\ is_digit d = true /\ Forall (fun x => is_digit x = true) ds
    /\ k p' s' c' = Some res.
Proof.
  unfold Plus, digit. rewrite m_Seq. intros H.
  apply m_Char_inv in H as (d & s0 & -> & Hd & H).
  apply (m_only is_digit (Star true (Char is_digit))) in H
    as (ds & s' & p' & c' & -> & Hds & H); [|exact (fun x Hx => Hx)].
  exists d, ds, s', p', c'. auto.
Qed.

Ltac space_run H w s1 :=
  let p := fresh "p" in
  let c := fresh "c" in
  let Hw := fresh "Hw" in
  apply (m_only is_space (Star true space)) in H as (w & s1 & p & c & -> & Hw & H);
  [|exact (fun x Hx => Hx)].

Ltac item_marked Hx := eapply char_in_class; [|exact Hx]; reflexivity.

Lemma line_item_bullet_glyph : line_item Patterns.bullet_glyph.
Proof.
  intros prev s res H. unfold exec_at, Patterns.bullet_glyph, Patterns.seqs in H.
  rewrite m_Seq, m_Assert in H. cbn [holds] in H.
  destruct (is_terminator_opt prev); [|discriminate]. split; [reflexivity|].
  rewrite m_Seq in H. space_run H w s1.
  rewrite m_Seq in H. unfold one_of in H. apply m_Char_inv in H as (x & s2 & -> & Hx & _).
  apply item_at_mark; [assumption|]. item_marked Hx.
Qed.

Lemma line_item_tight_heading : line_item Patterns.tight_heading.
Proof.
  intros prev s res H. unfold exec_at, Patterns.tight_heading, Patterns.seqs in H.
  rewrite m_Seq, m_Assert in H. cbn [holds] in H.
  destruct (is_terminator_opt prev); [|discriminate]. split; [reflexivity|].
  rewrite m_Seq, m_Group in H. unfold Plus, chr in H. rewrite m_Seq in H.
  apply m_Char_inv in H as (x & s2 & -> & Hx & _).
  apply N.eqb_eq in Hx. subst x. apply (item_at_mark []); [constructor|reflexivity].
Qed.

Lemma text_item_horizontal_rule : text_item Patterns.horizontal_rule.
Proof.
  intros prev s res H. unfold exec_at, Patterns.horizontal_rule, Patterns.seqs in H.
  rewrite m_Seq, m_Assert in H. cbn [holds] in H.
  destruct prev; [discriminate|]. split; [reflexivity|].
  rewrite m_Seq in H. unfold one_of in H. apply m_Char_inv in H as (x & s2 & -> & Hx & _).
  apply (item_at_mark []); [constructor|]. item_marked Hx.
Qed.

Lemma text_item_bullet_line : text_item Patterns.bullet_line.
Proof.
  intros prev s res H. unfold exec_at, Patterns.bullet_line, Patterns.seqs in H.
  rewrite m_Seq, m_Assert in H. cbn [holds] in H.
  destruct prev; [discriminate|]. split; [reflexivity|].
  rewrite m_Seq, m_Group in H. space_run H w s1. cbv beta in H.
  rewrite m_Seq in H. unfold one_of in H. apply m_Char_inv in H as (x & s2 & -> & Hx & _).
  apply item_at_mark; [assumption|]. item_marked Hx.
Qed.

Lemma text_item_numbered_line : text_item Patterns.numbered_line.
Proof.
  intros prev s res H. unfold exec_at, Patterns.numbered_line, Patterns.seqs in H.
  rewrite m_Seq, m_Assert in H. cbn [holds] in H.
  destruct prev; [discriminate|]. split; [reflexivity|].
  rewrite m_Seq, m_Group in H. space_run H w s1. cbv beta in H.
  rewrite m_Seq, m_Group in H.
  apply plus_digit_inv in H as (d & ds & s' & p' & c' & -> & Hd & Hds & H).
  cbv beta in H. rewrite m_Seq in H. unfold chr in H.
  apply m_Char_inv in H as (x & s4 & -> & Hx & _).
  apply item_at_number; assumption.
Qed.

Lemma text_item_heading_line : text_item Patterns.heading_line.
Proof.
  intros prev s res H. unfold exec_at, Patterns.heading_line, Patterns.seqs in H.
  rewrite m_Seq, m_Assert in H. cbn [holds] in H.
  destruct prev; [discriminate|]. split; [reflexivity|].
  rewrite m_Seq, m_Group in H. unfold Plus at 1, chr in H. rewrite m_Seq in H.
  apply m_Char_inv in H as (x & s2 & -> & Hx & _).
  apply N.eqb_eq in Hx. subst x. apply (item_at_mark []); [constructor|reflexivity].
Qed.

Lemma next_item_before_bullet : next_item Patterns.before_bullet.
Proof.
  intros prev s res H. unfold exec_at, Patterns.before_bullet, Patterns.seqs in H.
  rewrite m_Seq, m_Group in H. unfold none_of in H.
  apply m_Char_inv in H as (x0 & s0 & -> & _ & H). cbv beta in H.
  rewrite m_Seq in H. unfold chr in H. apply m_Char_inv in H as (x1 & s1 & -> & Hx1 & H).
  apply N.eqb_eq in Hx1. subst x1. exists x0, s1. split; [reflexivity|].
  rewrite m_Group, m_Seq in H. space_run H w s2.
  rewrite m_Seq in H. unfold one_of in H. apply m_Char_inv in H as (x & s3 & -> & Hx & _).
  apply item_at_mark; [assumption|]. item_marked Hx.
Qed.

Lemma next_item_before_number : next_item Patterns.before_number.
Proof.
  intros prev s res H. unfold exec_at, Patterns.before_number, Patterns.seqs in H.
  rewrite m_Seq, m_Group in H. unfold none_of in H.
  apply m_Char_inv in H as (x0 & s0 & -> & _ & H). cbv beta in H.
  rewrite m_Seq in H. unfold chr at 1 in H. apply m_Char_inv in H as (x1 & s1 & -> & Hx1 & H).
  apply N.eqb_eq in Hx1. subst x1. exists x0, s1. split; [reflexivity|].
  rewrite m_Group, m_Seq in H. space_run H w s2.
  rewrite m_Seq in H.
  apply plus_digit_inv in H as (d & ds & s' & p' & c' & -> & Hd & Hds & H).
  rewrite m_Seq in H. unfold chr in H. apply m_Char_inv in H as (x & s4 & -> & Hx & _).
  apply item_at_number; assumption.
Qed.

(** *** Replacing white space that starts with a line feed *)

Lemma break_led_blank_lines : break_led Patterns.blank_lines.
Proof.
  intros prev s q s1 c1 H. unfold exec_at, Patterns.blank_lines, Patterns.seqs in H.
  rewrite m_Seq in H. unfold chr at 1 in H. apply m_Char_inv in H as (x & s0 & -> & Hx & H).
  apply N.eqb_eq in Hx. subst x.
  apply (m_only is_space) in H as (w & s' & p' & c' & -> & Hw & H).
  - injection H as _ <- _. exists w. auto.
  - assert (forall x, N.eqb LF x = true -> is_space x = true) as Hlf.
    { intros x Hx. apply N.eqb_eq in Hx. subst x. reflexivity. }
    cbn [only]. unfold chr, space. cbn [only]. auto.
Qed.

Section BreakLed.
Variable r : regex.
Variable f : replacer.
Variable rep : jsstring.
Hypothesis led : break_led r.
Hypothesis f_rep : forall matched before after caps, f matched before after caps = LF :: rep.
Hypothesis rep_space : Forall (fun x => is_space x = true) rep.

Lemma replace_from_led (fuel : nat) (before s : jsstring) :
  replace_from (S fuel) r f before s
  = match exec_at r (hd_error before) s with
    | Some (_, s1, _) =>
        LF :: rep ++ replace_from fuel r f (rev (firstn (length s - length s1) s) ++ before) s1
    | None =>
        match s with
        | [] => []
        | x :: t => x :: replace_from fuel r f (x :: before) t
        end
    end.
Proof.
  cbn [replace_from]. destruct (exec_at r (hd_error before) s) as [[[q s1] c1]|] eqn:E;
    [|reflexivity].
  rewrite f_rep. destruct (led _ _ _ _ _ E) as (w & -> & _).
  replace (length s1 <? length (LF :: w ++ s1)) with true; [reflexivity|].
  symmetry. apply Nat.ltb_lt. cbn [length]. rewrite length_app. lia.
Qed.

Lemma stop_after_replace : forall fuel before s,
  stop_after (replace_from fuel r f before s) = stop_after s.
Proof.
  induction fuel as [|fuel IH]; intros before s; [reflexivity|].
  rewrite replace_from_led.
  destruct (exec_at r (hd_error before) s) as [[[q s1] c1]|] eqn:E.
  - destruct (led _ _ _ _ _ E) as (w & -> & _). reflexivity.
  - destruct s as [|x t]; [reflexivity|]. cbn [stop_after]. rewrite IH. reflexivity.
Qed.

(** The lines that begin like an item are the same before and after. *)
Lemma no_item_replace : forall fuel before s b,
  no_item_from b s = true -> no_item_from b (replace_from fuel r f before s) = true.
Proof.
  induction fuel as [|fuel IH]; intros before s b H; [exact H|].
  rewrite replace_from_led.
  destruct (exec_at r (hd_error before) s) as [[[q s1] c1]|] eqn:E.
  - destruct (led _ _ _ _ _ E) as (w & Es & Hw). rewrite Es in H.
    cbn [no_item_from] in *. change (is_space LF) with true in *. cbv iota in *.
    change (is_line_terminator LF) with true in *. rewrite orb_true_r in *.
    rewrite no_item_skip in * by assumption. apply IH. exact H.
  - destruct s as [|x t]; [reflexivity|]. cbn [no_item_from] in *.
    destruct (is_space x); [apply IH, H|].
    apply andb_prop in H as [H1 H2]. rewrite (IH _ _ _ H2), andb_true_r.
    cbn [item_head] in *. rewrite stop_after_replace. exact H1.
Qed.

End BreakLed.

Lemma collapse_no_item (s : jsstring) :
  no_item_from true s = true ->
  no_item_from true (replace_all Patterns.blank_lines (template [LF; LF]) s) = true.
Proof.
  intros H. apply no_item_replace with (rep := [LF]).
  - exact break_led_blank_lines.
  - intros matched before after caps. apply template_breaks. repeat constructor.
  - repeat constructor.
  - exact H.
Qed.

(** *** The repair of a text without items *)

Section ItemlessText.
Variable toLowerCase : jsstring -> jsstring.

Lemma normalize_line_itemless (l : jsstring) :
  no_item_from true l = true -> normalize_line l = l.
Proof.
  intros H. unfold normalize_line, test, match_. cbv zeta.
  rewrite (text_item_none _ _ text_item_horizontal_rule (no_item_trim l H)).
  rewrite (text_item_none _ _ text_item_bullet_line H).
  rewrite (text_item_none _ _ text_item_numbered_line H).
  reflexivity.
Qed.

Lemma normalize_lines_itemless (ls : list jsstring) :
  Forall (fun l => no_item_from true l = true) ls -> map normalize_line ls = ls.
Proof.
  induction 1 as [|l ls Hl _ IH]; [reflexivity|].
  cbn [map]. rewrite IH, (normalize_line_itemless l Hl). reflexivity.
Qed.

Lemma dedupe_itemless (ls : list jsstring) :
  Forall (fun l => no_item_from true l = true) ls ->
  forall last, dedupe_headings toLowerCase last ls = ls.
Proof.
  induction 1 as [|l ls Hl _ IH]; intros last; [reflexivity|].
  cbn [dedupe_headings]. unfold match_.
  rewrite (text_item_none _ _ text_item_heading_line Hl).
  rewrite IH. reflexivity.
Qed.

(** On a text without items the repair replaces the escaped line feeds,
    collapses the runs of blank lines and trims. *)
Lemma repair_itemless_steps (s : jsstring) :
  itemless s = true ->
  preprocessTextResponse toLowerCase s
  = trim (replace_all Patterns.blank_lines (template [LF; LF])
            (replace_all Patterns.escaped_newline (template [LF]) s)).
Proof.
  intros H. unfold itemless in H. apply andb_prop in H as [U N1].
  unfold preprocessTextResponse, blank_before_lists. cbv zeta.
  assert (replace_all Patterns.bold_stars (template (lit "**$1**")) s = s) as ->.
  { apply replace_from_self. exact bold_stars_self. }
  rewrite (no_bold_underscores _ s U).
  assert (replace_all Patterns.italic_stars (template (lit "*$1*")) s = s) as ->.
  { apply replace_from_self. exact italic_stars_self. }
  set (s1 := replace_all Patterns.escaped_newline (template [LF]) s) in *.
  set (s2 := replace_all Patterns.blank_lines (template [LF; LF]) s1).
  pose proof (collapse_no_item s1 N1) as N2. fold s2 in N2.
  rewrite (line_item_none _ _ _ line_item_bullet_glyph N2).
  rewrite (next_item_none _ _ _ next_item_before_bullet N2).
  rewrite (next_item_none _ _ _ next_item_before_number N2).
  rewrite normalize_lines_itemless by (apply no_item_split, N2).
  rewrite join_split.
  rewrite (line_item_none _ _ _ line_item_tight_heading N2).
  rewrite dedupe_itemless by (apply no_item_split, N2).
  rewrite join_split. reflexivity.
Qed.


End ItemlessText.

(** Prose on one or more lines, and with it plain prose, is a text without
    items. *)
Lemma prose_itemless (s : jsstring) : prose s -> itemless s = true.
Proof.
  intros H. unfold itemless.
  rewrite (replace_all_needs mark_char _ _ s mark_escaped_newline H).
  assert (forall x, mark_char x = false -> item_mark x = false /\ is_digit x = false) as Hx.
  { intros x E. unfold mark_char in E. apply orb_false_elim in E as [E1 E2].
    split; [|exact E2]. destruct (item_mark x) eqn:Em; [|reflexivity].
    rewrite <- E1. symmetry.
    exact (char_in_class (char_in ([BACKSLASH; BULLET; EN_DASH] ++ lit "*_-+#"))
             ([BULLET; EN_DASH] ++ lit "-+*_#") x eq_refl Em). }
  apply andb_true_intro. split.
  - induction H as [|x s Hm _ IH]; [reflexivity|].
    apply no_pair_cons; [|exact IH]. destruct (hd_error s); [|exact I].
    destruct (N.eqb_spec UNDERSCORE x) as [<-|_]; [discriminate Hm|reflexivity].
  - assert (forall b, no_item_from b s = true) as Hb; [|apply Hb].
    induction H as [|x s Hm _ IH]; intros b; [reflexivity|].
    cbn [no_item_from item_head]. destruct (Hx x Hm) as [-> ->].
    rewrite !IH. cbn [andb orb]. rewrite andb_false_r. destruct (is_space x); reflexivity.
Qed.


(** Plain sentences on one line and on two are texts without items. *)
Example itemless_sentences :
  itemless (lit "Call 911 now") = true
  /\ itemless (lit "Hello" ++ [LF] ++ lit "world") = true
  /\ itemless (lit "pi is 3.14 - about") = true.
Proof. vm_compute. repeat split. Qed.

(** Each kind of line that the amended claim leaves out breaks the
    idempotence: a line that begins with a hyphen, a plus, a star, a hash, a
    bullet glyph, an en dash, a number and a full stop, or a doubled
    underscore. *)
Example repair_changes_items :
  Forall (fun s =>
            itemless s = false
            /\ preprocessTextResponse ascii_toLowerCase
                 (preprocessTextResponse ascii_toLowerCase s)
               <> preprocessTextResponse ascii_toLowerCase s)
    [lit "x" ++ [LF] ++ lit "-a"; lit "x" ++ [LF] ++ lit "+a";
     lit "x" ++ [LF] ++ lit "*a"; lit "###T";
     lit "x" ++ [LF] ++ BULLET :: lit " a"; lit "x" ++ [LF] ++ EN_DASH :: lit " a";
     lit "x" ++ [LF] ++ lit "1.a"; lit "x" ++ [LF] ++ lit "__a__"].
Proof.
  repeat constructor; try (intros E; vm_compute in E; discriminate E).
Qed.
